(** * The Roc playground bridge: host side of the WASM message protocol

    A shallow embedding of [src/wasm/roc-wasm.ts] (status-code convention),
    of its pointer-return sibling, of the older [getTypeInfo] interface and of
    [parseDiagnostics] from [src/index.ts], with the properties of the
    request/response bridge proved over it.

    Conventions of the embedding.
    - A JavaScript string is represented by its UTF-8 bytes, as a [string];
      [TextEncoder.encode] is then the list of these bytes.
    - Integer-valued JavaScript numbers (pointers, lengths, status codes,
      line and column numbers) are [Z].
    - The foreign module is an oracle: what an export returns is a function
      of the calls made so far, so every deterministic module is covered.
    - [console.log] and [debugLog] output is not modelled. *)

From Stdlib Require Import ZArith NArith List Bool Lia.
From Stdlib.Strings Require Import Ascii String Byte.
From Stdlib Require Import DecimalString.
Import ListNotations.

Local Open Scope string_scope.
Local Open Scope list_scope.
Local Open Scope Z_scope.

#[local] Set Warnings "-register-all".

(** ** JavaScript values as [JSON.parse] produces them *)

(** A number literal is kept exactly, as [m * 10 ^ e]. *)
Inductive jsval : Type :=
| JUndefined
| JNull
| JBool (b : bool)
| JNum (m e : Z)
| JStr (s : string)
| JArr (items : list jsval)
| JObj (fields : list (string * jsval)).

(** The exceptions the bridge can see.  [RuntimeError] is
    [WebAssembly.RuntimeError], a trap of the foreign module. *)
Inductive exn : Type :=
| Error (message : string)
| RuntimeError
| RangeError
| SyntaxError
| TypeError.

Definition is_RuntimeError (e : exn) : bool :=
  match e with RuntimeError => true | _ => false end.

(** ** Text: numbers to text, [TextEncoder], [TextDecoder] *)

(** [`${n}`] for an integer [n]. *)
Definition number_to_string (n : Z) : string :=
  NilZero.string_of_int (Z.to_int n).

Definition TextEncoder_encode (s : string) : list byte :=
  list_byte_of_string s.

Definition byte_val (b : byte) : Z := Z.of_N (Byte.to_N b).

Definition in_range (lo hi : Z) (b : byte) : bool :=
  (lo <=? byte_val b) && (byte_val b <=? hi).

(** U+FFFD, what the decoder writes for a malformed sequence. *)
Definition replacement : list byte := [xef; xbf; xbd]%byte.

(** The lead byte of a sequence: how many continuation bytes follow and
    in which range the first of them must lie. *)
Definition utf8_lead (b : byte) : option (nat * Z * Z) :=
  let v := byte_val b in
  if (0xC2 <=? v) && (v <=? 0xDF) then Some (1%nat, 0x80, 0xBF)
  else if v =? 0xE0 then Some (2%nat, 0xA0, 0xBF)
  else if v =? 0xED then Some (2%nat, 0x80, 0x9F)
  else if (0xE1 <=? v) && (v <=? 0xEF) then Some (2%nat, 0x80, 0xBF)
  else if v =? 0xF0 then Some (3%nat, 0x90, 0xBF)
  else if v =? 0xF4 then Some (3%nat, 0x80, 0x8F)
  else if (0xF1 <=? v) && (v <=? 0xF3) then Some (3%nat, 0x80, 0xBF)
  else None.

(** The decoder of the Encoding standard, writing its output again as
    UTF-8.  [pending] holds the bytes of the sequence being read, [needed]
    the number of continuation bytes still expected, [lo]..[hi] the range
    of the next one.  A byte that ends a sequence early is read again as
    the start of the next one. *)
Fixpoint utf8_decode_from (pending : list byte) (needed : nat) (lo hi : Z)
         (bs : list byte) : list byte :=
  match bs with
  | [] => match needed with O => [] | S _ => replacement end
  | b :: rest =>
      let fresh :=
        if byte_val b <=? 0x7F then b :: utf8_decode_from [] 0 0x80 0xBF rest
        else match utf8_lead b with
             | Some (n, l, h) => utf8_decode_from [b] n l h rest
             | None => replacement ++ utf8_decode_from [] 0 0x80 0xBF rest
             end in
      match needed with
      | O => fresh
      | S n =>
          if in_range lo hi b then
            match n with
            | O => pending ++ b :: utf8_decode_from [] 0 0x80 0xBF rest
            | S _ => utf8_decode_from (pending ++ [b]) n 0x80 0xBF rest
            end
          else replacement ++ fresh
      end
  end.

(** [new TextDecoder().decode(bytes)]: a leading byte order mark is
    dropped, malformed input is replaced, nothing is thrown. *)
Definition TextDecoder_decode (bs : list byte) : string :=
  let body := match bs with
              | xef :: xbb :: xbf :: rest => rest
              | _ => bs
              end%byte in
  string_of_list_byte (utf8_decode_from [] 0 0x80 0xBF body).

(** ** [JSON.stringify] of a request *)

Definition dquote : ascii := "034"%char.
Definition backslash : ascii := "\"%char.

Definition ascii_of_Z (n : Z) : ascii := ascii_of_N (Z.to_N n).
Definition Z_of_ascii (c : ascii) : Z := Z.of_N (N_of_ascii c).

Definition hex_digit (n : Z) : ascii :=
  if n <? 10 then ascii_of_Z (48 + n) else ascii_of_Z (87 + n).

(** QuoteJSONString on one character: the quote, the backslash and the
    control characters are escaped, everything else is copied. *)
Definition quote_char (c : ascii) : string :=
  let n := Z_of_ascii c in
  if n =? 34 then String backslash (String dquote "")
  else if n =? 92 then String backslash (String backslash "")
  else if n =? 8 then "\b"
  else if n =? 12 then "\f"
  else if n =? 10 then "\n"
  else if n =? 13 then "\r"
  else if n =? 9 then "\t"
  else if n <? 32 then
    "\u00" ++ String (hex_digit (n / 16)) (String (hex_digit (n mod 16)) "")
  else String c "".

(** [\uXXXX] for a code unit, in lower case. *)
Definition unicode_escape (u : Z) : string :=
  "\u" ++ String (hex_digit (u / 4096))
            (String (hex_digit ((u / 256) mod 16))
               (String (hex_digit ((u / 16) mod 16))
                  (String (hex_digit (u mod 16)) ""))).

(** The three bytes [a], [b] and [c] are a surrogate.  A text holds a
    pair of surrogates as one character of four bytes, so that a
    surrogate of three bytes stands alone. *)
Definition is_surrogate (a b c : ascii) : bool :=
  (Z_of_ascii a =? 0xED)
  && (0xA0 <=? Z_of_ascii b) && (Z_of_ascii b <=? 0xBF)
  && (0x80 <=? Z_of_ascii c) && (Z_of_ascii c <=? 0xBF).

Definition surrogate_unit (b c : ascii) : Z :=
  0xD000 + (Z_of_ascii b - 0x80) * 64 + (Z_of_ascii c - 0x80).

(** QuoteJSONString: a surrogate that stands alone is written as its
    escape, every other character as [quote_char] has it. *)
Fixpoint quote_chars (s : string) : string :=
  match s with
  | EmptyString => ""
  | String c r =>
      match r with
      | String c2 (String c3 r3) =>
          if is_surrogate c c2 c3
          then unicode_escape (surrogate_unit c2 c3) ++ quote_chars r3
          else quote_char c ++ quote_chars r
      | _ => quote_char c ++ quote_chars r
      end
  end%string.

Definition quote_string (s : string) : string :=
  String dquote (quote_chars s ++ String dquote "")%string.

(** [interface WasmMessage]: the fields of roc-wasm.ts and, from the
    pointer-return version, [filename] and [input]. *)
Record WasmMessage : Type := {
  type : string;
  source : option string;
  filename : option string;
  identifier : option string;
  line : option Z;
  ch : option Z;
  input : option string
}.

Definition member (key : string) (text : option string) : list string :=
  match text with
  | Some t => [quote_string key ++ ":" ++ t]%string
  | None => []
  end.

(** [JSON.stringify(message)]: the members in the order the interface
    and the object literals of [createWasmInterface] list them; an absent
    field is left out. *)
Definition JSON_stringify (m : WasmMessage) : string :=
  let members :=
    member "type" (Some (quote_string (type m)))
    ++ member "source" (option_map quote_string (source m))
    ++ member "filename" (option_map quote_string (filename m))
    ++ member "identifier" (option_map quote_string (identifier m))
    ++ member "line" (option_map number_to_string (line m))
    ++ member "ch" (option_map number_to_string (ch m))
    ++ member "input" (option_map quote_string (input m)) in
  ("{" ++ String.concat "," members ++ "}")%string.

(** ** [JSON.parse] *)

Definition is_ws (c : ascii) : bool :=
  let n := Z_of_ascii c in
  (n =? 32) || (n =? 9) || (n =? 10) || (n =? 13).

Fixpoint skip_ws (s : string) : string :=
  match s with
  | String c r => if is_ws c then skip_ws r else s
  | EmptyString => s
  end.

Definition digit_val (c : ascii) : option Z :=
  let n := Z_of_ascii c in
  if (48 <=? n) && (n <=? 57) then Some (n - 48) else None.

Definition hex_val (c : ascii) : option Z :=
  let n := Z_of_ascii c in
  if (48 <=? n) && (n <=? 57) then Some (n - 48)
  else if (97 <=? n) && (n <=? 102) then Some (n - 87)
  else if (65 <=? n) && (n <=? 70) then Some (n - 55)
  else None.

(** The longest run of digits at the head of [s]: its value on top of
    [acc], how many there were, and the rest. *)
Fixpoint read_digits (acc count : Z) (s : string) : Z * Z * string :=
  match s with
  | String c r =>
      match digit_val c with
      | Some d => read_digits (acc * 10 + d) (count + 1) r
      | None => (acc, count, s)
      end
  | EmptyString => (acc, count, s)
  end.

Definition read_sign (s : string) : Z * string :=
  match s with
  | String c r =>
      if Z_of_ascii c =? 43 then (1, r)
      else if Z_of_ascii c =? 45 then (-1, r)
      else (1, s)
  | EmptyString => (1, s)
  end.

(** A number: an optional minus, an integer part without leading
    zero, an optional fraction, an optional exponent. *)
Definition parse_number (s : string) : option (jsval * string) :=
  let '(sgn, s1) :=
    match s with
    | String c r => if Z_of_ascii c =? 45 then (-1, r) else (1, s)
    | EmptyString => (1, s)
    end in
  match s1 with
  | EmptyString => None
  | String c r =>
      match digit_val c with
      | None => None
      | Some d =>
          let '(ipart, _, s2) :=
            if d =? 0 then (0, 1, r) else read_digits 0 0 s1 in
          let fraction :=
            match s2 with
            | String c2 r2 =>
                if Z_of_ascii c2 =? 46 then
                  let '(m, n, s3) := read_digits ipart 0 r2 in
                  if n =? 0 then None else Some (m, n, s3)
                else Some (ipart, 0, s2)
            | EmptyString => Some (ipart, 0, s2)
            end in
          match fraction with
          | None => None
          | Some (m, n, s3) =>
              let exponent :=
                match s3 with
                | String c3 r3 =>
                    if (Z_of_ascii c3 =? 101) || (Z_of_ascii c3 =? 69) then
                      let '(esgn, r4) := read_sign r3 in
                      let '(x, k, s4) := read_digits 0 0 r4 in
                      if k =? 0 then None else Some (esgn * x, s4)
                    else Some (0, s3)
                | EmptyString => Some (0, s3)
                end in
              match exponent with
              | None => None
              | Some (x, s4) => Some (JNum (sgn * m) (x - n), s4)
              end
          end
      end
  end.

(** What a string literal holds: characters copied from the text and
    the 16-bit units of [\uXXXX] escapes. *)
Inductive str_item : Type :=
| Raw (c : ascii)
| Unit16 (u : Z).

Definition hex4 (a b c d : ascii) : option Z :=
  match hex_val a, hex_val b, hex_val c, hex_val d with
  | Some x, Some y, Some z, Some w => Some (((x * 16 + y) * 16 + z) * 16 + w)
  | _, _, _, _ => None
  end.

Definition escape_char (e : ascii) : option ascii :=
  let n := Z_of_ascii e in
  if n =? 34 then Some dquote
  else if n =? 92 then Some backslash
  else if n =? 47 then Some "/"%char
  else if n =? 98 then Some "008"%char
  else if n =? 102 then Some "012"%char
  else if n =? 110 then Some "010"%char
  else if n =? 114 then Some "013"%char
  else if n =? 116 then Some "009"%char
  else None.

(** The text after an opening quote, up to the closing one. *)
Fixpoint parse_string_items (s : string) : option (list str_item * string) :=
  match s with
  | EmptyString => None
  | String c r =>
      if Z_of_ascii c =? 34 then Some ([], r)
      else if Z_of_ascii c =? 92 then
        match r with
        | EmptyString => None
        | String e r2 =>
            if Z_of_ascii e =? 117 then
              match r2 with
              | String h1 (String h2 (String h3 (String h4 r3))) =>
                  match hex4 h1 h2 h3 h4, parse_string_items r3 with
                  | Some u, Some (items, rest) => Some (Unit16 u :: items, rest)
                  | _, _ => None
                  end
              | _ => None
              end
            else
              match escape_char e, parse_string_items r2 with
              | Some x, Some (items, rest) => Some (Raw x :: items, rest)
              | _, _ => None
              end
        end
      else if Z_of_ascii c <? 32 then None
      else
        match parse_string_items r with
        | Some (items, rest) => Some (Raw c :: items, rest)
        | None => None
        end
  end.

(** A code point in (generalised) UTF-8; a surrogate that stands alone
    keeps its three-byte form. *)
Definition utf8_of_code (cp : Z) : string :=
  if cp <? 0x80 then String (ascii_of_Z cp) ""
  else if cp <? 0x800 then
    String (ascii_of_Z (0xC0 + cp / 64))
      (String (ascii_of_Z (0x80 + cp mod 64)) "")
  else if cp <? 0x10000 then
    String (ascii_of_Z (0xE0 + cp / 4096))
      (String (ascii_of_Z (0x80 + (cp / 64) mod 64))
         (String (ascii_of_Z (0x80 + cp mod 64)) ""))
  else
    String (ascii_of_Z (0xF0 + cp / 262144))
      (String (ascii_of_Z (0x80 + (cp / 4096) mod 64))
         (String (ascii_of_Z (0x80 + (cp / 64) mod 64))
            (String (ascii_of_Z (0x80 + cp mod 64)) ""))).

Definition is_high (u : Z) : bool := (0xD800 <=? u) && (u <=? 0xDBFF).
Definition is_low (u : Z) : bool := (0xDC00 <=? u) && (u <=? 0xDFFF).

Fixpoint items_to_string (l : list str_item) : string :=
  match l with
  | [] => ""
  | Raw c :: r => String c (items_to_string r)
  | Unit16 u :: r =>
      match r with
      | Unit16 v :: r' =>
          if is_high u && is_low v then
            (utf8_of_code (0x10000 + (u - 0xD800) * 1024 + (v - 0xDC00))
             ++ items_to_string r')%string
          else (utf8_of_code u ++ items_to_string r)%string
      | _ => (utf8_of_code u ++ items_to_string r)%string
      end
  end.

Definition starts_with (word s : string) : option string :=
  if String.prefix word s
  then Some (String.substring (String.length word)
               (String.length s - String.length word) s)
  else None.

(** A value, the elements of an array after [[], the members of an
    object after [{].  [fuel] bounds the depth of the calls; twice the
    length of the text is enough, see [JSON_parse]. *)
Fixpoint parse_value (fuel : nat) (s : string) : option (jsval * string) :=
  match fuel with
  | O => None
  | S f =>
      match skip_ws s with
      | EmptyString => None
      | String c r as t =>
          let n := Z_of_ascii c in
          if n =? 123 then
            match skip_ws r with
            | String c' r' =>
                if Z_of_ascii c' =? 125 then Some (JObj [], r')
                else parse_members f r []
            | EmptyString => None
            end
          else if n =? 91 then
            match skip_ws r with
            | String c' r' =>
                if Z_of_ascii c' =? 93 then Some (JArr [], r')
                else parse_elements f r []
            | EmptyString => None
            end
          else if n =? 34 then
            match parse_string_items r with
            | Some (items, rest) => Some (JStr (items_to_string items), rest)
            | None => None
            end
          else if n =? 116 then option_map (pair (JBool true)) (starts_with "true" t)
          else if n =? 102 then option_map (pair (JBool false)) (starts_with "false" t)
          else if n =? 110 then option_map (pair JNull) (starts_with "null" t)
          else parse_number t
      end
  end
with parse_elements (fuel : nat) (s : string) (acc : list jsval)
  : option (jsval * string) :=
  match fuel with
  | O => None
  | S f =>
      match parse_value f s with
      | None => None
      | Some (v, r) =>
          match skip_ws r with
          | String c r' =>
              if Z_of_ascii c =? 44 then parse_elements f r' (v :: acc)
              else if Z_of_ascii c =? 93 then Some (JArr (rev (v :: acc)), r')
              else None
          | EmptyString => None
          end
      end
  end
with parse_members (fuel : nat) (s : string) (acc : list (string * jsval))
  : option (jsval * string) :=
  match fuel with
  | O => None
  | S f =>
      match skip_ws s with
      | EmptyString => None
      | String q r =>
          if Z_of_ascii q =? 34 then
            match parse_string_items r with
            | None => None
            | Some (items, r1) =>
                match skip_ws r1 with
                | EmptyString => None
                | String c r2 =>
                    if Z_of_ascii c =? 58 then
                      match parse_value f r2 with
                      | None => None
                      | Some (v, r3) =>
                          let acc' := (items_to_string items, v) :: acc in
                          match skip_ws r3 with
                          | String d r4 =>
                              if Z_of_ascii d =? 44 then parse_members f r4 acc'
                              else if Z_of_ascii d =? 125
                                   then Some (JObj (rev acc'), r4)
                                   else None
                          | EmptyString => None
                          end
                      end
                    else None
                end
            end
          else None
      end
  end.

(** [JSON.parse(text)]; [None] is the [SyntaxError]. *)
Definition JSON_parse (text : string) : option jsval :=
  match parse_value (2 * String.length text + 2) text with
  | Some (v, r) => match skip_ws r with EmptyString => Some v | _ => None end
  | None => None
  end.

(** ** The foreign module *)

(** What the host does to the module: a call of an export, or a store
    into its linear memory. *)
Inductive wcall : Type :=
| init
| allocateMessageBuffer (len : Z)
| allocateResponseBuffer (size : Z)
| processMessage (messagePtr messageLen responsePtr responseSize : Z)
| freeMessageBuffer
| freeResponseBuffer
| processAndRespond (messagePtr messageLen : Z)
| freeWasmString (ptr : Z)
| getDebugLogBuffer
| clearDebugLog
| memory_set (bytes : list byte) (offset : Z).

(** An export returns an [i32] or traps. *)
Inductive ret : Type :=
| Returns (v : Z)
| Traps.

(** The bytes of [memory.buffer] after the given calls. *)
Definition Memory : Type := list wcall -> list byte.

(** [module.instance.exports].  The required exports are present; the
    two debugging exports and the memory may be missing. *)
Record WasmExports : Type := {
  respond : list wcall -> wcall -> ret;
  memory : option Memory;
  has_getDebugLogBuffer : bool;
  has_clearDebugLog : bool
}.

(** ** The state of the bridge *)

(** How a call of an async function ends: its promise is fulfilled, it is
    rejected, or the body never returns. *)
Inductive completion : Type :=
| Return (response : jsval)
| Throw (error : exn)
| Diverge.

(** [resolve] and [reject] both belong to the promise made by
    [sendMessageQueued]; the entry holds the number of that promise. *)
Record QueuedMessage : Type := {
  message : WasmMessage;
  promise : nat
}.

(** What an observer of the bridge sees, in order: the call cycle of a
    request starts, the promise of a request is settled. *)
Inductive event : Type :=
| Invoked (p : nat)
| Settled (p : nat) (c : completion).

(** The five module-level variables, and around them: the calls made on
    the foreign module so far, the number of promises created, the drain
    loops suspended at their [await] with the settled result they wait
    for (oldest first), the observations, and whether the thread is stuck
    in a loop that never ends. *)
Record Bridge : Type := {
  wasmModule : option WasmExports;
  wasmMemory : option Memory;
  messageQueue : list QueuedMessage;
  messageInProgress : bool;
  wasmIsDead : bool;
  calls : list wcall;
  promises : nat;
  awaiting : list (nat * completion);
  trace : list event;
  hung : bool
}.

Definition initial : Bridge := {|
  wasmModule := None;
  wasmMemory := None;
  messageQueue := [];
  messageInProgress := false;
  wasmIsDead := false;
  calls := [];
  promises := 0;
  awaiting := [];
  trace := [];
  hung := false
|}.

Definition set_module (m : option WasmExports) (mem : option Memory)
           (s : Bridge) : Bridge :=
  {| wasmModule := m; wasmMemory := mem;
     messageQueue := messageQueue s; messageInProgress := messageInProgress s;
     wasmIsDead := wasmIsDead s; calls := calls s; promises := promises s;
     awaiting := awaiting s; trace := trace s; hung := hung s |}.

Definition set_messageQueue (q : list QueuedMessage) (s : Bridge) : Bridge :=
  {| wasmModule := wasmModule s; wasmMemory := wasmMemory s;
     messageQueue := q; messageInProgress := messageInProgress s;
     wasmIsDead := wasmIsDead s; calls := calls s; promises := promises s;
     awaiting := awaiting s; trace := trace s; hung := hung s |}.

Definition set_messageInProgress (b : bool) (s : Bridge) : Bridge :=
  {| wasmModule := wasmModule s; wasmMemory := wasmMemory s;
     messageQueue := messageQueue s; messageInProgress := b;
     wasmIsDead := wasmIsDead s; calls := calls s; promises := promises s;
     awaiting := awaiting s; trace := trace s; hung := hung s |}.

Definition set_wasmIsDead (b : bool) (s : Bridge) : Bridge :=
  {| wasmModule := wasmModule s; wasmMemory := wasmMemory s;
     messageQueue := messageQueue s; messageInProgress := messageInProgress s;
     wasmIsDead := b; calls := calls s; promises := promises s;
     awaiting := awaiting s; trace := trace s; hung := hung s |}.

Definition record_call (c : wcall) (s : Bridge) : Bridge :=
  {| wasmModule := wasmModule s; wasmMemory := wasmMemory s;
     messageQueue := messageQueue s; messageInProgress := messageInProgress s;
     wasmIsDead := wasmIsDead s; calls := calls s ++ [c]; promises := promises s;
     awaiting := awaiting s; trace := trace s; hung := hung s |}.

Definition new_promise (s : Bridge) : Bridge :=
  {| wasmModule := wasmModule s; wasmMemory := wasmMemory s;
     messageQueue := messageQueue s; messageInProgress := messageInProgress s;
     wasmIsDead := wasmIsDead s; calls := calls s; promises := S (promises s);
     awaiting := awaiting s; trace := trace s; hung := hung s |}.

Definition set_awaiting (a : list (nat * completion)) (s : Bridge) : Bridge :=
  {| wasmModule := wasmModule s; wasmMemory := wasmMemory s;
     messageQueue := messageQueue s; messageInProgress := messageInProgress s;
     wasmIsDead := wasmIsDead s; calls := calls s; promises := promises s;
     awaiting := a; trace := trace s; hung := hung s |}.

Definition observe (e : event) (s : Bridge) : Bridge :=
  {| wasmModule := wasmModule s; wasmMemory := wasmMemory s;
     messageQueue := messageQueue s; messageInProgress := messageInProgress s;
     wasmIsDead := wasmIsDead s; calls := calls s; promises := promises s;
     awaiting := awaiting s; trace := trace s ++ [e]; hung := hung s |}.

Definition hang (s : Bridge) : Bridge :=
  {| wasmModule := wasmModule s; wasmMemory := wasmMemory s;
     messageQueue := messageQueue s; messageInProgress := messageInProgress s;
     wasmIsDead := wasmIsDead s; calls := calls s; promises := promises s;
     awaiting := awaiting s; trace := trace s; hung := true |}.

(** [wasmModule.f(...)]: the export answers from the calls so far, and
    the call joins them. *)
Definition call (e : WasmExports) (c : wcall) (s : Bridge) : ret * Bridge :=
  (respond e (calls s) c, record_call c s).

(** ** Reading the linear memory *)

(** [memory[i]] on a [Uint8Array]: [undefined] outside of it. *)
Definition byte_at (mem : list byte) (i : Z) : option byte :=
  if i <? 0 then None else nth_error mem (Z.to_nat i).

Definition is_zero_at (mem : list byte) (i : Z) : bool :=
  match byte_at mem i with
  | Some b => byte_val b =? 0
  | None => false
  end.

(** A relative index of [subarray] and [slice]: from the end when
    negative, clamped to the array. *)
Definition relative_index (len i : Z) : Z :=
  if i <? 0 then Z.max (len + i) 0 else Z.min i len.

(** [memory.subarray(first, last)] and [memory.slice(first, last)]. *)
Definition subarray (mem : list byte) (first last : Z) : list byte :=
  let len := Z.of_nat (List.length mem) in
  let a := relative_index len first in
  let b := relative_index len last in
  firstn (Z.to_nat (b - a)) (skipn (Z.to_nat a) mem).

(** [while (memory[end] !== 0) end++], with at most [fuel] tests of the
    condition; [None] when they are used up. *)
Fixpoint scan (fuel : nat) (mem : list byte) (end_ : Z) : option Z :=
  match fuel with
  | O => None
  | S f => if is_zero_at mem end_ then Some end_ else scan f mem (end_ + 1)
  end.

(** [readNullTerminatedString(ptr)] run for at most [fuel] tests of its
    loop condition; [mem] is [None] when [wasmMemory] is null. *)
Definition readNullTerminatedString_for (fuel : nat)
           (mem : option (list byte)) (ptr : Z) : option string :=
  match mem with
  | None => Some ""
  | Some memory_ =>
      if ptr =? 0 then Some ""
      else match scan fuel memory_ ptr with
           | Some end_ => Some (TextDecoder_decode (subarray memory_ ptr end_))
           | None => None
           end
  end.

(** Past the end of the buffer every element is [undefined], so a scan
    that has not stopped by then never stops: this many tests decide. *)
Definition enough (mem : list byte) (ptr : Z) : nat :=
  S (Z.to_nat (Z.of_nat (List.length mem) - ptr)).

Definition buffer (s : Bridge) : option (list byte) :=
  option_map (fun m : Memory => m (calls s)) (wasmMemory s).

(** [readNullTerminatedString(ptr)]; [None] when it does not return. *)
Definition readNullTerminatedString (s : Bridge) (ptr : Z) : option string :=
  match buffer s with
  | None => Some ""
  | Some memory_ =>
      readNullTerminatedString_for (enough memory_ ptr) (Some memory_) ptr
  end.

(** [view.getUint32(ptr, true)]: [None] is the [RangeError]. *)
Definition getUint32 (mem : list byte) (ptr : Z) : option Z :=
  if (ptr <? 0) || (Z.of_nat (List.length mem) <? ptr + 4) then None
  else match skipn (Z.to_nat ptr) mem with
       | b0 :: b1 :: b2 :: b3 :: _ =>
           Some (byte_val b0 + 256 * byte_val b1 + 65536 * byte_val b2
                 + 16777216 * byte_val b3)
       | _ => None
       end.

(** [new Uint8Array(buffer, offset, length)]: [None] is the [RangeError]. *)
Definition view (mem : list byte) (offset len : Z) : option (list byte) :=
  if (offset <? 0) || (len <? 0) || (Z.of_nat (List.length mem) <? offset + len)
  then None
  else Some (firstn (Z.to_nat len) (skipn (Z.to_nat offset) mem)).

(** [new Uint8Array(memory.buffer).set(bytes, offset)]: the store is
    recorded, or [None] for the [RangeError]. *)
Definition store (bytes : list byte) (offset : Z) (s : Bridge)
  : option Bridge :=
  match buffer s with
  | None => None
  | Some mem =>
      if (offset <? 0)
         || (Z.of_nat (List.length mem) <? offset + Z.of_nat (List.length bytes))
      then None
      else Some (record_call (memory_set bytes offset) s)
  end.

(** ** The debug log, read after a call *)

(** How a statement ends. *)
Inductive effect : Type :=
| Normal
| Raise (error : exn)
| Stuck.

(** [wasmModule?.getDebugLogBuffer ?
      readNullTerminatedString(wasmModule.getDebugLogBuffer()) : ...] *)
Definition read_debug_log (e : WasmExports) (s : Bridge) : effect * Bridge :=
  if has_getDebugLogBuffer e then
    match call e getDebugLogBuffer s with
    | (Traps, s1) => (Raise RuntimeError, s1)
    | (Returns ptr, s1) =>
        match readNullTerminatedString s1 ptr with
        | Some _ => (Normal, s1)
        | None => (Stuck, s1)
        end
    end
  else (Normal, s).

(** The [try]/[catch]/[finally] after a decoded response: a failure to
    read the log is caught, the log is cleared in any case. *)
Definition log_after_success (e : WasmExports) (s : Bridge)
  : effect * Bridge :=
  match read_debug_log e s with
  | (Stuck, s1) => (Stuck, s1)
  | (_, s1) =>
      if has_clearDebugLog e then
        match call e clearDebugLog s1 with
        | (Traps, s2) => (Raise RuntimeError, s2)
        | (Returns _, s2) => (Normal, s2)
        end
      else (Normal, s1)
  end.

(** The [catch (error)] of [sendMessageToWasm]: a trap deactivates the
    module and the log is read, whatever was caught is thrown again. *)
Definition catch_block (e : WasmExports) (error : exn) (s : Bridge)
  : completion * Bridge :=
  if is_RuntimeError error then
    match read_debug_log e (set_wasmIsDead true s) with
    | (Stuck, s1) => (Diverge, s1)
    | (_, s1) => (Throw error, s1)
    end
  else (Throw error, s).

Definition crashed : string :=
  "WASM module has crashed and is in an unrecoverable state. Please reload the page.".

Definition not_available : string := "WASM module or memory not available".

(** ** roc-wasm.ts: the status-code convention *)

Module StatusCode.

Definition responseBufferSize : Z := 256 * 1024.

Definition errorMessages : list string :=
  ["success"; "invalid_json"; "missing_message_type"; "unknown_message_type";
   "invalid_state_for_message"; "response_buffer_too_small"; "internal_error"].

(** [errorMessages[resultCode] || 'Unknown error'] *)
Definition reason (resultCode : Z) : string :=
  if resultCode <? 0 then "Unknown error"
  else nth (Z.to_nat resultCode) errorMessages "Unknown error".

Definition failed_with (resultCode : Z) : string :=
  ("WASM processMessage failed with code " ++ number_to_string resultCode
   ++ ": " ++ reason resultCode)%string.

Definition invalid_length (responseLen : Z) : string :=
  ("WASM returned invalid response length: "
   ++ number_to_string responseLen)%string.

(** Lines 274-284: the length prefix, the bytes after it, the parse. *)
Definition decode_response (mem : list byte) (responsePtr : Z)
  : exn + jsval :=
  match getUint32 mem responsePtr with
  | None => inl RangeError
  | Some responseLen =>
      if (responseLen =? 0) || (responseBufferSize - 4 <? responseLen)
      then inl (Error (invalid_length responseLen))
      else match view mem (responsePtr + 4) responseLen with
           | None => inl RangeError
           | Some responseBytes =>
               match JSON_parse (TextDecoder_decode responseBytes) with
               | Some responseObject => inr responseObject
               | None => inl SyntaxError
               end
           end
  end.

(** The [try] block.  With the completion come [messagePtr] and
    [responsePtr] as the block leaves them ([None] is [null]). *)
Definition try_block (e : WasmExports) (mem : Memory) (m : WasmMessage)
           (s : Bridge) : completion * option Z * option Z * Bridge :=
  let messageBytes := TextEncoder_encode (JSON_stringify m) in
  let len := Z.of_nat (List.length messageBytes) in
  match call e (allocateMessageBuffer len) s with
  | (Traps, s1) => (Throw RuntimeError, None, None, s1)
  | (Returns messagePtr, s1) =>
  if messagePtr =? 0
  then (Throw (Error "Failed to allocate message memory in WASM"),
        Some messagePtr, None, s1)
  else
  match store messageBytes messagePtr s1 with
  | None => (Throw RangeError, Some messagePtr, None, s1)
  | Some s2 =>
  match call e (allocateResponseBuffer responseBufferSize) s2 with
  | (Traps, s3) => (Throw RuntimeError, Some messagePtr, None, s3)
  | (Returns responsePtr, s3) =>
  if responsePtr =? 0
  then (Throw (Error "Failed to allocate response memory in WASM"),
        Some messagePtr, Some responsePtr, s3)
  else
  match call e (processMessage messagePtr len responsePtr responseBufferSize)
             s3 with
  | (Traps, s4) => (Throw RuntimeError, Some messagePtr, Some responsePtr, s4)
  | (Returns resultCode, s4) =>
  if negb (resultCode =? 0)
  then (Throw (Error (failed_with resultCode)),
        Some messagePtr, Some responsePtr, s4)
  else
  match decode_response (mem (calls s4)) responsePtr with
  | inl error => (Throw error, Some messagePtr, Some responsePtr, s4)
  | inr responseObject =>
  match log_after_success e s4 with
  | (Stuck, s5) => (Diverge, Some messagePtr, Some responsePtr, s5)
  | (Raise error, s5) => (Throw error, Some messagePtr, Some responsePtr, s5)
  | (Normal, s5) =>
      (Return responseObject, Some messagePtr, Some responsePtr, s5)
  end end end end end end.

(** The [finally] block: a pointer that is not [null] is released; a
    trap in a release replaces the pending completion. *)
Definition finally_block (e : WasmExports) (messagePtr responsePtr : option Z)
           (pending : completion) (s : Bridge) : completion * Bridge :=
  let released :=
    match messagePtr with
    | Some _ => call e freeMessageBuffer s
    | None => (Returns 0, s)
    end in
  match released with
  | (Traps, s1) => (Throw RuntimeError, s1)
  | (Returns _, s1) =>
      match responsePtr with
      | Some _ =>
          match call e freeResponseBuffer s1 with
          | (Traps, s2) => (Throw RuntimeError, s2)
          | (Returns _, s2) => (pending, s2)
          end
      | None => (pending, s1)
      end
  end.

Definition sendMessageToWasm (m : WasmMessage) (s : Bridge)
  : completion * Bridge :=
  if wasmIsDead s then (Throw (Error crashed), s)
  else
    match wasmModule s, wasmMemory s with
    | Some e, Some mem =>
        let '(tried, messagePtr, responsePtr, s1) := try_block e mem m s in
        match tried with
        | Diverge => (Diverge, s1)
        | Return r => finally_block e messagePtr responsePtr (Return r) s1
        | Throw error =>
            match catch_block e error s1 with
            | (Diverge, s2) => (Diverge, s2)
            | (caught, s2) => finally_block e messagePtr responsePtr caught s2
            end
        end
    | _, _ => (Throw (Error not_available), s)
    end.

End StatusCode.

(** ** The sibling bridge: the pointer-return convention *)

Module PointerReturn.

Definition returned_null : string :=
  "WASM processAndRespond returned null, indicating an internal error".

Definition no_terminator : string :=
  "WASM returned response string without a null terminator".

(** [for (let i = responsePtr; i < byteLength; i++)] with the [break]
    at the first zero: [byteLength - responsePtr] tests at most, and
    [responseLength] stays 0 when none succeeds. *)
Definition response_length (mem : list byte) (responsePtr : Z) : Z :=
  match scan (Z.to_nat (Z.of_nat (List.length mem) - responsePtr))
             mem responsePtr with
  | Some i => i - responsePtr
  | None => 0
  end.

Definition try_block (e : WasmExports) (mem : Memory) (m : WasmMessage)
           (s : Bridge) : completion * option Z * option Z * Bridge :=
  let messageBytes := TextEncoder_encode (JSON_stringify m) in
  let len := Z.of_nat (List.length messageBytes) in
  match call e (allocateMessageBuffer len) s with
  | (Traps, s1) => (Throw RuntimeError, None, None, s1)
  | (Returns messagePtr, s1) =>
  if messagePtr =? 0
  then (Throw (Error "Failed to allocate message memory in WASM"),
        Some messagePtr, None, s1)
  else
  match store messageBytes messagePtr s1 with
  | None => (Throw RangeError, Some messagePtr, None, s1)
  | Some s2 =>
  match call e (processAndRespond messagePtr len) s2 with
  | (Traps, s3) => (Throw RuntimeError, Some messagePtr, None, s3)
  | (Returns responsePtr, s3) =>
  match call e freeMessageBuffer s3 with
  | (Traps, s4) => (Throw RuntimeError, Some messagePtr, Some responsePtr, s4)
  | (Returns _, s4) =>
  if responsePtr =? 0
  then (Throw (Error returned_null), None, Some responsePtr, s4)
  else
  let responseMemory := mem (calls s4) in
  let responseLength := response_length responseMemory responsePtr in
  if responseLength =? 0
  then (Throw (Error no_terminator), None, Some responsePtr, s4)
  else
  let responseBytes :=
    subarray responseMemory responsePtr (responsePtr + responseLength) in
  match JSON_parse (TextDecoder_decode responseBytes) with
  | None => (Throw SyntaxError, None, Some responsePtr, s4)
  | Some responseObject =>
  match call e (freeWasmString responsePtr) s4 with
  | (Traps, s5) => (Throw RuntimeError, None, Some responsePtr, s5)
  | (Returns _, s5) =>
  match log_after_success e s5 with
  | (Stuck, s6) => (Diverge, None, None, s6)
  | (Raise error, s6) => (Throw error, None, None, s6)
  | (Normal, s6) => (Return responseObject, None, None, s6)
  end end end end end end end.

(** The [finally] block: each release sits in its own [try]/[catch],
    so a trap in it is only logged. *)
Definition finally_block (e : WasmExports) (messagePtr responsePtr : option Z)
           (pending : completion) (s : Bridge) : completion * Bridge :=
  let s1 :=
    match messagePtr with
    | Some _ => snd (call e freeMessageBuffer s)
    | None => s
    end in
  let s2 :=
    match responsePtr with
    | Some ptr => snd (call e (freeWasmString ptr) s1)
    | None => s1
    end in
  (pending, s2).

Definition sendMessageToWasm (m : WasmMessage) (s : Bridge)
  : completion * Bridge :=
  if wasmIsDead s then (Throw (Error crashed), s)
  else
    match wasmModule s, wasmMemory s with
    | Some e, Some mem =>
        let '(tried, messagePtr, responsePtr, s1) := try_block e mem m s in
        match tried with
        | Diverge => (Diverge, s1)
        | Return r => finally_block e messagePtr responsePtr (Return r) s1
        | Throw error =>
            match catch_block e error s1 with
            | (Diverge, s2) => (Diverge, s2)
            | (caught, s2) => finally_block e messagePtr responsePtr caught s2
            end
        end
    | _, _ => (Throw (Error not_available), s)
    end.

End PointerReturn.

(** The two bridges behind one name. *)
Inductive convention : Type :=
| status_code
| pointer_return.

Definition sendMessageToWasm (v : convention)
  : WasmMessage -> Bridge -> completion * Bridge :=
  match v with
  | status_code => StatusCode.sendMessageToWasm
  | pointer_return => PointerReturn.sendMessageToWasm
  end.

(** ** The queue in front of the bridge *)

(** [resetWasm] *)
Definition resetWasm (s : Bridge) : Bridge :=
  {| wasmModule := None; wasmMemory := None;
     messageQueue := []; messageInProgress := false; wasmIsDead := false;
     calls := calls s; promises := promises s;
     awaiting := awaiting s; trace := trace s; hung := hung s |}.

(** [initializeWasm], from the instantiation to the call of [init]: the
    two variables are assigned, then the module is initialised.  The
    [INIT] request that follows is an ordinary [sendMessageQueued]. *)
Definition instantiate (e : WasmExports) (s : Bridge) : Bridge :=
  snd (call e init (set_module (Some e) (memory e) s)).

(** [isWasmReady] and [getWasmMemoryUsage] *)
Definition isWasmReady (s : Bridge) : bool :=
  match wasmModule s with Some _ => true | None => false end.

Definition getWasmMemoryUsage (s : Bridge) : Z :=
  match buffer s with Some mem => Z.of_nat (List.length mem) | None => 0 end.

(** The object literal of [getHoverInfo]:
    [{ type: "GET_HOVER_INFO", identifier, line, ch: ch + 1 }] *)
Definition hover_request (identifier_ : string) (line_ ch_ : Z) : WasmMessage :=
  {| type := "GET_HOVER_INFO"; source := None; filename := None;
     identifier := Some identifier_; line := Some line_;
     ch := Some (ch_ + 1); input := None |}.

(** The object literal of [getTypeInfo] in the older bridge:
    [{ type: "GET_TYPE_INFO", identifier, line, ch }] *)
Definition type_request (identifier_ : string) (line_ ch_ : Z) : WasmMessage :=
  {| type := "GET_TYPE_INFO"; source := None; filename := None;
     identifier := Some identifier_; line := Some line_;
     ch := Some ch_; input := None |}.

(** What can happen to the bridge: a caller submits a request, a
    suspended drain loop goes on, the bridge is reset, a module is
    instantiated. *)
Inductive action : Type :=
| Submit (m : WasmMessage)
| Resume
| ResetWasm
| Instantiate (e : WasmExports).

Section Sequencer.

(** The call the drain loop awaits: [sendMessageToWasm] in the two
    bridges above, [sendMessageDirect] in the older one. *)
Variable send : WasmMessage -> Bridge -> completion * Bridge.

(** The drain loop from the test of [while (messageQueue.length > 0)]
    to its next [await], or to its end.  The awaited call has no
    [await] of its own: it has run to its end when the loop is
    suspended, and the loop waits for a promise that is settled. *)
Definition drain (s : Bridge) : Bridge :=
  match messageQueue s with
  | [] => set_messageInProgress false s
  | queuedMessage :: rest =>
      let s1 := observe (Invoked (promise queuedMessage))
                        (set_messageQueue rest s) in
      match send (message queuedMessage) s1 with
      | (Diverge, s2) => hang s2
      | (result, s2) =>
          set_awaiting (awaiting s2 ++ [(promise queuedMessage, result)]) s2
      end
  end.

Definition processMessageQueue (s : Bridge) : Bridge :=
  if messageInProgress s || (Nat.eqb (List.length (messageQueue s)) 0) then s
  else drain (set_messageInProgress true s).

(** [sendMessageQueued(message)]: the number of the promise it returns
    and the state when it returns. *)
Definition sendMessageQueued (m : WasmMessage) (s : Bridge) : nat * Bridge :=
  let p := promises s in
  (p, processMessageQueue
        (set_messageQueue (messageQueue s ++ [{| message := m; promise := p |}])
                          (new_promise s))).

(** The oldest suspended loop goes on: [resolve(result)] or
    [reject(error)], then the loop test again. *)
Definition resume (s : Bridge) : Bridge :=
  match awaiting s with
  | [] => s
  | (p, result) :: rest =>
      drain (observe (Settled p result) (set_awaiting rest s))
  end.

(** [getHoverInfo] of [createWasmInterface], up to its [await]. *)
Definition getHoverInfo (identifier_ : string) (line_ ch_ : Z) (s : Bridge)
  : nat * Bridge :=
  sendMessageQueued (hover_request identifier_ line_ ch_) s.

(** [getTypeInfo] of the older [createWasmInterface], up to its
    [await]. *)
Definition getTypeInfo (identifier_ : string) (line_ ch_ : Z) (s : Bridge)
  : nat * Bridge :=
  sendMessageQueued (type_request identifier_ line_ ch_) s.

(** One job of the event loop.  Nothing happens once the thread is
    stuck. *)
Definition step (a : action) (s : Bridge) : Bridge :=
  if hung s then s
  else match a with
       | Submit m => snd (sendMessageQueued m s)
       | Resume => resume s
       | ResetWasm => resetWasm s
       | Instantiate e => instantiate e s
       end.

Definition run (l : list action) (s : Bridge) : Bridge :=
  fold_left (fun s a => step a s) l s.

End Sequencer.

(** ** The consumer of diagnostics: [parseDiagnostics] of index.ts *)

Record Region : Type := {
  start_line : jsval;
  start_column : jsval;
  end_line : jsval;
  end_column : jsval
}.

Record Diagnostic : Type := {
  severity : jsval;
  diag_message : jsval;
  region : Region
}.

(** The own property [key] of an object; of two members with one name
    [JSON.parse] keeps the later. *)
Fixpoint own (key : string) (fields : list (string * jsval)) : option jsval :=
  match fields with
  | [] => None
  | (k, v) :: rest =>
      match own key rest with
      | Some w => Some w
      | None => if String.eqb k key then Some v else None
      end
  end.

(** [v.key] for the property names the playground reads (none of them
    is a property of a string, a number, a boolean or an array): [None]
    is the [TypeError] of reading a property of [null] or [undefined]. *)
Definition get (v : jsval) (key : string) : option jsval :=
  match v with
  | JUndefined | JNull => None
  | JObj fields =>
      Some (match own key fields with Some w => w | None => JUndefined end)
  | _ => Some JUndefined
  end.

(** The double that the literal [m * 10 ^ e] is read as is 0: [m] is 0,
    or the value is at most [2 ^ -1075], half of the least positive
    double (from there the nearest double, the even one of two, is 0). *)
Definition reads_as_zero (m e : Z) : bool :=
  (m =? 0) || ((e <? 0) && (Z.abs m * 2 ^ 1075 <=? 10 ^ (- e))).

Definition truthy (v : jsval) : bool :=
  match v with
  | JUndefined | JNull => false
  | JBool b => b
  | JNum m e => negb (reads_as_zero m e)
  | JStr s => negb (String.eqb s "")
  | JArr _ | JObj _ => true
  end.

(** [typeof v === "number"] *)
Definition is_number (v : jsval) : bool :=
  match v with JNum _ _ => true | _ => false end.

Definition bind {A B : Type} (x : option A) (f : A -> option B) : option B :=
  match x with Some a => f a | None => None end.

Notation "x <- e ;; k" := (bind e (fun x => k))
  (at level 61, e at next level, right associativity, only parsing).

(** The body of the [for] loop on one element: the diagnostic to push,
    if any. *)
Definition parse_one (diag : jsval) : option (option Diagnostic) :=
  region_ <- get diag "region" ;;
  if truthy region_ then
    sl <- get region_ "start_line" ;;
    if is_number sl then
      sc <- get region_ "start_column" ;;
      if is_number sc then
        el <- get region_ "end_line" ;;
        if is_number el then
          ec <- get region_ "end_column" ;;
          if is_number ec then
            sev <- get diag "severity" ;;
            msg <- get diag "message" ;;
            Some (Some {| severity := sev; diag_message := msg;
                          region := {| start_line := sl; start_column := sc;
                                       end_line := el; end_column := ec |} |})
          else Some None
        else Some None
      else Some None
    else Some None
  else Some None.

(** [for (const diag of result.diagnostics.list)] *)
Fixpoint parse_each (list_ : list jsval) (diagnostics : list Diagnostic)
  : option (list Diagnostic) :=
  match list_ with
  | [] => Some diagnostics
  | diag :: rest =>
      parsed <- parse_one diag ;;
      match parsed with
      | Some parsedDiag => parse_each rest (diagnostics ++ [parsedDiag])
      | None => parse_each rest diagnostics
      end
  end.

(** [parseDiagnostics(result)]; [None] is a [TypeError].  The block
    that logs [debug_counts] only reads properties of a value that is
    truthy, and changes nothing. *)
Definition parseDiagnostics (result : jsval) : option (list Diagnostic) :=
  diagnostics_ <- get result "diagnostics" ;;
  if truthy diagnostics_ then
    list_ <- get diagnostics_ "list" ;;
    match list_ with
    | JArr items => parse_each items []
    | _ => Some []
    end
  else Some [].

(** * Modules and values to run the bridge on *)

Definition request (kind : string) : WasmMessage :=
  {| type := kind; source := None; filename := None; identifier := None;
     line := None; ch := None; input := None |}.

Definition le32 (n : Z) : list byte :=
  map (fun k => match Byte.of_N (Z.to_N ((n / 256 ^ k) mod 256)) with
                | Some b => b
                | None => x00
                end) [0; 1; 2; 3].

Definition zeros (n : nat) : list byte := repeat x00 n.

(** [{"status":"SUCCESS"}] *)
Definition success_text : string :=
  ("{" ++ quote_string "status" ++ ":" ++ quote_string "SUCCESS" ++ "}")%string.

(** A memory of 128 bytes: at 64 a length prefix and the text, zeros
    elsewhere. *)
Definition prefixed (text : string) : Memory :=
  fun _ =>
    let body := le32 (Z.of_nat (String.length text)) ++ TextEncoder_encode text in
    zeros 64 ++ body ++ zeros (64 - List.length body).

(** The same with a declared length of the caller's choice. *)
Definition declared (n : Z) (text : string) : Memory :=
  fun _ =>
    let body := le32 n ++ TextEncoder_encode text in
    zeros 64 ++ body ++ zeros (64 - List.length body).

(** A memory of 128 bytes: ones up to 64, there the text and zeros. *)
Definition terminated (text : string) : Memory :=
  fun _ =>
    let body := TextEncoder_encode text in
    repeat x01 64 ++ body ++ zeros (64 - List.length body).

(** A module that answers every request with [code]: buffers at 8 and
    64, no debug log. *)
Definition answering (code : Z) (mem : Memory) : WasmExports :=
  {| respond := fun _ c =>
       match c with
       | allocateMessageBuffer _ => Returns 8
       | allocateResponseBuffer _ => Returns 64
       | processMessage _ _ _ _ => Returns code
       | processAndRespond _ _ => Returns code
       | _ => Returns 0
       end;
     memory := Some mem;
     has_getDebugLogBuffer := false;
     has_clearDebugLog := false |}.

(** A module whose entry point traps. *)
Definition trapping (mem : Memory) : WasmExports :=
  {| respond := fun _ c =>
       match c with
       | allocateMessageBuffer _ => Returns 8
       | allocateResponseBuffer _ => Returns 64
       | processMessage _ _ _ _ => Traps
       | processAndRespond _ _ => Traps
       | _ => Returns 0
       end;
     memory := Some mem;
     has_getDebugLogBuffer := false;
     has_clearDebugLog := false |}.

(** A module that cannot reserve the request buffer. *)
Definition exhausted (mem : Memory) : WasmExports :=
  {| respond := fun _ c => Returns 0;
     memory := Some mem;
     has_getDebugLogBuffer := false;
     has_clearDebugLog := false |}.

(** A module that cannot reserve the response buffer. *)
Definition half_exhausted (mem : Memory) : WasmExports :=
  {| respond := fun _ c =>
       match c with
       | allocateMessageBuffer _ => Returns 8
       | _ => Returns 0
       end;
     memory := Some mem;
     has_getDebugLogBuffer := false;
     has_clearDebugLog := false |}.

Definition loaded (e : WasmExports) : Bridge := instantiate e initial.

(** A bridge whose module has trapped on the first request. *)
Definition crashed_bridge : Bridge :=
  run (sendMessageToWasm status_code) [Submit (request "INIT"); Resume]
      (loaded (trapping (prefixed success_text))).

(** A bridge with one request in flight and one queued. *)
Definition busy_actions (e : WasmExports) : list action :=
  [Instantiate e; Submit (request "INIT"); Submit (request "RESET")].

Definition busy_bridge (v : convention) (e : WasmExports) : Bridge :=
  run (sendMessageToWasm v) (busy_actions e) initial.

(** A text with every apostrophe turned into a double quote. *)
Fixpoint json (s : string) : string :=
  match s with
  | EmptyString => EmptyString
  | String c r => String (if Z_of_ascii c =? 39 then dquote else c) (json r)
  end.

Definition span (fields : list (string * Z)) : jsval :=
  JObj (map (fun kv => (fst kv, JNum (snd kv) 0)) fields).

(** Two diagnostics: the region of the second has no [end_column]. *)
Definition sample_list : list jsval :=
  [ JObj [("severity", JStr "error"); ("message", JStr "UNUSED VARIABLE");
          ("region", span [("start_line", 3); ("start_column", 1);
                           ("end_line", 3); ("end_column", 9)])];
    JObj [("severity", JStr "warning"); ("message", JStr "SHADOWING");
          ("region", span [("start_line", 5); ("start_column", 2);
                           ("end_line", 5)])] ].

Definition sample_diagnostics : jsval := JObj [("list", JArr sample_list)].

Definition sample_result : jsval :=
  JObj [("status", JStr "SUCCESS"); ("diagnostics", sample_diagnostics)].

(** * The vocabulary of the properties *)

(** [z] is the first index at or after [ptr] that holds a zero byte. *)
Definition first_zero (mem : list byte) (ptr z : Z) : Prop :=
  ptr <= z /\ is_zero_at mem z = true /\
  forall i, ptr <= i < z -> is_zero_at mem i = false.

(** [diag] carries the region [r], whose four fields are numbers. *)
Definition numeric_region (diag : jsval) (r : Region) : Prop :=
  exists region_,
    get diag "region" = Some region_ /\
    get region_ "start_line" = Some (start_line r) /\
    get region_ "start_column" = Some (start_column r) /\
    get region_ "end_line" = Some (end_line r) /\
    get region_ "end_column" = Some (end_column r) /\
    is_number (start_line r) = true /\ is_number (start_column r) = true /\
    is_number (end_line r) = true /\ is_number (end_column r) = true.

(** [out] lists, in order, the elements of the response list that carry
    a numeric region, each with the severity, the message and the region
    of its element; the others are left out. *)
Inductive selected : list jsval -> list Diagnostic -> Prop :=
| selected_nil : selected [] []
| selected_keep diag rest d out :
    numeric_region diag (region d) ->
    get diag "severity" = Some (severity d) ->
    get diag "message" = Some (diag_message d) ->
    selected rest out ->
    selected (diag :: rest) (d :: out)
| selected_drop diag rest out :
    (forall r, ~ numeric_region diag r) ->
    selected rest out ->
    selected (diag :: rest) out.

Definition nullish (v : jsval) : bool :=
  match v with JUndefined | JNull => true | _ => false end.

(** The request as the module receives it. *)
Definition encoded (m : WasmMessage) : list byte :=
  TextEncoder_encode (JSON_stringify m).

Definition encoded_length (m : WasmMessage) : Z :=
  Z.of_nat (List.length (encoded m)).

(** The bridge is alive in [s], with module [e] and memory [mem]. *)
Definition alive (e : WasmExports) (mem : Memory) (s : Bridge) : Prop :=
  wasmIsDead s = false /\ wasmModule s = Some e /\ wasmMemory s = Some mem.

(** In [s] the request buffer is reserved at [messagePtr] and the
    request is stored there, which leads to [s2]. *)
Definition request_stored (e : WasmExports) (m : WasmMessage) (s : Bridge)
           (messagePtr : Z) (s2 : Bridge) : Prop :=
  exists s1,
    call e (allocateMessageBuffer (encoded_length m)) s = (Returns messagePtr, s1)
    /\ messagePtr <> 0
    /\ store (encoded m) messagePtr s1 = Some s2.

(** In [s] both buffers are reserved, at [messagePtr] and [responsePtr],
    and the stored request waits for the entry point in [s3]. *)
Definition reaches_entry (e : WasmExports) (m : WasmMessage) (s : Bridge)
           (messagePtr responsePtr : Z) (s3 : Bridge) : Prop :=
  exists s2,
    request_stored e m s messagePtr s2
    /\ call e (allocateResponseBuffer StatusCode.responseBufferSize) s2
       = (Returns responsePtr, s3)
    /\ responsePtr <> 0.

(** The release exports of [e] never trap. *)
Definition releases_return (e : WasmExports) : Prop :=
  forall h c,
    (c = freeMessageBuffer \/ c = freeResponseBuffer
     \/ exists p, c = freeWasmString p) ->
    respond e h c <> Traps.

(** The call [send m] leaves to [s'] everything of [s] that belongs to
    the queue and to the event loop. *)
Definition same_queue (s s' : Bridge) : Prop :=
  messageQueue s' = messageQueue s /\
  messageInProgress s' = messageInProgress s /\
  promises s' = promises s /\
  awaiting s' = awaiting s /\
  trace s' = trace s /\
  hung s' = hung s.

(** An observation without the result it carries. *)
Inductive tag : Type :=
| TInvoked (p : nat)
| TSettled (p : nat).

Definition tag_of (e : event) : tag :=
  match e with
  | Invoked p => TInvoked p
  | Settled p _ => TSettled p
  end.

Definition request_of (e : event) : nat :=
  match e with
  | Invoked p => p
  | Settled p _ => p
  end.

(** The observations of [k] requests served one after the other. *)
Definition schedule (k : nat) : list tag :=
  flat_map (fun p => [TInvoked p; TSettled p]) (seq 0 k).

(** Every request before [k] has been settled in [l]. *)
Definition settled_below (k : nat) (l : list event) : Prop :=
  forall p, (p < k)%nat -> exists c, In (Settled p c) l.

(** Whenever something is observed of a request, every earlier request
    has been settled before. *)
Definition in_order (l : list event) : Prop :=
  forall before e after,
    l = before ++ e :: after -> settled_below (request_of e) before.

(** A bridge on which nothing has been submitted yet. *)
Definition quiet (s : Bridge) : Prop :=
  messageQueue s = [] /\ messageInProgress s = false /\ promises s = 0%nat
  /\ awaiting s = [] /\ trace s = [] /\ hung s = false.

Definition is_reset (a : action) : bool :=
  match a with ResetWasm => true | _ => false end.

(** Only requests and continuations of the drain loop. *)
Definition is_queue_action (a : action) : bool :=
  match a with Submit _ | Resume => true | _ => false end.

(** The shapes of a bridge that is never reset: no drain loop; one
    drain loop suspended on request [k], the later requests queued in
    order; a thread stuck in the call of request [k]. *)
Inductive orderly (s : Bridge) : Prop :=
| orderly_idle :
    hung s = false -> messageInProgress s = false ->
    awaiting s = [] -> messageQueue s = [] ->
    map tag_of (trace s) = schedule (promises s) ->
    orderly s
| orderly_busy k c :
    hung s = false -> messageInProgress s = true ->
    awaiting s = [(k, c)] ->
    map promise (messageQueue s) = seq (S k) (promises s - S k) ->
    (k < promises s)%nat ->
    map tag_of (trace s) = schedule k ++ [TInvoked k] ->
    orderly s
| orderly_hung k :
    hung s = true -> messageInProgress s = true -> awaiting s = [] ->
    (k < promises s)%nat ->
    map tag_of (trace s) = schedule k ++ [TInvoked k] ->
    orderly s.

(** The observations of [k] requests served in turn, the next one
    possibly begun. *)
Definition serial (l : list event) : Prop :=
  exists k, map tag_of l = schedule k
            \/ map tag_of l = schedule k ++ [TInvoked k].

(** The call cycle of request [p] has begun and its promise is not
    settled. *)
Definition in_flight (l : list event) (p : nat) : Prop :=
  In (Invoked p) l /\ forall c, ~ In (Settled p c) l.

Definition no_reset (acts : list action) : Prop :=
  forallb (fun a => negb (is_reset a)) acts = true.

Definition queue_actions (acts : list action) : Prop :=
  forallb is_queue_action acts = true.

(** Whatever [s] awaits or has settled was awaited or settled in [s0]
    already, or is the rejection of a deactivated module. *)
Definition dead_since (s0 s : Bridge) : Prop :=
  wasmIsDead s = true
  /\ calls s = calls s0
  /\ (forall p c, In (p, c) (awaiting s) ->
                  In (p, c) (awaiting s0) \/ c = Throw (Error crashed))
  /\ (forall p c, In (Settled p c) (trace s) ->
                  In (Settled p c) (trace s0) \/ In (p, c) (awaiting s0)
                  \/ c = Throw (Error crashed)).

(** Something has been observed of request [p]. *)
Definition mentions (l : list event) (p : nat) : Prop :=
  exists e, In e l /\ request_of e = p.

(** The requests [dropped] are known to the bridge no more: they are
    not queued, not awaited, and nothing has been observed of them. *)
Definition forgotten (dropped : list nat) (s : Bridge) : Prop :=
  forall p, In p dropped ->
            (p < promises s)%nat
            /\ ~ In p (map promise (messageQueue s))
            /\ ~ In p (map fst (awaiting s))
            /\ ~ mentions (trace s) p.

(** The numbers of the queued requests are distinct, below the number
    of the next promise, and neither awaited nor observed yet; what is
    awaited or observed was numbered before. *)
Definition tidy (s : Bridge) : Prop :=
  NoDup (map promise (messageQueue s))
  /\ (forall p, In p (map promise (messageQueue s)) ->
                (p < promises s)%nat
                /\ ~ In p (map fst (awaiting s))
                /\ ~ mentions (trace s) p)
  /\ (forall p, In p (map fst (awaiting s)) -> (p < promises s)%nat)
  /\ (forall p, mentions (trace s) p -> (p < promises s)%nat).

Definition reachable (v : convention) (s : Bridge) : Prop :=
  exists acts, s = run (sendMessageToWasm v) acts initial.

Definition is_settled (e : event) : bool :=
  match e with Settled _ _ => true | Invoked _ => false end.

(** How many promises have been settled. *)
Definition settled_count (l : list event) : nat :=
  List.length (filter is_settled l).

(** A trace with the tags of [schedule k]. *)
Fixpoint served (k : nat) : list event :=
  match k with
  | O => []
  | S j => served j ++ [Invoked j; Settled j Diverge]
  end.

Definition is_release (c : wcall) : bool :=
  match c with
  | freeMessageBuffer | freeResponseBuffer | freeWasmString _ => true
  | _ => false
  end.

(** From [s] to [s'] calls were made on the module, none a release. *)
Definition no_release_between (s s' : Bridge) : Prop :=
  exists mid, calls s' = calls s ++ mid
              /\ Forall (fun c => is_release c = false) mid.

(** No export of [e] ever traps. *)
Definition never_traps (e : WasmExports) : Prop :=
  forall h c, respond e h c <> Traps.

(** Wherever [getDebugLogBuffer] points, a zero byte follows inside the
    memory. *)
Definition log_terminated (e : WasmExports) (mem : Memory) : Prop :=
  forall h ptr,
    respond e h getDebugLogBuffer = Returns ptr -> ptr <> 0 ->
    exists z, first_zero (mem (h ++ [getDebugLogBuffer])) ptr z.

(** The two exports that serve the debug log. *)
Definition is_debug (c : wcall) : bool :=
  match c with
  | getDebugLogBuffer | clearDebugLog => true
  | _ => false
  end.

(** The exchange of the status-code bridge for the request [m], with the
    request buffer at [messagePtr] and the response buffer at
    [responsePtr]: reserve, store, reserve, enter. *)
Definition exchange (m : WasmMessage) (messagePtr responsePtr : Z)
  : list wcall :=
  [allocateMessageBuffer (encoded_length m);
   memory_set (encoded m) messagePtr;
   allocateResponseBuffer StatusCode.responseBufferSize;
   processMessage messagePtr (encoded_length m) responsePtr
                  StatusCode.responseBufferSize].

(** From [s] to [s'] the calls [mid] were made on the module. *)
Definition calls_between (s : Bridge) (mid : list wcall) (s' : Bridge) : Prop :=
  calls s' = calls s ++ mid.

(** The call leaves to [s'] the module, its memory and the flag of [s]. *)
Definition same_module (s s' : Bridge) : Prop :=
  wasmIsDead s' = wasmIsDead s /\ wasmModule s' = wasmModule s
  /\ wasmMemory s' = wasmMemory s.

(** From [s] to [s'] calls were made on the module, and nothing else
    changed of the module, its memory and the flag. *)
Definition proceeds (s s' : Bridge) : Prop :=
  same_module s s' /\ exists mid, calls s' = calls s ++ mid.

(** One of the calls made from [s] to [s'] trapped. *)
Definition trapped_between (e : WasmExports) (s s' : Bridge) : Prop :=
  exists before c after,
    calls s' = calls s ++ before ++ c :: after
    /\ respond e (calls s ++ before) c = Traps.

(** The bridge [loaded e] after both buffers were reserved for [m], the
    request stored at [messagePtr]. *)
Definition at_entry (e : WasmExports) (m : WasmMessage) (messagePtr : Z)
  : Bridge :=
  record_call (allocateResponseBuffer StatusCode.responseBufferSize)
    (record_call (memory_set (encoded m) messagePtr)
       (record_call (allocateMessageBuffer (encoded_length m)) (loaded e))).

(** The bridge [loaded e] after the request buffer was reserved for [m]
    and the request stored at [messagePtr]. *)
Definition stored (e : WasmExports) (m : WasmMessage) (messagePtr : Z)
  : Bridge :=
  record_call (memory_set (encoded m) messagePtr)
    (record_call (allocateMessageBuffer (encoded_length m)) (loaded e)).

(** * The editor side: diagnostics as markers, hover queries *)

(** ** The document of the editor *)

(** The document as CodeMirror's [Text] presents it: its lines without
    the line breaks, each a list of UTF-16 code units.  Positions count
    code units, a line break counts one.  A document has at least one
    line. *)
Record Text : Type := {
  first_line : list Z;
  more_lines : list (list Z)
}.

Definition Text_all (doc : Text) : list (list Z) :=
  first_line doc :: more_lines doc.

(** [doc.lines] *)
Definition Text_lines (doc : Text) : Z := Z.of_nat (List.length (Text_all doc)).

(** The length of lines joined by line breaks. *)
Fixpoint joined_length (ls : list (list Z)) : Z :=
  match ls with
  | [] => 0
  | l :: rest =>
      match rest with
      | [] => Z.of_nat (List.length l)
      | _ :: _ => Z.of_nat (List.length l) + 1 + joined_length rest
      end
  end.

(** [doc.length] *)
Definition Text_length (doc : Text) : Z := joined_length (Text_all doc).

(** A [Line]: [line.length] is [to - from]. *)
Record Line : Type := {
  line_from : Z;
  line_to : Z;
  line_number : Z;
  line_text : list Z
}.

Definition line_length (l : Line) : Z := line_to l - line_from l.

Definition make_line (start number : Z) (text : list Z) : Line :=
  {| line_from := start; line_to := start + Z.of_nat (List.length text);
     line_number := number; line_text := text |}.

(** The line numbered [n] among [ls], whose first line is numbered
    [number] and starts at [start]. *)
Fixpoint find_line (ls : list (list Z)) (start number n : Z) : option Line :=
  match ls with
  | [] => None
  | l :: rest =>
      if number =? n then Some (make_line start number l)
      else find_line rest (start + Z.of_nat (List.length l) + 1) (number + 1) n
  end.

(** [doc.line(n)]; [None] is the [RangeError] for a number outside of
    1..[doc.lines]. *)
Definition Text_line (doc : Text) (n : Z) : option Line :=
  find_line (Text_all doc) 0 1 n.

(** The line of [ls] that holds the position [pos]; the end of a line
    belongs to the line. *)
Fixpoint find_line_at (ls : list (list Z)) (start number pos : Z)
  : option Line :=
  match ls with
  | [] => None
  | l :: rest =>
      if pos <=? start + Z.of_nat (List.length l)
      then Some (make_line start number l)
      else find_line_at rest (start + Z.of_nat (List.length l) + 1)
                        (number + 1) pos
  end.

(** [doc.lineAt(pos)]; [None] is the [RangeError] for a position outside
    of 0..[doc.length]. *)
Definition Text_lineAt (doc : Text) (pos : Z) : option Line :=
  if pos <? 0 then None else find_line_at (Text_all doc) 0 1 pos.

(** ** Diagnostics as markers: the linter *)

(** [interface RocDiagnostic], with line and column numbers that are
    integers. *)
Record RocRegion : Type := {
  roc_start_line : Z;
  roc_start_column : Z;
  roc_end_line : Z;
  roc_end_column : Z
}.

Record RocDiagnostic : Type := {
  roc_severity : jsval;
  roc_message : jsval;
  roc_region : RocRegion
}.

(** A diagnostic of [@codemirror/lint]. *)
Record Marker : Type := {
  marker_from : Z;
  marker_to : Z;
  marker_severity : jsval;
  marker_message : jsval
}.

(** [regionToPositions(region, doc)]: [None] is [null], returned after
    the test of the line numbers or from the [catch]. *)
Definition regionToPositions (region_ : RocRegion) (doc : Text)
  : option (Z * Z) :=
  let startLine := Z.max 0 (roc_start_line region_ - 1) in
  let startColumn := Z.max 0 (roc_start_column region_ - 1) in
  let endLine := Z.max 0 (roc_end_line region_ - 1) in
  let endColumn := Z.max 0 (roc_end_column region_ - 1) in
  if (Text_lines doc <=? startLine) || (Text_lines doc <=? endLine) then None
  else
    match Text_line doc (startLine + 1) with
    | None => None
    | Some startLineObj =>
        let from :=
          line_from startLineObj
          + Z.min startColumn (line_length startLineObj) in
        match Text_line doc (endLine + 1) with
        | None => None
        | Some endLineObj =>
            let to :=
              line_from endLineObj
              + Z.min endColumn (line_length endLineObj) in
            Some (from, Z.max from to)
        end
    end.

(** The callback of [createRocLinter] and of [createStatefulRocLinter]
    on the diagnostics it is given: the loop over [rocDiagnostics]. *)
Fixpoint createRocLinter (rocDiagnostics : list RocDiagnostic) (doc : Text)
  : list Marker :=
  match rocDiagnostics with
  | [] => []
  | rocDiag :: rest =>
      match regionToPositions (roc_region rocDiag) doc with
      | None => createRocLinter rest doc
      | Some (from, to) =>
          {| marker_from := from; marker_to := to;
             marker_severity := roc_severity rocDiag;
             marker_message := roc_message rocDiag |}
          :: createRocLinter rest doc
      end
  end.

(** The lines a region starts and ends on, counted from 0 as
    [regionToPositions] computes them, both exist in the document. *)
Definition on_document (doc : Text) (region_ : RocRegion) : bool :=
  (Z.max 0 (roc_start_line region_ - 1) <? Text_lines doc)
  && (Z.max 0 (roc_end_line region_ - 1) <? Text_lines doc).

(** What a marker keeps of its diagnostic. *)
Definition marker_label (mk : Marker) : jsval * jsval :=
  (marker_severity mk, marker_message mk).

Definition roc_label (d : RocDiagnostic) : jsval * jsval :=
  (roc_severity d, roc_message d).

(** The marker lies inside the document. *)
Definition inside (doc : Text) (mk : Marker) : Prop :=
  0 <= marker_from mk <= marker_to mk /\ marker_to mk <= Text_length doc.

(** ** Hover queries: the word under the pointer *)

(** [/[a-zA-Z0-9_]/] and ["!"] on one UTF-16 code unit. *)
Definition is_word_unit (u : Z) : bool :=
  ((97 <=? u) && (u <=? 122)) || ((65 <=? u) && (u <=? 90))
  || ((48 <=? u) && (u <=? 57)) || (u =? 95).

Definition is_bang (u : Z) : bool := u =? 33.

(** [/[a-zA-Z0-9_!]/] *)
Definition is_word_unit_or_bang (u : Z) : bool := is_word_unit u || is_bang u.

(** [class.test(lineText[i] || "")], and [lineText[i] === "!"] for the
    class of the exclamation mark: false outside of the text. *)
Definition test_at (class : Z -> bool) (lineText : list Z) (i : Z) : bool :=
  match (if i <? 0 then None else nth_error lineText (Z.to_nat i)) with
  | Some u => class u
  | None => false
  end.

(** [while (start > 0 && /[a-zA-Z0-9_]/.test(lineText[start - 1] || ""))
      start--], with at most [fuel] turns; [start] turns are all it can
    take. *)
Fixpoint word_start (fuel : nat) (lineText : list Z) (start : Z) : Z :=
  match fuel with
  | O => start
  | S f =>
      if (0 <? start) && test_at is_word_unit lineText (start - 1)
      then word_start f lineText (start - 1)
      else start
  end.

(** [while (end < lineText.length && /[a-zA-Z0-9_]/.test(lineText[end] || ""))
      end++], with at most [fuel] turns; [lineText.length - end] turns
    are all it can take. *)
Fixpoint word_end (fuel : nat) (lineText : list Z) (end_ : Z) : Z :=
  match fuel with
  | O => end_
  | S f =>
      if (end_ <? Z.of_nat (List.length lineText))
         && test_at is_word_unit lineText end_
      then word_end f lineText (end_ + 1)
      else end_
  end.

(** [lineText.slice(first, last)] *)
Definition slice (lineText : list Z) (first last : Z) : list Z :=
  let len := Z.of_nat (List.length lineText) in
  let a := relative_index len first in
  let b := relative_index len last in
  firstn (Z.to_nat (b - a)) (skipn (Z.to_nat a) lineText).

Record WordInfo : Type := {
  word : list Z;
  start : Z;
  end_ : Z;
  lineNumber : Z;
  column : Z
}.

(** [getWordAtPosition(view, pos)]: [None] is the [RangeError] of
    [lineAt], [Some None] is [null]. *)
Definition getWordAtPosition (doc : Text) (pos : Z)
  : option (option WordInfo) :=
  match Text_lineAt doc pos with
  | None => None
  | Some line_ =>
      let lineText := line_text line_ in
      let linePos := pos - line_from line_ in
      if negb (test_at is_word_unit_or_bang lineText linePos) then Some None
      else
        let start0 := word_start (Z.to_nat linePos) lineText linePos in
        let end0 :=
          word_end (Z.to_nat (Z.of_nat (List.length lineText) - linePos))
                   lineText linePos in
        let end1 :=
          if (end0 <? Z.of_nat (List.length lineText))
             && test_at is_bang lineText end0
          then end0 + 1 else end0 in
        if start0 =? end1 then Some None
        else Some (Some {| word := slice lineText start0 end1;
                           start := line_from line_ + start0;
                           end_ := line_from line_ + end1;
                           lineNumber := line_number line_ - 1;
                           column := start0 |})
  end.

(** A JavaScript string, given by its UTF-16 code units, in UTF-8. *)
Definition utf8 (units : list Z) : string :=
  items_to_string (map Unit16 units).

Section Hover.

Variable send : WasmMessage -> Bridge -> completion * Bridge.

(** [getHoverInformation(wasmInterface, identifier, line, column)] up
    to its [await]: the interface is there, and [getHoverInfo] is called
    with the line number counted from 1. *)
Definition getHoverInformation (identifier_ : string) (line_ column_ : Z)
           (s : Bridge) : nat * Bridge :=
  getHoverInfo send identifier_ (line_ + 1) column_ s.

(** The tooltip source made by [createTypeHintTooltip(wasmInterface)],
    called with [pos], up to the [await] of the hover information:
    [None] is the [RangeError] of [lineAt] outside of the [try]; with
    the state comes the promise awaited, or [None] when [null] is
    returned without a request. *)
Definition createTypeHintTooltip (doc : Text) (pos : Z) (s : Bridge)
  : option (option nat * Bridge) :=
  match getWordAtPosition doc pos with
  | None => None
  | Some None => Some (None, s)
  | Some (Some wordInfo) =>
      if Nat.eqb (List.length (word wordInfo)) 0 then Some (None, s)
      else
        match Text_lineAt doc pos with
        | None => Some (None, s)
        | Some line_ =>
            let lineNumber_ := line_number line_ - 1 in
            let column_ := pos - line_from line_ in
            let '(p, s') :=
              getHoverInformation (utf8 (word wordInfo)) lineNumber_ column_ s in
            Some (Some p, s')
        end
  end.

End Hover.

(** ** From a compilation to the markers *)

(** [result.status === "SUCCESS"] *)
Definition is_SUCCESS (status : jsval) : bool :=
  match status with
  | JStr s => String.eqb s "SUCCESS"
  | _ => false
  end.

(** [compileCode], from the result of the compilation to the value of
    [lastDiagnostics]: [None] is a [TypeError], which leaves the [try]
    block. *)
Definition compileCode_diagnostics (result : jsval)
  : option (list Diagnostic) :=
  status <- get result "status" ;;
  if is_SUCCESS status then parseDiagnostics result
  else
    message_ <- get result "message" ;;
    Some [ {| severity := JStr "error";
              diag_message :=
                if truthy message_ then message_
                else JStr "Compilation failed";
              region := {| start_line := JNum 1 0; start_column := JNum 1 0;
                           end_line := JNum 1 0; end_column := JNum 1 0 |} |} ].

(** The integer a number of a response stands for, if it is one. *)
Definition integer (v : jsval) : option Z :=
  match v with
  | JNum m e =>
      if 0 <=? e then Some (m * 10 ^ e)
      else if m mod 10 ^ (- e) =? 0 then Some (m / 10 ^ (- e))
      else None
  | _ => None
  end.

(** A diagnostic as the linter reads it, when the four numbers of its
    region are integers. *)
Definition as_RocDiagnostic (d : Diagnostic) : option RocDiagnostic :=
  sl <- integer (start_line (region d)) ;;
  sc <- integer (start_column (region d)) ;;
  el <- integer (end_line (region d)) ;;
  ec <- integer (end_column (region d)) ;;
  Some {| roc_severity := severity d; roc_message := diag_message d;
          roc_region := {| roc_start_line := sl; roc_start_column := sc;
                           roc_end_line := el; roc_end_column := ec |} |}.

(** * The command history of the REPL *)

(** ** [String.prototype.trim] *)

(** White space and line terminators of three bytes in UTF-8: U+1680,
    U+2000 to U+200A, U+2028, U+2029, U+202F, U+205F, U+3000, U+FEFF. *)
Definition three_byte_space (x y z : Z) : bool :=
  ((x =? 0xE1) && (y =? 0x9A) && (z =? 0x80))
  || ((x =? 0xE2) && (y =? 0x80)
      && (((0x80 <=? z) && (z <=? 0x8A)) || (z =? 0xA8) || (z =? 0xA9)
          || (z =? 0xAF)))
  || ((x =? 0xE2) && (y =? 0x81) && (z =? 0x9F))
  || ((x =? 0xE3) && (y =? 0x80) && (z =? 0x80))
  || ((x =? 0xEF) && (y =? 0xBB) && (z =? 0xBF)).

(** What follows a white space or line terminator at the head of [s]. *)
Definition after_space (s : string) : option string :=
  match s with
  | EmptyString => None
  | String a r =>
      let x := Z_of_ascii a in
      if (x =? 9) || (x =? 10) || (x =? 11) || (x =? 12) || (x =? 13)
         || (x =? 32)
      then Some r
      else
        match r with
        | EmptyString => None
        | String b r2 =>
            if (x =? 0xC2) && (Z_of_ascii b =? 0xA0) then Some r2
            else
              match r2 with
              | EmptyString => None
              | String c r3 =>
                  if three_byte_space x (Z_of_ascii b) (Z_of_ascii c)
                  then Some r3 else None
              end
        end
  end.

Fixpoint drop_spaces (fuel : nat) (s : string) : string :=
  match fuel with
  | O => s
  | S f =>
      match after_space s with
      | Some r => drop_spaces f r
      | None => s
      end
  end.

(** [s.trimStart()]: there are no more white spaces than bytes. *)
Definition trimStart (s : string) : string := drop_spaces (String.length s) s.

(** [s.trimEnd()]: the text up to the first place from which only white
    space follows. *)
Fixpoint trimEnd (s : string) : string :=
  match s with
  | EmptyString => EmptyString
  | String c r =>
      if String.eqb (trimStart s) "" then EmptyString else String c (trimEnd r)
  end.

(** [s.trim()] *)
Definition trim (s : string) : string := trimEnd (trimStart s).

(** ** The pure functions *)

Record HistoryEntry : Type := {
  id : string;
  command : string;
  timestamp : Z
}.

(** [currentIndex] is [None] for [null]: not in the history. *)
Record HistoryState : Type := {
  entries : list HistoryEntry;
  currentIndex : option Z;
  temporaryInput : string
}.

Inductive HistoryResult (T : Type) : Type :=
| success (value : T)
| failure (error : string).

Arguments success {T} value.
Arguments failure {T} error.

(** What the creation of an entry reads from the environment: the clock
    for the [id], the random suffix of the [id], the clock for the
    [timestamp]. *)
Record Entropy : Type := {
  id_now : Z;
  id_suffix : string;
  timestamp_now : Z
}.

Definition createEmptyHistory : HistoryState :=
  {| entries := []; currentIndex := None; temporaryInput := "" |}.

Definition createHistoryEntry (env : Entropy) (command_ : string)
  : HistoryEntry :=
  {| id := (number_to_string (id_now env) ++ "-" ++ id_suffix env)%string;
     command := command_;
     timestamp := timestamp_now env |}.

(** [array[i]], [undefined] outside of the array. *)
Definition at_index {A : Type} (array : list A) (i : Z) : option A :=
  if i <? 0 then None else nth_error array (Z.to_nat i).

(** [array.slice(first)] *)
Definition slice_from {A : Type} (array : list A) (first : Z) : list A :=
  skipn (Z.to_nat (relative_index (Z.of_nat (List.length array)) first)) array.

Definition addToHistory (env : Entropy) (state_ : HistoryState)
           (command_ : string) : HistoryResult HistoryState :=
  if String.eqb command_ "" || String.eqb (trim command_) ""
  then failure "Cannot add empty command to history"
  else
    let added :=
      success {| entries := entries state_
                            ++ [createHistoryEntry env (trim command_)];
                 currentIndex := None;
                 temporaryInput := "" |} in
    match at_index (entries state_)
                   (Z.of_nat (List.length (entries state_)) - 1) with
    | Some lastEntry =>
        if String.eqb (command lastEntry) (trim command_)
        then success {| entries := entries state_;
                        currentIndex := None;
                        temporaryInput := "" |}
        else added
    | None => added
    end.

(** [state.entries[i]?.command ?? ''] *)
Definition command_at (state_ : HistoryState) (i : Z) : string :=
  match at_index (entries state_) i with
  | Some entry => command entry
  | None => ""
  end.

Definition navigateBackward (state_ : HistoryState) (currentInput : string)
  : HistoryResult (HistoryState * string) :=
  if Nat.eqb (List.length (entries state_)) 0
  then failure "No history available"
  else
    let moved (newIndex : Z) (newTemporaryInput : string) :=
      success ({| entries := entries state_;
                  currentIndex := Some newIndex;
                  temporaryInput := newTemporaryInput |},
               command_at state_ newIndex) in
    match currentIndex state_ with
    | None => moved (Z.of_nat (List.length (entries state_)) - 1) currentInput
    | Some index =>
        if 0 <? index then moved (index - 1) (temporaryInput state_)
        else failure "Already at oldest history entry"
    end.

Definition navigateForward (state_ : HistoryState)
  : HistoryResult (HistoryState * string) :=
  match currentIndex state_ with
  | None => failure "Not currently navigating history"
  | Some index =>
      if index <? Z.of_nat (List.length (entries state_)) - 1
      then success ({| entries := entries state_;
                       currentIndex := Some (index + 1);
                       temporaryInput := temporaryInput state_ |},
                    command_at state_ (index + 1))
      else success ({| entries := entries state_;
                       currentIndex := None;
                       temporaryInput := "" |},
                    temporaryInput state_)
  end.

Definition clearHistory (state_ : HistoryState) : HistoryState :=
  {| entries := []; currentIndex := None; temporaryInput := "" |}.

(** An element of the list [getHistoryDisplay] returns. *)
Record Displayed : Type := {
  displayed_index : Z;
  displayed_command : string;
  displayed_timestamp : Z
}.

(** [entries.map((entry, idx) => ...)], [idx] counted from [idx0]. *)
Fixpoint indexed (total shown : Z) (entries_ : list HistoryEntry) (idx0 : Z)
  : list Displayed :=
  match entries_ with
  | [] => []
  | entry :: rest =>
      {| displayed_index := total - shown + idx0 + 1;
         displayed_command := command entry;
         displayed_timestamp := timestamp entry |}
      :: indexed total shown rest (idx0 + 1)
  end.

(** [getHistoryDisplay(state, { maxEntries, reverseOrder })]; the
    default of [maxEntries] is [Number.MAX_SAFE_INTEGER]. *)
Definition getHistoryDisplay (state_ : HistoryState)
           (maxEntries : option Z) (reverseOrder : option bool)
  : list Displayed :=
  let maxEntries_ :=
    match maxEntries with Some n => n | None => 9007199254740991 end in
  let reverseOrder_ :=
    match reverseOrder with Some b => b | None => false end in
  let entries_ := slice_from (entries state_) (- maxEntries_) in
  let indexed_ :=
    indexed (Z.of_nat (List.length (entries state_)))
            (Z.of_nat (List.length entries_)) entries_ 0 in
  if reverseOrder_ then rev indexed_ else indexed_.

(** The callback of the [reduce] in [deduplicateHistory]. *)
Definition keep_if_new (acc : list HistoryEntry) (entry : HistoryEntry)
  : list HistoryEntry :=
  match at_index acc (Z.of_nat (List.length acc) - 1) with
  | Some last_ =>
      if negb (String.eqb (command last_) (command entry))
      then acc ++ [entry] else acc
  | None => acc ++ [entry]
  end.

Definition deduplicateHistory (state_ : HistoryState) : HistoryState :=
  {| entries := fold_left keep_if_new (entries state_) [];
     currentIndex := None;
     temporaryInput := "" |}.

Definition limitHistorySize (state_ : HistoryState) (maxSize_ : Z)
  : HistoryState :=
  if maxSize_ <=? 0 then clearHistory state_
  else if Z.of_nat (List.length (entries state_)) <=? maxSize_ then state_
  else
    let trimmed := slice_from (entries state_) (- maxSize_) in
    let indexAdjustment :=
      Z.of_nat (List.length (entries state_))
      - Z.of_nat (List.length trimmed) in
    {| entries := trimmed;
       currentIndex :=
         match currentIndex state_ with
         | None => None
         | Some index => Some (Z.max 0 (index - indexAdjustment))
         end;
       temporaryInput := temporaryInput state_ |}.

(** ** [class HistoryManager] *)

Module HistoryManager.

Record t : Type := {
  state : HistoryState;
  maxSize : Z;
  deduplicateConsecutive : bool
}.

(** [new HistoryManager({ maxSize, deduplicateConsecutive })]:
    [options.maxSize || 1000] and [options.deduplicateConsecutive ?? true]. *)
Definition new (maxSize_ : option Z) (deduplicateConsecutive_ : option bool)
  : t :=
  {| state := createEmptyHistory;
     maxSize := match maxSize_ with
                | Some n => if n =? 0 then 1000 else n
                | None => 1000
                end;
     deduplicateConsecutive := match deduplicateConsecutive_ with
                               | Some b => b
                               | None => true
                               end |}.

Definition with_state (this : t) (state_ : HistoryState) : t :=
  {| state := state_; maxSize := maxSize this;
     deduplicateConsecutive := deduplicateConsecutive this |}.

Definition add (env : Entropy) (this : t) (command_ : string) : bool * t :=
  match addToHistory env (state this) command_ with
  | success value =>
      let limited :=
        if maxSize this <? Z.of_nat (List.length (entries value))
        then limitHistorySize value (maxSize this) else value in
      let deduplicated :=
        if deduplicateConsecutive this then deduplicateHistory limited
        else limited in
      (true, with_state this deduplicated)
  | failure _ => (false, this)
  end.

(** [None] is [null]. *)
Definition navigateBackward (this : t) (currentInput : string)
  : option string * t :=
  match navigateBackward (state this) currentInput with
  | success (state_, display) => (Some display, with_state this state_)
  | failure _ => (None, this)
  end.

Definition navigateForward (this : t) : option string * t :=
  match navigateForward (state this) with
  | success (state_, display) => (Some display, with_state this state_)
  | failure _ => (None, this)
  end.

Definition clear (this : t) : t := with_state this (clearHistory (state this)).

End HistoryManager.

(** ** The keys of the REPL (index.ts) *)

(** [const historyManager = new HistoryManager({ maxSize: 500,
      deduplicateConsecutive: true })] *)
Definition historyManager : HistoryManager.t :=
  HistoryManager.new (Some 500) (Some true).

(** The history and the text of the input field. *)
Record Repl : Type := {
  history : HistoryManager.t;
  sourceInput : string
}.

(** [navigateHistoryBackward], the UP key *)
Definition navigateHistoryBackward (r : Repl) : Repl :=
  match HistoryManager.navigateBackward (history r) (sourceInput r) with
  | (Some historyCommand, h) => {| history := h; sourceInput := historyCommand |}
  | (None, h) => {| history := h; sourceInput := sourceInput r |}
  end.


(** The cursor of the history is [null] with nothing kept of the input,
    or it points at an entry. *)
Definition cursor_ok (state_ : HistoryState) : Prop :=
  match currentIndex state_ with
  | None => temporaryInput state_ = ""
  | Some index => 0 <= index < Z.of_nat (List.length (entries state_))
  end.

(** No two neighbours of the list are equal. *)
Fixpoint no_repeat (l : list string) : Prop :=
  match l with
  | [] => True
  | a :: rest =>
      match rest with
      | [] => True
      | b :: _ => a <> b /\ no_repeat rest
      end
  end.

Definition commands (state_ : HistoryState) : list string :=
  map command (entries state_).

(** The command [navigateBackward] shows first: that of the last
    entry. *)
Definition last_command (state_ : HistoryState) : string :=
  last (commands state_) "".

(** What the history manager keeps at all times. *)
Definition kept (this : HistoryManager.t) : Prop :=
  cursor_ok (HistoryManager.state this)
  /\ Z.of_nat (List.length (entries (HistoryManager.state this)))
     <= Z.max 0 (HistoryManager.maxSize this)
  /\ Forall (fun c => c <> "") (commands (HistoryManager.state this))
  /\ no_repeat (commands (HistoryManager.state this)).

(** What is done to the history manager. *)
Inductive history_call : Type :=
| Add (env : Entropy) (command_ : string)
| Backward (currentInput : string)
| Forward
| Clear.

Definition history_step (this : HistoryManager.t) (c : history_call)
  : HistoryManager.t :=
  match c with
  | Add env command_ => snd (HistoryManager.add env this command_)
  | Backward currentInput =>
      snd (HistoryManager.navigateBackward this currentInput)
  | Forward => snd (HistoryManager.navigateForward this)
  | Clear => HistoryManager.clear this
  end.

Definition history_run (l : list history_call) (this : HistoryManager.t)
  : HistoryManager.t :=
  fold_left history_step l this.


(** The command of the entry [k] places before the end of the history. *)
Definition recalled (r : Repl) (k : nat) : string :=
  command_at (HistoryManager.state (history r))
             (Z.of_nat (List.length (entries (HistoryManager.state (history r))))
              - Z.of_nat k).

(** A history manager of the playground with three commands. *)
Definition sample_entropy : Entropy :=
  {| id_now := 1700000000000; id_suffix := "k3j9x2m1q"; timestamp_now := 1700000000000 |}.

Definition sample_history : HistoryManager.t :=
  history_run [Add sample_entropy "x = 1"; Add sample_entropy " y = 2 ";
               Add sample_entropy "x + y"] historyManager.

(** * Sharing the source in the URL (index.ts) *)

(** ** [btoa] and [atob] *)

Definition base64_alphabet : string :=
  "ABCDEFGHIJKLMNOPQRSTUVWXYZabcdefghijklmnopqrstuvwxyz0123456789+/".

Definition sextet_char (n : Z) : ascii :=
  match String.get (Z.to_nat n) base64_alphabet with
  | Some c => c
  | None => "="%char
  end.

(** [btoa(String.fromCharCode(...bytes))]: the characters of the
    argument of [btoa] are the bytes, so that [btoa] does not throw. *)
Fixpoint btoa (bytes : list byte) : list ascii :=
  match bytes with
  | [] => []
  | a :: rest =>
      let x := byte_val a in
      match rest with
      | [] =>
          [sextet_char (x / 4); sextet_char ((x mod 4) * 16);
           "="%char; "="%char]
      | b :: rest2 =>
          let y := byte_val b in
          match rest2 with
          | [] =>
              [sextet_char (x / 4); sextet_char ((x mod 4) * 16 + y / 16);
               sextet_char ((y mod 16) * 4); "="%char]
          | c :: rest3 =>
              let z := byte_val c in
              sextet_char (x / 4)
              :: sextet_char ((x mod 4) * 16 + y / 16)
              :: sextet_char ((y mod 16) * 4 + z / 64)
              :: sextet_char (z mod 64)
              :: btoa rest3
          end
      end
  end.

Definition sextet_of (c : ascii) : option Z :=
  let n := Z_of_ascii c in
  if (65 <=? n) && (n <=? 90) then Some (n - 65)
  else if (97 <=? n) && (n <=? 122) then Some (n - 71)
  else if (48 <=? n) && (n <=? 57) then Some (n + 4)
  else if n =? 43 then Some 62
  else if n =? 47 then Some 63
  else None.

(** ASCII whitespace: tab, line feed, form feed, carriage return,
    space. *)
Definition is_ascii_whitespace (c : ascii) : bool :=
  let n := Z_of_ascii c in
  (n =? 9) || (n =? 10) || (n =? 12) || (n =? 13) || (n =? 32).

Definition is_pad (c : ascii) : bool := Z_of_ascii c =? 61.

(** One or two [=] at the end are removed. *)
Definition strip_padding (data : list ascii) : list ascii :=
  match rev data with
  | p :: q :: r =>
      if is_pad p then (if is_pad q then rev r else rev (q :: r)) else data
  | p :: r => if is_pad p then rev r else data
  | [] => data
  end.

Fixpoint sextets (data : list ascii) : option (list Z) :=
  match data with
  | [] => Some []
  | c :: rest =>
      match sextet_of c, sextets rest with
      | Some n, Some l => Some (n :: l)
      | _, _ => None
      end
  end.

Definition byte_of_Z (n : Z) : byte :=
  match Byte.of_N (Z.to_N n) with
  | Some b => b
  | None => x00
  end.

(** The bytes of a run of sextets: of the last two or three, the bits
    that do not fill a byte are dropped. *)
Fixpoint decode_sextets (l : list Z) : list byte :=
  match l with
  | a :: b :: rest =>
      let first := byte_of_Z (a * 4 + b / 16) in
      match rest with
      | [] => [first]
      | c :: rest2 =>
          let second := byte_of_Z ((b mod 16) * 16 + c / 4) in
          match rest2 with
          | [] => [first; second]
          | d :: rest3 =>
              first :: second :: byte_of_Z ((c mod 4) * 64 + d)
              :: decode_sextets rest3
          end
      end
  | _ => []
  end.

(** [atob(base64).split("").map(c => c.charCodeAt(0))], with the
    forgiving decoding of the standard: [None] is the
    [InvalidCharacterError]. *)
Definition atob (base64 : list ascii) : option (list byte) :=
  let data := filter (fun c => negb (is_ascii_whitespace c)) base64 in
  let data :=
    if Nat.eqb (List.length data mod 4) 0 then strip_padding data else data in
  if Nat.eqb (List.length data mod 4) 1 then None
  else option_map decode_sextets (sextets data).

(** ** [compressAndEncode] and [decodeAndDecompress] *)

Definition uint8ToBase64 (uint8Array : list byte) : string :=
  string_of_list_ascii (btoa uint8Array).

Definition base64ToUint8 (base64 : string) : option (list byte) :=
  atob (list_ascii_of_string base64).

Definition compressAndEncode (text : string) : string :=
  uint8ToBase64 (TextEncoder_encode text).

(** [None] is the exception of [atob]. *)
Definition decodeAndDecompress (base64 : string) : option string :=
  option_map TextDecoder_decode (base64ToUint8 base64).

(** [copyShareLink]: the fragment of the link, after [#], for the
    content of the editor; [None] when nothing is copied. *)
Definition copyShareLink (documentContent : string) : option string :=
  let content := trim documentContent in
  if String.eqb content "" then None
  else Some ("content=" ++ compressAndEncode content)%string.

(** [restoreFromHash], up to the content it sets in the editor: [hash]
    is [window.location.hash.slice(1)]; [None] when nothing is set,
    with an empty hash or after the exception of the decoding. *)
Definition restoreFromHash (hash : string) : option string :=
  if String.eqb hash "" then None
  else
    let b64 :=
      match starts_with "content=" hash with
      | Some rest => rest
      | None => hash
      end in
    decodeAndDecompress b64.

(** The bytes are well-formed UTF-8, as the encoding of a JavaScript
    string without lone surrogates is. *)
Fixpoint well_formed (bs : list byte) : bool :=
  match bs with
  | [] => true
  | b :: rest =>
      if byte_val b <=? 0x7F then well_formed rest
      else
        match utf8_lead b, rest with
        | Some (1%nat, lo, hi), b2 :: r2 => in_range lo hi b2 && well_formed r2
        | Some (2%nat, lo, hi), b2 :: b3 :: r3 =>
            in_range lo hi b2 && in_range 0x80 0xBF b3 && well_formed r3
        | Some (3%nat, lo, hi), b2 :: b3 :: b4 :: r4 =>
            in_range lo hi b2 && in_range 0x80 0xBF b3 && in_range 0x80 0xBF b4
            && well_formed r4
        | _, _ => false
        end
  end.

(** The sextets [btoa] writes for the bytes, without the padding. *)
Fixpoint to_sextets (bytes : list byte) : list Z :=
  match bytes with
  | [] => []
  | a :: rest =>
      let x := byte_val a in
      match rest with
      | [] => [x / 4; (x mod 4) * 16]
      | b :: rest2 =>
          let y := byte_val b in
          match rest2 with
          | [] => [x / 4; (x mod 4) * 16 + y / 16; (y mod 16) * 4]
          | c :: rest3 =>
              let z := byte_val c in
              x / 4 :: (x mod 4) * 16 + y / 16 :: (y mod 16) * 4 + z / 64
              :: z mod 64 :: to_sextets rest3
          end
      end
  end.

(** The padding [btoa] writes after [n] bytes. *)
Definition padding (n : nat) : list ascii :=
  match (n mod 3)%nat with
  | 0%nat => []
  | 1%nat => ["="%char; "="%char]
  | _ => ["="%char]
  end.

(** The bytes without a byte order mark at their head. *)
Definition without_mark (bs : list byte) : list byte :=
  match bs with
  | xef :: xbb :: xbf :: rest => rest
  | _ => bs
  end%byte.

(** * The earlier bridge: [allocate] and [deallocate] (part_005) *)

Definition is_continuation (x : Z) : bool := (0x80 <=? x) && (x <=? 0xBF).

(** The lead surrogate of the character of four bytes that starts with
    [a], [b] and [c]. *)
Definition lead_surrogate (a b c : ascii) : string :=
  utf8_of_code (0xD7C0 + (Z_of_ascii a - 0xF0) * 256
                + (Z_of_ascii b - 0x80) * 4 + (Z_of_ascii c - 0x80) / 16).

(** [s.substring(0, n)]: [n] counts UTF-16 code units, one for a
    character of up to three bytes and two for a character of four; the
    continuation bytes go with the byte that leads them, and a character
    of four bytes cut in its middle leaves its lead surrogate. *)
Fixpoint substring_0 (n : Z) (s : string) : string :=
  match s with
  | EmptyString => ""
  | String a r =>
      let x := Z_of_ascii a in
      if is_continuation x then String a (substring_0 n r)
      else if n <=? 0 then ""
      else if x <? 0xF0 then String a (substring_0 (n - 1) r)
      else if n =? 1 then
        match r with
        | String b (String c _) => lead_surrogate a b c
        | _ => ""
        end
      else String a (substring_0 (n - 2) r)
  end.

Module Direct.

(** [interface WasmMessage] of this version. *)
Record WasmMessage : Type := {
  type : string;
  source : option string;
  identifier : option string;
  line : option Z;
  ch : option Z;
  word : option string;
  position : option Z
}.

(** [JSON.stringify(message)], the members in the order of the
    interface and of the object literals of [createWasmInterface]. *)
Definition JSON_stringify (m : WasmMessage) : string :=
  let members :=
    member "type" (Some (quote_string (type m)))
    ++ member "source" (option_map quote_string (source m))
    ++ member "identifier" (option_map quote_string (identifier m))
    ++ member "line" (option_map number_to_string (line m))
    ++ member "ch" (option_map number_to_string (ch m))
    ++ member "word" (option_map quote_string (word m))
    ++ member "position" (option_map number_to_string (position m)) in
  ("{" ++ String.concat "," members ++ "}")%string.

(** What the host does to the module of this version. *)
Inductive wcall : Type :=
| init
| allocate (size : Z)
| deallocate (ptr size : Z)
| processMessage (messagePtr messageLen responsePtr responseBufferSize : Z)
| memory_set (bytes : list byte) (offset : Z).

Definition Memory : Type := list wcall -> list byte.

(** The exports [initializeWasm] requires are present. *)
Record WasmExports : Type := {
  respond : list wcall -> wcall -> ret;
  memory : option Memory
}.

(** The module-level variables the direct call reads, and the calls
    made on the foreign module so far. *)
Record Bridge : Type := {
  wasmModule : option WasmExports;
  wasmMemory : option Memory;
  calls : list wcall
}.

Definition record_call (c : wcall) (s : Bridge) : Bridge :=
  {| wasmModule := wasmModule s; wasmMemory := wasmMemory s;
     calls := calls s ++ [c] |}.

Definition call (e : WasmExports) (c : wcall) (s : Bridge) : ret * Bridge :=
  (respond e (calls s) c, record_call c s).

(** [new Uint8Array(wasmMemory.buffer).set(bytes, offset)]; [None] is
    the [RangeError]. *)
Definition store (mem : Memory) (bytes : list byte) (offset : Z) (s : Bridge)
  : option Bridge :=
  if (offset <? 0)
     || (Z.of_nat (List.length (mem (calls s)))
         <? offset + Z.of_nat (List.length bytes))
  then None
  else Some (record_call (memory_set bytes offset) s).

Definition responseBufferSize : Z := 64 * 1024.

Definition not_loaded : string := "WASM module not loaded".
Definition no_message_memory : string := "Failed to allocate message memory".
Definition no_memory : string := "WASM memory not available".
Definition no_response_memory : string := "Failed to allocate response memory".
Definition empty_response : string := "WASM returned empty response".
Definition empty_response_string : string :=
  "WASM returned empty response string".

Definition invalid_json (responseStr : string) : string :=
  ("Invalid JSON response from WASM: " ++ substring_0 100 responseStr
   ++ "...")%string.

(** What becomes of the bytes of the response. *)
Definition read_response (responseBytes : list byte) : completion :=
  let responseStr := TextDecoder_decode responseBytes in
  if String.eqb (trim responseStr) ""
  then Throw (Error empty_response_string)
  else match JSON_parse responseStr with
       | Some parsedResponse => Return parsedResponse
       | None => Throw (Error (invalid_json responseStr))
       end.

(** The [try] block.  With the completion come [messagePtr] and
    [responsePtr] as the block leaves them ([None] is [null]). *)
Definition try_block (e : WasmExports) (m : WasmMessage) (s : Bridge)
  : completion * option Z * option Z * Bridge :=
  let messageBytes := TextEncoder_encode (JSON_stringify m) in
  let len := Z.of_nat (List.length messageBytes) in
  match call e (allocate len) s with
  | (Traps, s1) => (Throw RuntimeError, None, None, s1)
  | (Returns messagePtr, s1) =>
  if messagePtr =? 0
  then (Throw (Error no_message_memory), Some messagePtr, None, s1)
  else
  match wasmMemory s1 with
  | None => (Throw (Error no_memory), Some messagePtr, None, s1)
  | Some mem =>
  match store mem messageBytes messagePtr s1 with
  | None => (Throw RangeError, Some messagePtr, None, s1)
  | Some s2 =>
  match call e (allocate responseBufferSize) s2 with
  | (Traps, s3) => (Throw RuntimeError, Some messagePtr, None, s3)
  | (Returns responsePtr, s3) =>
  if responsePtr =? 0
  then (Throw (Error no_response_memory),
        Some messagePtr, Some responsePtr, s3)
  else
  match call e (processMessage messagePtr len responsePtr responseBufferSize)
             s3 with
  | (Traps, s4) => (Throw RuntimeError, Some messagePtr, Some responsePtr, s4)
  | (Returns responseLen, s4) =>
  if responseLen =? 0
  then (Throw (Error empty_response), Some messagePtr, Some responsePtr, s4)
  else
  match view (mem (calls s4)) responsePtr responseLen with
  | None => (Throw RangeError, Some messagePtr, Some responsePtr, s4)
  | Some responseBytes =>
      (read_response responseBytes, Some messagePtr, Some responsePtr, s4)
  end end end end end end.

(** [if (ptr && ...)]: neither [null] nor 0. *)
Definition is_set (ptr : option Z) : bool :=
  match ptr with
  | Some p => negb (p =? 0)
  | None => false
  end.

Definition pointer (ptr : option Z) : Z :=
  match ptr with
  | Some p => p
  | None => 0
  end.

(** The [finally] block: a pointer that is set is handed to
    [deallocate] with the size it was reserved with; a trap there
    replaces the pending completion and ends the block. *)
Definition finally_block (e : WasmExports) (messagePtr responsePtr : option Z)
           (len : Z) (pending : completion) (s : Bridge)
  : completion * Bridge :=
  let released :=
    if is_set messagePtr then call e (deallocate (pointer messagePtr) len) s
    else (Returns 0, s) in
  match released with
  | (Traps, s1) => (Throw RuntimeError, s1)
  | (Returns _, s1) =>
      if is_set responsePtr then
        match call e (deallocate (pointer responsePtr) responseBufferSize)
                   s1 with
        | (Traps, s2) => (Throw RuntimeError, s2)
        | (Returns _, s2) => (pending, s2)
        end
      else (pending, s1)
  end.

(** [sendMessageDirect(message)]: the [catch] throws again what it
    caught. *)
Definition sendMessageDirect (m : WasmMessage) (s : Bridge)
  : completion * Bridge :=
  match wasmModule s with
  | None => (Throw (Error not_loaded), s)
  | Some e =>
      let len :=
        Z.of_nat (List.length (TextEncoder_encode (JSON_stringify m))) in
      let '(tried, messagePtr, responsePtr, s1) := try_block e m s in
      finally_block e messagePtr responsePtr len tried s1
  end.

(** The buffers the calls of [log] have reserved when made after those
    of [before]: the pointer, if it is not 0, and the size. *)
Fixpoint reserved (e : WasmExports) (before log : list wcall)
  : list (Z * Z) :=
  match log with
  | [] => []
  | c :: rest =>
      let later := reserved e (before ++ [c]) rest in
      match c, respond e before c with
      | allocate size, Returns ptr =>
          if ptr =? 0 then later else (ptr, size) :: later
      | _, _ => later
      end
  end.

(** The buffers the calls of [log] have released. *)
Fixpoint released (log : list wcall) : list (Z * Z) :=
  match log with
  | [] => []
  | deallocate ptr size :: rest => (ptr, size) :: released rest
  | _ :: rest => released rest
  end.

Definition release (buffer : Z * Z) : wcall :=
  deallocate (fst buffer) (snd buffer).

(** A module whose every export returns: [allocate] gives 8 for the
    request and 64 for the response, [processMessage] gives [len]. *)
Definition answering (len : Z) (mem : Memory) : WasmExports :=
  {| respond := fun _ c =>
       match c with
       | allocate size => if size =? responseBufferSize then Returns 64
                          else Returns 8
       | processMessage _ _ _ _ => Returns len
       | _ => Returns 0
       end;
     memory := Some mem |}.

Definition loaded (e : WasmExports) : Bridge :=
  {| wasmModule := Some e; wasmMemory := memory e; calls := [] |}.

Definition encoded (m : WasmMessage) : list byte :=
  TextEncoder_encode (JSON_stringify m).

(** The calls of a request up to the entry point, with the request at
    [messagePtr] and the buffer of the response at [responsePtr]. *)
Definition request (m : WasmMessage) (messagePtr responsePtr : Z)
  : list wcall :=
  let len := Z.of_nat (List.length (encoded m)) in
  [allocate len; memory_set (encoded m) messagePtr;
   allocate responseBufferSize;
   processMessage messagePtr len responsePtr responseBufferSize].

(** The buffers held when the [try] block is left with these
    pointers. *)
Definition held (messagePtr responsePtr : option Z) (len : Z)
  : list (Z * Z) :=
  (if is_set messagePtr then [(pointer messagePtr, len)] else [])
  ++ (if is_set responsePtr
      then [(pointer responsePtr, responseBufferSize)] else []).

(** [deallocate] never traps. *)
Definition releases_return (e : WasmExports) : Prop :=
  forall before ptr size, respond e before (deallocate ptr size) <> Traps.

Definition init_message : WasmMessage :=
  {| type := "INIT"; source := None; identifier := None; line := None;
     ch := None; word := None; position := None |}.

(** A memory that holds the text of an empty object at 64. *)
Definition sample_memory : Memory :=
  fun _ => repeat x00 64 ++ TextEncoder_encode "{}".

End Direct.

(** A module that answers every request with [code] and traps when the
    request buffer is released. *)
Definition release_trapping (code : Z) (mem : Memory) : WasmExports :=
  {| respond := fun _ c =>
       match c with
       | allocateMessageBuffer _ => Returns 8
       | allocateResponseBuffer _ => Returns 64
       | processMessage _ _ _ _ => Returns code
       | processAndRespond _ _ => Returns code
       | freeMessageBuffer => Traps
       | _ => Returns 0
       end;
     memory := Some mem;
     has_getDebugLogBuffer := false;
     has_clearDebugLog := false |}.

(** A diagnostic with a numeric region. *)
Definition valid_diagnostic : jsval :=
  JObj [("severity", JStr "error"); ("message", JStr "UNUSED VARIABLE");
        ("region", JObj [("start_line", JNum 3 0); ("start_column", JNum 1 0);
                         ("end_line", JNum 3 0); ("end_column", JNum 9 0)])].

(** A memory of 128 bytes: at 64 a length prefix and the bytes, zeros
    elsewhere. *)
Definition prefixed_bytes (bytes : list byte) : Memory :=
  fun _ =>
    let body := le32 (Z.of_nat (List.length bytes)) ++ bytes in
    zeros 64 ++ body ++ zeros (64 - List.length body).

(** What an export has returned; 0 stands for a trap. *)
Definition returned (r : ret) : Z :=
  match r with Returns v => v | Traps => 0 end.

(** The pointers the module gives to a call of the status-code bridge
    made in [s]: the request buffer, and the response buffer once the
    request is stored. *)
Definition first_pointer (e : WasmExports) (m : WasmMessage) (s : Bridge) : Z :=
  returned (respond e (calls s) (allocateMessageBuffer (encoded_length m))).

Definition second_pointer (e : WasmExports) (m : WasmMessage) (s : Bridge) : Z :=
  returned (respond e (calls s ++ [allocateMessageBuffer (encoded_length m);
                                   memory_set (encoded m) (first_pointer e m s)])
                    (allocateResponseBuffer StatusCode.responseBufferSize)).

(** The bridge with the module, the memory, the flag and the calls of
    [t] and everything else of [q]. *)
Definition rebase (t q : Bridge) : Bridge :=
  {| wasmModule := wasmModule t; wasmMemory := wasmMemory t;
     messageQueue := messageQueue q; messageInProgress := messageInProgress q;
     wasmIsDead := wasmIsDead t; calls := calls t; promises := promises q;
     awaiting := awaiting q; trace := trace q; hung := hung q |}.

(** A result with its state put on [q]. *)
Definition rebased {A : Type} (q : Bridge) (x : A * Bridge) : A * Bridge :=
  (fst x, rebase (snd x) q).

(** * Serving the requests one by one *)

(** The settlement a suspended loop is about to make. *)
Definition settlement (w : nat * completion) : event :=
  Settled (fst w) (snd w).

(** The messages submitted in the course of [acts], in order. *)
Definition submitted (acts : list action) : list WasmMessage :=
  flat_map (fun a => match a with Submit m => [m] | _ => [] end) acts.

(** The two bridges have the same module, memory, flag and calls. *)
Definition same_core (s t : Bridge) : Prop :=
  wasmModule s = wasmModule t /\ wasmMemory s = wasmMemory t
  /\ wasmIsDead s = wasmIsDead t /\ calls s = calls t.

Section Serving.

Variable send : WasmMessage -> Bridge -> completion * Bridge.

(** Request [fst pm] with the message [snd pm] served on [t] without a
    queue: invoked, and settled with what the call gives. *)
Definition serve (t : Bridge) (pm : nat * WasmMessage) : Bridge :=
  if hung t then t
  else match send (snd pm) (observe (Invoked (fst pm)) t) with
       | (Diverge, t1) => hang t1
       | (c, t1) => observe (Settled (fst pm) c) t1
       end.

(** The requests [ms], numbered from [p], each served on the state the
    one before has left. *)
Fixpoint serve_from (p : nat) (ms : list WasmMessage) (s : Bridge) : Bridge :=
  match ms with
  | [] => s
  | m :: rest => serve_from (S p) rest (serve s (p, m))
  end.

Definition served_one_by_one (ms : list WasmMessage) (s : Bridge) : Bridge :=
  serve_from 0 ms s.

(** The bridge [s] has made the calls and holds the observations of
    the first [j] of the requests [ms] served one by one from [s0], the
    last settlement possibly still with its suspended loop. *)
Definition agrees (s0 : Bridge) (ms : list WasmMessage) (j : nat) (s : Bridge)
  : Prop :=
  let t := served_one_by_one (firstn j ms) s0 in
  trace s ++ map settlement (awaiting s) = trace t
  /\ same_core s t
  /\ hung s = hung t.

(** The shapes of a bridge that serves the requests [ms] submitted
    since [s0]: no drain loop and all served; one loop suspended on
    request [j], the later ones queued in order; a thread stuck in a
    call. *)
Inductive delivered (s0 : Bridge) (ms : list WasmMessage) (s : Bridge) : Prop :=
| delivered_idle :
    hung s = false -> messageInProgress s = false ->
    awaiting s = [] -> messageQueue s = [] ->
    promises s = List.length ms ->
    agrees s0 ms (List.length ms) s ->
    delivered s0 ms s
| delivered_busy j c :
    hung s = false -> messageInProgress s = true ->
    awaiting s = [(j, c)] -> (j < List.length ms)%nat ->
    promises s = List.length ms ->
    map message (messageQueue s) = skipn (S j) ms ->
    map promise (messageQueue s) = seq (S j) (List.length ms - S j) ->
    agrees s0 ms (S j) s ->
    delivered s0 ms s
| delivered_hung j :
    hung s = true -> (j <= List.length ms)%nat ->
    agrees s0 ms j s ->
    delivered s0 ms s.

End Serving.

(** * Properties *)

(** ** Scanning for the terminator *)

Lemma is_zero_at_inside mem i :
  is_zero_at mem i = true -> 0 <= i < Z.of_nat (List.length mem).
Proof.
  unfold is_zero_at, byte_at.
  destruct (i <? 0) eqn:Hneg; [discriminate|].
  apply Z.ltb_ge in Hneg.
  destruct (nth_error mem (Z.to_nat i)) eqn:Hnth; [|discriminate].
  intros _. split; [assumption|].
  assert (Z.to_nat i < List.length mem)%nat
    by (apply nth_error_Some; congruence).
  lia.
Qed.

Lemma scan_finds mem z fuel :
  forall ptr, first_zero mem ptr z -> (Z.to_nat (z - ptr) < fuel)%nat ->
              scan fuel mem ptr = Some z.
Proof.
  induction fuel as [|fuel IH]; intros ptr (Hle & Hz & Hbefore) Hfuel; [lia|].
  simpl. destruct (Z.eq_dec ptr z) as [->|Hne].
  - now rewrite Hz.
  - rewrite (Hbefore ptr) by lia.
    apply IH; [|lia].
    split; [lia|]. split; [assumption|].
    intros i Hi. apply Hbefore. lia.
Qed.

Lemma scan_sound mem fuel :
  forall ptr z, scan fuel mem ptr = Some z -> first_zero mem ptr z.
Proof.
  induction fuel as [|fuel IH]; intros ptr z; simpl; [discriminate|].
  destruct (is_zero_at mem ptr) eqn:Hz.
  - intros [= <-]. split; [lia|]. split; [assumption|]. intros i Hi. lia.
  - intros Hscan. destruct (IH _ _ Hscan) as (Hle & Hzero & Hbefore).
    split; [lia|]. split; [assumption|].
    intros i Hi. destruct (Z.eq_dec i ptr) as [->|Hne]; [assumption|].
    apply Hbefore. lia.
Qed.

Lemma scan_never mem fuel :
  forall ptr, (forall i, ptr <= i -> is_zero_at mem i = false) ->
              scan fuel mem ptr = None.
Proof.
  induction fuel as [|fuel IH]; intros ptr Hnone; simpl; [reflexivity|].
  rewrite (Hnone ptr) by lia. apply IH. intros i Hi. apply Hnone. lia.
Qed.

(** Without a zero byte the scan goes on; with one, [enough] tests
    reach it. *)
Lemma scan_enough mem ptr :
  scan (enough mem ptr) mem ptr = None ->
  forall i, ptr <= i -> is_zero_at mem i = false.
Proof.
  intros Hscan.
  assert (Hno : forall z, ~ first_zero mem ptr z).
  { intros z Hz. pose proof Hz as (Hle & Hzero & _).
    apply is_zero_at_inside in Hzero.
    rewrite (scan_finds mem z (enough mem ptr) ptr Hz) in Hscan; [discriminate|].
    unfold enough. lia. }
  intros i Hi.
  remember (Z.to_nat (i - ptr)) as d eqn:Hd.
  revert i Hi Hd.
  induction d as [d IH] using lt_wf_ind. intros i Hi Hd.
  destruct (is_zero_at mem i) eqn:Hz; [|reflexivity].
  exfalso. apply (Hno i). split; [assumption|]. split; [assumption|].
  intros j Hj. apply (IH (Z.to_nat (j - ptr))); lia.
Qed.

Lemma subarray_forward mem ptr z :
  0 <= ptr <= z -> z < Z.of_nat (List.length mem) ->
  subarray mem ptr z = firstn (Z.to_nat (z - ptr)) (skipn (Z.to_nat ptr) mem).
Proof.
  intros Hp Hz. unfold subarray, relative_index.
  destruct (ptr <? 0) eqn:H1; [apply Z.ltb_lt in H1; lia|].
  destruct (z <? 0) eqn:H2; [apply Z.ltb_lt in H2; lia|].
  now rewrite !Z.min_l by lia.
Qed.

(** C10.  [readNullTerminatedString] returns the empty string when the
    memory is not available or the pointer is zero.  Otherwise it returns
    exactly when a zero byte lies at or after the pointer inside the
    buffer: then, given enough steps, the result is the decoded bytes
    from the pointer up to the first such byte; without one the loop
    returns for no number of steps. *)
Theorem readNullTerminatedString_terminates_iff_zero
        (mem : option (list byte)) (ptr : Z) :
  ((mem = None \/ ptr = 0) ->
   forall fuel, readNullTerminatedString_for fuel mem ptr = Some "") /\
  (forall memory_ z,
      mem = Some memory_ -> ptr <> 0 -> first_zero memory_ ptr z ->
      (forall fuel, (Z.to_nat (z - ptr) < fuel)%nat ->
         readNullTerminatedString_for fuel mem ptr
         = Some (TextDecoder_decode (subarray memory_ ptr z))) /\
      (0 < ptr ->
         subarray memory_ ptr z
         = firstn (Z.to_nat (z - ptr)) (skipn (Z.to_nat ptr) memory_))) /\
  (forall memory_,
      mem = Some memory_ -> ptr <> 0 ->
      (forall i, ptr <= i -> is_zero_at memory_ i = false) ->
      forall fuel, readNullTerminatedString_for fuel mem ptr = None).
Proof.
  split; [|split].
  - intros [-> | ->] fuel; [reflexivity|].
    destruct mem; reflexivity.
  - intros memory_ z -> Hptr Hfirst. split.
    + intros fuel Hfuel. unfold readNullTerminatedString_for.
      apply Z.eqb_neq in Hptr. rewrite Hptr.
      now rewrite (scan_finds _ _ _ _ Hfirst Hfuel).
    + intros Hpos. destruct Hfirst as (Hle & Hz & _).
      apply is_zero_at_inside in Hz. apply subarray_forward; lia.
  - intros memory_ -> Hptr Hnone fuel. unfold readNullTerminatedString_for.
    apply Z.eqb_neq in Hptr. rewrite Hptr.
    now rewrite scan_never.
Qed.

(** The witness: a buffer of three bytes with the terminator last. *)
Lemma readNullTerminatedString_terminates_iff_zero_witness :
  readNullTerminatedString_for 2 (Some [x00; x41; x00]%byte) 1 = Some "A".
Proof.
  destruct (readNullTerminatedString_terminates_iff_zero
              (Some [x00; x41; x00]%byte) 1) as (_ & Hfound & _).
  destruct (Hfound [x00; x41; x00]%byte 2 eq_refl) as (Hread & _).
  - lia.
  - split; [lia|]. split; [reflexivity|].
    intros i Hi. assert (i = 1) as -> by lia. reflexivity.
  - apply (Hread 2%nat). simpl. lia.
Defined.

(** [readNullTerminatedString] as the bridge uses it gives no result
    exactly when the loop returns for no number of steps. *)
Lemma readNullTerminatedString_total s ptr :
  readNullTerminatedString s ptr = None <->
  forall fuel, readNullTerminatedString_for fuel (buffer s) ptr = None.
Proof.
  unfold readNullTerminatedString, readNullTerminatedString_for.
  destruct (buffer s) as [mem|].
  - destruct (ptr =? 0) eqn:Hptr.
    + split; [discriminate|]. intros H. specialize (H 0%nat). discriminate.
    + split.
      * intros Hread fuel.
        destruct (scan (enough mem ptr) mem ptr) eqn:Hscan; [discriminate|].
        rewrite scan_never; [reflexivity|]. apply (scan_enough mem ptr Hscan).
      * intros H. apply H.
  - split; [discriminate|]. intros H. specialize (H 0%nat). discriminate.
Qed.

(** ** Diagnostics *)

Lemma get_defined v key : nullish v = false -> exists w, get v key = Some w.
Proof. destruct v; simpl; try discriminate; eauto. Qed.

Lemma truthy_defined v : truthy v = true -> nullish v = false.
Proof. destruct v; simpl; congruence. Qed.

Lemma parse_one_selects diag :
  nullish diag = false ->
  (exists d, parse_one diag = Some (Some d) /\
             numeric_region diag (region d) /\
             get diag "severity" = Some (severity d) /\
             get diag "message" = Some (diag_message d)) \/
  (parse_one diag = Some None /\ forall r, ~ numeric_region diag r).
Proof.
  intros Hdiag. unfold parse_one.
  destruct (get_defined diag "region" Hdiag) as [region_ Hregion].
  destruct (get_defined diag "severity" Hdiag) as [sev Hsev].
  destruct (get_defined diag "message" Hdiag) as [msg Hmsg].
  rewrite Hregion, Hsev, Hmsg. simpl.
  destruct (truthy region_) eqn:Htruthy.
  - apply truthy_defined in Htruthy.
    destruct (get_defined region_ "start_line" Htruthy) as [sl Hsl].
    destruct (get_defined region_ "start_column" Htruthy) as [sc Hsc].
    destruct (get_defined region_ "end_line" Htruthy) as [el Hel].
    destruct (get_defined region_ "end_column" Htruthy) as [ec Hec].
    rewrite Hsl, Hsc, Hel, Hec. simpl.
    destruct (is_number sl) eqn:Nsl; simpl.
    2:{ right. split; [reflexivity|]. intros r (x & Hx & H1 & _ & _ & _ & N1 & _).
        congruence. }
    destruct (is_number sc) eqn:Nsc; simpl.
    2:{ right. split; [reflexivity|].
        intros r (x & Hx & _ & H2 & _ & _ & _ & N2 & _). congruence. }
    destruct (is_number el) eqn:Nel; simpl.
    2:{ right. split; [reflexivity|].
        intros r (x & Hx & _ & _ & H3 & _ & _ & _ & N3 & _). congruence. }
    destruct (is_number ec) eqn:Nec; simpl.
    2:{ right. split; [reflexivity|].
        intros r (x & Hx & _ & _ & _ & H4 & _ & _ & _ & N4). congruence. }
    left. eexists. split; [reflexivity|]. simpl.
    split; [|split; reflexivity].
    exists region_. simpl. repeat (split; [assumption|]). assumption.
  - right. split; [reflexivity|].
    intros r (x & Hx & H1 & _ & _ & _ & N1 & _).
    assert (x = region_) as -> by congruence.
    destruct region_; simpl in *; try discriminate;
      injection H1 as H1; rewrite <- H1 in N1; discriminate.
Qed.

Lemma parse_each_selects items :
  Forall (fun diag => nullish diag = false) items ->
  forall acc, exists out,
      parse_each items acc = Some (acc ++ out) /\ selected items out.
Proof.
  induction 1 as [|diag rest Hdiag _ IH]; intros acc; simpl.
  - exists []. rewrite app_nil_r. split; [reflexivity|constructor].
  - destruct (parse_one_selects diag Hdiag)
      as [(d & -> & Hregion & Hsev & Hmsg) | (-> & Hnone)]; simpl.
    + destruct (IH (acc ++ [d])) as (out & -> & Hsel).
      exists (d :: out). rewrite <- app_assoc. split; [reflexivity|].
      now constructor.
    + destruct (IH acc) as (out & -> & Hsel).
      exists out. split; [reflexivity|]. now apply selected_drop.
Qed.

(** What C8 says holds of every list without a [null]: from it
    [parseDiagnostics] returns, in order, the diagnostics that carry a
    region with four numeric fields, each with its severity, message
    and region as received, and leaves every other diagnostic out. *)
Theorem parseDiagnostics_keeps_numeric_regions
        (result diagnostics_ : jsval) (items : list jsval) :
  get result "diagnostics" = Some diagnostics_ ->
  get diagnostics_ "list" = Some (JArr items) ->
  Forall (fun diag => nullish diag = false) items ->
  exists out, parseDiagnostics result = Some out /\ selected items out.
Proof.
  intros Hdiags Hlist Hitems. unfold parseDiagnostics.
  rewrite Hdiags. simpl.
  assert (truthy diagnostics_ = true) as ->
      by (destruct diagnostics_; simpl in *; congruence).
  rewrite Hlist. simpl.
  destruct (parse_each_selects items Hitems []) as (out & Hparse & Hsel).
  exists out. split; assumption.
Qed.

(** ** The text of a request *)

(** A surrogate that stands alone is written as its escape, so that
    the encoded request is UTF-8 whatever the strings of the message
    hold. *)
Example lone_surrogate_is_escaped :
  quote_string (String "237" (String "160" (String "189" "!")))
  = String dquote ("\ud83d!" ++ String dquote "")%string.
Proof. reflexivity. Qed.

(** ** The column of a query *)

(** C7, as the code has it.  A hover query for the editor column [c]
    is queued and encoded with [ch = c + 1] and with its line unchanged;
    the [GET_TYPE_INFO] query of the older bridge keeps the column it is
    given. *)
Theorem hover_column_incremented_type_column_kept
        (send : WasmMessage -> Bridge -> completion * Bridge)
        (identifier_ : string) (line_ c : Z) (s : Bridge) :
  (getHoverInfo send identifier_ line_ c s
   = sendMessageQueued send (hover_request identifier_ line_ c) s
   /\ type (hover_request identifier_ line_ c) = "GET_HOVER_INFO"
   /\ line (hover_request identifier_ line_ c) = Some line_
   /\ ch (hover_request identifier_ line_ c) = Some (c + 1)
   /\ JSON_stringify (hover_request identifier_ line_ c)
      = ("{" ++ String.concat ","
           [ quote_string "type" ++ ":" ++ quote_string "GET_HOVER_INFO";
             quote_string "identifier" ++ ":" ++ quote_string identifier_;
             quote_string "line" ++ ":" ++ number_to_string line_;
             quote_string "ch" ++ ":" ++ number_to_string (c + 1) ] ++ "}")%string)
  /\
  (getTypeInfo send identifier_ line_ c s
   = sendMessageQueued send (type_request identifier_ line_ c) s
   /\ type (type_request identifier_ line_ c) = "GET_TYPE_INFO"
   /\ line (type_request identifier_ line_ c) = Some line_
   /\ ch (type_request identifier_ line_ c) = Some c
   /\ JSON_stringify (type_request identifier_ line_ c)
      = ("{" ++ String.concat ","
           [ quote_string "type" ++ ":" ++ quote_string "GET_TYPE_INFO";
             quote_string "identifier" ++ ":" ++ quote_string identifier_;
             quote_string "line" ++ ":" ++ number_to_string line_;
             quote_string "ch" ++ ":" ++ number_to_string c ] ++ "}")%string).
Proof.
  split; repeat split; reflexivity.
Qed.

(** The [GET_TYPE_INFO] query for column 0 carries [ch = 0], not 1. *)
Lemma type_query_column_not_incremented :
  ch (type_request "x" 1 0) = Some 0
  /\ ch (type_request "x" 1 0) <> Some (0 + 1)
  /\ JSON_stringify (type_request "x" 1 0)
     = json "{'type':'GET_TYPE_INFO','identifier':'x','line':1,'ch':0}".
Proof.
  split; [reflexivity|]. split; [discriminate|]. reflexivity.
Qed.

Example hover_query_text :
  JSON_stringify (hover_request "x" 1 0)
  = json "{'type':'GET_HOVER_INFO','identifier':'x','line':1,'ch':1}".
Proof. reflexivity. Qed.

Lemma parseDiagnostics_keeps_numeric_regions_witness :
  exists out, parseDiagnostics sample_result = Some out
              /\ selected sample_list out.
Proof.
  apply (parseDiagnostics_keeps_numeric_regions
           sample_result sample_diagnostics sample_list);
    [reflexivity | reflexivity | repeat constructor].
Defined.

Example parseDiagnostics_sample :
  parseDiagnostics sample_result
  = Some [ {| severity := JStr "error"; diag_message := JStr "UNUSED VARIABLE";
              region := {| start_line := JNum 3 0; start_column := JNum 1 0;
                           end_line := JNum 3 0; end_column := JNum 9 0 |} |} ].
Proof. reflexivity. Qed.

(** A number too small for a double is 0, and falsy. *)
Example underflowing_number_is_falsy :
  truthy (JNum 1 (-400)) = false /\ truthy (JNum 5 (-324)) = true
  /\ truthy (JNum 0 3) = false /\ truthy (JNum 1 400) = true.
Proof. repeat split; vm_compute; reflexivity. Qed.

(** Without a message that is truthy the failed compilation is shown
    as "Compilation failed". *)
Example failed_compilation_without_message :
  option_map (map diag_message)
             (compileCode_diagnostics
                (JObj [("status", JStr "ERROR"); ("message", JNum 1 (-400))]))
  = Some [JStr "Compilation failed"].
Proof. vm_compute. reflexivity. Qed.

(** An element that is [null] makes [diag.region] throw. *)
Example parseDiagnostics_null_element :
  parseDiagnostics (JObj [("diagnostics", JObj [("list", JArr [JNull])])]) = None.
Proof. reflexivity. Qed.

(** C8 at a list that holds a [null] before a diagnostic with a
    numeric region: [diag.region] throws on the [null], and the
    diagnostic that follows is not returned, although alone it is. *)
Lemma null_element_discards_valid_diagnostics :
  parseDiagnostics
    (JObj [("diagnostics", JObj [("list", JArr [JNull; valid_diagnostic])])])
  = None
  /\ parseDiagnostics
       (JObj [("diagnostics", JObj [("list", JArr [valid_diagnostic])])])
     = Some [ {| severity := JStr "error";
                 diag_message := JStr "UNUSED VARIABLE";
                 region := {| start_line := JNum 3 0; start_column := JNum 1 0;
                              end_line := JNum 3 0; end_column := JNum 9 0 |} |} ].
Proof. split; reflexivity. Qed.

(** ** One call of the bridge *)

Lemma same_queue_refl s : same_queue s s.
Proof. repeat split. Qed.

Lemma same_queue_trans s1 s2 s3 :
  same_queue s1 s2 -> same_queue s2 s3 -> same_queue s1 s3.
Proof.
  unfold same_queue. intros (? & ? & ? & ? & ? & ?) (? & ? & ? & ? & ? & ?).
  repeat split; congruence.
Qed.

Lemma call_frame e c s r s' : call e c s = (r, s') -> same_queue s s'.
Proof. unfold call. intros [= _ <-]. repeat split. Qed.

Lemma store_frame bytes offset s s' :
  store bytes offset s = Some s' -> same_queue s s'.
Proof.
  unfold store. destruct (buffer s); [|discriminate].
  destruct (_ || _); [discriminate|]. intros [= <-]. repeat split.
Qed.

Lemma set_wasmIsDead_frame b s : same_queue s (set_wasmIsDead b s).
Proof. repeat split. Qed.

Create HintDb frame.

#[local] Hint Resolve same_queue_refl same_queue_trans call_frame store_frame
  set_wasmIsDead_frame : frame.

(** One step of a proof along the text of a call: the next export call,
    store or test is decided, and what it leaves unchanged is noted. *)
Ltac along :=
  match goal with
  | |- context [match call ?e ?c ?s with _ => _ end] =>
      let H := fresh "Hcall" in
      destruct (call e c s) as [[?|] ?] eqn:H;
      pose proof (call_frame _ _ _ _ _ H)
  | |- context [match store ?b ?o ?s with _ => _ end] =>
      let H := fresh "Hstore" in
      destruct (store b o s) eqn:H;
      [pose proof (store_frame _ _ _ _ H)|]
  | |- context [if ?b then _ else _] =>
      let H := fresh "Htest" in destruct b eqn:H
  end; cbv beta iota.

Lemma read_debug_log_frame e s x s' :
  read_debug_log e s = (x, s') -> same_queue s s'.
Proof.
  unfold read_debug_log.
  repeat along; try destruct (readNullTerminatedString _ _);
    intros [= _ <-]; eauto 12 with frame.
Qed.

Lemma log_after_success_frame e s x s' :
  log_after_success e s = (x, s') -> same_queue s s'.
Proof.
  unfold log_after_success.
  destruct (read_debug_log e s) as [y s1] eqn:Hread.
  apply read_debug_log_frame in Hread.
  destruct y; repeat along; intros [= _ <-]; eauto 12 with frame.
Qed.

Lemma catch_block_frame e error s c s' :
  catch_block e error s = (c, s') -> same_queue s s'.
Proof.
  unfold catch_block. along.
  - destruct (read_debug_log e (set_wasmIsDead true s)) as [y s1] eqn:Hread.
    apply read_debug_log_frame in Hread.
    destruct y; intros [= _ <-]; eauto 12 with frame.
  - intros [= _ <-]. auto with frame.
Qed.

Lemma status_code_try_frame e mem m s c mp rp s' :
  StatusCode.try_block e mem m s = (c, mp, rp, s') -> same_queue s s'.
Proof.
  unfold StatusCode.try_block. cbv zeta.
  repeat along; try (intros [= _ _ _ <-]; eauto 12 with frame).
  all: destruct (StatusCode.decode_response _ _);
    [intros [= _ _ _ <-]; eauto 12 with frame|].
  all: destruct (log_after_success e _) as [y s5] eqn:Hlog;
    apply log_after_success_frame in Hlog;
    destruct y; intros [= _ _ _ <-]; eauto 12 with frame.
Qed.

Lemma status_code_finally_frame e mp rp pending s c s' :
  StatusCode.finally_block e mp rp pending s = (c, s') -> same_queue s s'.
Proof.
  unfold StatusCode.finally_block. cbv zeta.
  destruct mp, rp; repeat along; intros [= _ <-]; eauto 12 with frame.
Qed.

Lemma status_code_frame m s c s' :
  StatusCode.sendMessageToWasm m s = (c, s') -> same_queue s s'.
Proof.
  unfold StatusCode.sendMessageToWasm.
  destruct (wasmIsDead s); [intros [= _ <-]; auto with frame|].
  destruct (wasmModule s) as [e|]; [|intros [= _ <-]; auto with frame].
  destruct (wasmMemory s) as [mem|]; [|intros [= _ <-]; auto with frame].
  destruct (StatusCode.try_block e mem m s) as [[[tried mp] rp] s1] eqn:Htry.
  apply status_code_try_frame in Htry.
  destruct tried as [r|error|].
  - intros Hfin. apply status_code_finally_frame in Hfin. eauto 12 with frame.
  - destruct (catch_block e error s1) as [caught s2] eqn:Hcatch.
    apply catch_block_frame in Hcatch.
    destruct caught; [| |intros [= _ <-]; eauto 12 with frame];
      intros Hfin; apply status_code_finally_frame in Hfin; eauto 12 with frame.
  - intros [= _ <-]. assumption.
Qed.

Lemma pointer_return_try_frame e mem m s c mp rp s' :
  PointerReturn.try_block e mem m s = (c, mp, rp, s') -> same_queue s s'.
Proof.
  unfold PointerReturn.try_block. cbv zeta.
  repeat along; try (intros [= _ _ _ <-]; eauto 12 with frame).
  all: destruct (JSON_parse _); [|intros [= _ _ _ <-]; eauto 12 with frame].
  all: repeat along; try (intros [= _ _ _ <-]; eauto 12 with frame).
  all: destruct (log_after_success e _) as [y s6] eqn:Hlog;
    apply log_after_success_frame in Hlog;
    destruct y; intros [= _ _ _ <-]; eauto 12 with frame.
Qed.

Lemma pointer_return_finally_frame e mp rp pending s c s' :
  PointerReturn.finally_block e mp rp pending s = (c, s') -> same_queue s s'.
Proof.
  unfold PointerReturn.finally_block, call. cbv zeta.
  destruct mp, rp; intros [= _ <-]; repeat split.
Qed.

Lemma pointer_return_frame m s c s' :
  PointerReturn.sendMessageToWasm m s = (c, s') -> same_queue s s'.
Proof.
  unfold PointerReturn.sendMessageToWasm.
  destruct (wasmIsDead s); [intros [= _ <-]; auto with frame|].
  destruct (wasmModule s) as [e|]; [|intros [= _ <-]; auto with frame].
  destruct (wasmMemory s) as [mem|]; [|intros [= _ <-]; auto with frame].
  destruct (PointerReturn.try_block e mem m s) as [[[tried mp] rp] s1] eqn:Htry.
  apply pointer_return_try_frame in Htry.
  destruct tried as [r|error|].
  - intros Hfin. apply pointer_return_finally_frame in Hfin. eauto 12 with frame.
  - destruct (catch_block e error s1) as [caught s2] eqn:Hcatch.
    apply catch_block_frame in Hcatch.
    destruct caught; [| |intros [= _ <-]; eauto 12 with frame];
      intros Hfin; apply pointer_return_finally_frame in Hfin; eauto 12 with frame.
  - intros [= _ <-]. assumption.
Qed.

(** Both bridges leave the queue and the event loop alone. *)
Lemma sendMessageToWasm_frame v m s :
  same_queue s (snd (sendMessageToWasm v m s)).
Proof.
  destruct (sendMessageToWasm v m s) as [c s'] eqn:Hsend. simpl.
  destruct v; [eapply status_code_frame | eapply pointer_return_frame];
    exact Hsend.
Qed.

(** A call on a deactivated module throws at once and changes nothing. *)
Lemma dead_call_rejected v m s :
  wasmIsDead s = true ->
  sendMessageToWasm v m s = (Throw (Error crashed), s).
Proof.
  intros Hdead. destruct v; simpl;
    [unfold StatusCode.sendMessageToWasm | unfold PointerReturn.sendMessageToWasm];
    now rewrite Hdead.
Qed.

(** *** What is thrown in the [try] block leaves the call as a rejection *)

Lemma catch_block_rethrows e error s :
  is_RuntimeError error = false -> catch_block e error s = (Throw error, s).
Proof. unfold catch_block. now intros ->. Qed.

Lemma status_code_finally_throws e mp rp error s :
  exists error' s',
    StatusCode.finally_block e mp rp (Throw error) s = (Throw error', s')
    /\ wasmIsDead s' = wasmIsDead s
    /\ (releases_return e -> error' = error).
Proof.
  unfold StatusCode.finally_block, call. cbv zeta.
  destruct mp as [mp|], rp as [rp|]; cbv beta iota.
  - destruct (respond e (calls s) freeMessageBuffer) eqn:Hm.
    + destruct (respond e (calls (record_call freeMessageBuffer s))
                        freeResponseBuffer) eqn:Hr.
      * eauto.
      * do 2 eexists. split; [reflexivity|]. split; [reflexivity|].
        intros Hrel. exfalso. eapply Hrel; [|exact Hr]. auto.
    + do 2 eexists. split; [reflexivity|]. split; [reflexivity|].
      intros Hrel. exfalso. eapply Hrel; [|exact Hm]. auto.
  - destruct (respond e (calls s) freeMessageBuffer) eqn:Hm.
    + eauto.
    + do 2 eexists. split; [reflexivity|]. split; [reflexivity|].
      intros Hrel. exfalso. eapply Hrel; [|exact Hm]. auto.
  - destruct (respond e (calls s) freeResponseBuffer) eqn:Hr.
    + eauto.
    + do 2 eexists. split; [reflexivity|]. split; [reflexivity|].
      intros Hrel. exfalso. eapply Hrel; [|exact Hr]. auto.
  - eauto.
Qed.

Lemma status_code_rejects e mem m s error mp rp s1 :
  alive e mem s ->
  StatusCode.try_block e mem m s = (Throw error, mp, rp, s1) ->
  is_RuntimeError error = false ->
  exists error' s',
    StatusCode.sendMessageToWasm m s = (Throw error', s')
    /\ wasmIsDead s' = wasmIsDead s1
    /\ (releases_return e -> error' = error).
Proof.
  intros (Hdead & Hmod & Hmem) Htry Herror.
  unfold StatusCode.sendMessageToWasm. rewrite Hdead, Hmod, Hmem, Htry.
  rewrite (catch_block_rethrows _ _ _ Herror).
  apply status_code_finally_throws.
Qed.

Lemma pointer_return_rejects e mem m s error mp rp s1 :
  alive e mem s ->
  PointerReturn.try_block e mem m s = (Throw error, mp, rp, s1) ->
  is_RuntimeError error = false ->
  exists s',
    PointerReturn.sendMessageToWasm m s = (Throw error, s')
    /\ wasmIsDead s' = wasmIsDead s1.
Proof.
  intros (Hdead & Hmod & Hmem) Htry Herror.
  unfold PointerReturn.sendMessageToWasm. rewrite Hdead, Hmod, Hmem, Htry.
  rewrite (catch_block_rethrows _ _ _ Herror).
  unfold PointerReturn.finally_block, call.
  eexists. split; [reflexivity|]. destruct mp, rp; reflexivity.
Qed.

(** What the [finally] block of the status-code bridge throws is the
    pending error, or the trap of a release. *)
Lemma status_code_finally_either e mp rp error s :
  exists error' s',
    StatusCode.finally_block e mp rp (Throw error) s = (Throw error', s')
    /\ wasmIsDead s' = wasmIsDead s
    /\ (releases_return e -> error' = error)
    /\ (error' = error \/ error' = RuntimeError).
Proof.
  unfold StatusCode.finally_block, call. cbv zeta.
  assert (Htrap : forall h c,
             (c = freeMessageBuffer \/ c = freeResponseBuffer) ->
             respond e h c = Traps ->
             releases_return e -> RuntimeError = error).
  { intros h c Hc Hr Hrel. exfalso. eapply Hrel; [|exact Hr]. tauto. }
  destruct mp as [mp|], rp as [rp|]; cbv beta iota.
  - destruct (respond e (calls s) freeMessageBuffer) eqn:Hm.
    + destruct (respond e (calls (record_call freeMessageBuffer s))
                        freeResponseBuffer) eqn:Hr;
        do 2 eexists; (split; [reflexivity|]); (split; [reflexivity|]);
        eauto.
    + do 2 eexists. split; [reflexivity|]. split; [reflexivity|]. eauto.
  - destruct (respond e (calls s) freeMessageBuffer) eqn:Hm;
      do 2 eexists; (split; [reflexivity|]); (split; [reflexivity|]); eauto.
  - destruct (respond e (calls s) freeResponseBuffer) eqn:Hr;
      do 2 eexists; (split; [reflexivity|]); (split; [reflexivity|]); eauto.
  - do 2 eexists. split; [reflexivity|]. split; [reflexivity|]. eauto.
Qed.

Lemma status_code_rejects_either e mem m s error mp rp s1 :
  alive e mem s ->
  StatusCode.try_block e mem m s = (Throw error, mp, rp, s1) ->
  is_RuntimeError error = false ->
  exists error' s',
    StatusCode.sendMessageToWasm m s = (Throw error', s')
    /\ wasmIsDead s' = wasmIsDead s1
    /\ (releases_return e -> error' = error)
    /\ (error' = error \/ error' = RuntimeError).
Proof.
  intros (Hdead & Hmod & Hmem) Htry Herror.
  unfold StatusCode.sendMessageToWasm. rewrite Hdead, Hmod, Hmem, Htry.
  rewrite (catch_block_rethrows _ _ _ Herror).
  apply status_code_finally_either.
Qed.

(** *** The [try] block up to the entry point *)

Lemma reaches_entry_alive e m s mp rp s3 :
  reaches_entry e m s mp rp s3 -> wasmIsDead s3 = wasmIsDead s.
Proof.
  intros (s2 & (s1 & Halloc & _ & Hstore) & Hresp & _).
  unfold call in *. injection Halloc as _ <-. injection Hresp as _ <-.
  unfold store in Hstore. destruct (buffer _); [|discriminate].
  destruct (_ || _); [discriminate|]. injection Hstore as <-. reflexivity.
Qed.

Lemma request_stored_alive e m s mp s2 :
  request_stored e m s mp s2 -> wasmIsDead s2 = wasmIsDead s.
Proof.
  intros (s1 & Halloc & _ & Hstore).
  unfold call in *. injection Halloc as _ <-.
  unfold store in Hstore. destruct (buffer _); [|discriminate].
  destruct (_ || _); [discriminate|]. injection Hstore as <-. reflexivity.
Qed.

(** After the entry point has returned [resultCode], the [try] block
    goes on with the test of that code. *)
Lemma status_code_try_at_entry e mem m s mp rp s3 resultCode :
  reaches_entry e m s mp rp s3 ->
  respond e (calls s3)
          (processMessage mp (encoded_length m) rp StatusCode.responseBufferSize)
  = Returns resultCode ->
  let s4 := record_call (processMessage mp (encoded_length m) rp
                                        StatusCode.responseBufferSize) s3 in
  StatusCode.try_block e mem m s =
  if negb (resultCode =? 0)
  then (Throw (Error (StatusCode.failed_with resultCode)), Some mp, Some rp, s4)
  else match StatusCode.decode_response (mem (calls s4)) rp with
       | inl error => (Throw error, Some mp, Some rp, s4)
       | inr responseObject =>
           match log_after_success e s4 with
           | (Stuck, s5) => (Diverge, Some mp, Some rp, s5)
           | (Raise error, s5) => (Throw error, Some mp, Some rp, s5)
           | (Normal, s5) => (Return responseObject, Some mp, Some rp, s5)
           end
       end.
Proof.
  intros (s2 & (s1 & Halloc & Hmp & Hstore) & Hresp & Hrp) Hentry s4.
  unfold encoded_length, encoded in *.
  unfold StatusCode.try_block. cbv zeta.
  rewrite Halloc. apply Z.eqb_neq in Hmp. rewrite Hmp.
  rewrite Hstore, Hresp. apply Z.eqb_neq in Hrp. rewrite Hrp.
  unfold call at 1. rewrite Hentry. reflexivity.
Qed.

Lemma pointer_return_try_at_null e mem m s mp s2 :
  request_stored e m s mp s2 ->
  respond e (calls s2) (processAndRespond mp (encoded_length m)) = Returns 0 ->
  let s3 := record_call (processAndRespond mp (encoded_length m)) s2 in
  PointerReturn.try_block e mem m s =
  match respond e (calls s3) freeMessageBuffer with
  | Traps => (Throw RuntimeError, Some mp, Some 0, record_call freeMessageBuffer s3)
  | Returns _ => (Throw (Error PointerReturn.returned_null), None, Some 0,
                  record_call freeMessageBuffer s3)
  end.
Proof.
  intros (s1 & Halloc & Hmp & Hstore) Hentry s3.
  unfold encoded_length, encoded in *.
  unfold PointerReturn.try_block. cbv zeta.
  rewrite Halloc. apply Z.eqb_neq in Hmp. rewrite Hmp.
  rewrite Hstore. unfold call at 1. rewrite Hentry. cbv beta iota.
  unfold call at 1. fold s3.
  destruct (respond e (calls s3) freeMessageBuffer); reflexivity.
Qed.

Lemma catch_block_completion e error s :
  fst (catch_block e error s) = Throw error
  \/ fst (catch_block e error s) = Diverge.
Proof.
  unfold catch_block. destruct (is_RuntimeError error); [|now left].
  destruct (read_debug_log e (set_wasmIsDead true s)) as [[| |] s1];
    simpl; auto.
Qed.

(** ** A failure reported by the entry point *)

(** C6, as the code has it.  When the entry point returns a status
    code other than 0, the call of the status-code bridge is rejected,
    and the error is the one built from the code and its reason in the
    enumeration unless a release traps, which puts its own error in the
    place; when the entry point of the pointer-return bridge returns
    the null pointer, the call never ends with a response: it is
    rejected with the error that names the null pointer when the
    release of the request returns, and when that release traps the
    module is deactivated and the trap is thrown, or the call does not
    return.  Without a trap the module is not deactivated. *)
Theorem entry_failure_is_thrown :
  (forall e mem m s messagePtr responsePtr s3 resultCode,
      alive e mem s ->
      reaches_entry e m s messagePtr responsePtr s3 ->
      respond e (calls s3)
              (processMessage messagePtr (encoded_length m) responsePtr
                              StatusCode.responseBufferSize)
      = Returns resultCode ->
      resultCode <> 0 ->
      exists error s',
        StatusCode.sendMessageToWasm m s = (Throw error, s')
        /\ wasmIsDead s' = false
        /\ (releases_return e ->
            error = Error (StatusCode.failed_with resultCode))
        /\ (error = Error (StatusCode.failed_with resultCode)
            \/ error = RuntimeError)
        /\ let after :=
             calls s3 ++ [processMessage messagePtr (encoded_length m)
                                         responsePtr
                                         StatusCode.responseBufferSize] in
           let first := respond e after freeMessageBuffer in
           let second :=
             respond e (after ++ [freeMessageBuffer]) freeResponseBuffer in
           (first <> Traps -> second <> Traps ->
            error = Error (StatusCode.failed_with resultCode))
           /\ (first = Traps \/ second = Traps -> error = RuntimeError))
  /\ (forall resultCode,
         StatusCode.failed_with resultCode
         = ("WASM processMessage failed with code "
            ++ number_to_string resultCode ++ ": "
            ++ StatusCode.reason resultCode)%string)
  /\ map StatusCode.reason [1; 2; 3; 4; 5; 6]
     = ["invalid_json"; "missing_message_type"; "unknown_message_type";
        "invalid_state_for_message"; "response_buffer_too_small";
        "internal_error"]
  /\ (forall e mem m s messagePtr s2,
         alive e mem s ->
         request_stored e m s messagePtr s2 ->
         respond e (calls s2) (processAndRespond messagePtr (encoded_length m))
         = Returns 0 ->
         let sent := PointerReturn.sendMessageToWasm m s in
         let release :=
           respond e (calls s2 ++ [processAndRespond messagePtr
                                                     (encoded_length m)])
                   freeMessageBuffer in
         (forall response, fst sent <> Return response)
         /\ (releases_return e ->
             exists s',
               sent = (Throw (Error PointerReturn.returned_null), s')
               /\ wasmIsDead s' = false)
         /\ (release <> Traps ->
             fst sent = Throw (Error PointerReturn.returned_null)
             /\ wasmIsDead (snd sent) = false)
         /\ (release = Traps ->
             (fst sent = Throw RuntimeError \/ fst sent = Diverge)
             /\ wasmIsDead (snd sent) = true)).
Proof.
  split; [|split; [reflexivity|split; [reflexivity|]]].
  - intros e mem m s mp rp s3 code Halive Hreach Hentry Hcode.
    pose proof (status_code_try_at_entry e mem m s mp rp s3 code Hreach Hentry)
      as Htry.
    cbv zeta in Htry. apply Z.eqb_neq in Hcode. rewrite Hcode in Htry.
    destruct (status_code_rejects_either _ _ _ _ _ _ _ _ Halive Htry eq_refl)
      as (error & s' & Hsend & Hdead & Herror & Heither).
    exists error, s'. split; [exact Hsend|].
    split; [|split; [exact Herror|split; [exact Heither|]]].
    { rewrite Hdead. simpl. rewrite (reaches_entry_alive _ _ _ _ _ _ Hreach).
      apply Halive. }
    cbv zeta. revert Hsend. destruct Halive as (Hlive & Hmod & Hmem).
    cbn [negb] in Htry.
    unfold StatusCode.sendMessageToWasm. rewrite Hlive, Hmod, Hmem, Htry.
    rewrite (catch_block_rethrows
               e (Error (StatusCode.failed_with code)) _ eq_refl).
    unfold StatusCode.finally_block, call. cbv zeta.
    cbn [calls record_call].
    destruct (respond e _ freeMessageBuffer) as [v1|];
      [destruct (respond e _ freeResponseBuffer) as [v2|]|];
      intros [= <- _]; (split; [intros; congruence|]);
      intros [Hfirst | Hsecond]; congruence.
  - intros e mem m s mp s2 Halive Hstored Hentry sent release.
    pose proof (pointer_return_try_at_null e mem m s mp s2 Hstored Hentry)
      as Htry.
    cbv zeta in Htry. cbn [calls record_call] in Htry. fold release in Htry.
    assert (Hreturns :
              release <> Traps ->
              exists s',
                sent = (Throw (Error PointerReturn.returned_null), s')
                /\ wasmIsDead s' = false).
    { intros Hfree. destruct release as [v|]; [|congruence].
      destruct (pointer_return_rejects _ _ _ _ _ _ _ _ Halive Htry eq_refl)
        as (s' & Hsend & Hdead).
      exists s'. split; [exact Hsend|].
      rewrite Hdead. simpl. rewrite (request_stored_alive _ _ _ _ _ Hstored).
      apply Halive. }
    assert (Htraps :
              release = Traps ->
              (fst sent = Throw RuntimeError \/ fst sent = Diverge)
              /\ wasmIsDead (snd sent) = true).
    { intros Hfree. rewrite Hfree in Htry.
      destruct Halive as (Hdead & Hmod & Hmem).
      subst sent. unfold PointerReturn.sendMessageToWasm.
      rewrite Hdead, Hmod, Hmem, Htry.
      unfold catch_block. cbn [is_RuntimeError].
      destruct (read_debug_log e _) as [y s4] eqn:Hlog.
      assert (Hflag : wasmIsDead s4 = true).
      { revert Hlog. unfold read_debug_log, call.
        destruct (has_getDebugLogBuffer e);
          [destruct (respond e _ getDebugLogBuffer) as [ptr|];
           [destruct (readNullTerminatedString _ ptr)|]|];
          intros [= _ <-]; reflexivity. }
      destruct y; cbn [fst snd]; unfold PointerReturn.finally_block, call;
        cbn [fst snd wasmIsDead record_call]; auto. }
    split; [|split; [|split; [|exact Htraps]]].
    + intros response. destruct release as [v|] eqn:Hfree.
      * destruct Hreturns as (s' & -> & _); [discriminate|].
        cbn [fst]. discriminate.
      * destruct (Htraps eq_refl) as ([-> | ->] & _); discriminate.
    + intros Hrel. apply Hreturns. intros Hfree.
      eapply Hrel; [|exact Hfree]. auto.
    + intros Hfree. destruct (Hreturns Hfree) as (s' & -> & Hdead).
      split; [reflexivity|exact Hdead].
Qed.

Lemma answering_releases_return code mem : releases_return (answering code mem).
Proof. intros h c [-> | [-> | [p ->]]]; discriminate. Qed.

Lemma loaded_alive e mem :
  memory e = Some mem -> alive e mem (loaded e).
Proof. intros Hmem. repeat split. exact Hmem. Qed.

Lemma entry_failure_is_thrown_witness :
  (exists s',
      StatusCode.sendMessageToWasm
        (request "INIT") (loaded (answering 3 (prefixed success_text)))
      = (Throw (Error "WASM processMessage failed with code 3: unknown_message_type"),
         s'))
  /\ (exists s',
         PointerReturn.sendMessageToWasm
           (request "INIT") (loaded (answering 0 (terminated success_text)))
         = (Throw (Error PointerReturn.returned_null), s')).
Proof.
  destruct entry_failure_is_thrown as (Hstatus & _ & _ & Hpointer). split.
  - destruct (Hstatus (answering 3 (prefixed success_text))
                      (prefixed success_text) (request "INIT")
                      (loaded (answering 3 (prefixed success_text)))
                      8 64
                      (record_call (allocateResponseBuffer 262144)
                         (record_call (memory_set (encoded (request "INIT")) 8)
                            (record_call (allocateMessageBuffer 15)
                               (loaded (answering 3 (prefixed success_text))))))
                      3)
      as (error & s' & Hsend & _ & Herror & _).
    + now apply loaded_alive.
    + eexists. split; [|split; [reflexivity|discriminate]].
      eexists. split; [reflexivity|]. split; [discriminate|reflexivity].
    + reflexivity.
    + discriminate.
    + exists s'. rewrite Hsend.
      now rewrite (Herror (answering_releases_return _ _)).
  - destruct (Hpointer (answering 0 (terminated success_text))
                       (terminated success_text) (request "INIT")
                       (loaded (answering 0 (terminated success_text)))
                       8
                       (record_call (memory_set (encoded (request "INIT")) 8)
                          (record_call (allocateMessageBuffer 15)
                             (loaded (answering 0 (terminated success_text))))))
      as (_ & Hthrown & _).
    + now apply loaded_alive.
    + eexists. split; [reflexivity|]. split; [discriminate|reflexivity].
    + reflexivity.
    + destruct (Hthrown (answering_releases_return _ _)) as (s' & Hsend & _).
      exists s'. exact Hsend.
Defined.

(** C6 as it is stated fails where a release traps: the entry point
    returns the status code 1 and the release of the request buffer
    traps, and the caller gets the trap, not the error that carries the
    reason. *)
Lemma entry_failure_replaced_by_release_trap :
  respond (release_trapping 1 (prefixed success_text))
          (calls (at_entry (release_trapping 1 (prefixed success_text))
                           (request "INIT") 8))
          (processMessage 8 15 64 StatusCode.responseBufferSize)
  = Returns 1
  /\ fst (StatusCode.sendMessageToWasm
            (request "INIT")
            (loaded (release_trapping 1 (prefixed success_text))))
     = Throw RuntimeError
  /\ Throw RuntimeError <> Throw (Error (StatusCode.failed_with 1)).
Proof. split; [reflexivity|]. split; [vm_compute; reflexivity|discriminate]. Qed.

(** ** A response that cannot be decoded *)

Lemma decode_response_not_trap buf rp error :
  StatusCode.decode_response buf rp = inl error -> is_RuntimeError error = false.
Proof.
  unfold StatusCode.decode_response.
  destruct (getUint32 buf rp) as [L|]; [|now intros [= <-]].
  destruct (_ || _); [now intros [= <-]|].
  destruct (view buf (rp + 4) L) as [bytes|]; [|now intros [= <-]].
  destruct (JSON_parse _); [discriminate|now intros [= <-]].
Qed.

(** C5, as the code has it.  The response is refused when its length
    prefix is zero or exceeds the capacity less the four bytes of the
    prefix, when the prefix or the bytes it announces lie outside the
    memory, and when the text the bytes are decoded to is not JSON: the
    decoder is not fatal and puts U+FFFD for what is not UTF-8.
    Whatever parses is the response, with or without a [status].  A
    refused response rejects the call and does not deactivate the
    module. *)
Theorem undecodable_response_rejects_call :
  (forall buf responsePtr,
      (getUint32 buf responsePtr = None ->
       StatusCode.decode_response buf responsePtr = inl RangeError)
      /\ (forall L,
             getUint32 buf responsePtr = Some L ->
             L = 0 \/ StatusCode.responseBufferSize - 4 < L ->
             StatusCode.decode_response buf responsePtr
             = inl (Error (StatusCode.invalid_length L)))
      /\ (forall L,
             getUint32 buf responsePtr = Some L ->
             L <> 0 -> L <= StatusCode.responseBufferSize - 4 ->
             match view buf (responsePtr + 4) L with
             | None => StatusCode.decode_response buf responsePtr = inl RangeError
             | Some bytes =>
                 StatusCode.decode_response buf responsePtr
                 = match JSON_parse (TextDecoder_decode bytes) with
                   | None => inl SyntaxError
                   | Some response => inr response
                   end
             end))
  /\ (forall e mem m s messagePtr responsePtr s3 error,
         alive e mem s ->
         reaches_entry e m s messagePtr responsePtr s3 ->
         let entry := processMessage messagePtr (encoded_length m) responsePtr
                                     StatusCode.responseBufferSize in
         respond e (calls s3) entry = Returns 0 ->
         StatusCode.decode_response (mem (calls s3 ++ [entry])) responsePtr
         = inl error ->
         exists error' s',
           StatusCode.sendMessageToWasm m s = (Throw error', s')
           /\ wasmIsDead s' = false
           /\ (releases_return e -> error' = error)).
Proof.
  split.
  - intros buf rp. unfold StatusCode.decode_response. split; [|split].
    + now intros ->.
    + intros L -> [-> | Hbig]; [reflexivity|].
      apply Z.ltb_lt in Hbig. rewrite Hbig. now rewrite orb_true_r.
    + intros L -> Hzero Hfit.
      apply Z.eqb_neq in Hzero. rewrite Hzero.
      assert ((StatusCode.responseBufferSize - 4 <? L) = false) as ->
          by (apply Z.ltb_ge; lia).
      simpl. destruct (view buf (rp + 4) L); reflexivity.
  - intros e mem m s mp rp s3 error Halive Hreach entry Hentry Hdecode.
    pose proof (status_code_try_at_entry e mem m s mp rp s3 0 Hreach Hentry)
      as Htry.
    cbv zeta in Htry. change (negb (0 =? 0)) with false in Htry.
    cbv iota in Htry. simpl calls in Htry. fold entry in Htry.
    rewrite Hdecode in Htry.
    destruct (status_code_rejects _ _ _ _ _ _ _ _ Halive Htry
                (decode_response_not_trap _ _ _ Hdecode))
      as (error' & s' & Hsend & Hdead & Herror).
    exists error', s'. split; [exact Hsend|]. split; [|exact Herror].
    rewrite Hdead. simpl. rewrite (reaches_entry_alive _ _ _ _ _ _ Hreach).
    apply Halive.
Qed.

Lemma undecodable_response_rejects_call_witness :
  exists s',
    StatusCode.sendMessageToWasm
      (request "INIT") (loaded (answering 0 (declared 0 "{}")))
    = (Throw (Error "WASM returned invalid response length: 0"), s').
Proof.
  destruct undecodable_response_rejects_call as (Hrefused & Hrejects).
  destruct (Hrejects (answering 0 (declared 0 "{}")) (declared 0 "{}")
                     (request "INIT") (loaded (answering 0 (declared 0 "{}")))
                     8 64
                     (record_call (allocateResponseBuffer 262144)
                        (record_call (memory_set (encoded (request "INIT")) 8)
                           (record_call (allocateMessageBuffer 15)
                              (loaded (answering 0 (declared 0 "{}"))))))
                     (Error "WASM returned invalid response length: 0"))
    as (error & s' & Hsend & _ & Herror).
  - now apply loaded_alive.
  - eexists. split; [|split; [reflexivity|discriminate]].
    eexists. split; [reflexivity|]. split; [discriminate|reflexivity].
  - reflexivity.
  - apply (proj1 (proj2 (Hrefused _ 64)) 0); [reflexivity|now left].
  - exists s'. rewrite Hsend.
    now rewrite (Herror (answering_releases_return _ _)).
Defined.

(** A response that is JSON but has no [status] is returned as it is. *)
Lemma response_without_status_is_returned :
  fst (StatusCode.sendMessageToWasm
         (request "INIT") (loaded (answering 0 (prefixed "{}"))))
  = Return (JObj [])
  /\ get (JObj []) "status" = Some JUndefined.
Proof. split; reflexivity. Qed.

(** Bytes that are not UTF-8 are decoded with U+FFFD in their place,
    and the text is parsed as any other: a quote, the byte FF and a
    quote are returned as a string. *)
Example ill_formed_bytes_are_returned :
  fst (StatusCode.sendMessageToWasm
         (request "INIT")
         (loaded (answering 0 (prefixed_bytes [x22; xff; x22]%byte))))
  = Return (JStr (string_of_list_byte replacement)).
Proof. reflexivity. Qed.

Example response_with_status_is_returned :
  fst (StatusCode.sendMessageToWasm
         (request "INIT") (loaded (answering 0 (prefixed success_text))))
  = Return (JObj [("status", JStr "SUCCESS")]).
Proof. reflexivity. Qed.

(** A declared length beyond the buffer is refused before any byte of
    the response is read. *)
Example oversized_length_is_refused :
  fst (StatusCode.sendMessageToWasm
         (request "INIT") (loaded (answering 0 (declared 262141 "{}"))))
  = Throw (Error "WASM returned invalid response length: 262141").
Proof. reflexivity. Qed.

Example length_beyond_memory_is_refused :
  fst (StatusCode.sendMessageToWasm
         (request "INIT") (loaded (answering 0 (declared 100 "{}"))))
  = Throw RangeError.
Proof. reflexivity. Qed.

(** ** Releases *)

(** C4 at a module that cannot reserve the request buffer: the reserve
    returns 0, and [freeMessageBuffer] is called all the same; at a
    module whose entry point returns the null pointer, [freeWasmString]
    is called on it. *)
Theorem release_follows_failed_reserve :
  respond (exhausted (prefixed "{}")) [init] (allocateMessageBuffer 15)
  = Returns 0
  /\ StatusCode.sendMessageToWasm (request "INIT")
                                  (loaded (exhausted (prefixed "{}")))
     = (Throw (Error "Failed to allocate message memory in WASM"),
        record_call freeMessageBuffer
          (record_call (allocateMessageBuffer 15)
                       (loaded (exhausted (prefixed "{}")))))
  /\ calls (snd (StatusCode.sendMessageToWasm
                   (request "INIT") (loaded (exhausted (prefixed "{}")))))
     = [init; allocateMessageBuffer 15; freeMessageBuffer]
  /\ calls (snd (PointerReturn.sendMessageToWasm
                   (request "INIT") (loaded (answering 0 (terminated "{}")))))
     = [init; allocateMessageBuffer 15; memory_set (encoded (request "INIT")) 8;
        processAndRespond 8 15; freeMessageBuffer; freeWasmString 0].
Proof. repeat split. Qed.

(** The same for the response buffer: reserved to no avail, released
    all the same. *)
Example release_follows_failed_response_reserve :
  StatusCode.sendMessageToWasm (request "INIT")
                               (loaded (half_exhausted (prefixed "{}")))
  = (Throw (Error "Failed to allocate response memory in WASM"),
     record_call freeResponseBuffer
       (record_call freeMessageBuffer
          (record_call (allocateResponseBuffer 262144)
             (record_call (memory_set (encoded (request "INIT")) 8)
                (record_call (allocateMessageBuffer 15)
                   (loaded (half_exhausted (prefixed "{}")))))))).
Proof. reflexivity. Qed.

(** *** Both buffers reserved: each released once, at the end *)

Lemma no_release_refl s : no_release_between s s.
Proof. exists []. now rewrite app_nil_r. Qed.

Lemma no_release_trans s1 s2 s3 :
  no_release_between s1 s2 -> no_release_between s2 s3 ->
  no_release_between s1 s3.
Proof.
  intros (m1 & H1 & F1) (m2 & H2 & F2). exists (m1 ++ m2).
  split; [now rewrite H2, H1, app_assoc | now apply Forall_app].
Qed.

Lemma call_no_release e c s r s' :
  call e c s = (r, s') -> is_release c = false -> no_release_between s s'.
Proof.
  intros [= _ <-] Hc. exists [c]. split; [reflexivity|]. now constructor.
Qed.

Lemma read_debug_log_no_release e s x s' :
  read_debug_log e s = (x, s') -> no_release_between s s'.
Proof.
  unfold read_debug_log. destruct (has_getDebugLogBuffer e).
  - destruct (call e getDebugLogBuffer s) as [[ptr|] s1] eqn:Hcall;
      [destruct (readNullTerminatedString s1 ptr)|];
      intros [= _ <-]; now apply (call_no_release _ _ _ _ _ Hcall).
  - intros [= _ <-]. apply no_release_refl.
Qed.

Lemma log_after_success_no_release e s x s' :
  log_after_success e s = (x, s') -> no_release_between s s'.
Proof.
  unfold log_after_success.
  destruct (read_debug_log e s) as [y s1] eqn:Hread.
  apply read_debug_log_no_release in Hread.
  destruct (has_clearDebugLog e).
  - destruct (call e clearDebugLog s1) as [[z|] s2] eqn:Hcall;
      (apply call_no_release in Hcall; [|reflexivity]);
      destruct y; intros [= _ <-];
      eauto using no_release_trans.
  - destruct y; intros [= _ <-]; assumption.
Qed.

Lemma catch_block_no_release e error s c s' :
  catch_block e error s = (c, s') -> no_release_between s s'.
Proof.
  unfold catch_block. destruct (is_RuntimeError error).
  - destruct (read_debug_log e (set_wasmIsDead true s)) as [y s1] eqn:Hread.
    apply read_debug_log_no_release in Hread.
    destruct y; intros [= _ <-]; exact Hread.
  - intros [= _ <-]. apply no_release_refl.
Qed.

(** From the entry point to the end of the [try] block no buffer is
    released, and both pointers are kept. *)
Lemma status_code_try_from_entry e mem m s mp rp s3 tried mp' rp' s1 :
  reaches_entry e m s mp rp s3 ->
  StatusCode.try_block e mem m s = (tried, mp', rp', s1) ->
  mp' = Some mp /\ rp' = Some rp /\ no_release_between s3 s1.
Proof.
  intros (s2 & (s0 & Halloc & Hmp & Hstore) & Hresp & Hrp).
  unfold encoded_length, encoded in *.
  unfold StatusCode.try_block. cbv zeta.
  rewrite Halloc. apply Z.eqb_neq in Hmp. rewrite Hmp.
  rewrite Hstore, Hresp. apply Z.eqb_neq in Hrp. rewrite Hrp.
  destruct (call e (processMessage _ _ _ _) s3) as [[code|] s4] eqn:Hentry;
    (apply call_no_release in Hentry; [|reflexivity]);
    [|intros [= _ <- <- <-]; auto].
  destruct (negb (code =? 0)); [intros [= _ <- <- <-]; auto|].
  destruct (StatusCode.decode_response _ _); [intros [= _ <- <- <-]; auto|].
  destruct (log_after_success e s4) as [y s5] eqn:Hlog.
  apply log_after_success_no_release in Hlog.
  destruct y; intros [= _ <- <- <-]; eauto using no_release_trans.
Qed.

Lemma status_code_finally_releases e mp rp pending s :
  releases_return e ->
  StatusCode.finally_block e (Some mp) (Some rp) pending s
  = (pending, record_call freeResponseBuffer (record_call freeMessageBuffer s)).
Proof.
  intros Hrel. unfold StatusCode.finally_block, call. cbv zeta.
  destruct (respond e (calls s) freeMessageBuffer) eqn:Hm;
    [|exfalso; eapply Hrel; [|exact Hm]; auto].
  destruct (respond e (calls (record_call freeMessageBuffer s))
                    freeResponseBuffer) eqn:Hr;
    [reflexivity|exfalso; eapply Hrel; [|exact Hr]; auto].
Qed.

(** Once both buffers are reserved, every call that comes to an end,
    whether with a response, with a refused response or after a trap,
    has released each buffer exactly once, as its last two calls on the
    module. *)
Lemma status_code_releases_once e mem m s mp rp s3 c s' :
  alive e mem s ->
  reaches_entry e m s mp rp s3 ->
  releases_return e ->
  StatusCode.sendMessageToWasm m s = (c, s') ->
  c <> Diverge ->
  exists mid,
    calls s' = calls s3 ++ mid ++ [freeMessageBuffer; freeResponseBuffer]
    /\ Forall (fun x => is_release x = false) mid.
Proof.
  intros (Hdead & Hmod & Hmem) Hreach Hrel.
  unfold StatusCode.sendMessageToWasm. rewrite Hdead, Hmod, Hmem.
  destruct (StatusCode.try_block e mem m s) as [[[tried mp'] rp'] s1] eqn:Htry.
  destruct (status_code_try_from_entry _ _ _ _ _ _ _ _ _ _ _ Hreach Htry)
    as (-> & -> & (mid & Hmid & Hfree)).
  assert (Hend : forall pending s2,
             no_release_between s1 s2 ->
             StatusCode.finally_block e (Some mp) (Some rp) pending s2 = (c, s') ->
             exists mid0,
               calls s' = calls s3 ++ mid0 ++ [freeMessageBuffer; freeResponseBuffer]
               /\ Forall (fun x => is_release x = false) mid0).
  { intros pending s2 (mid2 & Hmid2 & Hfree2).
    rewrite (status_code_finally_releases _ _ _ _ _ Hrel). intros [= _ <-].
    exists (mid ++ mid2). split; [|now apply Forall_app].
    cbn [calls record_call]. rewrite Hmid2, Hmid, <- !app_assoc. reflexivity. }
  destruct tried as [r|error|].
  - intros Hfin _. apply (Hend _ _ (no_release_refl s1) Hfin).
  - destruct (catch_block e error s1) as [caught s2] eqn:Hcatch.
    apply catch_block_no_release in Hcatch.
    destruct caught; intros Hfin Hexit;
      [apply (Hend _ _ Hcatch Hfin) | apply (Hend _ _ Hcatch Hfin) |].
    injection Hfin as <- _. now contradiction Hexit.
  - intros [= <- _] Hexit. now contradiction Hexit.
Qed.

(** ** The queue *)

Section Queue.

Variable send : WasmMessage -> Bridge -> completion * Bridge.
Hypothesis send_frame : forall m s, same_queue s (snd (send m s)).

Lemma drain_empty s :
  messageQueue s = [] -> drain send s = set_messageInProgress false s.
Proof. unfold drain. now intros ->. Qed.

(** What one turn of the loop does to the queue and to the event loop. *)
Lemma drain_front s q rest :
  messageQueue s = q :: rest ->
  let c := fst (send (message q)
                     (observe (Invoked (promise q)) (set_messageQueue rest s))) in
  messageQueue (drain send s) = rest
  /\ messageInProgress (drain send s) = messageInProgress s
  /\ promises (drain send s) = promises s
  /\ trace (drain send s) = trace s ++ [Invoked (promise q)]
  /\ (c = Diverge ->
      hung (drain send s) = true /\ awaiting (drain send s) = awaiting s)
  /\ (c <> Diverge ->
      hung (drain send s) = hung s
      /\ awaiting (drain send s) = awaiting s ++ [(promise q, c)]).
Proof.
  intros Hq. unfold drain. rewrite Hq. cbv zeta.
  pose proof (send_frame (message q)
                (observe (Invoked (promise q)) (set_messageQueue rest s)))
    as (Fq & Fp & Fn & Fa & Ft & Fh).
  destruct (send _ _) as [c s2]. simpl in *.
  destruct c; simpl; rewrite ?Fq, ?Fp, ?Fn, ?Fa, ?Ft, ?Fh;
    (split; [reflexivity|]); (split; [reflexivity|]);
    (split; [reflexivity|]); (split; [reflexivity|]);
    split; intros Hc; try discriminate; try (now contradiction Hc);
    split; reflexivity.
Qed.

Lemma schedule_succ k :
  schedule (S k) = schedule k ++ [TInvoked k; TSettled k].
Proof.
  unfold schedule. rewrite seq_S, flat_map_app. simpl. reflexivity.
Qed.

(** A loop that holds the flag and tests the queue, the requests
    before [k] served and the later ones queued in order. *)
Lemma orderly_drain s k :
  hung s = false -> messageInProgress s = true -> awaiting s = [] ->
  map promise (messageQueue s) = seq k (promises s - k) ->
  (k <= promises s)%nat ->
  map tag_of (trace s) = schedule k ->
  orderly (drain send s).
Proof.
  intros Hhung Hflag Hwait Hids Hk Htrace.
  destruct (messageQueue s) as [|q rest] eqn:Hq.
  - rewrite (drain_empty s Hq).
    assert (promises s = k) as <-
        by (destruct (promises s - k)%nat eqn:E; [lia|discriminate]).
    now apply orderly_idle.
  - destruct (promises s - k)%nat as [|n] eqn:Hn; [discriminate|].
    simpl in Hids. injection Hids as Hpq Hrest.
    destruct (drain_front s q rest Hq) as (Dq & Dp & Dn & Dt & Dhung & Dlive).
    cbv zeta in Dhung, Dlive. rewrite Hpq in *.
    assert (Htags : map tag_of (trace (drain send s))
                    = schedule k ++ [TInvoked k])
      by (rewrite Dt, map_app, Htrace; reflexivity).
    destruct (fst (send (message q)
                        (observe (Invoked k) (set_messageQueue rest s))))
      as [r|error|] eqn:Hc.
    + destruct Dlive as (Dh & Da); [discriminate|].
      apply (orderly_busy _ k (Return r)); try congruence; try lia.
      * rewrite Da, Hwait. reflexivity.
      * rewrite Dq, Dn, Hrest. f_equal. lia.
    + destruct Dlive as (Dh & Da); [discriminate|].
      apply (orderly_busy _ k (Throw error)); try congruence; try lia.
      * rewrite Da, Hwait. reflexivity.
      * rewrite Dq, Dn, Hrest. f_equal. lia.
    + destruct Dhung as (Dh & Da); [reflexivity|].
      apply (orderly_hung _ k); try congruence; lia.
Qed.

Lemma orderly_step a s :
  is_reset a = false -> orderly s -> orderly (step send a s).
Proof.
  intros Ha Hs. unfold step.
  destruct (hung s) eqn:Hhung; [exact Hs|].
  destruct a as [m| | |e]; [| | discriminate |].
  - (* a request is submitted *)
    unfold sendMessageQueued, processMessageQueue. simpl snd.
    destruct Hs as [_ Hflag Hwait Hq Htrace
                   | k c _ Hflag Hwait Hq Hk Htrace
                   | k Hh _ _ _ _]; [| |congruence].
    + simpl. rewrite Hflag, Hq. simpl.
      apply (orderly_drain _ (promises s)); cbn -[Nat.sub]; try assumption;
        try reflexivity; try lia.
      replace (S (promises s) - promises s)%nat with 1%nat by lia.
      reflexivity.
    + simpl. rewrite Hflag. simpl.
      apply (orderly_busy _ k c); cbn -[Nat.sub]; try assumption; try lia.
      rewrite map_app, Hq. cbn -[Nat.sub].
      replace (S (promises s) - S k)%nat with (S (promises s - S k)) by lia.
      rewrite seq_S. f_equal. f_equal. lia.
  - (* the suspended loop goes on *)
    unfold resume.
    destruct Hs as [_ Hflag Hwait Hq Htrace
                   | k c _ Hflag Hwait Hq Hk Htrace
                   | k Hh _ _ _ _]; [| |congruence].
    + rewrite Hwait. now apply orderly_idle.
    + rewrite Hwait.
      apply (orderly_drain _ (S k));
        [assumption | assumption | reflexivity | assumption | exact Hk |].
      cbn [trace observe set_awaiting].
      rewrite map_app, Htrace, schedule_succ, <- app_assoc. reflexivity.
  - (* a module is instantiated *)
    unfold instantiate, call. simpl.
    destruct Hs as [? ? ? ? ? | k c ? ? ? ? ? ? | k ? ? ? ? ?].
    + now apply orderly_idle.
    + now apply (orderly_busy _ k c).
    + now apply (orderly_hung _ k).
Qed.

Lemma orderly_run acts :
  forall s, forallb (fun a => negb (is_reset a)) acts = true ->
            orderly s -> orderly (run send acts s).
Proof.
  induction acts as [|a acts IH]; intros s Hacts Hs; [exact Hs|].
  simpl in Hacts. apply andb_prop in Hacts as (Ha & Hacts).
  simpl. apply IH; [exact Hacts|].
  apply orderly_step; [|exact Hs].
  now destruct (is_reset a).
Qed.

Lemma quiet_orderly s : quiet s -> orderly s.
Proof.
  intros (Hq & Hflag & Hn & Hwait & Htrace & Hhung).
  apply orderly_idle; try assumption. now rewrite Htrace, Hn.
Qed.

End Queue.

(** ** Observations in the order of the requests *)

Lemma in_schedule_settled p k : (p < k)%nat -> In (TSettled p) (schedule k).
Proof.
  intros Hp. unfold schedule. apply in_flat_map. exists p. split.
  - apply in_seq. lia.
  - simpl. auto.
Qed.

Lemma in_schedule_bound t k :
  In t (schedule k) ->
  exists p, (p < k)%nat /\ (t = TInvoked p \/ t = TSettled p).
Proof.
  unfold schedule. intros Hin. apply in_flat_map in Hin as (p & Hp & Ht).
  apply in_seq in Hp. exists p. split; [lia|].
  simpl in Ht. destruct Ht as [<- | [<- | []]]; auto.
Qed.

Lemma tagged_settled l p :
  In (TSettled p) (map tag_of l) -> exists c, In (Settled p c) l.
Proof.
  intros Hin. apply in_map_iff in Hin as ([q | q c] & Htag & Hin);
    [discriminate|].
  injection Htag as ->. eauto.
Qed.

Lemma serial_settled_below l k :
  map tag_of l = schedule k \/ map tag_of l = schedule k ++ [TInvoked k] ->
  settled_below k l.
Proof.
  intros Hshape p Hp. apply tagged_settled.
  destruct Hshape as [-> | ->]; [|apply in_or_app; left];
    now apply in_schedule_settled.
Qed.

(** The last observation of a serial trace, and the trace before it. *)
Lemma serial_last l e :
  serial (l ++ [e]) -> serial l /\ settled_below (request_of e) l.
Proof.
  intros (k & Hshape). rewrite map_app in Hshape. simpl in Hshape.
  destruct Hshape as [Hshape | Hshape].
  - destruct k as [|k]; [now destruct (map tag_of l)|].
    rewrite schedule_succ in Hshape.
    change [TInvoked k; TSettled k] with ([TInvoked k] ++ [TSettled k])
      in Hshape.
    rewrite app_assoc in Hshape.
    apply app_inj_tail in Hshape as (Hl & He).
    assert (request_of e = k) as -> by (destruct e; simpl in *; congruence).
    split; [exists k; now right|].
    apply serial_settled_below. now right.
  - apply app_inj_tail in Hshape as (Hl & He).
    assert (request_of e = k) as -> by (destruct e; simpl in *; congruence).
    split; [exists k; now left|].
    apply serial_settled_below. now left.
Qed.

Lemma serial_in_order l : serial l -> in_order l.
Proof.
  induction l as [|e l IH] using rev_ind; intros Hserial before x after Hsplit.
  - now destruct before.
  - destruct (serial_last l e Hserial) as (Hl & Hbelow).
    destruct after as [|y after] using rev_ind.
    + apply app_inj_tail in Hsplit as (<- & <-). exact Hbelow.
    + clear IHafter.
      change (before ++ x :: after ++ [y])
        with (before ++ (x :: after) ++ [y]) in Hsplit.
      rewrite app_assoc in Hsplit.
      apply app_inj_tail in Hsplit as (Hsplit & _).
      exact (IH Hl before x after Hsplit).
Qed.

Lemma serial_one_in_flight l p q :
  serial l -> in_flight l p -> in_flight l q -> p = q.
Proof.
  intros (k & Hshape) Hp Hq.
  assert (Hk : forall r, in_flight l r -> r = k).
  { intros r (Hin & Hopen).
    assert (Hnot : ~ (r < k)%nat).
    { intros Hlt. destruct (serial_settled_below l k Hshape r Hlt) as (c & Hc).
      exact (Hopen c Hc). }
    apply (in_map tag_of) in Hin. simpl in Hin.
    destruct Hshape as [Hshape | Hshape]; rewrite Hshape in Hin.
    - apply in_schedule_bound in Hin as (x & Hx & [[= ->] | [=]]). lia.
    - apply in_app_or in Hin as [Hin | [[= ->] | []]]; [|reflexivity].
      apply in_schedule_bound in Hin as (x & Hx & [[= ->] | [=]]). lia. }
  rewrite (Hk p Hp), (Hk q Hq). reflexivity.
Qed.

Lemma orderly_serial s : orderly s -> serial (trace s).
Proof.
  intros [? ? ? ? Ht | k c ? ? ? ? ? Ht | k ? ? ? ? Ht].
  - exists (promises s). now left.
  - exists k. now right.
  - exists k. now right.
Qed.

Lemma sendMessageQueued_numbers send m s :
  (forall m s, same_queue s (snd (send m s))) ->
  fst (sendMessageQueued send m s) = promises s
  /\ promises (snd (sendMessageQueued send m s)) = S (promises s).
Proof.
  intros Hframe. split; [reflexivity|].
  unfold sendMessageQueued, processMessageQueue. cbn [snd].
  destruct (_ || _); [reflexivity|].
  match goal with |- promises (drain send ?t) = _ => set (s1 := t) end.
  destruct (messageQueue s1) as [|q rest] eqn:Hq.
  - rewrite (drain_empty send s1 Hq). reflexivity.
  - destruct (drain_front send Hframe s1 q rest Hq) as (_ & _ & -> & _).
    reflexivity.
Qed.

(** ** Every request is served *)

Lemma settled_count_app l l' :
  settled_count (l ++ l') = (settled_count l + settled_count l')%nat.
Proof. unfold settled_count. now rewrite filter_app, length_app. Qed.

Lemma settled_count_tags l l' :
  map tag_of l = map tag_of l' -> settled_count l = settled_count l'.
Proof.
  revert l'. induction l as [|e l IH]; intros [|e' l']; try discriminate;
    [reflexivity|].
  simpl. intros [= He Hl]. unfold settled_count in *. simpl.
  destruct e, e'; try discriminate; simpl; rewrite (IH l' Hl); reflexivity.
Qed.

Lemma served_tags k : map tag_of (served k) = schedule k.
Proof.
  induction k as [|k IH]; [reflexivity|].
  simpl. now rewrite map_app, IH, schedule_succ.
Qed.

Lemma served_count k : settled_count (served k) = k.
Proof.
  induction k as [|k IH]; [reflexivity|].
  simpl. rewrite settled_count_app, IH. unfold settled_count. simpl. lia.
Qed.

Lemma schedule_count l k :
  map tag_of l = schedule k \/ map tag_of l = schedule k ++ [TInvoked k] ->
  settled_count l = k.
Proof.
  intros [Hl | Hl].
  - rewrite <- served_tags in Hl.
    now rewrite (settled_count_tags _ _ Hl), served_count.
  - change [TInvoked k] with (map tag_of [Invoked k]) in Hl.
    rewrite <- served_tags, <- map_app in Hl.
    rewrite (settled_count_tags _ _ Hl), settled_count_app, served_count.
    unfold settled_count. simpl. lia.
Qed.

Section Progress.

Variable send : WasmMessage -> Bridge -> completion * Bridge.
Hypothesis send_frame : forall m s, same_queue s (snd (send m s)).

Lemma run_app l1 l2 s : run send (l1 ++ l2) s = run send l2 (run send l1 s).
Proof. unfold run. apply fold_left_app. Qed.

Lemma hung_stays acts : forall s, hung s = true -> run send acts s = s.
Proof.
  induction acts as [|a acts IH]; intros s Hs; [reflexivity|].
  simpl. assert (step send a s = s) as -> by (unfold step; now rewrite Hs).
  now apply IH.
Qed.

Lemma not_hung_before acts s :
  hung (run send acts s) = false -> hung s = false.
Proof.
  intros Hend. destruct (hung s) eqn:Hs; [|reflexivity].
  rewrite (hung_stays acts s Hs) in Hend. congruence.
Qed.

Lemma drain_count s :
  settled_count (trace (drain send s)) = settled_count (trace s)
  /\ promises (drain send s) = promises s.
Proof.
  destruct (messageQueue s) as [|q rest] eqn:Hq.
  - rewrite (drain_empty send s Hq). split; reflexivity.
  - destruct (drain_front send send_frame s q rest Hq)
      as (_ & _ & -> & -> & _).
    rewrite settled_count_app. unfold settled_count at 2. simpl.
    split; [lia|reflexivity].
Qed.

Lemma submit_count m s :
  hung s = false ->
  settled_count (trace (step send (Submit m) s)) = settled_count (trace s)
  /\ promises (step send (Submit m) s) = S (promises s).
Proof.
  intros Hs. unfold step. rewrite Hs.
  split; [|apply sendMessageQueued_numbers; exact send_frame].
  unfold sendMessageQueued, processMessageQueue. cbn [snd].
  destruct (_ || _); [reflexivity|].
  now rewrite (proj1 (drain_count _)).
Qed.

(** An orderly bridge is idle with every promise settled, or waits for
    the call of a request that is not the last settled one. *)
Lemma orderly_count s :
  orderly s -> hung s = false ->
  (awaiting s = []
   /\ map tag_of (trace s) = schedule (promises s)
   /\ settled_count (trace s) = promises s)
  \/ (exists k c, awaiting s = [(k, c)]
                  /\ (settled_count (trace s) < promises s)%nat).
Proof.
  intros [_ _ Hwait _ Ht | k c _ _ Hwait _ Hk Ht | k Hh _ _ _ _] Hs;
    [| |congruence].
  - left. split; [exact Hwait|]. split; [exact Ht|].
    apply schedule_count. now left.
  - right. exists k, c. split; [exact Hwait|].
    rewrite (schedule_count (trace s) k); [exact Hk|now right].
Qed.

Lemma resume_count s :
  hung s = false ->
  promises (step send Resume s) = promises s
  /\ settled_count (trace (step send Resume s))
     = match awaiting s with
       | [] => settled_count (trace s)
       | _ :: _ => S (settled_count (trace s))
       end.
Proof.
  intros Hs. unfold step. rewrite Hs. unfold resume.
  destruct (awaiting s) as [|[p c] rest]; [split; reflexivity|].
  destruct (drain_count (observe (Settled p c) (set_awaiting rest s)))
    as (-> & ->).
  cbn [trace promises observe set_awaiting].
  rewrite settled_count_app. unfold settled_count at 2. simpl.
  split; [reflexivity|lia].
Qed.

Lemma after_submits ms :
  forall s, orderly s ->
            hung (run send (map Submit ms) s) = false ->
            orderly (run send (map Submit ms) s)
            /\ promises (run send (map Submit ms) s)
               = (promises s + List.length ms)%nat
            /\ settled_count (trace (run send (map Submit ms) s))
               = settled_count (trace s).
Proof.
  induction ms as [|m ms IH]; intros s Hs Hend.
  - simpl. repeat split; auto.
  - simpl in *. pose proof (not_hung_before _ _ Hend) as Hmid.
    assert (Hs0 : hung s = false).
    { destruct (hung s) eqn:E; [|reflexivity].
      unfold step in Hmid. rewrite E in Hmid. congruence. }
    destruct (submit_count m s Hs0) as (Hc & Hp).
    destruct (IH (step send (Submit m) s)) as (Ho & Hp' & Hc');
      [now apply orderly_step | exact Hend |].
    split; [exact Ho|]. split; [rewrite Hp', Hp; lia | congruence].
Qed.

Lemma after_resumes j :
  forall s, orderly s ->
            hung (run send (repeat Resume j) s) = false ->
            orderly (run send (repeat Resume j) s)
            /\ promises (run send (repeat Resume j) s) = promises s
            /\ settled_count (trace (run send (repeat Resume j) s))
               = Nat.min (promises s) (settled_count (trace s) + j).
Proof.
  induction j as [|j IH]; intros s Hs Hend.
  - simpl in *. split; [exact Hs|]. split; [reflexivity|].
    destruct (orderly_count s Hs Hend) as [(_ & _ & Hc) | (k & c & _ & Hc)]; lia.
  - simpl in *. pose proof (not_hung_before _ _ Hend) as Hmid.
    assert (Hs0 : hung s = false).
    { destruct (hung s) eqn:E; [|reflexivity].
      unfold step in Hmid. rewrite E in Hmid. congruence. }
    destruct (resume_count s Hs0) as (Hp & Hc).
    destruct (IH (step send Resume s)) as (Ho & Hp' & Hc');
      [now apply orderly_step | exact Hend |].
    split; [exact Ho|]. split; [congruence|].
    rewrite Hc', Hp, Hc.
    destruct (orderly_count s Hs Hs0)
      as [(Hw & _ & Hn) | (k & c & Hw & Hn)]; rewrite Hw; lia.
Qed.

(** All of [ms] submitted, then as many turns of the loop: unless the
    thread is stuck, every request has been served, in order. *)
Lemma all_served ms s :
  quiet s ->
  hung (run send (map Submit ms ++ repeat Resume (List.length ms)) s) = false ->
  map tag_of
      (trace (run send (map Submit ms ++ repeat Resume (List.length ms)) s))
  = schedule (List.length ms).
Proof.
  intros Hquiet. rewrite run_app. intros Hend.
  pose proof (not_hung_before _ _ Hend) as Hmid.
  destruct (after_submits ms s (quiet_orderly s Hquiet) Hmid)
    as (Ho & Hp & Hc).
  destruct (after_resumes (List.length ms) _ Ho Hend) as (Ho' & Hp' & Hc').
  destruct Hquiet as (_ & _ & Hn & _ & Ht & _).
  rewrite Hn in Hp. rewrite Ht in Hc. simpl in Hp, Hc.
  rewrite Hc, Hp in Hc'. rewrite Hp in Hp'. simpl in Hc'.
  rewrite Nat.min_id in Hc'.
  destruct (orderly_count _ Ho' Hend) as [(_ & Htags & _) | (k & c & _ & Hlt)].
  - now rewrite Htags, Hp'.
  - lia.
Qed.

End Progress.

(** ** Serving one by one *)

(** *** What a call reads and writes *)

Lemma record_call_rebase c t q :
  record_call c (rebase t q) = rebase (record_call c t) q.
Proof. reflexivity. Qed.

Lemma set_wasmIsDead_rebase b t q :
  set_wasmIsDead b (rebase t q) = rebase (set_wasmIsDead b t) q.
Proof. reflexivity. Qed.

Lemma store_rebase bytes offset t q :
  store bytes offset (rebase t q)
  = option_map (fun t' => rebase t' q) (store bytes offset t).
Proof.
  unfold store, buffer. cbn [wasmMemory calls rebase].
  destruct (wasmMemory t); [|reflexivity]. cbn [option_map].
  destruct (_ || _); reflexivity.
Qed.

Lemma read_debug_log_rebase e t q :
  read_debug_log e (rebase t q)
  = (fst (read_debug_log e t), rebase (snd (read_debug_log e t)) q).
Proof.
  unfold read_debug_log, call. cbn [calls rebase].
  destruct (has_getDebugLogBuffer e); [|reflexivity].
  destruct (respond e (calls t) getDebugLogBuffer) as [ptr|]; [|reflexivity].
  rewrite record_call_rebase.
  change (readNullTerminatedString (rebase (record_call getDebugLogBuffer t) q)
                                   ptr)
    with (readNullTerminatedString (record_call getDebugLogBuffer t) ptr).
  destruct (readNullTerminatedString _ ptr); reflexivity.
Qed.

Lemma log_after_success_rebase e t q :
  log_after_success e (rebase t q)
  = (fst (log_after_success e t), rebase (snd (log_after_success e t)) q).
Proof.
  unfold log_after_success. rewrite read_debug_log_rebase.
  destruct (read_debug_log e t) as [y t1]. cbn [fst snd].
  unfold call. cbn [calls rebase].
  destruct y; try reflexivity;
    destruct (has_clearDebugLog e); try reflexivity;
    destruct (respond e (calls t1) clearDebugLog); reflexivity.
Qed.

Lemma catch_block_rebase e error t q :
  catch_block e error (rebase t q)
  = (fst (catch_block e error t), rebase (snd (catch_block e error t)) q).
Proof.
  unfold catch_block. destruct (is_RuntimeError error); [|reflexivity].
  rewrite set_wasmIsDead_rebase, read_debug_log_rebase.
  destruct (read_debug_log e (set_wasmIsDead true t)) as [y t1].
  destruct y; reflexivity.
Qed.

Ltac rebasing :=
  rewrite ?record_call_rebase; cbn [calls rebase fst snd]; cbv beta iota.

Lemma status_code_try_rebase e mem m t q :
  StatusCode.try_block e mem m (rebase t q)
  = rebased q (StatusCode.try_block e mem m t).
Proof.
  unfold StatusCode.try_block, rebased, call. cbv zeta. rebasing.
  destruct (respond e (calls t) (allocateMessageBuffer _)) as [mp|];
    [|reflexivity].
  destruct (mp =? 0); [reflexivity|].
  rewrite store_rebase.
  destruct (store _ mp _) as [t2|]; [|reflexivity]. cbn [option_map].
  rebasing.
  destruct (respond e (calls t2) (allocateResponseBuffer _)) as [rp|];
    [|reflexivity].
  destruct (rp =? 0); [reflexivity|].
  destruct (respond e _ (processMessage _ _ _ _)) as [code|]; [|reflexivity].
  destruct (negb (code =? 0)); [reflexivity|].
  destruct (StatusCode.decode_response _ rp); [reflexivity|].
  rebasing. rewrite log_after_success_rebase.
  destruct (log_after_success e _) as [y t5]. destruct y; reflexivity.
Qed.

Lemma status_code_finally_rebase e mp rp pending t q :
  StatusCode.finally_block e mp rp pending (rebase t q)
  = rebased q (StatusCode.finally_block e mp rp pending t).
Proof.
  unfold StatusCode.finally_block, rebased, call. cbv zeta.
  destruct mp as [mp|], rp as [rp|]; rebasing; try reflexivity.
  - destruct (respond e (calls t) freeMessageBuffer); [|reflexivity].
    rebasing.
    destruct (respond e _ freeResponseBuffer); reflexivity.
  - destruct (respond e (calls t) freeMessageBuffer); reflexivity.
  - destruct (respond e (calls t) freeResponseBuffer); reflexivity.
Qed.

Lemma status_code_send_rebase m t q :
  StatusCode.sendMessageToWasm m (rebase t q)
  = rebased q (StatusCode.sendMessageToWasm m t).
Proof.
  unfold StatusCode.sendMessageToWasm. cbn [wasmIsDead wasmModule wasmMemory
                                            rebase].
  destruct (wasmIsDead t); [reflexivity|].
  destruct (wasmModule t) as [e|]; [|reflexivity].
  destruct (wasmMemory t) as [mem|]; [|reflexivity].
  rewrite status_code_try_rebase. unfold rebased at 1.
  destruct (StatusCode.try_block e mem m t) as [[[tried mp] rp] t1].
  cbn [fst snd].
  destruct tried as [r|error|]; [| |reflexivity].
  - apply status_code_finally_rebase.
  - rewrite catch_block_rebase.
    destruct (catch_block e error t1) as [caught t2]. cbn [fst snd].
    destruct caught; [| |reflexivity]; apply status_code_finally_rebase.
Qed.

Lemma pointer_return_try_rebase e mem m t q :
  PointerReturn.try_block e mem m (rebase t q)
  = rebased q (PointerReturn.try_block e mem m t).
Proof.
  unfold PointerReturn.try_block, rebased, call. cbv zeta. rebasing.
  destruct (respond e (calls t) (allocateMessageBuffer _)) as [mp|];
    [|reflexivity].
  destruct (mp =? 0); [reflexivity|].
  rewrite store_rebase.
  destruct (store _ mp _) as [t2|]; [|reflexivity]. cbn [option_map].
  rebasing.
  destruct (respond e (calls t2) (processAndRespond _ _)) as [rp|];
    [|reflexivity].
  destruct (respond e _ freeMessageBuffer); [|reflexivity].
  destruct (rp =? 0); [reflexivity|].
  destruct (_ =? 0); [reflexivity|].
  destruct (JSON_parse _); [|reflexivity].
  destruct (respond e _ (freeWasmString rp)); [|reflexivity].
  rebasing. rewrite log_after_success_rebase.
  destruct (log_after_success e _) as [y t6]. destruct y; reflexivity.
Qed.

Lemma pointer_return_finally_rebase e mp rp pending t q :
  PointerReturn.finally_block e mp rp pending (rebase t q)
  = rebased q (PointerReturn.finally_block e mp rp pending t).
Proof.
  unfold PointerReturn.finally_block, rebased, call. cbv zeta.
  destruct mp as [mp|], rp as [rp|]; reflexivity.
Qed.

Lemma pointer_return_send_rebase m t q :
  PointerReturn.sendMessageToWasm m (rebase t q)
  = rebased q (PointerReturn.sendMessageToWasm m t).
Proof.
  unfold PointerReturn.sendMessageToWasm. cbn [wasmIsDead wasmModule wasmMemory
                                               rebase].
  destruct (wasmIsDead t); [reflexivity|].
  destruct (wasmModule t) as [e|]; [|reflexivity].
  destruct (wasmMemory t) as [mem|]; [|reflexivity].
  rewrite pointer_return_try_rebase. unfold rebased at 1.
  destruct (PointerReturn.try_block e mem m t) as [[[tried mp] rp] t1].
  cbn [fst snd].
  destruct tried as [r|error|]; [| |reflexivity].
  - apply pointer_return_finally_rebase.
  - rewrite catch_block_rebase.
    destruct (catch_block e error t1) as [caught t2]. cbn [fst snd].
    destruct caught; [| |reflexivity]; apply pointer_return_finally_rebase.
Qed.

Lemma sendMessageToWasm_rebase v m t q :
  sendMessageToWasm v m (rebase t q) = rebased q (sendMessageToWasm v m t).
Proof.
  destruct v; [apply status_code_send_rebase|apply pointer_return_send_rebase].
Qed.

(** *** The queue against the requests served one by one *)

Section Delivery.

Variable send : WasmMessage -> Bridge -> completion * Bridge.

Hypothesis send_rebase :
  forall m t q, send m (rebase t q) = rebased q (send m t).

Lemma rebase_frame m s : same_queue s (snd (send m s)).
Proof.
  assert (Hs : s = rebase s s) by (now destruct s).
  rewrite Hs at 2. rewrite send_rebase. repeat split.
Qed.

Lemma same_core_rebase s t : same_core s t -> s = rebase t s.
Proof.
  intros (H1 & H2 & H3 & H4). destruct s. cbn in *. subst. reflexivity.
Qed.

Lemma serve_from_snoc ms m :
  forall p s,
    serve_from send p (ms ++ [m]) s
    = serve send (serve_from send p ms s) ((p + List.length ms)%nat, m).
Proof.
  induction ms as [|a ms IH]; intros p s; cbn [serve_from app List.length].
  - now rewrite Nat.add_0_r.
  - rewrite IH. do 2 f_equal. lia.
Qed.

Lemma served_snoc ms m s :
  served_one_by_one send (ms ++ [m]) s
  = serve send (served_one_by_one send ms s) (List.length ms, m).
Proof. unfold served_one_by_one. now rewrite serve_from_snoc. Qed.

Lemma skipn_head {A : Type} :
  forall (l : list A) j x r,
    skipn j l = x :: r ->
    firstn (S j) l = firstn j l ++ [x] /\ skipn (S j) l = r
    /\ (j < List.length l)%nat.
Proof.
  induction l as [|a l IH]; intros j x r H.
  - destruct j; discriminate.
  - destruct j as [|j].
    + injection H as <- <-. cbn [firstn skipn app List.length].
      split; [reflexivity|split; [reflexivity|lia]].
    + cbn [skipn] in H. destruct (IH j x r H) as (Hf & Hs & Hl).
      cbn [firstn skipn List.length app] in *. rewrite <- Hs.
      split; [|split; [reflexivity|lia]].
      change (firstn (S (S j)) (a :: l)) with (a :: firstn (S j) l).
      now rewrite Hf.
Qed.

(** One turn of the loop serves the head of the queue. *)
Lemma drain_serves s t q0 rest :
  messageQueue s = q0 :: rest -> hung s = false -> hung t = false ->
  awaiting s = [] -> same_core s t ->
  let s' := drain send s in
  let t' := serve send t (promise q0, message q0) in
  same_core s' t' /\ hung s' = hung t'
  /\ trace s' ++ map settlement (awaiting s')
     = trace s ++ (skipn (List.length (trace t)) (trace t'))
  /\ trace t' = trace t ++ skipn (List.length (trace t)) (trace t')
  /\ messageQueue s' = rest
  /\ messageInProgress s' = messageInProgress s
  /\ promises s' = promises s
  /\ (hung s' = false ->
      exists c, awaiting s' = [(promise q0, c)]).
Proof.
  intros Hq Hhs Hht Hwait Hcore. cbv zeta.
  unfold drain, serve. rewrite Hq, Hht. cbn [fst snd].
  set (s1 := observe (Invoked (promise q0)) (set_messageQueue rest s)).
  set (t0 := observe (Invoked (promise q0)) t).
  assert (Hs1 : s1 = rebase t0 s1).
  { apply same_core_rebase. destruct Hcore as (H1 & H2 & H3 & H4).
    repeat split; assumption. }
  rewrite Hs1, send_rebase. unfold rebased.
  pose proof (rebase_frame (message q0) t0) as (Fq & Fp & Fn & Fa & Ft & Fh).
  destruct (send (message q0) t0) as [c t1]. cbn [fst snd] in *.
  assert (Htrace : trace t1 = trace t ++ [Invoked (promise q0)])
    by (rewrite Ft; reflexivity).
  assert (Hskip : forall tail,
             skipn (List.length (trace t)) (trace t ++ tail) = tail).
  { intros tail. rewrite skipn_app, skipn_all, Nat.sub_diag. reflexivity. }
  assert (Hh1 : hung t1 = false) by (rewrite Fh; exact Hht).
  assert (S1 : hung s1 = false /\ awaiting s1 = []
               /\ trace s1 = trace s ++ [Invoked (promise q0)]
               /\ messageQueue s1 = rest
               /\ messageInProgress s1 = messageInProgress s
               /\ promises s1 = promises s)
    by (subst s1; cbn; rewrite Hhs, Hwait; repeat split).
  destruct S1 as (S1h & S1a & S1t & S1q & S1p & S1n).
  clearbody s1.
  destruct c as [r|error|];
    cbn [trace awaiting hung observe hang set_awaiting rebase
         set_messageQueue messageQueue messageInProgress promises
         map settlement fst snd app];
    rewrite ?Htrace, ?S1h, ?S1a, ?S1t, ?S1q, ?S1p, ?S1n, ?Hh1, <- ?app_assoc;
    cbn [app];
    rewrite ?Hskip;
    (split; [repeat split|]); (split; [reflexivity|]);
    (split; [reflexivity|]); (split; [reflexivity|]);
    (split; [reflexivity|]); (split; [reflexivity|]);
    (split; [reflexivity|]); try (intros _; eexists; reflexivity);
    try discriminate.
Qed.

Lemma agrees_more s0 ms extra j s :
  (j <= List.length ms)%nat ->
  agrees send s0 ms j s -> agrees send s0 (ms ++ extra) j s.
Proof.
  intros Hj. unfold agrees.
  rewrite firstn_app.
  replace (j - List.length ms)%nat with 0%nat by lia.
  cbn [firstn]. now rewrite app_nil_r.
Qed.

(** A loop that holds the flag and tests the queue, the first [j]
    requests served and the later ones queued in order. *)
Lemma delivered_drain s0 ms s j :
  hung s = false -> messageInProgress s = true -> awaiting s = [] ->
  (j <= List.length ms)%nat -> promises s = List.length ms ->
  map message (messageQueue s) = skipn j ms ->
  map promise (messageQueue s) = seq j (List.length ms - j) ->
  agrees send s0 ms j s ->
  delivered send s0 ms (drain send s).
Proof.
  intros Hhung Hflag Hwait Hj Hn Hmsgs Hids Hagrees.
  destruct (messageQueue s) as [|q0 rest] eqn:Hq.
  - rewrite (drain_empty send s Hq).
    assert (j = List.length ms) as ->.
    { destruct (List.length ms - j)%nat eqn:E; [lia|discriminate]. }
    apply delivered_idle; try assumption; reflexivity.
  - cbn [map] in Hmsgs, Hids. symmetry in Hmsgs.
    destruct (skipn_head _ _ _ _ Hmsgs) as (Hfirst & Hrest & Hlt).
    destruct (List.length ms - j)%nat as [|n] eqn:Hlen; [discriminate|].
    cbn [seq] in Hids. injection Hids as Hp Hids.
    destruct Hagrees as (Htrace & Hcore & Hh).
    set (t := served_one_by_one send (firstn j ms) s0) in *.
    assert (Hht : hung t = false) by congruence.
    destruct (drain_serves s t q0 rest Hq Hhung Hht Hwait Hcore)
      as (Dcore & Dh & Dtrace & Dt & Dq & Dflag & Dn & Dwait).
    cbv zeta in *.
    assert (Ht' : serve send t (promise q0, message q0)
                  = served_one_by_one send (firstn (S j) ms) s0).
    { rewrite Hfirst, served_snoc. fold t.
      rewrite length_firstn, Nat.min_l by lia. now rewrite Hp. }
    rewrite Ht' in *.
    assert (Hagrees' : agrees send s0 ms (S j) (drain send s)).
    { split; [|split; assumption].
      rewrite Hwait in Htrace. cbn [map] in Htrace.
      rewrite app_nil_r in Htrace. rewrite Dtrace, Htrace.
      symmetry. exact Dt. }
    destruct (hung (drain send s)) eqn:Hh'.
    + apply (delivered_hung _ _ _ _ (S j)); [assumption|lia|assumption].
    + destruct (Dwait eq_refl) as (c & Hc). rewrite Hp in Hc.
      apply (delivered_busy _ _ _ _ j c); try assumption; try congruence.
      rewrite Dq, Hids. f_equal. lia.
Qed.

Lemma delivered_step s0 ms a s :
  is_queue_action a = true ->
  delivered send s0 ms s ->
  delivered send s0 (ms ++ submitted [a]) (step send a s).
Proof.
  intros Ha Hs. unfold step.
  destruct (hung s) eqn:Hhung.
  { destruct Hs as [Hh|j c Hh|j Hh Hj Hagrees]; try congruence.
    apply (delivered_hung _ _ _ _ j); [assumption| |].
    - rewrite length_app. lia.
    - now apply agrees_more. }
  destruct a as [m| | |e]; try discriminate.
  - (* a request is submitted *)
    cbn [submitted flat_map app].
    unfold sendMessageQueued, processMessageQueue. cbn [snd].
    destruct Hs as [_ Hflag Hwait Hq Hn Hagrees
                   | j c _ Hflag Hwait Hj Hn Hmsgs Hids Hagrees
                   | j Hh _ _]; [| |congruence].
    + cbn [messageInProgress set_messageQueue new_promise messageQueue].
      rewrite Hflag, Hq. cbn [app List.length Nat.eqb orb].
      apply (delivered_drain _ _ _ (List.length ms));
        cbn [hung awaiting messageInProgress promises messageQueue
             set_messageInProgress set_messageQueue new_promise
             map message promise]; try assumption; try reflexivity.
      * rewrite length_app. lia.
      * rewrite length_app, Hn. cbn [List.length]. lia.
      * rewrite skipn_app, skipn_all, Nat.sub_diag. reflexivity.
      * rewrite length_app, Hn. cbn [List.length].
        replace (List.length ms + 1 - List.length ms)%nat with 1%nat by lia.
        reflexivity.
      * apply agrees_more; [lia|].
        destruct Hagrees as (Ht & Hc & Hh). split; [exact Ht|].
        split; [exact Hc|exact Hh].
    + cbn [messageInProgress set_messageQueue new_promise].
      rewrite Hflag. cbn [orb].
      apply (delivered_busy _ _ _ _ j c);
        cbn [hung awaiting messageInProgress promises messageQueue
             set_messageQueue new_promise]; try assumption.
      * rewrite length_app. lia.
      * rewrite length_app, Hn. cbn [List.length]. lia.
      * rewrite map_app, Hmsgs, skipn_app.
        replace (S j - List.length ms)%nat with 0%nat by lia. reflexivity.
      * rewrite map_app, Hids, length_app, Hn. cbn [map promise List.length].
        replace (List.length ms + 1 - S j)%nat
          with (S (List.length ms - S j)) by lia.
        rewrite seq_S. do 2 f_equal. lia.
      * apply agrees_more; [lia|].
        destruct Hagrees as (Ht & Hc & Hh). split; [exact Ht|].
        split; [exact Hc|exact Hh].
  - (* the suspended loop goes on *)
    cbn [submitted flat_map]. rewrite app_nil_r. unfold resume.
    destruct Hs as [Hh Hflag Hwait Hq Hn Hagrees
                   | j c Hh Hflag Hwait Hj Hn Hmsgs Hids Hagrees
                   | j Hh _ _]; [| |congruence].
    + rewrite Hwait. now apply delivered_idle.
    + rewrite Hwait.
      apply (delivered_drain _ _ _ (S j));
        cbn [hung awaiting messageInProgress promises messageQueue
             observe set_awaiting]; try assumption; try reflexivity; try lia.
      destruct Hagrees as (Ht & Hc & Hh'). rewrite Hwait in Ht.
      split; [|split; [exact Hc|exact Hh']].
      cbn [trace awaiting observe set_awaiting map]. rewrite app_nil_r.
      exact Ht.
Qed.

Lemma delivered_run s0 acts :
  forall ms s,
    forallb is_queue_action acts = true ->
    delivered send s0 ms s ->
    delivered send s0 (ms ++ submitted acts) (run send acts s).
Proof.
  induction acts as [|a acts IH]; intros ms s Hacts Hs.
  - cbn [submitted flat_map run fold_left]. now rewrite app_nil_r.
  - cbn [forallb] in Hacts. apply andb_prop in Hacts as (Ha & Hacts).
    replace (submitted (a :: acts)) with (submitted [a] ++ submitted acts)
      by (unfold submitted; cbn [flat_map]; now rewrite app_nil_r).
    rewrite app_assoc. change (run send (a :: acts) s)
      with (run send acts (step send a s)).
    apply IH; [exact Hacts|]. now apply delivered_step.
Qed.

Lemma quiet_delivered s : quiet s -> delivered send s [] s.
Proof.
  intros (Hq & Hflag & Hn & Hwait & Htrace & Hhung).
  apply delivered_idle; try assumption.
  unfold agrees. unfold served_one_by_one; cbn [firstn List.length serve_from].
  rewrite Hwait. cbn [map]. rewrite app_nil_r. repeat split.
Qed.

Lemma delivered_agrees s0 ms s :
  delivered send s0 ms s ->
  exists j, (j <= List.length ms)%nat /\ agrees send s0 ms j s
            /\ (hung s = false ->
                promises s = List.length ms
                /\ map message (messageQueue s) = skipn j ms).
Proof.
  intros [Hh Hflag Hwait Hq Hn Hagrees
         | j c Hh Hflag Hwait Hj Hn Hmsgs Hids Hagrees
         | j Hh Hj Hagrees].
  - exists (List.length ms). split; [lia|]. split; [exact Hagrees|].
    intros _. split; [exact Hn|]. rewrite Hq, skipn_all2; [reflexivity|lia].
  - exists (S j). split; [lia|]. split; [exact Hagrees|].
    intros _. split; [exact Hn|exact Hmsgs].
  - exists j. split; [exact Hj|]. split; [exact Hagrees|]. congruence.
Qed.

Lemma serve_trace_length t pm :
  (List.length (trace (serve send t pm)) <= List.length (trace t) + 2)%nat.
Proof.
  unfold serve. destruct (hung t); [lia|].
  pose proof (rebase_frame (snd pm) (observe (Invoked (fst pm)) t))
    as (_ & _ & _ & _ & Ft & _).
  destruct (send (snd pm) _) as [c t1]. cbn [snd] in Ft.
  destruct c; cbn [trace observe hang]; rewrite ?length_app, Ft;
    cbn [trace observe]; rewrite length_app; cbn [List.length]; lia.
Qed.

Lemma serve_from_trace_length ms :
  forall p t,
    (List.length (trace (serve_from send p ms t))
     <= List.length (trace t) + 2 * List.length ms)%nat.
Proof.
  induction ms as [|m ms IH]; intros p t; cbn [serve_from List.length];
    [lia|].
  specialize (IH (S p) (serve send t (p, m))).
  pose proof (serve_trace_length t (p, m)). lia.
Qed.

End Delivery.


Lemma schedule_length k : List.length (schedule k) = (2 * k)%nat.
Proof.
  induction k as [|k IH]; [reflexivity|].
  rewrite schedule_succ, length_app, IH. cbn [List.length]. lia.
Qed.

Lemma submitted_submits ms n :
  submitted (map Submit ms ++ repeat Resume n) = ms.
Proof.
  unfold submitted. rewrite flat_map_app.
  replace (flat_map _ (repeat Resume n)) with (@nil WasmMessage)
    by (induction n; [reflexivity|assumption]).
  rewrite app_nil_r. induction ms as [|m ms IH]; [reflexivity|].
  cbn [map flat_map app]. now rewrite IH.
Qed.

Lemma submits_queue_actions ms n :
  forallb is_queue_action (map Submit ms ++ repeat Resume n) = true.
Proof.
  rewrite forallb_app. apply andb_true_iff. split.
  - induction ms; [reflexivity|assumption].
  - induction n; [reflexivity|assumption].
Qed.

(** After as many turns of the loop as requests were submitted, the
    bridge is where serving them one by one leaves it. *)
Lemma all_delivered v ms s :
  quiet s ->
  let served_ := run (sendMessageToWasm v)
                     (map Submit ms ++ repeat Resume (List.length ms)) s in
  hung served_ = false ->
  agrees (sendMessageToWasm v) s ms (List.length ms) served_
  /\ awaiting served_ = [].
Proof.
  intros Hquiet served_ Hend.
  pose proof (all_served _ (sendMessageToWasm_frame v) ms s Hquiet Hend)
    as Htags.
  pose proof (delivered_run _ (sendMessageToWasm_rebase v) s
                _ [] s (submits_queue_actions ms (List.length ms))
                (quiet_delivered _ s Hquiet)) as Hd.
  cbn [app] in Hd. rewrite submitted_submits in Hd. fold served_ in Hd, Htags.
  destruct Hd as [_ _ Hwait _ _ Hagrees
                 | j c _ _ Hwait Hj _ _ _ Hagrees
                 | j Hh _ _]; [| |congruence].
  - split; assumption.
  - exfalso. destruct Hagrees as (Htrace & _).
    apply (f_equal (@List.length event)) in Htrace.
    rewrite length_app, Hwait in Htrace. cbn [map List.length] in Htrace.
    pose proof (serve_from_trace_length
                  _ (sendMessageToWasm_rebase v) (firstn (S j) ms) 0 s)
      as Hbound.
    fold (served_one_by_one (sendMessageToWasm v) (firstn (S j) ms) s)
      in Hbound.
    rewrite length_firstn in Hbound.
    apply (f_equal (@List.length tag)) in Htags.
    rewrite length_map, schedule_length in Htags.
    destruct Hquiet as (_ & _ & _ & _ & Ht & _). rewrite Ht in Hbound.
    cbn [List.length] in Hbound. lia.
Qed.

(** C2.  On a bridge that is not reset, whatever requests are submitted
    and whenever the drain loop goes on: the promises are numbered in
    the order of submission; the observations are those of requests
    served one after the other in that order; so when the call cycle of
    a request begins, and when a request is settled, every request
    submitted before it has been settled.  And the requests are served:
    after as many turns of the loop as requests were submitted, each has
    been invoked and settled, unless a call did not return.

    Each caller gets the response of its own request.  At every moment
    of a run of submits and turns of the loop, the calls made on the
    module and what has been observed, with the settlement a suspended
    loop is about to make, are those of the first [j] submitted requests
    served one by one in the order of submission, each invoked on the
    state the one before has left and its promise settled with the
    result of [sendMessageToWasm] on its own message; the requests
    after the first [j] wait in the queue, in order.  After as many
    turns of the loop as requests were submitted the observations and
    the calls are those of all requests served one by one. *)
Theorem requests_settled_in_submission_order
        (v : convention) (s : Bridge) (acts : list action) :
  quiet s -> no_reset acts ->
  let s' := run (sendMessageToWasm v) acts s in
  serial (trace s')
  /\ in_order (trace s')
  /\ (forall m t,
         fst (sendMessageQueued (sendMessageToWasm v) m t) = promises t
         /\ promises (snd (sendMessageQueued (sendMessageToWasm v) m t))
            = S (promises t))
  /\ (forall ms,
         let served_ := run (sendMessageToWasm v)
                            (map Submit ms ++ repeat Resume (List.length ms))
                            s in
         hung served_ = false ->
         map tag_of (trace served_) = schedule (List.length ms))
  /\ (queue_actions acts ->
      exists j,
        (j <= List.length (submitted acts))%nat
        /\ let t := served_one_by_one (sendMessageToWasm v)
                                      (firstn j (submitted acts)) s in
           trace s' ++ map settlement (awaiting s') = trace t
           /\ calls s' = calls t
           /\ wasmIsDead s' = wasmIsDead t
           /\ hung s' = hung t
           /\ (hung s' = false ->
               promises s' = List.length (submitted acts)
               /\ map message (messageQueue s') = skipn j (submitted acts)))
  /\ (forall ms,
         let served_ := run (sendMessageToWasm v)
                            (map Submit ms ++ repeat Resume (List.length ms))
                            s in
         hung served_ = false ->
         trace served_
         = trace (served_one_by_one (sendMessageToWasm v) ms s)
         /\ calls served_
            = calls (served_one_by_one (sendMessageToWasm v) ms s)).
Proof.
  intros Hquiet Hacts s'.
  assert (Hserial : serial (trace s')).
  { apply orderly_serial.
    apply (orderly_run _ (sendMessageToWasm_frame v) acts s Hacts).
    now apply quiet_orderly. }
  split; [exact Hserial|]. split; [now apply serial_in_order|].
  split; [|split; [|split]].
  - intros m t. apply sendMessageQueued_numbers. apply sendMessageToWasm_frame.
  - intros ms served_ Hend.
    exact (all_served _ (sendMessageToWasm_frame v) ms s Hquiet Hend).
  - intros Hqueue.
    pose proof (delivered_run _ (sendMessageToWasm_rebase v) s acts [] s
                  Hqueue (quiet_delivered _ s Hquiet)) as Hd.
    cbn [app] in Hd. fold s' in Hd.
    destruct (delivered_agrees _ _ _ _ Hd)
      as (j & Hj & (Htrace & Hcore & Hhung) & Hqueued).
    exists j. split; [exact Hj|]. cbv zeta.
    destruct Hcore as (_ & _ & Hdead & Hcalls).
    split; [exact Htrace|]. split; [exact Hcalls|]. split; [exact Hdead|].
    split; [exact Hhung|exact Hqueued].
  - intros ms served_ Hend.
    destruct (all_delivered v ms s Hquiet Hend)
      as ((Htrace & Hcore & _) & Hwait).
    rewrite firstn_all in Htrace, Hcore. fold served_ in Htrace, Hcore, Hwait.
    rewrite Hwait in Htrace. cbn [map] in Htrace.
    rewrite app_nil_r in Htrace. split; [exact Htrace|apply Hcore].
Qed.

Lemma loaded_quiet e : quiet (loaded e).
Proof. repeat split. Qed.

Lemma requests_settled_in_submission_order_witness :
  in_order
    (trace (run (sendMessageToWasm status_code)
                [Submit (request "INIT"); Submit (request "RESET");
                 Resume; Submit (request "QUERY_AST"); Resume; Resume]
                (loaded (answering 0 (prefixed success_text)))))
  /\ trace (run (sendMessageToWasm status_code)
                (map Submit [request "INIT"; request "RESET"]
                 ++ repeat Resume 2)
                (loaded (answering 0 (prefixed success_text))))
     = [Invoked 0; Settled 0 (Return (JObj [("status", JStr "SUCCESS")]));
        Invoked 1; Settled 1 (Return (JObj [("status", JStr "SUCCESS")]))].
Proof.
  split.
  - apply (requests_settled_in_submission_order
             status_code (loaded (answering 0 (prefixed success_text)))
             [Submit (request "INIT"); Submit (request "RESET");
              Resume; Submit (request "QUERY_AST"); Resume; Resume]).
    + apply loaded_quiet.
    + reflexivity.
  - destruct (requests_settled_in_submission_order
                status_code (loaded (answering 0 (prefixed success_text))) []
                (loaded_quiet _) eq_refl)
      as (_ & _ & _ & _ & _ & Hall).
    destruct (Hall [request "INIT"; request "RESET"] eq_refl) as (Htrace & _).
    etransitivity; [exact Htrace|]. vm_compute. reflexivity.
Defined.

Example three_requests_in_turn :
  map tag_of
      (trace (run (sendMessageToWasm status_code)
                  [Submit (request "INIT"); Submit (request "RESET");
                   Resume; Submit (request "QUERY_AST"); Resume; Resume]
                  (loaded (answering 0 (prefixed success_text)))))
  = [TInvoked 0; TSettled 0; TInvoked 1; TSettled 1; TInvoked 2; TSettled 2].
Proof. reflexivity. Qed.

(** ** One drain loop *)

Lemma orderly_one_loop s :
  orderly s ->
  (List.length (awaiting s) <= 1)%nat
  /\ (awaiting s <> [] -> messageInProgress s = true)
  /\ (messageInProgress s = false -> messageQueue s = [] /\ awaiting s = []).
Proof.
  intros [? Hflag Hwait Hq ? | k c ? Hflag Hwait ? ? ? | k ? Hflag Hwait ? ?];
    rewrite Hwait, Hflag; simpl; repeat split; auto; congruence.
Qed.

(** C3.  A request submitted while the flag is set only joins the
    queue: no call is made on the module and no loop is started.  On a
    bridge that is not reset at most one drain loop is suspended, it
    holds the flag, and at most one request is in flight: a call cycle
    has begun for it and its promise is not yet settled. *)
Theorem one_call_in_flight (v : convention) :
  (forall s m,
      hung s = false -> messageInProgress s = true ->
      let s' := step (sendMessageToWasm v) (Submit m) s in
      s' = set_messageQueue
             (messageQueue s ++ [{| message := m; promise := promises s |}])
             (new_promise s)
      /\ calls s' = calls s /\ awaiting s' = awaiting s
      /\ trace s' = trace s)
  /\ (forall s acts,
         quiet s -> no_reset acts ->
         let s' := run (sendMessageToWasm v) acts s in
         (List.length (awaiting s') <= 1)%nat
         /\ (awaiting s' <> [] -> messageInProgress s' = true)
         /\ (messageInProgress s' = false ->
             messageQueue s' = [] /\ awaiting s' = [])
         /\ (forall p q,
                in_flight (trace s') p -> in_flight (trace s') q -> p = q)).
Proof.
  split.
  - intros s m Hhung Hflag s'. subst s'. unfold step. rewrite Hhung.
    unfold sendMessageQueued, processMessageQueue. cbn [snd].
    cbn [messageInProgress set_messageQueue new_promise]. rewrite Hflag.
    cbn [orb]. repeat split.
  - intros s acts Hquiet Hacts s'.
    assert (Horderly : orderly s').
    { apply (orderly_run _ (sendMessageToWasm_frame v) acts s Hacts).
      now apply quiet_orderly. }
    destruct (orderly_one_loop s' Horderly) as (Hone & Hflag & Hidle).
    repeat (split; [assumption|]).
    intros p q. apply serial_one_in_flight. now apply orderly_serial.
Qed.

Lemma one_call_in_flight_witness :
  (List.length
     (awaiting (busy_bridge pointer_return
                            (answering 64 (terminated success_text)))) <= 1)%nat
  /\ calls (step (sendMessageToWasm pointer_return)
                 (Submit (request "QUERY_AST"))
                 (busy_bridge pointer_return
                              (answering 64 (terminated success_text))))
     = calls (busy_bridge pointer_return
                          (answering 64 (terminated success_text))).
Proof.
  destruct (one_call_in_flight pointer_return) as (Hjoin & Hone).
  split.
  - apply (Hone initial (busy_actions (answering 64 (terminated success_text)))).
    + repeat split.
    + reflexivity.
  - apply (Hjoin _ (request "QUERY_AST")); reflexivity.
Defined.

(** ** A deactivated module *)

(** *** A trap of the entry point sets the flag *)

Lemma read_debug_log_keeps_flag e s x s' :
  read_debug_log e s = (x, s') -> wasmIsDead s' = wasmIsDead s.
Proof.
  unfold read_debug_log, call. destruct (has_getDebugLogBuffer e).
  - destruct (respond e (calls s) getDebugLogBuffer) as [ptr|];
      [destruct (readNullTerminatedString _ ptr)|];
      intros [= _ <-]; reflexivity.
  - intros [= _ <-]. reflexivity.
Qed.

(** When the entry point traps, the call of the status-code bridge does
    not return a response, and it leaves the module deactivated. *)
Lemma entry_trap_deactivates e mem m s mp rp s3 c s' :
  alive e mem s ->
  reaches_entry e m s mp rp s3 ->
  respond e (calls s3)
          (processMessage mp (encoded_length m) rp StatusCode.responseBufferSize)
  = Traps ->
  StatusCode.sendMessageToWasm m s = (c, s') ->
  wasmIsDead s' = true /\ (c = Diverge \/ exists error, c = Throw error).
Proof.
  intros (Hdead & Hmod & Hmem) (s2 & (s1 & Halloc & Hmp & Hstore) & Hresp & Hrp)
         Hentry.
  unfold encoded_length, encoded in *.
  unfold StatusCode.sendMessageToWasm, StatusCode.try_block. cbv zeta.
  rewrite Hdead, Hmod, Hmem, Halloc.
  apply Z.eqb_neq in Hmp. rewrite Hmp. rewrite Hstore, Hresp.
  apply Z.eqb_neq in Hrp. rewrite Hrp.
  unfold call at 1. rewrite Hentry. cbv beta iota.
  unfold catch_block. cbn [is_RuntimeError].
  destruct (read_debug_log e _) as [y s5] eqn:Hread.
  apply read_debug_log_keeps_flag in Hread. cbn [wasmIsDead set_wasmIsDead] in Hread.
  assert (Hfin : forall error c0 s0,
             StatusCode.finally_block e (Some mp) (Some rp) (Throw error) s5
             = (c0, s0) ->
             wasmIsDead s0 = true /\ (c0 = Diverge \/ exists x, c0 = Throw x)).
  { intros error c0 s0 Hf.
    destruct (status_code_finally_throws e (Some mp) (Some rp) error s5)
      as (error' & s6 & Heq & Hflag & _).
    rewrite Heq in Hf. injection Hf as <- <-.
    split; [congruence|right; eauto]. }
  destruct y; try (intros Hf; exact (Hfin _ _ _ Hf)).
  intros [= <- <-]. split; [exact Hread|now left].
Qed.

Lemma dead_since_drain v s0 s :
  dead_since s0 s -> dead_since s0 (drain (sendMessageToWasm v) s).
Proof.
  intros (Hdead & Hcalls & Hwait & Htrace). unfold drain.
  destruct (messageQueue s) as [|q rest].
  - repeat split; assumption.
  - cbv zeta. rewrite dead_call_rejected by exact Hdead.
    split; [exact Hdead|]. split; [exact Hcalls|]. split.
    + intros p c Hin. cbn [awaiting set_awaiting observe set_messageQueue] in Hin.
      apply in_app_or in Hin as [Hin | [[= <- <-] | []]]; [|now right].
      now apply Hwait.
    + intros p c Hin. cbn [trace set_awaiting observe set_messageQueue] in Hin.
      apply in_app_or in Hin as [Hin | [[=] | []]]. now apply Htrace.
Qed.

Lemma dead_since_step v s0 a s :
  is_queue_action a = true ->
  dead_since s0 s -> dead_since s0 (step (sendMessageToWasm v) a s).
Proof.
  intros Ha Hs. unfold step. destruct (hung s); [exact Hs|].
  destruct a as [m| | |e]; try discriminate.
  - unfold sendMessageQueued, processMessageQueue. cbn [snd].
    destruct (_ || _).
    + destruct Hs as (? & ? & ? & ?). repeat split; assumption.
    + apply dead_since_drain.
      destruct Hs as (? & ? & ? & ?). repeat split; assumption.
  - unfold resume. destruct (awaiting s) as [|[p c] rest] eqn:Hwait;
      [exact Hs|].
    apply dead_since_drain.
    destruct Hs as (Hdead & Hcalls & Hw & Htrace).
    split; [exact Hdead|]. split; [exact Hcalls|]. split.
    + intros p' c' Hin. apply Hw. rewrite Hwait. now right.
    + intros p' c' Hin. cbn [trace observe set_awaiting] in Hin.
      apply in_app_or in Hin as [Hin | [[= <- <-] | []]].
      * now apply Htrace.
      * right. apply Hw. rewrite Hwait. now left.
Qed.

Lemma dead_since_run v s0 acts :
  forall s, queue_actions acts ->
            dead_since s0 s -> dead_since s0 (run (sendMessageToWasm v) acts s).
Proof.
  induction acts as [|a acts IH]; intros s Hacts Hs; [exact Hs|].
  unfold queue_actions in Hacts. simpl in Hacts.
  apply andb_prop in Hacts as (Ha & Hacts).
  simpl. apply IH; [exact Hacts|]. now apply dead_since_step.
Qed.

(** C1.  While the module is deactivated, a call of the bridge throws
    the crash error at once and changes nothing.  Hence, whatever is
    submitted and whenever the drain loop goes on, the module stays
    deactivated, no export is called and no store is made, and every
    promise settled from then on is rejected with the crash error, but
    for the calls that had returned before; and a request submitted to
    the idle bridge is rejected by the next turn of the loop. *)
Theorem deactivated_module_is_never_invoked (v : convention) :
  (forall m s,
      wasmIsDead s = true ->
      sendMessageToWasm v m s = (Throw (Error crashed), s))
  /\ (forall s acts,
         wasmIsDead s = true -> queue_actions acts ->
         let s' := run (sendMessageToWasm v) acts s in
         wasmIsDead s' = true
         /\ calls s' = calls s
         /\ (forall p c,
                In (Settled p c) (trace s') ->
                In (Settled p c) (trace s) \/ In (p, c) (awaiting s)
                \/ c = Throw (Error crashed)))
  /\ (forall m s,
         wasmIsDead s = true -> hung s = false ->
         messageInProgress s = false -> messageQueue s = [] ->
         awaiting s = [] ->
         let s' := run (sendMessageToWasm v) [Submit m; Resume] s in
         trace s' = trace s ++ [Invoked (promises s);
                                Settled (promises s) (Throw (Error crashed))]
         /\ calls s' = calls s
         /\ messageInProgress s' = false).
Proof.
  split; [|split].
  - intros m s. apply dead_call_rejected.
  - intros s acts Hdead Hacts s'.
    destruct (dead_since_run v s acts s Hacts) as (H1 & H2 & _ & H4).
    + repeat split; auto.
    + auto.
  - intros m s Hdead Hhung Hflag Hq Hwait s'.
    set (s1 := step (sendMessageToWasm v) (Submit m) s).
    assert (H1 : hung s1 = false
                 /\ awaiting s1 = [(promises s, Throw (Error crashed))]
                 /\ messageQueue s1 = []
                 /\ trace s1 = trace s ++ [Invoked (promises s)]
                 /\ calls s1 = calls s).
    { subst s1. unfold step. rewrite Hhung.
      unfold sendMessageQueued, processMessageQueue. cbn [snd].
      cbn [messageInProgress messageQueue set_messageQueue new_promise].
      rewrite Hflag, Hq. cbn [orb app List.length Nat.eqb].
      unfold drain.
      cbn [messageQueue set_messageInProgress set_messageQueue new_promise
           message promise].
      rewrite dead_call_rejected by exact Hdead.
      cbn [hung awaiting messageQueue trace calls set_awaiting observe
           set_messageQueue set_messageInProgress new_promise].
      rewrite Hhung, Hwait. repeat split. }
    destruct H1 as (Hh1 & Hw1 & Hq1 & Ht1 & Hc1).
    assert (Hs' : s' = set_messageInProgress false
                         (observe (Settled (promises s) (Throw (Error crashed)))
                                  (set_awaiting [] s1))).
    { subst s'. change (run (sendMessageToWasm v) [Submit m; Resume] s)
        with (step (sendMessageToWasm v) Resume s1).
      unfold step. rewrite Hh1. unfold resume. rewrite Hw1.
      apply drain_empty. exact Hq1. }
    rewrite Hs'.
    cbn [trace calls messageInProgress set_messageInProgress observe
         set_awaiting].
    rewrite Ht1, Hc1, <- app_assoc. repeat split.
Qed.

Lemma deactivated_module_is_never_invoked_witness :
  calls (run (sendMessageToWasm status_code)
             [Submit (request "RESET"); Resume] crashed_bridge)
  = calls crashed_bridge
  /\ trace (run (sendMessageToWasm status_code)
                [Submit (request "RESET"); Resume] crashed_bridge)
     = trace crashed_bridge ++ [Invoked 1; Settled 1 (Throw (Error crashed))]
  /\ wasmIsDead (run (sendMessageToWasm status_code)
                     [Submit (request "RESET"); Resume] crashed_bridge)
     = true.
Proof.
  destruct (deactivated_module_is_never_invoked status_code)
    as (_ & Hnever & Hprompt).
  destruct (Hprompt (request "RESET") crashed_bridge) as (Htrace & Hcalls & _);
    try reflexivity.
  destruct (Hnever crashed_bridge [Submit (request "RESET"); Resume])
    as (Hdead & _); try reflexivity.
  split; [exact Hcalls|]. split; [exact Htrace|exact Hdead].
Defined.

(** ** What a reset drops *)

Lemma mentions_snoc l e p :
  mentions (l ++ [e]) p <-> mentions l p \/ request_of e = p.
Proof.
  unfold mentions. split.
  - intros (x & Hin & Hx). apply in_app_or in Hin as [Hin | [<- | []]]; eauto.
  - intros [(x & Hin & Hx) | He].
    + exists x. split; [apply in_or_app; now left|exact Hx].
    + exists e. split; [apply in_or_app; right; now left|exact He].
Qed.

Section Dropped.

Variable send : WasmMessage -> Bridge -> completion * Bridge.
Hypothesis send_frame : forall m s, same_queue s (snd (send m s)).

Lemma drain_front_awaiting s q rest p :
  messageQueue s = q :: rest ->
  In p (map fst (awaiting (drain send s))) ->
  In p (map fst (awaiting s)) \/ p = promise q.
Proof.
  intros Hq Hin.
  destruct (drain_front send send_frame s q rest Hq)
    as (_ & _ & _ & _ & Dhung & Dlive). cbv zeta in Dhung, Dlive.
  destruct (fst (send (message q)
                      (observe (Invoked (promise q)) (set_messageQueue rest s))))
    as [r|error|].
  - destruct Dlive as (_ & Da); [discriminate|]. rewrite Da, map_app in Hin.
    apply in_app_or in Hin as [Hin | [<- | []]]; auto.
  - destruct Dlive as (_ & Da); [discriminate|]. rewrite Da, map_app in Hin.
    apply in_app_or in Hin as [Hin | [<- | []]]; auto.
  - destruct Dhung as (_ & Da); [reflexivity|]. rewrite Da in Hin. auto.
Qed.

Lemma forgotten_drain dropped s :
  forgotten dropped s -> forgotten dropped (drain send s).
Proof.
  intros Hs. destruct (messageQueue s) as [|q rest] eqn:Hq.
  - rewrite (drain_empty send s Hq). intros p Hp.
    destruct (Hs p Hp) as (H1 & H2 & H3 & H4). repeat split; assumption.
  - pose proof (drain_front send send_frame s q rest Hq)
      as (Dq & _ & Dn & Dt & _).
    intros p Hp. destruct (Hs p Hp) as (H1 & H2 & H3 & H4).
    rewrite Hq in H2. simpl in H2.
    split; [now rewrite Dn|]. split; [rewrite Dq; tauto|]. split.
    + intros Hin.
      destruct (drain_front_awaiting s q rest p Hq Hin); [tauto|].
      subst p. tauto.
    + rewrite Dt, mentions_snoc. simpl. intros [Hm | Hm]; [tauto|].
      subst p. tauto.
Qed.

Lemma forgotten_step dropped a s :
  forgotten dropped s -> forgotten dropped (step send a s).
Proof.
  intros Hs. unfold step. destruct (hung s); [exact Hs|].
  destruct a as [m| | |e].
  - unfold sendMessageQueued, processMessageQueue. cbn [snd].
    assert (Ht : forall b,
               forgotten dropped
                 (set_messageInProgress b
                    (set_messageQueue
                       (messageQueue s ++ [{| message := m; promise := promises s |}])
                       (new_promise s)))).
    { intros b p Hp. destruct (Hs p Hp) as (H1 & H2 & H3 & H4).
      cbn [promises messageQueue awaiting trace set_messageInProgress
           set_messageQueue new_promise].
      split; [lia|]. split; [|split; assumption].
      rewrite map_app. intros Hin.
      apply in_app_or in Hin as [Hin | [Hin | []]]; [tauto|].
      simpl in Hin. lia. }
    destruct (_ || _) eqn:Hbusy.
    + intros p Hp. destruct (Ht false p Hp) as (H1 & H2 & H3 & H4).
      repeat split; assumption.
    + apply forgotten_drain. apply Ht.
  - unfold resume. destruct (awaiting s) as [|[p0 c] rest] eqn:Hwait;
      [exact Hs|].
    apply forgotten_drain. intros p Hp.
    destruct (Hs p Hp) as (H1 & H2 & H3 & H4). rewrite Hwait in H3.
    simpl in H3.
    cbn [promises messageQueue awaiting trace observe set_awaiting].
    split; [assumption|]. split; [assumption|]. split; [tauto|].
    rewrite mentions_snoc. simpl. intros [Hm | Hm]; [tauto|].
    subst p. tauto.
  - intros p Hp. destruct (Hs p Hp) as (H1 & H2 & H3 & H4).
    repeat split; try assumption. simpl. tauto.
  - intros p Hp. destruct (Hs p Hp) as (H1 & H2 & H3 & H4).
    repeat split; assumption.
Qed.

Lemma forgotten_run dropped acts :
  forall s, forgotten dropped s -> forgotten dropped (run send acts s).
Proof.
  induction acts as [|a acts IH]; intros s Hs; [exact Hs|].
  simpl. apply IH. now apply forgotten_step.
Qed.

Lemma tidy_drain s : tidy s -> tidy (drain send s).
Proof.
  intros (Hdup & Hqueue & Hwait & Htrace).
  destruct (messageQueue s) as [|q rest] eqn:Hq.
  - rewrite (drain_empty send s Hq).
    unfold tidy. cbn [messageQueue promises awaiting trace set_messageInProgress].
    rewrite Hq. repeat split; auto; simpl in *; try tauto; constructor.
  - pose proof (drain_front send send_frame s q rest Hq)
      as (Dq & _ & Dn & Dt & _).
    simpl in Hdup, Hqueue. apply NoDup_cons_iff in Hdup as (Hfresh & Hdup).
    destruct (Hqueue (promise q) (or_introl eq_refl)) as (Hq1 & Hq2 & Hq3).
    unfold tidy. rewrite Dq, Dn, Dt.
    split; [exact Hdup|]. split; [|split].
    + intros p Hp. destruct (Hqueue p (or_intror Hp)) as (H1 & H2 & H3).
      split; [exact H1|]. split.
      * intros Hin.
        destruct (drain_front_awaiting s q rest p Hq Hin); [tauto|].
        subst p. tauto.
      * rewrite mentions_snoc. simpl. intros [Hm | Hm]; [tauto|].
        subst p. tauto.
    + intros p Hin.
      destruct (drain_front_awaiting s q rest p Hq Hin); [auto|].
      now subst p.
    + intros p. rewrite mentions_snoc. simpl. intros [Hm | <-]; auto.
Qed.

Lemma tidy_step a s : tidy s -> tidy (step send a s).
Proof.
  intros Hs. unfold step. destruct (hung s); [exact Hs|].
  destruct a as [m| | |e].
  - unfold sendMessageQueued, processMessageQueue. cbn [snd].
    assert (Ht : forall b,
               tidy (set_messageInProgress b
                       (set_messageQueue
                          (messageQueue s ++ [{| message := m; promise := promises s |}])
                          (new_promise s)))).
    { intros b. destruct Hs as (Hdup & Hqueue & Hwait & Htrace).
      unfold tidy.
      cbn [promises messageQueue awaiting trace set_messageInProgress
           set_messageQueue new_promise].
      rewrite map_app. simpl. split; [|split; [|split]].
      - apply NoDup_app; [exact Hdup | repeat constructor; simpl; tauto |].
        intros p Hp [<- | []]. destruct (Hqueue _ Hp) as (H1 & _). lia.
      - intros p Hin. apply in_app_or in Hin as [Hin | [<- | []]].
        + destruct (Hqueue p Hin) as (H1 & H2 & H3). repeat split; auto.
        + split; [lia|]. split.
          * intros Hin. apply Hwait in Hin. lia.
          * intros Hin. apply Htrace in Hin. lia.
      - intros p Hin. apply Hwait in Hin. lia.
      - intros p Hin. apply Htrace in Hin. lia. }
    destruct (_ || _) eqn:Hbusy.
    + exact (Ht false).
    + apply tidy_drain. apply Ht.
  - unfold resume. destruct (awaiting s) as [|[p0 c] rest] eqn:Hwait0;
      [exact Hs|].
    apply tidy_drain. destruct Hs as (Hdup & Hqueue & Hwait & Htrace).
    rewrite Hwait0 in *. simpl in Hqueue, Hwait.
    unfold tidy. cbn [promises messageQueue awaiting trace observe set_awaiting].
    split; [exact Hdup|]. split; [|split].
    + intros p Hp. destruct (Hqueue p Hp) as (H1 & H2 & H3).
      split; [exact H1|]. split; [tauto|].
      rewrite mentions_snoc. simpl. intros [Hm | Hm]; [tauto|].
      subst p. tauto.
    + intros p Hin. apply Hwait. now right.
    + intros p. rewrite mentions_snoc. simpl. intros [Hm | <-]; auto.
  - destruct Hs as (Hdup & Hqueue & Hwait & Htrace).
    unfold tidy. simpl. repeat split; auto; try constructor; tauto.
  - destruct Hs as (Hdup & Hqueue & Hwait & Htrace).
    repeat split; auto; apply Hqueue; assumption.
Qed.

Lemma tidy_run acts : forall s, tidy s -> tidy (run send acts s).
Proof.
  induction acts as [|a acts IH]; intros s Hs; [exact Hs|].
  simpl. apply IH. now apply tidy_step.
Qed.

End Dropped.

Lemma tidy_initial : tidy initial.
Proof.
  unfold tidy, initial, mentions. simpl.
  repeat split; try constructor; try tauto.
  intros p (e & [] & _).
Qed.

Lemma reachable_tidy v s : reachable v s -> tidy s.
Proof.
  intros (acts & ->).
  apply (tidy_run _ (sendMessageToWasm_frame v)). exact tidy_initial.
Qed.

(** C9.  [resetWasm] puts the five variables of the bridge back to
    their initial values, whatever the state.  The requests that wait in
    the queue at that moment are dropped for good: whatever happens
    afterwards, no call cycle begins for them and their promises are
    neither resolved nor rejected. *)
Theorem reset_restores_variables_and_drops_queue (v : convention) (s : Bridge) :
  (wasmModule (resetWasm s) = wasmModule initial
   /\ wasmMemory (resetWasm s) = wasmMemory initial
   /\ messageQueue (resetWasm s) = messageQueue initial
   /\ messageInProgress (resetWasm s) = messageInProgress initial
   /\ wasmIsDead (resetWasm s) = wasmIsDead initial
   /\ isWasmReady (resetWasm s) = false
   /\ messageQueue (resetWasm s) = []
   /\ messageInProgress (resetWasm s) = false
   /\ wasmIsDead (resetWasm s) = false)
  /\ (reachable v s ->
      forall q, In q (messageQueue s) ->
      forall acts e,
        In e (trace (run (sendMessageToWasm v) acts (resetWasm s))) ->
        request_of e <> promise q).
Proof.
  split; [repeat split|].
  intros Hreach q Hq acts e He Hrequest.
  destruct (reachable_tidy v s Hreach) as (_ & Hqueue & _ & _).
  assert (Hdropped : forgotten (map promise (messageQueue s)) (resetWasm s)).
  { intros p Hp. destruct (Hqueue p Hp) as (H1 & H2 & H3).
    repeat split; try assumption. simpl. tauto. }
  pose proof (forgotten_run _ (sendMessageToWasm_frame v) _ acts _ Hdropped)
    as Hlater.
  destruct (Hlater (promise q) (in_map promise _ _ Hq)) as (_ & _ & _ & Hnone).
  apply Hnone. exists e. split; assumption.
Qed.

Lemma reset_restores_variables_and_drops_queue_witness :
  Forall (fun x => request_of x <> 1%nat)
         (trace (run (sendMessageToWasm status_code)
                     [Resume; Submit (request "QUERY_AST"); Resume]
                     (resetWasm
                        (busy_bridge status_code
                                     (answering 0 (prefixed success_text)))))).
Proof.
  apply Forall_forall. intros x Hx.
  destruct (reset_restores_variables_and_drops_queue
              status_code
              (busy_bridge status_code (answering 0 (prefixed success_text))))
    as (_ & Hdrop).
  assert (Hreach : reachable status_code
                     (busy_bridge status_code
                                  (answering 0 (prefixed success_text)))).
  { exists (busy_actions (answering 0 (prefixed success_text))). reflexivity. }
  assert (Hq : In {| message := request "RESET"; promise := 1 |}
                  (messageQueue
                     (busy_bridge status_code
                                  (answering 0 (prefixed success_text))))).
  { vm_compute. left. reflexivity. }
  exact (Hdrop Hreach _ Hq _ x Hx).
Defined.

(** The request in flight at the reset is settled with the result of
    its call; the queued one is not heard of again; the next one finds
    no module. *)
Example reset_while_busy :
  let e := answering 0 (prefixed success_text) in
  trace (run (sendMessageToWasm status_code)
             [Instantiate e; Submit (request "INIT"); Submit (request "RESET");
              ResetWasm; Resume; Submit (request "QUERY_AST"); Resume]
             initial)
  = [Invoked 0; Settled 0 (Return (JObj [("status", JStr "SUCCESS")]));
     Invoked 2; Settled 2 (Throw (Error not_available))].
Proof. vm_compute. reflexivity. Qed.

(** ** Further runs of the bridge *)

(** The hover query for column 0 as the module receives it. *)
Example hover_request_stored :
  calls (snd (getHoverInfo (sendMessageToWasm status_code) "x" 1 0
                           (loaded (answering 0 (prefixed success_text)))))
  = [init; allocateMessageBuffer 58;
     memory_set
       (TextEncoder_encode
          (json "{'type':'GET_HOVER_INFO','identifier':'x','line':1,'ch':1}")) 8;
     allocateResponseBuffer 262144; processMessage 8 58 64 262144;
     freeMessageBuffer; freeResponseBuffer].
Proof. vm_compute. reflexivity. Qed.

(** A trap of the entry point deactivates the module; the next request
    is rejected without a call. *)
Example trap_then_rejection :
  trace (run (sendMessageToWasm status_code)
             [Submit (request "INIT"); Submit (request "RESET"); Resume; Resume]
             (loaded (trapping (prefixed success_text))))
  = [Invoked 0; Settled 0 (Throw RuntimeError);
     Invoked 1; Settled 1 (Throw (Error crashed))]
  /\ calls (run (sendMessageToWasm status_code)
                [Submit (request "INIT"); Submit (request "RESET"); Resume; Resume]
                (loaded (trapping (prefixed success_text))))
     = [init; allocateMessageBuffer 15; memory_set (encoded (request "INIT")) 8;
        allocateResponseBuffer 262144; processMessage 8 15 64 262144;
        freeMessageBuffer; freeResponseBuffer].
Proof. vm_compute. split; reflexivity. Qed.

(** [resetWasm] clears the flag under a suspended drain loop: the next
    request starts a second loop while the first still waits for its
    turn.  The calls on the module remain one whole cycle after the
    other, since [sendMessageToWasm] has no [await]. *)
Example reset_under_suspended_loop :
  let e := answering 0 (prefixed success_text) in
  let s := run (sendMessageToWasm status_code)
               [Instantiate e; Submit (request "INIT"); ResetWasm;
                Instantiate e; Submit (request "RESET")] initial in
  map fst (awaiting s) = [0; 1]%nat
  /\ map tag_of (trace s) = [TInvoked 0; TInvoked 1].
Proof. vm_compute. split; reflexivity. Qed.

(** * Further properties of the bridge *)

(** ** The calls one request makes on the module *)

Lemma store_records bytes offset s s' :
  store bytes offset s = Some s' ->
  s' = record_call (memory_set bytes offset) s.
Proof.
  unfold store. destruct (buffer s); [|discriminate].
  destruct (_ || _); [discriminate|]. now intros [= <-].
Qed.

Lemma read_debug_log_calls e s x s' :
  read_debug_log e s = (x, s') ->
  exists mid, calls_between s mid s' /\ forallb is_debug mid = true.
Proof.
  unfold read_debug_log, call, calls_between.
  destruct (has_getDebugLogBuffer e).
  - destruct (respond e (calls s) getDebugLogBuffer) as [ptr|];
      [destruct (readNullTerminatedString _ ptr)|];
      intros [= _ <-]; exists [getDebugLogBuffer]; split; reflexivity.
  - intros [= _ <-]. exists []. now rewrite app_nil_r.
Qed.

Lemma log_after_success_calls e s x s' :
  log_after_success e s = (x, s') ->
  exists mid, calls_between s mid s' /\ forallb is_debug mid = true.
Proof.
  unfold log_after_success.
  destruct (read_debug_log e s) as [y s1] eqn:Hread.
  destruct (read_debug_log_calls _ _ _ _ Hread) as (mid & Hmid & Hdebug).
  unfold calls_between in *.
  assert (Hclear : forall x0 s0,
             (if has_clearDebugLog e
              then match call e clearDebugLog s1 with
                   | (Traps, s2) => (Raise RuntimeError, s2)
                   | (Returns _, s2) => (Normal, s2)
                   end
              else (Normal, s1)) = (x0, s0) ->
             exists mid0, calls s0 = calls s ++ mid0
                          /\ forallb is_debug mid0 = true).
  { intros x0 s0. unfold call. destruct (has_clearDebugLog e).
    - destruct (respond e (calls s1) clearDebugLog); intros [= _ <-];
        exists (mid ++ [clearDebugLog]); cbn [calls record_call];
        rewrite Hmid, <- app_assoc, forallb_app, Hdebug; split; reflexivity.
    - intros [= _ <-]. eauto. }
  destruct y; [exact (Hclear x s') | exact (Hclear x s') |].
  intros [= _ <-]. eauto.
Qed.

Lemma catch_block_calls e error s c s' :
  catch_block e error s = (c, s') ->
  exists mid, calls_between s mid s' /\ forallb is_debug mid = true.
Proof.
  unfold catch_block. destruct (is_RuntimeError error).
  - destruct (read_debug_log e (set_wasmIsDead true s)) as [y s1] eqn:Hread.
    apply read_debug_log_calls in Hread.
    destruct y; intros [= _ <-]; exact Hread.
  - intros [= _ <-]. exists []. unfold calls_between. now rewrite app_nil_r.
Qed.

(** The [try] block goes some way into the exchange and then, at most,
    serves the debug log. *)
Lemma status_code_try_calls e mem m s c mp' rp' s1 :
  StatusCode.try_block e mem m s = (c, mp', rp', s1) ->
  exists mp rp k debug,
    calls_between s (firstn k (exchange m mp rp) ++ debug) s1
    /\ forallb is_debug debug = true.
Proof.
  unfold StatusCode.try_block, calls_between, exchange, encoded_length, encoded.
  cbv zeta. unfold call at 1.
  destruct (respond e (calls s) (allocateMessageBuffer _)) as [mp|];
    cbv beta iota.
  2:{ intros [= _ _ _ <-]. exists 0, 0, 1%nat, []. split; reflexivity. }
  destruct (mp =? 0).
  { intros [= _ _ _ <-]. exists 0, 0, 1%nat, []. split; reflexivity. }
  destruct (store _ mp _) as [s2|] eqn:Hstore.
  2:{ intros [= _ _ _ <-]. exists 0, 0, 1%nat, []. split; reflexivity. }
  apply store_records in Hstore. subst s2. unfold call at 1.
  destruct (respond e _ (allocateResponseBuffer _)) as [rp|]; cbv beta iota.
  2:{ intros [= _ _ _ <-]. exists mp, 0, 3%nat, [].
      cbn [calls record_call firstn]. rewrite <- !app_assoc.
      split; reflexivity. }
  destruct (rp =? 0).
  { intros [= _ _ _ <-]. exists mp, 0, 3%nat, [].
    cbn [calls record_call firstn]. rewrite <- !app_assoc.
    split; reflexivity. }
  unfold call at 1.
  destruct (respond e _ (processMessage _ _ _ _)) as [code|]; cbv beta iota.
  2:{ intros [= _ _ _ <-]. exists mp, rp, 4%nat, [].
      cbn [calls record_call firstn]. rewrite <- !app_assoc.
      split; reflexivity. }
  destruct (negb (code =? 0)).
  { intros [= _ _ _ <-]. exists mp, rp, 4%nat, [].
    cbn [calls record_call firstn]. rewrite <- !app_assoc.
    split; reflexivity. }
  destruct (StatusCode.decode_response _ rp).
  { intros [= _ _ _ <-]. exists mp, rp, 4%nat, [].
    cbn [calls record_call firstn]. rewrite <- !app_assoc.
    split; reflexivity. }
  destruct (log_after_success e _) as [y s5] eqn:Hlog.
  destruct (log_after_success_calls _ _ _ _ Hlog) as (debug & Hdebug & Hall).
  unfold calls_between in Hdebug. cbn [calls record_call] in Hdebug.
  assert (Hend : calls s5
                 = calls s ++
                   firstn 4 [allocateMessageBuffer
                               (Z.of_nat (List.length
                                  (TextEncoder_encode (JSON_stringify m))));
                             memory_set (TextEncoder_encode (JSON_stringify m)) mp;
                             allocateResponseBuffer StatusCode.responseBufferSize;
                             processMessage mp
                               (Z.of_nat (List.length
                                  (TextEncoder_encode (JSON_stringify m))))
                               rp StatusCode.responseBufferSize] ++ debug).
  { rewrite Hdebug. cbn [firstn]. rewrite <- !app_assoc. reflexivity. }
  destruct y; intros [= _ _ _ <-]; exists mp, rp, 4%nat, debug;
    split; assumption.
Qed.

(** The [finally] block releases the request buffer, then the response
    buffer, and stops at a release that traps. *)
Lemma status_code_finally_calls e mp rp pending s c s' :
  StatusCode.finally_block e mp rp pending s = (c, s') ->
  exists j, calls_between s (firstn j [freeMessageBuffer; freeResponseBuffer]) s'
            \/ (mp = None /\ calls_between s [freeResponseBuffer] s').
Proof.
  unfold StatusCode.finally_block, call, calls_between. cbv zeta.
  destruct mp as [mp|], rp as [rp|]; cbv beta iota.
  - destruct (respond e (calls s) freeMessageBuffer).
    + destruct (respond e _ freeResponseBuffer); intros [= _ <-];
        exists 2%nat; left; cbn [calls record_call firstn];
        now rewrite <- app_assoc.
    + intros [= _ <-]. exists 1%nat. now left.
  - destruct (respond e (calls s) freeMessageBuffer); intros [= _ <-];
      exists 1%nat; now left.
  - destruct (respond e (calls s) freeResponseBuffer); intros [= _ <-];
      exists 0%nat; right; split; reflexivity.
  - intros [= _ <-]. exists 0%nat. left. cbn [firstn]. now rewrite app_nil_r.
Qed.

Lemma status_code_try_pointers e mem m s c mp' rp' s1 :
  StatusCode.try_block e mem m s = (c, mp', rp', s1) ->
  mp' = None -> rp' = None.
Proof.
  unfold StatusCode.try_block. cbv zeta.
  repeat along; try (intros [= _ <- <- _]; congruence).
  all: destruct (StatusCode.decode_response _ _);
    [intros [= _ <- <- _]; congruence|].
  all: destruct (log_after_success e _) as [[| |] s5];
    intros [= _ <- <- _]; congruence.
Qed.

Lemma status_code_try_log e mem m s c mp' rp' s1 :
  StatusCode.try_block e mem m s = (c, mp', rp', s1) ->
  exists k debug,
    calls_between s (firstn k (exchange m (first_pointer e m s)
                                        (second_pointer e m s)) ++ debug) s1
    /\ forallb is_debug debug = true
    /\ (1 <= k)%nat.
Proof.
  unfold StatusCode.try_block, calls_between, second_pointer, first_pointer,
    exchange, encoded_length, encoded.
  cbv zeta. unfold call at 1.
  destruct (respond e (calls s) (allocateMessageBuffer _)) as [mp|];
    cbv beta iota; cbn [returned].
  2:{ intros [= _ _ _ <-]. exists 1%nat, []. repeat split; lia. }
  destruct (mp =? 0).
  { intros [= _ _ _ <-]. exists 1%nat, []. repeat split; lia. }
  destruct (store _ mp _) as [s2|] eqn:Hstore.
  2:{ intros [= _ _ _ <-]. exists 1%nat, []. repeat split; lia. }
  apply store_records in Hstore. subst s2. unfold call at 1.
  cbn [calls record_call]. rewrite <- !app_assoc. cbn [app].
  destruct (respond e _ (allocateResponseBuffer _)) as [rp|]; cbv beta iota;
    cbn [returned].
  2:{ intros [= _ _ _ <-]. exists 3%nat, [].
      cbn [calls record_call firstn]. rewrite <- !app_assoc.
      repeat split; lia. }
  destruct (rp =? 0).
  { intros [= _ _ _ <-]. exists 3%nat, [].
    cbn [calls record_call firstn]. rewrite <- !app_assoc.
    repeat split; lia. }
  unfold call at 1.
  destruct (respond e _ (processMessage _ _ _ _)) as [code|]; cbv beta iota.
  2:{ intros [= _ _ _ <-]. exists 4%nat, [].
      cbn [calls record_call firstn]. rewrite <- !app_assoc.
      repeat split; lia. }
  destruct (negb (code =? 0)).
  { intros [= _ _ _ <-]. exists 4%nat, [].
    cbn [calls record_call firstn]. rewrite <- !app_assoc.
    repeat split; lia. }
  destruct (StatusCode.decode_response _ rp).
  { intros [= _ _ _ <-]. exists 4%nat, [].
    cbn [calls record_call firstn]. rewrite <- !app_assoc.
    repeat split; lia. }
  destruct (log_after_success e _) as [y s5] eqn:Hlog.
  destruct (log_after_success_calls _ _ _ _ Hlog) as (debug & Hdebug & Hall).
  unfold calls_between in Hdebug. cbn [calls record_call] in Hdebug.
  destruct y; intros [= _ _ _ <-]; exists 4%nat, debug;
    (split; [rewrite Hdebug; cbn [firstn]; rewrite <- !app_assoc; reflexivity|]);
    split; [assumption|lia|assumption|lia|assumption|lia].
Qed.

Lemma status_code_try_first e mem m s c mp' rp' s1 :
  StatusCode.try_block e mem m s = (c, mp', rp', s1) ->
  forall v,
    respond e (calls s) (allocateMessageBuffer (encoded_length m)) = Returns v ->
    mp' = Some v.
Proof.
  unfold StatusCode.try_block, encoded_length, encoded. cbv zeta.
  unfold call at 1. intros Htry v Hfirst. rewrite Hfirst in Htry.
  cbv beta iota in Htry. revert Htry.
  repeat along; try (intros [= _ <- _ _]; reflexivity).
  all: destruct (StatusCode.decode_response _ _);
    [intros [= _ <- _ _]; reflexivity|].
  all: destruct (log_after_success e _) as [[| |] s5];
    intros [= _ <- _ _]; reflexivity.
Qed.

Lemma status_code_finally_log e mp rp pending s c s' :
  StatusCode.finally_block e mp rp pending s = (c, s') ->
  (mp = None -> rp = None) ->
  exists j,
    calls_between s (firstn j [freeMessageBuffer; freeResponseBuffer]) s'
    /\ (mp <> None -> (1 <= j)%nat).
Proof.
  unfold StatusCode.finally_block, call, calls_between. cbv zeta.
  intros Hfin Hptr. revert Hfin.
  destruct mp as [mp|]; [|rewrite (Hptr eq_refl)]; [destruct rp as [rp|]|];
    cbv beta iota.
  - destruct (respond e (calls s) freeMessageBuffer).
    + destruct (respond e _ freeResponseBuffer); intros [= _ <-];
        exists 2%nat; cbn [calls record_call firstn];
        rewrite <- app_assoc; (split; [reflexivity|intros _; lia]).
    + intros [= _ <-]. exists 1%nat. split; [reflexivity|intros _; lia].
  - destruct (respond e (calls s) freeMessageBuffer); intros [= _ <-];
      exists 1%nat; (split; [reflexivity|intros _; lia]).
  - intros [= _ <-]. exists 0%nat. cbn [firstn]. rewrite app_nil_r.
    split; [reflexivity|congruence].
Qed.

(** One call of the status-code bridge makes these calls on the module
    and no others.  On a module that is deactivated or not loaded, or
    without its memory: none.  Otherwise, in this order: a first part,
    not empty, of the exchange (reserve the request buffer, store the
    encoded request at the pointer this reservation returned, reserve
    the response buffer, enter with the two returned pointers and the
    two sizes), then at most calls that serve the debug log, then the
    release of the request buffer and of the response buffer, or a first
    part of these two; when the call ends and the first reservation did
    not trap, the request buffer is released.  So the entry point is
    never entered before the request is stored, never twice, and
    nothing is called after a release but the next release. *)
Theorem status_code_call_log m s :
  let sent := StatusCode.sendMessageToWasm m s in
  (wasmIsDead s = true \/ wasmModule s = None \/ wasmMemory s = None ->
   calls (snd sent) = calls s)
  /\ (forall e mem,
         alive e mem s ->
         exists k debug j,
           calls (snd sent)
           = calls s
             ++ firstn k (exchange m (first_pointer e m s)
                                     (second_pointer e m s))
             ++ debug
             ++ firstn j [freeMessageBuffer; freeResponseBuffer]
           /\ forallb is_debug debug = true
           /\ (1 <= k)%nat
           /\ (fst sent <> Diverge ->
               respond e (calls s) (allocateMessageBuffer (encoded_length m))
               <> Traps ->
               (1 <= j)%nat)).
Proof.
  cbv zeta. split.
  - unfold StatusCode.sendMessageToWasm.
    intros [-> | [-> | Hmem]]; [reflexivity| |].
    + now destruct (wasmIsDead s).
    + rewrite Hmem. destruct (wasmIsDead s); [reflexivity|].
      now destruct (wasmModule s).
  - intros e mem (Hdead & Hmod & Hmem).
    destruct (StatusCode.sendMessageToWasm m s) as [c s'] eqn:Hsend.
    cbn [fst snd]. revert Hsend.
    unfold StatusCode.sendMessageToWasm. rewrite Hdead, Hmod, Hmem.
    destruct (StatusCode.try_block e mem m s) as [[[tried mp'] rp'] s1]
      eqn:Htry.
    pose proof (status_code_try_pointers _ _ _ _ _ _ _ _ Htry) as Hptr.
    pose proof (status_code_try_first _ _ _ _ _ _ _ _ Htry) as Hfirst.
    destruct (status_code_try_log _ _ _ _ _ _ _ _ Htry)
      as (k & debug & Hcalls & Hdebug & Hk).
    unfold calls_between in Hcalls.
    set (request_ := exchange m (first_pointer e m s) (second_pointer e m s))
      in *.
    assert (Hend : forall pending s2 mid,
               calls s2 = calls s1 ++ mid -> forallb is_debug mid = true ->
               StatusCode.finally_block e mp' rp' pending s2 = (c, s') ->
               exists k0 debug0 j,
                 calls s' = calls s ++ firstn k0 request_ ++ debug0
                                    ++ firstn j [freeMessageBuffer;
                                                 freeResponseBuffer]
                 /\ forallb is_debug debug0 = true
                 /\ (1 <= k0)%nat
                 /\ (c <> Diverge ->
                     respond e (calls s)
                             (allocateMessageBuffer (encoded_length m))
                     <> Traps ->
                     (1 <= j)%nat)).
    { intros pending s2 mid Hmid Hall Hfin.
      destruct (status_code_finally_log _ _ _ _ _ _ _ Hfin Hptr)
        as (j & Hj & Hone).
      exists k, (debug ++ mid), j. unfold calls_between in Hj.
      rewrite Hj, Hmid, Hcalls, forallb_app, Hdebug, Hall, <- !app_assoc.
      split; [reflexivity|]. split; [reflexivity|]. split; [exact Hk|].
      intros _ Hreturns. apply Hone.
      destruct (respond e (calls s) (allocateMessageBuffer _)) as [v|] eqn:Hv;
        [|congruence].
      rewrite (Hfirst v eq_refl). discriminate. }
    destruct tried as [r|error|].
    + intros Hfin. apply (Hend (Return r) s1 []); auto.
      now rewrite app_nil_r.
    + destruct (catch_block e error s1) as [caught s2] eqn:Hcatch.
      destruct (catch_block_calls _ _ _ _ _ Hcatch) as (mid & Hmid & Hall).
      destruct caught; [intros Hfin; eapply Hend; eauto
                       |intros Hfin; eapply Hend; eauto|].
      intros [= <- <-]. exists k, (debug ++ mid), 0%nat.
      unfold calls_between in Hmid.
      rewrite Hmid, Hcalls, forallb_app, Hdebug, Hall, <- !app_assoc.
      cbn [firstn]. rewrite app_nil_r.
      split; [reflexivity|]. split; [reflexivity|]. split; [exact Hk|].
      congruence.
    + intros [= <- <-]. exists k, debug, 0%nat.
      rewrite Hcalls. cbn [firstn]. rewrite app_nil_r.
      split; [reflexivity|]. split; [exact Hdebug|]. split; [exact Hk|].
      congruence.
Qed.

(** ** A request that is answered *)

Lemma read_terminated mem ptr z :
  first_zero mem ptr z ->
  readNullTerminatedString_for (enough mem ptr) (Some mem) ptr <> None.
Proof.
  intros Hfirst. unfold readNullTerminatedString_for.
  destruct (ptr =? 0); [discriminate|].
  rewrite (scan_finds mem z (enough mem ptr) ptr Hfirst); [discriminate|].
  destruct Hfirst as (Hle & Hz & _). apply is_zero_at_inside in Hz.
  unfold enough. lia.
Qed.

Lemma read_debug_log_normal e mem s :
  never_traps e -> log_terminated e mem -> wasmMemory s = Some mem ->
  exists s', read_debug_log e s = (Normal, s')
             /\ wasmIsDead s' = wasmIsDead s /\ wasmMemory s' = Some mem.
Proof.
  intros Hsafe Hlog Hmem. unfold read_debug_log, call.
  destruct (has_getDebugLogBuffer e); [|eauto].
  destruct (respond e (calls s) getDebugLogBuffer) as [ptr|] eqn:Hptr;
    [|now contradiction (Hsafe _ _ Hptr)].
  unfold readNullTerminatedString, buffer.
  cbn [wasmMemory record_call calls]. rewrite Hmem. cbn [option_map].
  destruct (Z.eq_dec ptr 0) as [->|Hnz].
  - cbn. eauto.
  - destruct (Hlog _ _ Hptr Hnz) as (z & Hz).
    pose proof (read_terminated _ _ _ Hz) as Hread.
    destruct (readNullTerminatedString_for _ _ ptr); [|congruence].
    eexists. split; [reflexivity|]. split; [reflexivity|exact Hmem].
Qed.

Lemma log_after_success_normal e mem s :
  never_traps e -> log_terminated e mem -> wasmMemory s = Some mem ->
  exists s', log_after_success e s = (Normal, s')
             /\ wasmIsDead s' = wasmIsDead s.
Proof.
  intros Hsafe Hlog Hmem. unfold log_after_success.
  destruct (read_debug_log_normal e mem s Hsafe Hlog Hmem)
    as (s1 & -> & Hdead & _).
  unfold call. destruct (has_clearDebugLog e); [|eauto].
  destruct (respond e (calls s1) clearDebugLog) eqn:Hclear;
    [|now contradiction (Hsafe _ _ Hclear)].
  eexists. split; [reflexivity|exact Hdead].
Qed.

Lemma never_traps_releases e : never_traps e -> releases_return e.
Proof. intros Hsafe h c _. apply Hsafe. Qed.

Lemma reaches_entry_calls e m s mp rp s3 :
  reaches_entry e m s mp rp s3 ->
  calls s3 = calls s ++ firstn 3 (exchange m mp rp)
  /\ wasmMemory s3 = wasmMemory s.
Proof.
  intros (s2 & (s1 & Halloc & _ & Hstore) & Hresp & _).
  unfold call in *. injection Halloc as _ <-. injection Hresp as _ <-.
  apply store_records in Hstore. subst s2.
  cbn [calls record_call wasmMemory firstn exchange].
  rewrite <- !app_assoc. split; reflexivity.
Qed.

(** The request is answered: the module reserves both buffers, returns
    status 0 and leaves at the response pointer a length [len] within
    the capacity, followed by [len] bytes that decode to the JSON text
    of [v]; no export traps and the debug log is terminated.  Then the
    call returns [v], the module stays active, and the calls made are
    the whole exchange, the service of the debug log and the two
    releases. *)
Theorem status_code_returns_response
        e mem m s mp rp s3 (len : Z) (bytes : list byte) (v : jsval) :
  alive e mem s ->
  never_traps e ->
  log_terminated e mem ->
  reaches_entry e m s mp rp s3 ->
  respond e (calls s3)
          (processMessage mp (encoded_length m) rp StatusCode.responseBufferSize)
  = Returns 0 ->
  let response :=
    mem (calls s3 ++ [processMessage mp (encoded_length m) rp
                                     StatusCode.responseBufferSize]) in
  getUint32 response rp = Some len ->
  0 < len <= StatusCode.responseBufferSize - 4 ->
  view response (rp + 4) len = Some bytes ->
  JSON_parse (TextDecoder_decode bytes) = Some v ->
  exists s' debug,
    StatusCode.sendMessageToWasm m s = (Return v, s')
    /\ wasmIsDead s' = false
    /\ calls s' = calls s ++ exchange m mp rp ++ debug
                          ++ [freeMessageBuffer; freeResponseBuffer]
    /\ forallb is_debug debug = true.
Proof.
  intros Halive Hsafe Hlog Hreach Hentry response Hlen Hrange Hview Hparse.
  pose proof (status_code_try_at_entry e mem m s mp rp s3 0 Hreach Hentry)
    as Htry.
  cbv zeta in Htry. cbn [Z.eqb negb] in Htry. cbn [calls record_call] in Htry.
  fold response in Htry.
  assert (Hdecode : StatusCode.decode_response response rp = inr v).
  { unfold StatusCode.decode_response. rewrite Hlen.
    replace ((len =? 0) || (StatusCode.responseBufferSize - 4 <? len))
      with false
      by (symmetry; apply orb_false_iff; split;
          [apply Z.eqb_neq | apply Z.ltb_ge]; lia).
    now rewrite Hview, Hparse. }
  rewrite Hdecode in Htry.
  destruct (reaches_entry_calls _ _ _ _ _ _ Hreach) as (Hcalls & Hmem3).
  pose proof (reaches_entry_alive _ _ _ _ _ _ Hreach) as Hdead3.
  destruct Halive as (Hdead & Hmod & Hmem).
  set (s4 := record_call (processMessage mp (encoded_length m) rp
                                         StatusCode.responseBufferSize) s3)
    in Htry.
  assert (Hmem4 : wasmMemory s4 = Some mem) by (cbn; congruence).
  destruct (log_after_success_normal e mem s4 Hsafe Hlog Hmem4)
    as (s5 & Hafter & Hdead5).
  rewrite Hafter in Htry.
  destruct (log_after_success_calls _ _ _ _ Hafter) as (debug & Hdebug & Hall).
  unfold calls_between in Hdebug. cbn [calls record_call s4] in Hdebug.
  exists (record_call freeResponseBuffer (record_call freeMessageBuffer s5)),
         debug.
  split; [|split; [|split]].
  - unfold StatusCode.sendMessageToWasm. rewrite Hdead, Hmod, Hmem, Htry.
    apply status_code_finally_releases, never_traps_releases, Hsafe.
  - cbn [wasmIsDead record_call]. rewrite Hdead5. cbn. congruence.
  - cbn [calls record_call]. rewrite Hdebug, Hcalls.
    cbn [firstn exchange]. rewrite <- !app_assoc. reflexivity.
  - exact Hall.
Qed.

Lemma answering_never_traps code mem : never_traps (answering code mem).
Proof. intros h c. destruct c; discriminate. Qed.

Lemma answering_log_terminated code mem mem' :
  log_terminated (answering code mem) mem'.
Proof. intros h ptr [= <-] Hptr. now contradiction Hptr. Qed.

Lemma status_code_returns_response_witness :
  exists s' debug,
    StatusCode.sendMessageToWasm
      (request "INIT") (loaded (answering 0 (prefixed success_text)))
    = (Return (JObj [("status", JStr "SUCCESS")]), s')
    /\ wasmIsDead s' = false
    /\ calls s' = calls (loaded (answering 0 (prefixed success_text)))
                  ++ exchange (request "INIT") 8 64 ++ debug
                  ++ [freeMessageBuffer; freeResponseBuffer]
    /\ forallb is_debug debug = true.
Proof.
  apply (status_code_returns_response
           (answering 0 (prefixed success_text)) (prefixed success_text)
           (request "INIT") (loaded (answering 0 (prefixed success_text)))
           8 64
           (record_call (allocateResponseBuffer StatusCode.responseBufferSize)
              (record_call (memory_set (encoded (request "INIT")) 8)
                 (record_call (allocateMessageBuffer 15)
                    (loaded (answering 0 (prefixed success_text))))))
           20 (TextEncoder_encode success_text)).
  - now apply loaded_alive.
  - apply answering_never_traps.
  - apply answering_log_terminated.
  - eexists. split; [|split; [reflexivity|discriminate]].
    eexists. split; [reflexivity|]. split; [discriminate|].
    vm_compute. reflexivity.
  - reflexivity.
  - vm_compute. reflexivity.
  - vm_compute. split; [reflexivity|discriminate].
  - vm_compute. reflexivity.
  - vm_compute. reflexivity.
Defined.

(** ** What deactivates the module *)

Lemma proceeds_refl s : proceeds s s.
Proof. split; [repeat split|]. exists []. now rewrite app_nil_r. Qed.

Lemma proceeds_trans s1 s2 s3 :
  proceeds s1 s2 -> proceeds s2 s3 -> proceeds s1 s3.
Proof.
  intros ((A1 & A2 & A3) & (m1 & H1)) ((B1 & B2 & B3) & (m2 & H2)).
  split; [repeat split; congruence|].
  exists (m1 ++ m2). now rewrite H2, H1, app_assoc.
Qed.

Lemma call_proceeds e c s r s' : call e c s = (r, s') -> proceeds s s'.
Proof.
  unfold call. intros [= _ <-]. split; [repeat split|]. now exists [c].
Qed.

Lemma store_proceeds bytes offset s s' :
  store bytes offset s = Some s' -> proceeds s s'.
Proof.
  intros H. apply store_records in H. subst s'.
  split; [repeat split|]. now eexists.
Qed.

Lemma call_trapped e c s s' :
  call e c s = (Traps, s') -> trapped_between e s s'.
Proof.
  unfold call. intros [= Htrap <-]. exists [], c, [].
  cbn [app calls record_call]. rewrite app_nil_r. split; [reflexivity|exact Htrap].
Qed.

Lemma trapped_after e s s1 s2 :
  proceeds s s1 -> trapped_between e s1 s2 -> trapped_between e s s2.
Proof.
  intros (_ & (mid & Hmid)) (before & c & after & Hcalls & Htrap).
  exists (mid ++ before), c, after.
  rewrite Hcalls, Hmid, <- !app_assoc. split; [reflexivity|].
  rewrite app_assoc, <- Hmid. exact Htrap.
Qed.

Lemma trapped_before e s s1 s2 :
  trapped_between e s s1 -> (exists mid, calls s2 = calls s1 ++ mid) ->
  trapped_between e s s2.
Proof.
  intros (before & c & after & Hcalls & Htrap) (mid & Hmid).
  exists before, c, (after ++ mid).
  rewrite Hmid, Hcalls, <- !app_assoc. split; [reflexivity|exact Htrap].
Qed.

Create HintDb module.

#[local] Hint Resolve proceeds_refl call_trapped trapped_after : module.

(** One step along the text of a call, noting how far the call has
    proceeded from the state it began in. *)
Ltac walk :=
  match goal with
  | |- context [match call ?e ?c ?s with _ => _ end] =>
      let H := fresh "Hcall" in
      destruct (call e c s) as [[?|] ?] eqn:H;
      match goal with
      | P : proceeds ?s0 s |- _ =>
          pose proof (proceeds_trans _ _ _ P (call_proceeds _ _ _ _ _ H))
      end
  | |- context [match store ?b ?o ?s with _ => _ end] =>
      let H := fresh "Hstore" in
      destruct (store b o s) eqn:H;
      [match goal with
       | P : proceeds ?s0 s |- _ =>
           pose proof (proceeds_trans _ _ _ P (store_proceeds _ _ _ _ H))
       end|]
  | |- context [if ?b then _ else _] =>
      let H := fresh "Htest" in destruct b eqn:H
  end; cbv beta iota.

Lemma read_debug_log_proceeds e s x s' :
  read_debug_log e s = (x, s') ->
  proceeds s s' /\ (forall error, x = Raise error -> trapped_between e s s').
Proof.
  pose proof (proceeds_refl s) as Hstart. unfold read_debug_log.
  repeat walk; try destruct (readNullTerminatedString _ _);
    intros [= <- <-]; (split; [assumption|]);
    intros error; try discriminate; eauto 4 with module.
Qed.

Lemma log_after_success_proceeds e s x s' :
  log_after_success e s = (x, s') ->
  proceeds s s' /\ (forall error, x = Raise error -> trapped_between e s s').
Proof.
  unfold log_after_success.
  destruct (read_debug_log e s) as [y s1] eqn:Hread.
  apply read_debug_log_proceeds in Hread. destruct Hread as (Hread & _).
  destruct y as [|raised|]; repeat walk; intros [= <- <-];
    (split; [assumption|]);
    intros error'; try discriminate; eauto 4 with module.
Qed.

Lemma decode_response_no_trap buf rp error :
  StatusCode.decode_response buf rp = inl error -> is_RuntimeError error = false.
Proof.
  unfold StatusCode.decode_response.
  destruct (getUint32 buf rp) as [len|]; [|now intros [= <-]].
  destruct (_ || _); [now intros [= <-]|].
  destruct (view buf (rp + 4) len); [|now intros [= <-]].
  destruct (JSON_parse _); [discriminate|now intros [= <-]].
Qed.

(** The [try] block leaves the flag alone, and throws a
    [RuntimeError] only when a call has trapped. *)
Lemma status_code_try_proceeds e mem m s c mp rp s1 :
  StatusCode.try_block e mem m s = (c, mp, rp, s1) ->
  proceeds s s1
  /\ (forall error, c = Throw error -> is_RuntimeError error = true ->
                    trapped_between e s s1).
Proof.
  pose proof (proceeds_refl s) as Hstart.
  unfold StatusCode.try_block. cbv zeta.
  repeat walk;
    try (intros [= <- _ _ <-]; (split; [assumption|]);
         intros error [= <-]; try discriminate; eauto 4 with module).
  all: destruct (StatusCode.decode_response _ _) as [bad|good] eqn:Hdecode;
    [apply decode_response_no_trap in Hdecode;
     intros [= <- _ _ <-]; (split; [assumption|]);
     intros error [= <-]; congruence|].
  all: destruct (log_after_success e _) as [y s5] eqn:Hlog;
    apply log_after_success_proceeds in Hlog; destruct Hlog as (Hlog & Hraise);
    destruct y as [|raised|]; intros [= <- _ _ <-];
    (split; [eauto using proceeds_trans|]);
    intros error' [= <-]; eauto 4 with module.
Qed.

Lemma pointer_return_try_proceeds e mem m s c mp rp s1 :
  PointerReturn.try_block e mem m s = (c, mp, rp, s1) ->
  proceeds s s1
  /\ (forall error, c = Throw error -> is_RuntimeError error = true ->
                    trapped_between e s s1).
Proof.
  pose proof (proceeds_refl s) as Hstart.
  unfold PointerReturn.try_block. cbv zeta.
  repeat walk;
    try (intros [= <- _ _ <-]; (split; [assumption|]);
         intros error [= <-]; try discriminate; eauto 4 with module).
  all: destruct (JSON_parse _);
    [|intros [= <- _ _ <-]; (split; [assumption|]);
      intros error [= <-]; discriminate].
  all: repeat walk;
    try (intros [= <- _ _ <-]; (split; [assumption|]);
         intros error [= <-]; try discriminate; eauto 4 with module).
  all: destruct (log_after_success e _) as [y s6] eqn:Hlog;
    apply log_after_success_proceeds in Hlog; destruct Hlog as (Hlog & Hraise);
    destruct y as [|raised|]; intros [= <- _ _ <-];
    (split; [eauto using proceeds_trans|]);
    intros error' [= <-]; eauto 4 with module.
Qed.

Lemma status_code_finally_proceeds e mp rp pending s c s' :
  StatusCode.finally_block e mp rp pending s = (c, s') -> proceeds s s'.
Proof.
  pose proof (proceeds_refl s) as Hstart.
  unfold StatusCode.finally_block. cbv zeta.
  destruct mp, rp; repeat walk; intros [= _ <-]; assumption.
Qed.

Lemma pointer_return_finally_proceeds e mp rp pending s c s' :
  PointerReturn.finally_block e mp rp pending s = (c, s') -> proceeds s s'.
Proof.
  unfold PointerReturn.finally_block, call. cbv zeta.
  intros [= _ <-].
  destruct mp, rp; cbn [snd]; (split; [repeat split|]);
    eexists; cbn [calls record_call]; rewrite <- ?app_assoc;
    try reflexivity; symmetry; apply app_nil_r.
Qed.

Lemma catch_block_extends e error s c s' :
  catch_block e error s = (c, s') -> exists mid, calls s' = calls s ++ mid.
Proof.
  intros H. destruct (catch_block_calls _ _ _ _ _ H) as (mid & Hmid & _).
  now exists mid.
Qed.

(** A call of either bridge sets the flag that deactivates the module
    only when one of the calls it has made on the module trapped:
    neither a failed reservation, nor a status code, nor a response
    that cannot be decoded deactivates the module. *)
Theorem only_a_trap_deactivates (v : convention) e m s c s' :
  wasmModule s = Some e ->
  wasmIsDead s = false ->
  sendMessageToWasm v m s = (c, s') ->
  wasmIsDead s' = true ->
  exists before c0 after,
    calls s' = calls s ++ before ++ c0 :: after
    /\ respond e (calls s ++ before) c0 = Traps.
Proof.
  intros Hmod Hdead Hsend Hflag. change (trapped_between e s s').
  assert (Hkept : forall s1 s2, proceeds s s1 -> proceeds s1 s2 ->
                                wasmIsDead s2 = true -> False).
  { intros s1 s2 ((A & _) & _) ((B & _) & _) C. congruence. }
  destruct v; cbn [sendMessageToWasm] in Hsend; revert Hsend;
    [unfold StatusCode.sendMessageToWasm
    |unfold PointerReturn.sendMessageToWasm];
    rewrite Hdead, Hmod;
    (destruct (wasmMemory s) as [mem|]; [|intros [= _ <-]; congruence]).
  - destruct (StatusCode.try_block e mem m s) as [[[tried mp] rp] s1] eqn:Htry.
    apply status_code_try_proceeds in Htry. destruct Htry as (Hp & Htrap).
    destruct tried as [r|error|].
    + intros Hfin. apply status_code_finally_proceeds in Hfin.
      now contradiction (Hkept _ _ Hp Hfin).
    + destruct (is_RuntimeError error) eqn:Herror.
      * specialize (Htrap error eq_refl Herror).
        destruct (catch_block e error s1) as [caught s2] eqn:Hcatch.
        apply catch_block_extends in Hcatch.
        pose proof (trapped_before _ _ _ _ Htrap Hcatch) as Htrap2.
        destruct caught;
          [intros Hfin; apply status_code_finally_proceeds in Hfin;
           exact (trapped_before _ _ _ _ Htrap2 (proj2 Hfin))
          |intros Hfin; apply status_code_finally_proceeds in Hfin;
           exact (trapped_before _ _ _ _ Htrap2 (proj2 Hfin))
          |intros [= _ <-]; exact Htrap2].
      * rewrite (catch_block_rethrows _ _ _ Herror).
        intros Hfin. apply status_code_finally_proceeds in Hfin.
        now contradiction (Hkept _ _ Hp Hfin).
    + intros [= _ <-]. now contradiction (Hkept _ _ Hp (proceeds_refl s1)).
  - destruct (PointerReturn.try_block e mem m s) as [[[tried mp] rp] s1] eqn:Htry.
    apply pointer_return_try_proceeds in Htry. destruct Htry as (Hp & Htrap).
    destruct tried as [r|error|].
    + intros Hfin. apply pointer_return_finally_proceeds in Hfin.
      now contradiction (Hkept _ _ Hp Hfin).
    + destruct (is_RuntimeError error) eqn:Herror.
      * specialize (Htrap error eq_refl Herror).
        destruct (catch_block e error s1) as [caught s2] eqn:Hcatch.
        apply catch_block_extends in Hcatch.
        pose proof (trapped_before _ _ _ _ Htrap Hcatch) as Htrap2.
        destruct caught;
          [intros Hfin; apply pointer_return_finally_proceeds in Hfin;
           exact (trapped_before _ _ _ _ Htrap2 (proj2 Hfin))
          |intros Hfin; apply pointer_return_finally_proceeds in Hfin;
           exact (trapped_before _ _ _ _ Htrap2 (proj2 Hfin))
          |intros [= _ <-]; exact Htrap2].
      * rewrite (catch_block_rethrows _ _ _ Herror).
        intros Hfin. apply pointer_return_finally_proceeds in Hfin.
        now contradiction (Hkept _ _ Hp Hfin).
    + intros [= _ <-]. now contradiction (Hkept _ _ Hp (proceeds_refl s1)).
Qed.

Lemma only_a_trap_deactivates_witness :
  exists before c0 after,
    calls (snd (sendMessageToWasm status_code (request "INIT")
                  (loaded (trapping (prefixed success_text)))))
    = calls (loaded (trapping (prefixed success_text)))
      ++ before ++ c0 :: after
    /\ respond (trapping (prefixed success_text))
               (calls (loaded (trapping (prefixed success_text))) ++ before) c0
       = Traps.
Proof.
  apply (only_a_trap_deactivates
           status_code (trapping (prefixed success_text)) (request "INIT")
           (loaded (trapping (prefixed success_text)))
           (fst (sendMessageToWasm status_code (request "INIT")
                   (loaded (trapping (prefixed success_text)))))).
  - reflexivity.
  - reflexivity.
  - apply surjective_pairing.
  - vm_compute. reflexivity.
Defined.

(** ** Witnesses of the release discipline and of the deactivation *)

Lemma at_entry_reached e mem m mp rp :
  memory e = Some mem ->
  respond e [init] (allocateMessageBuffer (encoded_length m)) = Returns mp ->
  mp <> 0 ->
  store (encoded m) mp
        (record_call (allocateMessageBuffer (encoded_length m)) (loaded e))
  <> None ->
  respond e [init; allocateMessageBuffer (encoded_length m);
             memory_set (encoded m) mp]
          (allocateResponseBuffer StatusCode.responseBufferSize)
  = Returns rp ->
  rp <> 0 ->
  reaches_entry e m (loaded e) mp rp (at_entry e m mp).
Proof.
  intros Hmem Halloc Hmp Hstore Hresp Hrp.
  eexists. split; [|split; [|exact Hrp]].
  - eexists. split; [|split; [exact Hmp|]].
    + unfold call. cbn [calls loaded instantiate call snd record_call
                        set_module initial app]. rewrite Halloc. reflexivity.
    + destruct (store _ _ _) as [s2|] eqn:Hs; [|congruence].
      apply store_records in Hs. now subst s2.
  - unfold call. cbn [calls loaded instantiate call snd record_call
                      set_module initial app]. rewrite Hresp. reflexivity.
Qed.

Lemma status_code_releases_once_witness :
  exists mid,
    calls (snd (StatusCode.sendMessageToWasm
                  (request "INIT") (loaded (answering 3 (prefixed success_text)))))
    = calls (at_entry (answering 3 (prefixed success_text)) (request "INIT") 8)
      ++ mid ++ [freeMessageBuffer; freeResponseBuffer]
    /\ Forall (fun x => is_release x = false) mid.
Proof.
  apply (status_code_releases_once
           (answering 3 (prefixed success_text)) (prefixed success_text)
           (request "INIT") (loaded (answering 3 (prefixed success_text)))
           8 64
           (at_entry (answering 3 (prefixed success_text)) (request "INIT") 8)
           (fst (StatusCode.sendMessageToWasm
                   (request "INIT")
                   (loaded (answering 3 (prefixed success_text)))))).
  - now apply loaded_alive.
  - apply (at_entry_reached _ (prefixed success_text));
      try reflexivity; discriminate.
  - apply answering_releases_return.
  - apply surjective_pairing.
  - vm_compute. discriminate.
Defined.

Lemma entry_trap_deactivates_witness :
  wasmIsDead (snd (StatusCode.sendMessageToWasm
                     (request "INIT")
                     (loaded (trapping (prefixed success_text))))) = true
  /\ (fst (StatusCode.sendMessageToWasm
             (request "INIT") (loaded (trapping (prefixed success_text))))
      = Diverge
      \/ exists error,
          fst (StatusCode.sendMessageToWasm
                 (request "INIT") (loaded (trapping (prefixed success_text))))
          = Throw error).
Proof.
  apply (entry_trap_deactivates
           (trapping (prefixed success_text)) (prefixed success_text)
           (request "INIT") (loaded (trapping (prefixed success_text)))
           8 64
           (at_entry (trapping (prefixed success_text)) (request "INIT") 8)).
  - now apply loaded_alive.
  - apply (at_entry_reached _ (prefixed success_text));
      try reflexivity; discriminate.
  - reflexivity.
  - apply surjective_pairing.
Defined.

(** ** The pointer-return bridge: one release for each buffer *)

Lemma debug_no_release l :
  forallb is_debug l = true -> filter is_release l = [].
Proof.
  induction l as [|c l IH]; [reflexivity|]. cbn [forallb filter].
  intros H. apply andb_prop in H. destruct H as (Hc & Hl).
  destruct c; try discriminate; cbn; auto.
Qed.

Lemma response_length_found mem rp z :
  first_zero mem rp z -> PointerReturn.response_length mem rp = z - rp.
Proof.
  intros Hfirst. unfold PointerReturn.response_length.
  rewrite (scan_finds mem z _ rp Hfirst); [reflexivity|].
  destruct Hfirst as (Hle & Hz & _). apply is_zero_at_inside in Hz. lia.
Qed.

(** The [try] block of the pointer-return bridge after its entry point
    has returned a pointer that is not null: either the response is
    refused, with the request buffer released and the response string
    still held, or the response string is released as well. *)
Lemma pointer_return_try_after_entry e mem m s mp s2 rp tried mp' rp' s1 :
  releases_return e ->
  request_stored e m s mp s2 ->
  respond e (calls s2) (processAndRespond mp (encoded_length m)) = Returns rp ->
  rp <> 0 ->
  PointerReturn.try_block e mem m s = (tried, mp', rp', s1) ->
  mp' = None
  /\ ((rp' = Some rp
       /\ (exists error, tried = Throw error /\ is_RuntimeError error = false)
       /\ calls s1 = calls s2 ++ [processAndRespond mp (encoded_length m);
                                  freeMessageBuffer])
      \/ (rp' = None
          /\ exists debug,
              calls s1 = calls s2 ++ [processAndRespond mp (encoded_length m);
                                      freeMessageBuffer; freeWasmString rp]
                                  ++ debug
              /\ forallb is_debug debug = true)).
Proof.
  intros Hrel (s0 & Halloc & Hmp & Hstore) Hentry Hrp.
  unfold encoded_length, encoded in *.
  unfold PointerReturn.try_block. cbv zeta.
  rewrite Halloc. apply Z.eqb_neq in Hmp. rewrite Hmp. rewrite Hstore.
  unfold call at 1. rewrite Hentry. cbv beta iota.
  unfold call at 1.
  destruct (respond e _ freeMessageBuffer) eqn:Hfree;
    [|exfalso; eapply Hrel; [|exact Hfree]; auto].
  cbv beta iota. apply Z.eqb_neq in Hrp. rewrite Hrp.
  destruct (PointerReturn.response_length _ rp =? 0).
  { intros [= <- <- <- <-]. split; [reflexivity|]. left.
    split; [reflexivity|]. split; [eauto|].
    cbn [calls record_call]. now rewrite <- app_assoc. }
  destruct (JSON_parse _) as [responseObject|].
  2:{ intros [= <- <- <- <-]. split; [reflexivity|]. left.
      split; [reflexivity|]. split; [eauto|].
      cbn [calls record_call]. now rewrite <- app_assoc. }
  unfold call at 1.
  destruct (respond e _ (freeWasmString rp)) eqn:Hstring;
    [|exfalso; eapply Hrel; [|exact Hstring]; eauto].
  cbv beta iota.
  destruct (log_after_success e _) as [y s6] eqn:Hlog.
  destruct (log_after_success_calls _ _ _ _ Hlog) as (debug & Hdebug & Hall).
  unfold calls_between in Hdebug. cbn [calls record_call] in Hdebug.
  destruct y; intros [= <- <- <- <-]; (split; [reflexivity|]); right;
    (split; [reflexivity|]); exists debug;
    rewrite Hdebug, <- !app_assoc; split; auto.
Qed.

(** After the entry point of the pointer-return bridge has returned a
    pointer that is not null, and whatever becomes of the response
    (returned, without terminator, not JSON, the debug log stuck or
    trapping), the call has released the request buffer once and the
    response string once, and made no other release, provided the two
    release exports do not trap. *)
Theorem pointer_return_releases_once e mem m s mp s2 rp c s' :
  alive e mem s ->
  releases_return e ->
  request_stored e m s mp s2 ->
  respond e (calls s2) (processAndRespond mp (encoded_length m)) = Returns rp ->
  rp <> 0 ->
  PointerReturn.sendMessageToWasm m s = (c, s') ->
  exists new,
    calls s' = calls s2 ++ processAndRespond mp (encoded_length m) :: new
    /\ filter is_release new = [freeMessageBuffer; freeWasmString rp].
Proof.
  intros (Hdead & Hmod & Hmem) Hrel Hstored Hentry Hrp.
  unfold PointerReturn.sendMessageToWasm. rewrite Hdead, Hmod, Hmem.
  destruct (PointerReturn.try_block e mem m s) as [[[tried mp'] rp'] s1] eqn:Htry.
  destruct (pointer_return_try_after_entry
              _ _ _ _ _ _ _ _ _ _ _ Hrel Hstored Hentry Hrp Htry)
    as (-> & [(-> & (error & -> & Herror) & Hcalls)
             | (-> & debug & Hcalls & Hall)]).
  - rewrite (catch_block_rethrows _ _ _ Herror).
    unfold PointerReturn.finally_block, call. cbn [snd].
    intros [= _ <-]. exists [freeMessageBuffer; freeWasmString rp].
    cbn [calls record_call]. rewrite Hcalls, <- !app_assoc.
    split; reflexivity.
  - assert (Hend : forall s7 mid,
               calls s7 = calls s1 ++ mid -> forallb is_debug mid = true ->
               exists new,
                 calls s7 = calls s2 ++ processAndRespond mp (encoded_length m)
                                        :: new
                 /\ filter is_release new
                    = [freeMessageBuffer; freeWasmString rp]).
    { intros s7 mid Hmid Hmidall.
      exists ([freeMessageBuffer; freeWasmString rp] ++ debug ++ mid).
      rewrite Hmid, Hcalls, <- !app_assoc. split; [reflexivity|].
      rewrite !filter_app, (debug_no_release _ Hall),
        (debug_no_release _ Hmidall). reflexivity. }
    destruct tried as [r|raised|].
    + unfold PointerReturn.finally_block. intros [= _ <-].
      apply (Hend s1 []); [now rewrite app_nil_r|reflexivity].
    + destruct (catch_block e raised s1) as [caught s7] eqn:Hcatch.
      destruct (catch_block_calls _ _ _ _ _ Hcatch) as (mid & Hmid & Hmidall).
      destruct caught; unfold PointerReturn.finally_block;
        intros [= _ <-]; exact (Hend _ _ Hmid Hmidall).
    + intros [= _ <-]. apply (Hend s1 []); [now rewrite app_nil_r|reflexivity].
Qed.

Lemma pointer_return_releases_once_witness :
  exists new,
    calls (snd (PointerReturn.sendMessageToWasm
                  (request "INIT") (loaded (answering 64 (terminated success_text)))))
    = calls (stored (answering 64 (terminated success_text))
                    (request "INIT") 8)
      ++ processAndRespond 8 (encoded_length (request "INIT")) :: new
    /\ filter is_release new = [freeMessageBuffer; freeWasmString 64].
Proof.
  apply (pointer_return_releases_once
           (answering 64 (terminated success_text)) (terminated success_text)
           (request "INIT") (loaded (answering 64 (terminated success_text)))
           8 (stored (answering 64 (terminated success_text)) (request "INIT") 8)
           64
           (fst (PointerReturn.sendMessageToWasm
                   (request "INIT")
                   (loaded (answering 64 (terminated success_text)))))).
  - now apply loaded_alive.
  - apply answering_releases_return.
  - eexists. split; [reflexivity|]. split; [discriminate|].
    vm_compute. reflexivity.
  - reflexivity.
  - discriminate.
  - apply surjective_pairing.
Defined.

(** The [try] block of the pointer-return bridge from the response
    on. *)
Lemma pointer_return_try_at_response e mem m s mp s2 rp :
  releases_return e ->
  request_stored e m s mp s2 ->
  respond e (calls s2) (processAndRespond mp (encoded_length m)) = Returns rp ->
  rp <> 0 ->
  let s4 := record_call freeMessageBuffer
              (record_call (processAndRespond mp (encoded_length m)) s2) in
  let responseMemory := mem (calls s4) in
  let responseLength := PointerReturn.response_length responseMemory rp in
  PointerReturn.try_block e mem m s =
  if responseLength =? 0
  then (Throw (Error PointerReturn.no_terminator), None, Some rp, s4)
  else match JSON_parse (TextDecoder_decode
                           (subarray responseMemory rp (rp + responseLength))) with
       | None => (Throw SyntaxError, None, Some rp, s4)
       | Some responseObject =>
           match log_after_success e (record_call (freeWasmString rp) s4) with
           | (Stuck, s6) => (Diverge, None, None, s6)
           | (Raise error, s6) => (Throw error, None, None, s6)
           | (Normal, s6) => (Return responseObject, None, None, s6)
           end
       end.
Proof.
  intros Hrel (s0 & Halloc & Hmp & Hstore) Hentry Hrp s4 responseMemory
         responseLength.
  unfold encoded_length, encoded in *.
  unfold PointerReturn.try_block. cbv zeta.
  rewrite Halloc. apply Z.eqb_neq in Hmp. rewrite Hmp. rewrite Hstore.
  unfold call at 1. rewrite Hentry. cbv beta iota.
  unfold call at 1.
  destruct (respond e _ freeMessageBuffer) eqn:Hfree;
    [|exfalso; eapply Hrel; [|exact Hfree]; auto].
  cbv beta iota. apply Z.eqb_neq in Hrp. rewrite Hrp.
  fold s4. fold responseMemory. fold responseLength.
  destruct (responseLength =? 0); [reflexivity|].
  destruct (JSON_parse _); [|reflexivity].
  unfold call at 1.
  destruct (respond e _ (freeWasmString rp)) eqn:Hstring;
    [reflexivity|exfalso; eapply Hrel; [|exact Hstring]; eauto].
Qed.

(** The request is answered by the pointer-return bridge: the entry
    point returns a pointer that is not null, a zero byte follows at [z]
    after at least one other byte, and the bytes up to it decode to the
    JSON text of [v]; no export traps and the debug log is terminated.
    Then the call returns [v], the module stays active, and after the
    entry point the call releases the request buffer, releases the
    response string and serves the debug log, nothing more. *)
Theorem pointer_return_returns_response
        e mem m s mp s2 rp (z : Z) (v : jsval) :
  alive e mem s ->
  never_traps e ->
  log_terminated e mem ->
  request_stored e m s mp s2 ->
  respond e (calls s2) (processAndRespond mp (encoded_length m)) = Returns rp ->
  rp <> 0 ->
  let response :=
    mem (calls s2 ++ [processAndRespond mp (encoded_length m);
                      freeMessageBuffer]) in
  first_zero response rp z ->
  rp < z ->
  JSON_parse (TextDecoder_decode (subarray response rp z)) = Some v ->
  exists s' debug,
    PointerReturn.sendMessageToWasm m s = (Return v, s')
    /\ wasmIsDead s' = false
    /\ calls s' = calls s2 ++ [processAndRespond mp (encoded_length m);
                              freeMessageBuffer; freeWasmString rp] ++ debug
    /\ forallb is_debug debug = true.
Proof.
  intros Halive Hsafe Hlog Hstored Hentry Hrp response Hfirst Hlt Hparse.
  pose proof (pointer_return_try_at_response
                e mem m s mp s2 rp (never_traps_releases e Hsafe)
                Hstored Hentry Hrp) as Htry.
  cbv zeta in Htry. cbn [calls record_call] in Htry.
  rewrite <- !app_assoc in Htry. cbn [app] in Htry. fold response in Htry.
  rewrite (response_length_found _ _ _ Hfirst) in Htry.
  replace (z - rp =? 0) with false in Htry
    by (symmetry; apply Z.eqb_neq; lia).
  replace (rp + (z - rp)) with z in Htry by lia.
  rewrite Hparse in Htry.
  pose proof (request_stored_alive _ _ _ _ _ Hstored) as Hdead2.
  assert (Hmem2 : wasmMemory s2 = wasmMemory s).
  { destruct Hstored as (s1 & Halloc & _ & Hstore).
    apply store_records in Hstore. subst s2.
    unfold call in Halloc. injection Halloc as _ <-. reflexivity. }
  destruct Halive as (Hdead & Hmod & Hmem).
  set (s5 := record_call (freeWasmString rp) _) in Htry.
  assert (Hmem5 : wasmMemory s5 = Some mem) by (cbn; congruence).
  destruct (log_after_success_normal e mem s5 Hsafe Hlog Hmem5)
    as (s6 & Hafter & Hdead6).
  rewrite Hafter in Htry.
  destruct (log_after_success_calls _ _ _ _ Hafter) as (debug & Hdebug & Hall).
  unfold calls_between in Hdebug. cbn [calls record_call s5] in Hdebug.
  exists s6, debug. split; [|split; [|split]].
  - unfold PointerReturn.sendMessageToWasm. rewrite Hdead, Hmod, Hmem, Htry.
    reflexivity.
  - rewrite Hdead6. cbn. congruence.
  - rewrite Hdebug, <- !app_assoc. reflexivity.
  - exact Hall.
Qed.

Lemma pointer_return_returns_response_witness :
  exists s' debug,
    PointerReturn.sendMessageToWasm
      (request "INIT") (loaded (answering 64 (terminated success_text)))
    = (Return (JObj [("status", JStr "SUCCESS")]), s')
    /\ wasmIsDead s' = false
    /\ calls s'
       = calls (stored (answering 64 (terminated success_text))
                       (request "INIT") 8)
         ++ [processAndRespond 8 (encoded_length (request "INIT"));
             freeMessageBuffer; freeWasmString 64] ++ debug
    /\ forallb is_debug debug = true.
Proof.
  apply (pointer_return_returns_response
           (answering 64 (terminated success_text)) (terminated success_text)
           (request "INIT") (loaded (answering 64 (terminated success_text)))
           8 (stored (answering 64 (terminated success_text)) (request "INIT") 8)
           64 84).
  - now apply loaded_alive.
  - apply answering_never_traps.
  - apply answering_log_terminated.
  - eexists. split; [reflexivity|]. split; [discriminate|].
    vm_compute. reflexivity.
  - reflexivity.
  - discriminate.
  - split; [lia|]. split; [vm_compute; reflexivity|].
    intros i Hi.
    assert (Hcases : i = 64 \/ i = 65 \/ i = 66 \/ i = 67 \/ i = 68 \/ i = 69
                     \/ i = 70 \/ i = 71 \/ i = 72 \/ i = 73 \/ i = 74
                     \/ i = 75 \/ i = 76 \/ i = 77 \/ i = 78 \/ i = 79
                     \/ i = 80 \/ i = 81 \/ i = 82 \/ i = 83) by lia.
    repeat (destruct Hcases as [-> | Hcases]; [vm_compute; reflexivity|]).
    subst i. vm_compute. reflexivity.
  - lia.
  - vm_compute. reflexivity.
Defined.

(** An empty response cannot be told from a missing terminator: when
    the byte at the returned pointer is zero, and when no zero byte
    follows the pointer at all, the pointer-return bridge rejects the
    call with the error that says the terminator is missing; the module
    stays active. *)
Theorem pointer_return_refuses_empty_response e mem m s mp s2 rp :
  alive e mem s ->
  releases_return e ->
  request_stored e m s mp s2 ->
  respond e (calls s2) (processAndRespond mp (encoded_length m)) = Returns rp ->
  rp <> 0 ->
  let response :=
    mem (calls s2 ++ [processAndRespond mp (encoded_length m);
                      freeMessageBuffer]) in
  is_zero_at response rp = true
  \/ (forall i, rp <= i -> is_zero_at response i = false) ->
  exists s',
    PointerReturn.sendMessageToWasm m s
    = (Throw (Error PointerReturn.no_terminator), s')
    /\ wasmIsDead s' = false.
Proof.
  intros Halive Hrel Hstored Hentry Hrp response Hcase.
  pose proof (pointer_return_try_at_response
                e mem m s mp s2 rp Hrel Hstored Hentry Hrp) as Htry.
  cbv zeta in Htry. cbn [calls record_call] in Htry.
  rewrite <- !app_assoc in Htry. cbn [app] in Htry. fold response in Htry.
  assert (Hlen : PointerReturn.response_length response rp = 0).
  { destruct Hcase as [Hzero | Hnone].
    - rewrite (response_length_found response rp rp); [lia|].
      split; [lia|]. split; [exact Hzero|]. intros i Hi. lia.
    - unfold PointerReturn.response_length. now rewrite scan_never. }
  rewrite Hlen in Htry. cbn [Z.eqb] in Htry.
  destruct (pointer_return_rejects _ _ _ _ _ _ _ _ Halive Htry eq_refl)
    as (s' & Hsend & Hdead).
  exists s'. split; [exact Hsend|]. rewrite Hdead. cbn.
  rewrite (request_stored_alive _ _ _ _ _ Hstored). apply Halive.
Qed.

Lemma pointer_return_refuses_empty_response_witness :
  exists s',
    PointerReturn.sendMessageToWasm
      (request "INIT") (loaded (answering 64 (terminated "")))
    = (Throw (Error PointerReturn.no_terminator), s')
    /\ wasmIsDead s' = false.
Proof.
  apply (pointer_return_refuses_empty_response
           (answering 64 (terminated "")) (terminated "")
           (request "INIT") (loaded (answering 64 (terminated "")))
           8 (stored (answering 64 (terminated "")) (request "INIT") 8) 64).
  - now apply loaded_alive.
  - apply answering_releases_return.
  - eexists. split; [reflexivity|]. split; [discriminate|].
    vm_compute. reflexivity.
  - reflexivity.
  - discriminate.
  - left. vm_compute. reflexivity.
Defined.

(** * Properties of the editor side *)

(** ** Lines and positions of a document *)

Lemma joined_length_nonneg ls : 0 <= joined_length ls.
Proof.
  induction ls as [|l rest IH]; cbn [joined_length]; [lia|].
  destruct rest; lia.
Qed.

Lemma joined_length_cons l rest :
  rest <> [] ->
  joined_length (l :: rest) = Z.of_nat (List.length l) + 1 + joined_length rest.
Proof. destruct rest; [congruence|reflexivity]. Qed.

Lemma find_line_some ls :
  forall start number n,
    number <= n < number + Z.of_nat (List.length ls) ->
    exists ln, find_line ls start number n = Some ln.
Proof.
  induction ls as [|l rest IH]; intros start number n Hn; cbn [find_line].
  - cbn in Hn. lia.
  - destruct (number =? n) eqn:Heq; [eauto|].
    apply Z.eqb_neq in Heq. apply IH. cbn [List.length] in Hn. lia.
Qed.

Lemma find_line_bounds ls :
  forall start number n ln,
    find_line ls start number n = Some ln ->
    start <= line_from ln /\ line_from ln <= line_to ln
    /\ line_to ln <= start + joined_length ls
    /\ line_number ln = n
    /\ number <= n < number + Z.of_nat (List.length ls).
Proof.
  induction ls as [|l rest IH]; intros start number n ln; cbn [find_line];
    [discriminate|].
  destruct (number =? n) eqn:Heq.
  - apply Z.eqb_eq in Heq. intros [= <-]. cbn [make_line line_from line_to
                                                line_number List.length].
    pose proof (joined_length_nonneg rest).
    destruct rest; cbn [joined_length]; cbn [joined_length] in H; lia.
  - apply Z.eqb_neq in Heq. intros Hfind.
    destruct (IH _ _ _ _ Hfind) as (H1 & H2 & H3 & H4 & H5).
    assert (rest <> []) as Hrest by (destruct rest; [discriminate|congruence]).
    rewrite (joined_length_cons _ _ Hrest). cbn [List.length]. lia.
Qed.

Lemma find_line_at_some ls :
  forall start number pos,
    ls <> [] -> pos <= start + joined_length ls ->
    exists ln, find_line_at ls start number pos = Some ln.
Proof.
  induction ls as [|l rest IH]; intros start number pos Hls Hpos;
    [congruence|]. cbn [find_line_at].
  destruct (pos <=? start + Z.of_nat (List.length l)) eqn:Hle; [eauto|].
  apply Z.leb_gt in Hle.
  destruct rest as [|l' rest'].
  - cbn [joined_length] in Hpos. lia.
  - apply IH; [discriminate|].
    rewrite joined_length_cons in Hpos by discriminate. lia.
Qed.

(** The line found by its number is the line found at each of its
    positions. *)
Lemma find_line_at_found ls :
  forall start number n ln pos,
    find_line ls start number n = Some ln ->
    line_from ln <= pos <= line_to ln ->
    find_line_at ls start number pos = Some ln.
Proof.
  induction ls as [|l rest IH]; intros start number n ln pos;
    cbn [find_line find_line_at]; [discriminate|].
  destruct (number =? n).
  - intros [= <-]. cbn [make_line line_from line_to]. intros Hpos.
    replace (pos <=? start + Z.of_nat (List.length l)) with true
      by (symmetry; apply Z.leb_le; lia).
    reflexivity.
  - intros Hfind Hpos.
    pose proof (find_line_bounds _ _ _ _ _ Hfind) as (H1 & _).
    replace (pos <=? start + Z.of_nat (List.length l)) with false
      by (symmetry; apply Z.leb_gt; lia).
    eapply IH; eassumption.
Qed.

Lemma Text_lines_positive doc : 1 <= Text_lines doc.
Proof. unfold Text_lines, Text_all. cbn [List.length]. lia. Qed.

Lemma Text_line_bounds doc n ln :
  Text_line doc n = Some ln ->
  0 <= line_from ln /\ line_from ln <= line_to ln
  /\ line_to ln <= Text_length doc /\ line_number ln = n
  /\ 1 <= n <= Text_lines doc.
Proof.
  unfold Text_line, Text_length, Text_lines. intros H.
  apply find_line_bounds in H. lia.
Qed.

Lemma Text_line_some doc n :
  1 <= n <= Text_lines doc -> exists ln, Text_line doc n = Some ln.
Proof.
  unfold Text_line, Text_lines. intros H. apply find_line_some. lia.
Qed.

(** ** A region as positions *)

Lemma regionToPositions_cases (region_ : RocRegion) (doc : Text) :
  (on_document doc region_ = false /\ regionToPositions region_ doc = None)
  \/ (on_document doc region_ = true
      /\ exists from to,
          regionToPositions region_ doc = Some (from, to)
          /\ 0 <= from <= to /\ to <= Text_length doc).
Proof.
  unfold regionToPositions, on_document. cbv zeta.
  set (startLine := Z.max 0 (roc_start_line region_ - 1)).
  set (endLine := Z.max 0 (roc_end_line region_ - 1)).
  set (startColumn := Z.max 0 (roc_start_column region_ - 1)).
  set (endColumn := Z.max 0 (roc_end_column region_ - 1)).
  destruct (Text_lines doc <=? startLine) eqn:Hs.
  { apply Z.leb_le in Hs. cbn [orb].
    replace (startLine <? Text_lines doc) with false
      by (symmetry; apply Z.ltb_ge; lia).
    left. split; reflexivity. }
  destruct (Text_lines doc <=? endLine) eqn:He.
  { apply Z.leb_le in He. cbn [orb].
    replace (endLine <? Text_lines doc) with false
      by (symmetry; apply Z.ltb_ge; lia).
    rewrite andb_false_r. left. split; reflexivity. }
  apply Z.leb_gt in Hs, He. cbn [orb].
  replace (startLine <? Text_lines doc) with true
    by (symmetry; apply Z.ltb_lt; lia).
  replace (endLine <? Text_lines doc) with true
    by (symmetry; apply Z.ltb_lt; lia).
  cbn [andb].
  destruct (Text_line_some doc (startLine + 1)) as (a & Ha); [lia|].
  destruct (Text_line_some doc (endLine + 1)) as (b & Hb); [lia|].
  rewrite Ha, Hb.
  apply Text_line_bounds in Ha, Hb. unfold line_length.
  right. split; [reflexivity|]. do 2 eexists. split; [reflexivity|]. lia.
Qed.

(** [regionToPositions] returns [null] exactly when the line the
    region starts on or the line it ends on, taken from 1 and raised to
    the first line when smaller, lies beyond the last line of the
    document: the [catch] is never reached.  Otherwise the two positions
    lie inside the document, the second not before the first, whatever
    the columns are. *)
Theorem regionToPositions_inside_document (region_ : RocRegion) (doc : Text) :
  (regionToPositions region_ doc = None <-> on_document doc region_ = false)
  /\ (forall from to,
         regionToPositions region_ doc = Some (from, to) ->
         0 <= from <= to /\ to <= Text_length doc).
Proof.
  destruct (regionToPositions_cases region_ doc)
    as [(Hoff & Hnull)|(Hon & from' & to' & Hpos & Hin)].
  - rewrite Hnull, Hoff. split; [split; reflexivity|discriminate].
  - rewrite Hpos, Hon. split; [split; discriminate|].
    intros from to [= <- <-]. exact Hin.
Qed.

(** The markers of the linter are those of the diagnostics whose region
    lies on lines of the document, in the order of the diagnostics and
    with their severity and message; each lies inside the document. *)
Theorem createRocLinter_markers (rocDiagnostics : list RocDiagnostic)
        (doc : Text) :
  map marker_label (createRocLinter rocDiagnostics doc)
  = map roc_label
        (filter (fun d => on_document doc (roc_region d)) rocDiagnostics)
  /\ Forall (inside doc) (createRocLinter rocDiagnostics doc).
Proof.
  induction rocDiagnostics as [|d rest (IHl & IHi)];
    cbn [createRocLinter filter map]; [split; constructor|].
  destruct (regionToPositions_cases (roc_region d) doc)
    as [(Hoff & Hnull)|(Hon & from & to & Hpos & Hin)].
  - rewrite Hnull, Hoff. split; assumption.
  - rewrite Hpos, Hon. cbn [map]. split.
    + now rewrite IHl.
    + constructor; [|exact IHi]. exact Hin.
Qed.

(** ** The word under the pointer *)

Lemma find_line_text ls :
  forall start0 number n ln,
    find_line ls start0 number n = Some ln ->
    line_to ln = line_from ln + Z.of_nat (List.length (line_text ln)).
Proof.
  induction ls as [|l rest IH]; intros start0 number n ln; cbn [find_line];
    [discriminate|].
  destruct (number =? n); [now intros [= <-]|apply IH].
Qed.

(** The line found at a position is the line found by its number, and
    it holds the position. *)
Lemma find_line_at_number ls :
  forall start0 number pos ln,
    find_line_at ls start0 number pos = Some ln ->
    start0 <= pos ->
    find_line ls start0 number (line_number ln) = Some ln
    /\ line_from ln <= pos <= line_to ln.
Proof.
  induction ls as [|l rest IH]; intros start0 number pos ln;
    cbn [find_line find_line_at]; [discriminate|].
  destruct (pos <=? start0 + Z.of_nat (List.length l)) eqn:Hle.
  - apply Z.leb_le in Hle. intros [= <-] Hpos.
    cbn [make_line line_number line_from line_to]. rewrite Z.eqb_refl.
    split; [reflexivity|lia].
  - apply Z.leb_gt in Hle. intros Hfind Hpos.
    destruct (IH _ _ _ _ Hfind) as (Hline & Hin); [lia|].
    split; [|exact Hin].
    pose proof (find_line_bounds _ _ _ _ _ Hline) as (_ & _ & _ & _ & Hn).
    replace (number =? line_number ln) with false
      by (symmetry; apply Z.eqb_neq; lia).
    exact Hline.
Qed.

Lemma Text_lineAt_line doc pos ln :
  Text_lineAt doc pos = Some ln ->
  Text_line doc (line_number ln) = Some ln
  /\ line_from ln <= pos <= line_to ln
  /\ line_to ln = line_from ln + Z.of_nat (List.length (line_text ln)).
Proof.
  unfold Text_lineAt, Text_line.
  destruct (pos <? 0) eqn:Hneg; [discriminate|]. apply Z.ltb_ge in Hneg.
  intros Hfind. destruct (find_line_at_number _ _ _ _ _ Hfind Hneg) as (H1 & H2).
  split; [exact H1|]. split; [exact H2|].
  exact (find_line_text _ _ _ _ _ H1).
Qed.

Lemma Text_lineAt_some doc pos :
  0 <= pos <= Text_length doc -> exists ln, Text_lineAt doc pos = Some ln.
Proof.
  intros Hpos. unfold Text_lineAt.
  replace (pos <? 0) with false by (symmetry; apply Z.ltb_ge; lia).
  apply find_line_at_some; [discriminate|]. unfold Text_length in Hpos. lia.
Qed.

Lemma test_at_outside class l i :
  i < 0 \/ Z.of_nat (List.length l) <= i -> test_at class l i = false.
Proof.
  unfold test_at. intros [Hneg | Hbig].
  - now replace (i <? 0) with true by (symmetry; apply Z.ltb_lt; lia).
  - destruct (i <? 0); [reflexivity|].
    replace (nth_error l (Z.to_nat i)) with (@None Z); [reflexivity|].
    symmetry. apply nth_error_None. lia.
Qed.

Lemma test_at_inside class l i :
  test_at class l i = true -> 0 <= i < Z.of_nat (List.length l).
Proof.
  intros H. destruct (Z_lt_dec i 0) as [Hneg|Hpos].
  - rewrite test_at_outside in H by lia. discriminate.
  - destruct (Z_le_dec (Z.of_nat (List.length l)) i) as [Hbig|Hin]; [|lia].
    rewrite test_at_outside in H by lia. discriminate.
Qed.

Lemma word_start_spec l :
  forall fuel start0,
    word_start fuel l start0 <= start0
    /\ (0 <= start0 -> 0 <= word_start fuel l start0)
    /\ (forall i, word_start fuel l start0 <= i < start0 ->
                  test_at is_word_unit l i = true)
    /\ (start0 <= Z.of_nat fuel ->
        test_at is_word_unit l (word_start fuel l start0 - 1) = false).
Proof.
  induction fuel as [|fuel IH]; intros start0; cbn [word_start].
  - split; [lia|]. split; [lia|]. split; [intros i Hi; lia|].
    intros Hfuel. apply test_at_outside. lia.
  - destruct ((0 <? start0) && test_at is_word_unit l (start0 - 1)) eqn:Hcond.
    + apply andb_prop in Hcond. destruct Hcond as (Hpos & Hunit).
      apply Z.ltb_lt in Hpos.
      destruct (IH (start0 - 1)) as (H1 & H2 & H3 & H4).
      split; [lia|]. split; [lia|]. split.
      * intros i Hi. destruct (Z.eq_dec i (start0 - 1)) as [->|Hne];
          [exact Hunit|apply H3; lia].
      * intros Hfuel. apply H4. lia.
    + split; [lia|]. split; [lia|]. split; [intros i Hi; lia|].
      intros _. apply andb_false_iff in Hcond. destruct Hcond as [Hpos|Hunit];
        [|exact Hunit].
      apply Z.ltb_ge in Hpos. apply test_at_outside. lia.
Qed.

Lemma word_end_spec l :
  forall fuel end0,
    end0 <= word_end fuel l end0
    /\ (end0 <= Z.of_nat (List.length l) ->
        word_end fuel l end0 <= Z.of_nat (List.length l))
    /\ (forall i, end0 <= i < word_end fuel l end0 ->
                  test_at is_word_unit l i = true)
    /\ (Z.of_nat (List.length l) - end0 <= Z.of_nat fuel ->
        test_at is_word_unit l (word_end fuel l end0) = false).
Proof.
  induction fuel as [|fuel IH]; intros end0; cbn [word_end].
  - split; [lia|]. split; [lia|]. split; [intros i Hi; lia|].
    intros Hfuel. apply test_at_outside. lia.
  - destruct ((end0 <? Z.of_nat (List.length l))
              && test_at is_word_unit l end0) eqn:Hcond.
    + apply andb_prop in Hcond. destruct Hcond as (Hlt & Hunit).
      apply Z.ltb_lt in Hlt.
      destruct (IH (end0 + 1)) as (H1 & H2 & H3 & H4).
      split; [lia|]. split; [lia|]. split.
      * intros i Hi. destruct (Z.eq_dec i end0) as [->|Hne];
          [exact Hunit|apply H3; lia].
      * intros Hfuel. apply H4. lia.
    + split; [lia|]. split; [lia|]. split; [intros i Hi; lia|].
      intros _. apply andb_false_iff in Hcond. destruct Hcond as [Hlt|Hunit];
        [|exact Hunit].
      apply Z.ltb_ge in Hlt. apply test_at_outside. lia.
Qed.

Lemma slice_length l a b :
  0 <= a <= b -> b <= Z.of_nat (List.length l) ->
  Z.of_nat (List.length (slice l a b)) = b - a.
Proof.
  intros Ha Hb. unfold slice, relative_index. cbv zeta.
  replace (a <? 0) with false by (symmetry; apply Z.ltb_ge; lia).
  replace (b <? 0) with false by (symmetry; apply Z.ltb_ge; lia).
  rewrite !Z.min_l by lia.
  rewrite length_firstn, length_skipn. lia.
Qed.

Lemma bang_not_word_unit l i :
  test_at is_bang l i = true -> test_at is_word_unit l i = false.
Proof.
  unfold test_at. destruct (if i <? 0 then None else nth_error l (Z.to_nat i))
    as [u|]; [|reflexivity].
  unfold is_bang, is_word_unit. intros H. apply Z.eqb_eq in H. now subst u.
Qed.

Lemma word_unit_or_bang l i :
  test_at is_word_unit_or_bang l i
  = test_at is_word_unit l i || test_at is_bang l i.
Proof.
  unfold test_at. now destruct (if i <? 0 then None else nth_error l _).
Qed.

(** The span the two loops and the test of the exclamation mark find
    around a position that holds a character of a word. *)
Lemma word_span lineText linePos :
  test_at is_word_unit_or_bang lineText linePos = true ->
  let len := Z.of_nat (List.length lineText) in
  let start0 := word_start (Z.to_nat linePos) lineText linePos in
  let end0 := word_end (Z.to_nat (len - linePos)) lineText linePos in
  let end1 := if (end0 <? len) && test_at is_bang lineText end0
              then end0 + 1 else end0 in
  0 <= start0 <= linePos /\ linePos < end1 <= len
  /\ (forall i, start0 <= i < end1 - 1 -> test_at is_word_unit lineText i = true)
  /\ test_at is_word_unit_or_bang lineText (end1 - 1) = true
  /\ test_at is_word_unit lineText (start0 - 1) = false
  /\ (test_at is_word_unit lineText (end1 - 1) = true ->
      test_at is_word_unit_or_bang lineText end1 = false).
Proof.
  intros Hcur len start0 end0 end1.
  pose proof (test_at_inside _ _ _ Hcur) as Hin. fold len in Hin.
  destruct (word_start_spec lineText (Z.to_nat linePos) linePos)
    as (S1 & S2 & S3 & S4).
  destruct (word_end_spec lineText (Z.to_nat (len - linePos)) linePos)
    as (E1 & E2 & E3 & E4). fold len in E2, E4.
  fold start0 in S1, S2, S3, S4. fold end0 in E1, E2, E3, E4.
  specialize (S2 (proj1 Hin)). specialize (S4 ltac:(lia)).
  specialize (E2 ltac:(lia)). specialize (E4 ltac:(lia)).
  rewrite word_unit_or_bang in Hcur.
  assert (Hend : (test_at is_word_unit lineText linePos = true
                  /\ linePos < end0)
                 \/ (test_at is_bang lineText linePos = true
                     /\ end0 = linePos)).
  { destruct (test_at is_word_unit lineText linePos) eqn:Hunit.
    - left. split; [reflexivity|].
      destruct (Z.eq_dec end0 linePos) as [Heq|Hne]; [congruence|lia].
    - right. cbn [orb] in Hcur. split; [exact Hcur|].
      destruct (Z.eq_dec end0 linePos) as [Heq|Hne]; [exact Heq|].
      rewrite (E3 linePos) in Hunit by lia. discriminate. }
  subst end1.
  destruct ((end0 <? len) && test_at is_bang lineText end0) eqn:Hbang.
  - (* the word ends with the exclamation mark at [end0] *)
    apply andb_prop in Hbang. destruct Hbang as (Hlt & Hbang).
    apply Z.ltb_lt in Hlt.
    replace (end0 + 1 - 1) with end0 by lia.
    split; [lia|]. split; [lia|]. split; [|split; [|split]].
    + intros i Hi.
      destruct (Z_lt_dec i linePos) as [Hl|Hr]; [apply S3; lia|apply E3; lia].
    + rewrite word_unit_or_bang, Hbang. apply orb_true_r.
    + exact S4.
    + rewrite (bang_not_word_unit _ _ Hbang). discriminate.
  - (* the word ends with the letter, digit or underscore before [end0] *)
    assert (Hlast : linePos < end0).
    { destruct Hend as [(_ & H)|(Hb & Heq)]; [exact H|].
      rewrite Heq in Hbang. rewrite Hb, andb_true_r in Hbang.
      apply Z.ltb_ge in Hbang. lia. }
    split; [lia|]. split; [lia|]. split; [|split; [|split]].
    + intros i Hi.
      destruct (Z_lt_dec i linePos) as [Hl|Hr]; [apply S3; lia|apply E3; lia].
    + rewrite word_unit_or_bang, (E3 (end0 - 1)) by lia. reflexivity.
    + exact S4.
    + intros _. rewrite word_unit_or_bang, E4. cbn [orb].
      apply andb_false_iff in Hbang. destruct Hbang as [Hge|Hb]; [|exact Hb].
      apply Z.ltb_ge in Hge. apply test_at_outside. fold len. lia.
Qed.

(** [getWordAtPosition] returns [null] exactly when the code unit at
    the position is neither a letter, a digit, an underscore nor an
    exclamation mark (or the position is the end of the line); the test
    [start === end] never succeeds.  Otherwise it returns the word that
    covers the position: letters, digits and underscores, ended by at
    most one exclamation mark; it cannot be extended to the left, nor
    to the right unless it ends with the exclamation mark; [column] is
    the offset of its start in the line and [lineNumber] counts from
    0. *)
Theorem getWordAtPosition_word (doc : Text) (pos : Z) (ln : Line) :
  Text_lineAt doc pos = Some ln ->
  let lineText := line_text ln in
  let from := line_from ln in
  (test_at is_word_unit_or_bang lineText (pos - from) = false ->
   getWordAtPosition doc pos = Some None)
  /\ (test_at is_word_unit_or_bang lineText (pos - from) = true ->
      exists w,
        getWordAtPosition doc pos = Some (Some w)
        /\ from <= start w <= pos /\ pos < end_ w <= line_to ln
        /\ lineNumber w = line_number ln - 1
        /\ column w = start w - from
        /\ word w = slice lineText (start w - from) (end_ w - from)
        /\ Z.of_nat (List.length (word w)) = end_ w - start w
        /\ (forall i, start w <= i < end_ w - 1 ->
                      test_at is_word_unit lineText (i - from) = true)
        /\ test_at is_word_unit_or_bang lineText (end_ w - 1 - from) = true
        /\ test_at is_word_unit lineText (start w - 1 - from) = false
        /\ (test_at is_word_unit lineText (end_ w - 1 - from) = true ->
            test_at is_word_unit_or_bang lineText (end_ w - from) = false)).
Proof.
  intros Hat lineText from.
  destruct (Text_lineAt_line _ _ _ Hat) as (_ & Hpos & Hto).
  fold lineText from in Hpos, Hto.
  unfold getWordAtPosition. rewrite Hat. cbv zeta.
  fold lineText from. set (linePos := pos - from).
  split; [now intros ->|].
  intros Hcur. rewrite Hcur. cbn [negb].
  pose proof (word_span lineText linePos Hcur) as Hspan. cbv zeta in Hspan.
  set (len := Z.of_nat (List.length lineText)) in *.
  set (start0 := word_start (Z.to_nat linePos) lineText linePos) in *.
  set (end1 := if (_ <? len) && _ then _ else _) in *.
  destruct Hspan as (H1 & H2 & H3 & H4 & H5 & H6).
  replace (start0 =? end1) with false by (symmetry; apply Z.eqb_neq; lia).
  eexists. split; [reflexivity|].
  cbn [start end_ lineNumber column word].
  replace (from + start0 - from) with start0 by lia.
  replace (from + end1 - from) with end1 by lia.
  replace (from + end1 - 1 - from) with (end1 - 1) by lia.
  replace (from + start0 - 1 - from) with (start0 - 1) by lia.
  split; [lia|]. split; [lia|]. split; [reflexivity|].
  split; [reflexivity|]. split; [reflexivity|].
  split; [rewrite slice_length; fold len; lia|].
  split; [|split; [|split]]; try assumption.
  intros i Hi. apply H3. lia.
Qed.

(** The witness: the pointer on the [s] of [is!] in the second line of
    a document. *)
Lemma getWordAtPosition_word_witness :
  exists w,
    getWordAtPosition {| first_line := [120; 32; 61]; more_lines := [[32; 105; 115; 33; 32]] |} 6
    = Some (Some w)
    /\ word w = [105; 115; 33] /\ start w = 5 /\ end_ w = 8
    /\ lineNumber w = 1 /\ column w = 1.
Proof.
  destruct (getWordAtPosition_word
              {| first_line := [120; 32; 61]; more_lines := [[32; 105; 115; 33; 32]] |}
              6 (make_line 4 2 [32; 105; 115; 33; 32]) eq_refl)
    as (_ & Hword).
  destruct (Hword eq_refl) as (w & Hget & _).
  exists w. split; [exact Hget|].
  vm_compute in Hget. injection Hget as <-. repeat split.
Defined.

(** ** The hover query *)

Lemma Text_lineAt_found doc n ln pos :
  Text_line doc n = Some ln ->
  line_from ln <= pos <= line_to ln ->
  Text_lineAt doc pos = Some ln.
Proof.
  unfold Text_line, Text_lineAt. intros Hline Hpos.
  pose proof (find_line_bounds _ _ _ _ _ Hline) as (H0 & _).
  replace (pos <? 0) with false by (symmetry; apply Z.ltb_ge; lia).
  eapply find_line_at_found; eassumption.
Qed.

(** With the pointer on a character of a word, the tooltip source
    submits one hover request: for the word found, the number of the
    line counted from 1 and the offset of the pointer in the line. *)
Lemma createTypeHintTooltip_submits send doc pos ln s :
  Text_lineAt doc pos = Some ln ->
  test_at is_word_unit_or_bang (line_text ln) (pos - line_from ln) = true ->
  exists w,
    getWordAtPosition doc pos = Some (Some w)
    /\ createTypeHintTooltip send doc pos s
       = Some (Some (promises s),
               snd (sendMessageQueued send
                      (hover_request (utf8 (word w)) (line_number ln)
                                     (pos - line_from ln)) s)).
Proof.
  intros Hat Hcur.
  destruct (Text_lineAt_line _ _ _ Hat) as (_ & Hpos & Hto).
  pose proof (word_span _ _ Hcur) as Hspan. cbv zeta in Hspan.
  destruct Hspan as (H1 & H2 & _).
  unfold createTypeHintTooltip, getWordAtPosition. rewrite Hat. cbv zeta.
  rewrite Hcur. cbn [negb].
  set (len := Z.of_nat (List.length (line_text ln))) in *.
  set (linePos := pos - line_from ln) in *.
  set (start0 := word_start (Z.to_nat linePos) (line_text ln) linePos) in *.
  set (end1 := if (_ <? len) && _ then _ else _) in *.
  replace (start0 =? end1) with false by (symmetry; apply Z.eqb_neq; lia).
  eexists. split; [reflexivity|]. cbn [word].
  pose proof (slice_length (line_text ln) start0 end1 ltac:(lia) ltac:(lia))
    as Hlen.
  destruct (List.length (slice (line_text ln) start0 end1)) eqn:Hn; [lia|].
  cbn [Nat.eqb].
  unfold getHoverInformation, getHoverInfo, sendMessageQueued. cbn [snd].
  replace (line_number ln - 1 + 1) with (line_number ln) by lia.
  reflexivity.
Qed.

(** A hover on a character of a word asks the compiler, in one
    [GET_HOVER_INFO] request, about the word under the pointer, with the
    line and the column of the pointer both counted from 1; a hover on
    any other character submits nothing and leaves the bridge as it
    is. *)
Theorem hover_query_carries_position
        (send : WasmMessage -> Bridge -> completion * Bridge)
        (doc : Text) (pos : Z) (ln : Line) (s : Bridge) :
  Text_lineAt doc pos = Some ln ->
  (test_at is_word_unit_or_bang (line_text ln) (pos - line_from ln) = false ->
   createTypeHintTooltip send doc pos s = Some (None, s))
  /\ (test_at is_word_unit_or_bang (line_text ln) (pos - line_from ln) = true ->
      exists w m,
        getWordAtPosition doc pos = Some (Some w)
        /\ createTypeHintTooltip send doc pos s
           = Some (Some (promises s), snd (sendMessageQueued send m s))
        /\ type m = "GET_HOVER_INFO"
        /\ identifier m = Some (utf8 (word w))
        /\ line m = Some (line_number ln)
        /\ ch m = Some (pos - line_from ln + 1)
        /\ JSON_stringify m
           = ("{" ++ String.concat ","
                [ quote_string "type" ++ ":" ++ quote_string "GET_HOVER_INFO";
                  quote_string "identifier" ++ ":"
                    ++ quote_string (utf8 (word w));
                  quote_string "line" ++ ":"
                    ++ number_to_string (line_number ln);
                  quote_string "ch" ++ ":"
                    ++ number_to_string (pos - line_from ln + 1) ]
                ++ "}")%string).
Proof.
  intros Hat. split.
  - intros Hcur. unfold createTypeHintTooltip, getWordAtPosition.
    rewrite Hat. cbv zeta. now rewrite Hcur.
  - intros Hcur.
    destruct (createTypeHintTooltip_submits send doc pos ln s Hat Hcur)
      as (w & Hword & Htip).
    exists w, (hover_request (utf8 (word w)) (line_number ln)
                             (pos - line_from ln)).
    split; [exact Hword|]. split; [exact Htip|]. repeat split.
Qed.

Lemma hover_query_carries_position_witness :
  exists w m,
    getWordAtPosition
      {| first_line := [120; 32; 61]; more_lines := [[32; 105; 115; 33; 32]] |} 6
    = Some (Some w)
    /\ createTypeHintTooltip (sendMessageToWasm status_code)
         {| first_line := [120; 32; 61]; more_lines := [[32; 105; 115; 33; 32]] |}
         6 initial
       = Some (Some 0%nat,
               snd (sendMessageQueued (sendMessageToWasm status_code) m initial))
    /\ type m = "GET_HOVER_INFO"
    /\ identifier m = Some (utf8 (word w))
    /\ line m = Some 2
    /\ ch m = Some 3.
Proof.
  destruct (hover_query_carries_position
              (sendMessageToWasm status_code)
              {| first_line := [120; 32; 61];
                 more_lines := [[32; 105; 115; 33; 32]] |}
              6 (make_line 4 2 [32; 105; 115; 33; 32]) initial eq_refl)
    as (_ & Hword).
  destruct (Hword eq_refl) as (w & m & H1 & H2 & H3 & H4 & H5 & H6 & _).
  exists w, m. repeat (split; [assumption|]). exact H6.
Defined.

(** The start of a marker is the very place its diagnostic names:
    when a region starts on line [l] >= 1 at a column [c] that holds a
    character of a word, a hover at the position [from] that
    [regionToPositions] gives to the region submits a request with
    [line = l] and [ch = c], the numbers the compiler reported. *)
Theorem hover_at_marker_start
        (send : WasmMessage -> Bridge -> completion * Bridge)
        (region_ : RocRegion) (doc : Text) (from to : Z) (s : Bridge) :
  regionToPositions region_ doc = Some (from, to) ->
  1 <= roc_start_line region_ ->
  exists ln,
    Text_line doc (roc_start_line region_) = Some ln
    /\ (test_at is_word_unit_or_bang (line_text ln)
                (roc_start_column region_ - 1) = true ->
        from = line_from ln + (roc_start_column region_ - 1)
        /\ exists m,
            createTypeHintTooltip send doc from s
            = Some (Some (promises s), snd (sendMessageQueued send m s))
            /\ type m = "GET_HOVER_INFO"
            /\ line m = Some (roc_start_line region_)
            /\ ch m = Some (roc_start_column region_)).
Proof.
  unfold regionToPositions. cbv zeta. intros Hpos Hline.
  destruct (_ || _); [discriminate|].
  replace (Z.max 0 (roc_start_line region_ - 1) + 1)
    with (roc_start_line region_) in Hpos by lia.
  destruct (Text_line doc (roc_start_line region_)) as [ln|] eqn:Hln;
    [|discriminate].
  destruct (Text_line doc (Z.max 0 (roc_end_line region_ - 1) + 1))
    as [ln'|]; [|discriminate].
  injection Hpos as Hfrom _.
  exists ln. split; [reflexivity|]. intros Hcur.
  pose proof (test_at_inside _ _ _ Hcur) as Hin.
  pose proof (find_line_text _ _ _ _ _ Hln) as Hto.
  assert (Hfrom' : from = line_from ln + (roc_start_column region_ - 1))
    by (unfold line_length in Hfrom; lia).
  split; [exact Hfrom'|].
  assert (Hat : Text_lineAt doc from = Some ln)
    by (apply (Text_lineAt_found doc _ ln from Hln); lia).
  assert (Hcur' : test_at is_word_unit_or_bang (line_text ln)
                          (from - line_from ln) = true)
    by (replace (from - line_from ln) with (roc_start_column region_ - 1)
         by lia; exact Hcur).
  destruct (createTypeHintTooltip_submits send doc from ln s Hat Hcur')
    as (w & _ & Htip).
  exists (hover_request (utf8 (word w)) (line_number ln) (from - line_from ln)).
  split; [exact Htip|]. split; [reflexivity|].
  pose proof (Text_line_bounds _ _ _ Hln) as (_ & _ & _ & Hnum & _).
  cbn [line ch hover_request]. split; f_equal; lia.
Qed.

Lemma hover_at_marker_start_witness :
  exists ln,
    Text_line {| first_line := [120; 32; 61];
                 more_lines := [[32; 105; 115; 33; 32]] |} 2 = Some ln
    /\ (test_at is_word_unit_or_bang (line_text ln) (2 - 1) = true ->
        5 = line_from ln + (2 - 1)
        /\ exists m,
            createTypeHintTooltip (sendMessageToWasm status_code)
              {| first_line := [120; 32; 61];
                 more_lines := [[32; 105; 115; 33; 32]] |} 5 initial
            = Some (Some 0%nat,
                    snd (sendMessageQueued (sendMessageToWasm status_code)
                           m initial))
            /\ type m = "GET_HOVER_INFO"
            /\ line m = Some 2
            /\ ch m = Some 2).
Proof.
  apply (hover_at_marker_start
           (sendMessageToWasm status_code)
           {| roc_start_line := 2; roc_start_column := 2;
              roc_end_line := 2; roc_end_column := 4 |}
           {| first_line := [120; 32; 61];
              more_lines := [[32; 105; 115; 33; 32]] |}
           5 7 initial).
  - reflexivity.
  - cbn. lia.
Defined.

(** ** When [parseDiagnostics] throws *)

Lemma get_none v key : get v key = None <-> nullish v = true.
Proof. destruct v; cbn; split; congruence. Qed.

Lemma parse_one_none diag : parse_one diag = None <-> nullish diag = true.
Proof.
  split.
  - destruct (nullish diag) eqn:Hn; [reflexivity|].
    destruct (parse_one_selects diag Hn) as [(d & -> & _) | (-> & _)];
      discriminate.
  - intros Hn. unfold parse_one.
    now rewrite (proj2 (get_none diag "region") Hn).
Qed.

Lemma parse_each_none items :
  forall acc,
    parse_each items acc = None <-> Exists (fun x => nullish x = true) items.
Proof.
  induction items as [|diag rest IH]; intros acc; cbn [parse_each].
  - split; [discriminate|]. intros H. inversion H.
  - destruct (parse_one diag) as [[d|]|] eqn:Hone; cbn [bind].
    + rewrite IH. split; [now right|].
      intros H. inversion H as [? ? Hn | ? ? Hrest]; subst; [|exact Hrest].
      apply parse_one_none in Hn. congruence.
    + rewrite IH. split; [now right|].
      intros H. inversion H as [? ? Hn | ? ? Hrest]; subst; [|exact Hrest].
      apply parse_one_none in Hn. congruence.
    + split; [|reflexivity]. intros _. left. now apply parse_one_none.
Qed.

(** [parseDiagnostics] throws (a [TypeError]) in two cases only: the
    result itself is [null] or [undefined], or the list of diagnostics
    holds an element that is [null].  Everything else it accepts:
    a result without diagnostics, a list that is not an array, elements
    that are numbers or strings or lack a region. *)
Theorem parseDiagnostics_throws_iff (result : jsval) :
  parseDiagnostics result = None <->
  nullish result = true
  \/ exists diagnostics_ items,
      get result "diagnostics" = Some diagnostics_
      /\ get diagnostics_ "list" = Some (JArr items)
      /\ Exists (fun x => nullish x = true) items.
Proof.
  unfold parseDiagnostics. split.
  - destruct (get result "diagnostics") as [diagnostics_|] eqn:Hd; cbn [bind].
    2:{ intros _. left. now apply (get_none result "diagnostics"). }
    destruct (truthy diagnostics_) eqn:Ht; [|discriminate].
    destruct (get diagnostics_ "list") as [list_|] eqn:Hl; cbn [bind].
    2:{ apply get_none in Hl. apply truthy_defined in Ht. congruence. }
    destruct list_; try discriminate.
    intros Hnone. right. exists diagnostics_, items.
    split; [reflexivity|]. split; [exact Hl|].
    now apply (parse_each_none items []).
  - intros [Hn | (diagnostics_ & items & Hd & Hl & Hex)].
    + now rewrite (proj2 (get_none result "diagnostics") Hn).
    + rewrite Hd. cbn [bind].
      assert (truthy diagnostics_ = true) as ->
          by (destruct diagnostics_; cbn in *; congruence).
      rewrite Hl. cbn [bind]. now apply parse_each_none.
Qed.

(** ** A compilation that fails *)

Lemma Text_first_line doc :
  Text_line doc 1 = Some (make_line 0 1 (first_line doc)).
Proof. reflexivity. Qed.

(** A result whose status is not [SUCCESS] leaves one diagnostic: an
    error with the message of the result, or with "Compilation failed"
    when the result has none, on line 1, column 1.  Whatever the
    document holds, the linter shows it as one marker at the very start
    of the document. *)
Theorem failed_compilation_marks_document_start
        (result status : jsval) (doc : Text) :
  get result "status" = Some status ->
  is_SUCCESS status = false ->
  exists message_ d rocDiag,
    get result "message" = Some message_
    /\ compileCode_diagnostics result = Some [d]
    /\ severity d = JStr "error"
    /\ diag_message d
       = (if truthy message_ then message_ else JStr "Compilation failed")
    /\ as_RocDiagnostic d = Some rocDiag
    /\ createRocLinter [rocDiag] doc
       = [ {| marker_from := 0; marker_to := 0;
              marker_severity := JStr "error";
              marker_message := diag_message d |} ].
Proof.
  intros Hstatus Hfail.
  assert (Hres : nullish result = false)
    by (destruct result; cbn in *; congruence).
  destruct (get_defined result "message" Hres) as (message_ & Hmessage).
  unfold compileCode_diagnostics. rewrite Hstatus. cbn [bind].
  rewrite Hfail, Hmessage. cbn [bind].
  eexists message_, _, _. split; [reflexivity|]. split; [reflexivity|].
  cbn [severity diag_message]. split; [reflexivity|]. split; [reflexivity|].
  split; [reflexivity|].
  cbn [createRocLinter roc_region roc_severity roc_message].
  unfold regionToPositions. cbv zeta.
  cbn [roc_start_line roc_start_column roc_end_line roc_end_column].
  change (Z.max 0 (1 * 10 ^ 0 - 1)) with 0.
  pose proof (Text_lines_positive doc) as Hlines.
  replace (Text_lines doc <=? 0) with false by (symmetry; apply Z.leb_gt; lia).
  cbn [orb Z.add]. rewrite Text_first_line.
  unfold line_length. cbn [make_line line_from line_to].
  rewrite Z.min_l by lia. reflexivity.
Qed.

Lemma failed_compilation_marks_document_start_witness :
  exists message_ d rocDiag,
    get (JObj [("status", JStr "ERROR"); ("message", JStr "no module")])
        "message" = Some message_
    /\ compileCode_diagnostics
         (JObj [("status", JStr "ERROR"); ("message", JStr "no module")])
       = Some [d]
    /\ severity d = JStr "error"
    /\ diag_message d
       = (if truthy message_ then message_ else JStr "Compilation failed")
    /\ as_RocDiagnostic d = Some rocDiag
    /\ createRocLinter [rocDiag]
         {| first_line := [120; 32; 61]; more_lines := [[32; 105; 115; 33; 32]] |}
       = [ {| marker_from := 0; marker_to := 0;
              marker_severity := JStr "error";
              marker_message := diag_message d |} ].
Proof.
  apply (failed_compilation_marks_document_start
           (JObj [("status", JStr "ERROR"); ("message", JStr "no module")])
           (JStr "ERROR")).
  - reflexivity.
  - reflexivity.
Defined.

(** * Properties of the command history *)

(** ** Arrays *)

Lemma at_index_last {A : Type} (l : list A) (x : A) :
  at_index (l ++ [x]) (Z.of_nat (List.length (l ++ [x])) - 1) = Some x.
Proof.
  unfold at_index. rewrite length_app. cbn [List.length].
  replace (Z.of_nat (List.length l + 1) - 1) with (Z.of_nat (List.length l))
    by lia.
  replace (Z.of_nat (List.length l) <? 0) with false
    by (symmetry; apply Z.ltb_ge; lia).
  rewrite Nat2Z.id, nth_error_app2 by lia.
  now rewrite Nat.sub_diag.
Qed.

Lemma at_index_nil {A : Type} (i : Z) : at_index (@nil A) i = None.
Proof. unfold at_index. destruct (i <? 0); [reflexivity|]. now destruct (Z.to_nat i). Qed.

Lemma at_index_some {A : Type} (l : list A) (i : Z) :
  0 <= i < Z.of_nat (List.length l) -> exists x, at_index l i = Some x.
Proof.
  intros Hi. unfold at_index.
  replace (i <? 0) with false by (symmetry; apply Z.ltb_ge; lia).
  destruct (nth_error l (Z.to_nat i)) eqn:Hn; [eauto|].
  apply nth_error_None in Hn. lia.
Qed.

(** [slice(-n)] keeps the last [n] elements of a longer array. *)
Lemma slice_from_last {A : Type} (l : list A) (n : Z) :
  0 < n <= Z.of_nat (List.length l) ->
  slice_from l (- n) = skipn (List.length l - Z.to_nat n) l
  /\ Z.of_nat (List.length (slice_from l (- n))) = n.
Proof.
  intros Hn. unfold slice_from, relative_index.
  replace (- n <? 0) with true by (symmetry; apply Z.ltb_lt; lia).
  rewrite Z.max_l by lia.
  replace (Z.to_nat (Z.of_nat (List.length l) + - n))
    with (List.length l - Z.to_nat n)%nat by lia.
  split; [reflexivity|]. rewrite length_skipn. lia.
Qed.

(** ** Neighbours *)

Lemma no_repeat_tail a l : no_repeat (a :: l) -> no_repeat l.
Proof. destruct l; cbn; tauto. Qed.

Lemma no_repeat_skipn n : forall l, no_repeat l -> no_repeat (skipn n l).
Proof.
  induction n as [|n IH]; intros l Hl; [exact Hl|].
  destruct l as [|a l]; [exact Hl|]. cbn [skipn].
  apply IH. exact (no_repeat_tail _ _ Hl).
Qed.

Lemma no_repeat_snoc l a b :
  no_repeat (l ++ [a]) -> a <> b -> no_repeat (l ++ [a; b]).
Proof.
  induction l as [|x l IH]; intros Hl Hab; [cbn; auto|].
  cbn [app] in *. destruct l as [|y l].
  - cbn in *. tauto.
  - cbn [app] in *. cbn [no_repeat] in Hl |- *.
    split; [tauto|]. apply IH; tauto.
Qed.

Lemma no_repeat_single a : no_repeat [a].
Proof. exact I. Qed.

(** The list [l] with [x] added at its end unless [x] is its last
    element already. *)
Lemma no_repeat_add l x :
  no_repeat l ->
  match at_index l (Z.of_nat (List.length l) - 1) with
  | Some y => y <> x
  | None => True
  end ->
  no_repeat (l ++ [x]).
Proof.
  intros Hl Hlast. destruct l as [|x0 l0]; [exact I|].
  destruct (@exists_last _ (x0 :: l0)) as (l' & y & Heq); [discriminate|].
  rewrite Heq in *. rewrite at_index_last in Hlast.
  rewrite <- app_assoc. cbn [app]. now apply no_repeat_snoc.
Qed.

(** ** The last entry *)

Lemma at_index_map {A B : Type} (f : A -> B) (l : list A) (i : Z) :
  at_index (map f l) i = option_map f (at_index l i).
Proof.
  unfold at_index. destruct (i <? 0); [reflexivity|]. apply nth_error_map.
Qed.

Lemma at_index_end {A : Type} (l : list A) (d : A) :
  l <> [] -> at_index l (Z.of_nat (List.length l) - 1) = Some (last l d).
Proof.
  intros Hl. destruct (@exists_last _ l Hl) as (l' & x & Heq).
  rewrite Heq. rewrite at_index_last. f_equal. symmetry. apply last_last.
Qed.

Lemma command_at_last state_ :
  command_at state_ (Z.of_nat (List.length (entries state_)) - 1)
  = last_command state_.
Proof.
  unfold command_at, last_command, commands.
  destruct (entries state_) as [|e l] eqn:He; [reflexivity|].
  rewrite <- He.
  assert (Hne : entries state_ <> []) by (rewrite He; discriminate).
  rewrite (at_index_end _ e Hne).
  destruct (@exists_last _ _ Hne) as (l' & x & Heq).
  rewrite Heq, map_app. cbn [map]. rewrite !last_last. reflexivity.
Qed.

(** ** One command added *)

Lemma addToHistory_fails env state_ command_ :
  (exists error, addToHistory env state_ command_ = failure error)
  <-> command_ = "" \/ trim command_ = "".
Proof.
  unfold addToHistory.
  destruct (String.eqb command_ "") eqn:H1; cbn [orb].
  - apply String.eqb_eq in H1. split; [now left|eauto].
  - apply String.eqb_neq in H1.
    destruct (String.eqb (trim command_) "") eqn:H2.
    + apply String.eqb_eq in H2. split; [now right|eauto].
    + apply String.eqb_neq in H2. split; [|tauto].
      intros (error & H).
      destruct (at_index _ _) as [lastEntry|]; [|discriminate].
      destruct (String.eqb _ _); discriminate.
Qed.

Lemma addToHistory_adds env state_ command_ value :
  addToHistory env state_ command_ = success value ->
  Forall (fun c => c <> "") (commands state_) ->
  no_repeat (commands state_) ->
  currentIndex value = None /\ temporaryInput value = ""
  /\ Forall (fun c => c <> "") (commands value)
  /\ no_repeat (commands value)
  /\ last_command value = trim command_
  /\ entries value <> []
  /\ (List.length (entries value) <= S (List.length (entries state_)))%nat.
Proof.
  unfold addToHistory. intros Hadd Hblank Hrep.
  destruct (String.eqb command_ "" || String.eqb (trim command_) "") eqn:Hb;
    [discriminate|].
  apply orb_false_iff in Hb. destruct Hb as (_ & Hb).
  apply String.eqb_neq in Hb.
  assert (Happend :
            forall lastOk : match at_index (commands state_)
                                  (Z.of_nat (List.length (commands state_)) - 1)
                            with
                            | Some y => y <> trim command_
                            | None => True
                            end,
              success {| entries := entries state_
                                    ++ [createHistoryEntry env (trim command_)];
                         currentIndex := None; temporaryInput := "" |}
              = success value ->
              currentIndex value = None /\ temporaryInput value = ""
              /\ Forall (fun c => c <> "") (commands value)
              /\ no_repeat (commands value)
              /\ last_command value = trim command_
              /\ entries value <> []
              /\ (List.length (entries value)
                  <= S (List.length (entries state_)))%nat).
  { intros lastOk [= <-]. unfold commands, last_command, commands in *.
    cbn [entries currentIndex temporaryInput]. rewrite map_app.
    cbn [map createHistoryEntry command].
    split; [reflexivity|]. split; [reflexivity|].
    split; [apply Forall_app; split; [exact Hblank|now constructor]|].
    split; [now apply no_repeat_add|].
    split; [apply last_last|].
    split; [now destruct (entries state_)|].
    rewrite length_app. cbn [List.length]. lia. }
  unfold commands in Happend. rewrite length_map, at_index_map in Happend.
  destruct (at_index (entries state_) _) as [lastEntry|] eqn:Hlast.
  - destruct (String.eqb (command lastEntry) (trim command_)) eqn:Hsame.
    + apply String.eqb_eq in Hsame. injection Hadd as <-.
      cbn [entries currentIndex temporaryInput].
      unfold last_command, commands in *. cbn [entries].
      split; [reflexivity|]. split; [reflexivity|].
      split; [exact Hblank|]. split; [exact Hrep|].
      assert (Hne : entries state_ <> [])
        by (intros Hnil; rewrite Hnil, at_index_nil in Hlast; discriminate).
      split; [|split; [exact Hne|lia]].
      rewrite (at_index_end _ lastEntry Hne) in Hlast. injection Hlast as Hlast.
      destruct (@exists_last _ _ Hne) as (l' & x & Heq).
      rewrite Heq in *. rewrite map_app. cbn [map]. rewrite last_last.
      rewrite last_last in Hlast. congruence.
    + apply String.eqb_neq in Hsame. apply Happend; [|exact Hadd].
      cbn [option_map]. exact Hsame.
  - apply Happend; [exact I|exact Hadd].
Qed.

(** ** Neighbours with one command *)

Lemma last_append {A : Type} (l l' : list A) (d : A) :
  l' <> [] -> last (l ++ l') d = last l' d.
Proof.
  intros Hl'. induction l as [|a l IH]; [reflexivity|].
  cbn [app]. destruct (l ++ l') eqn:Happ.
  - apply app_eq_nil in Happ. tauto.
  - cbn [last]. exact IH.
Qed.

Lemma keep_if_new_cases acc entry :
  (keep_if_new acc entry = acc ++ [entry]
   /\ match at_index (map command acc) (Z.of_nat (List.length acc) - 1) with
      | Some y => y <> command entry
      | None => True
      end)
  \/ (keep_if_new acc entry = acc /\ acc <> []
      /\ last (map command acc) "" = command entry).
Proof.
  unfold keep_if_new. rewrite at_index_map.
  destruct (at_index acc _) as [last_|] eqn:Hlast; cbn [option_map].
  - destruct (String.eqb (command last_) (command entry)) eqn:Hsame;
      cbn [negb].
    + right. apply String.eqb_eq in Hsame.
      assert (Hne : acc <> [])
        by (intros Hnil; rewrite Hnil, at_index_nil in Hlast; discriminate).
      split; [reflexivity|]. split; [exact Hne|].
      rewrite (at_index_end _ last_ Hne) in Hlast. injection Hlast as Hlast.
      destruct (@exists_last _ _ Hne) as (l' & x & Heq).
      rewrite Heq in *. rewrite map_app. cbn [map]. rewrite last_last.
      rewrite last_last in Hlast. congruence.
    + left. apply String.eqb_neq in Hsame. split; [reflexivity|exact Hsame].
  - left. split; [reflexivity|exact I].
Qed.

Lemma deduplicated l :
  forall acc,
    no_repeat (map command acc) ->
    no_repeat (map command (fold_left keep_if_new l acc))
    /\ (List.length (fold_left keep_if_new l acc)
        <= List.length acc + List.length l)%nat
    /\ (forall P : string -> Prop,
           Forall P (map command acc) -> Forall P (map command l) ->
           Forall P (map command (fold_left keep_if_new l acc)))
    /\ last (map command (fold_left keep_if_new l acc)) ""
       = last (map command (acc ++ l)) ""
    /\ (acc ++ l <> [] -> fold_left keep_if_new l acc <> [])
    /\ (no_repeat (map command (acc ++ l)) ->
        fold_left keep_if_new l acc = acc ++ l).
Proof.
  induction l as [|entry l IH]; intros acc Hacc; cbn [fold_left].
  - rewrite app_nil_r. repeat split; auto. lia.
  - destruct (keep_if_new_cases acc entry)
      as [(-> & Hnew) | (-> & Hne & Hsame)].
    + assert (Hacc' : no_repeat (map command (acc ++ [entry]))).
      { rewrite map_app. cbn [map]. apply no_repeat_add; [exact Hacc|].
        now rewrite length_map. }
      destruct (IH (acc ++ [entry]) Hacc') as (H1 & H2 & H3 & H4 & H5 & H6).
      rewrite <- app_assoc in H4, H5, H6. cbn [app] in H4, H5, H6.
      split; [exact H1|]. split; [rewrite length_app in H2; cbn in *; lia|].
      split; [|split; [exact H4|split; [exact H5|exact H6]]].
      intros P Pacc Pl. cbn [map] in Pl. inversion Pl; subst.
      apply H3; [|assumption]. rewrite map_app. apply Forall_app.
      split; [assumption|now constructor].
    + destruct (IH acc Hacc) as (H1 & H2 & H3 & H4 & H5 & H6).
      split; [exact H1|]. split; [cbn [List.length]; lia|].
      split; [|split; [|split]].
      * intros P Pacc Pl. cbn [map] in Pl. inversion Pl; subst. now apply H3.
      * rewrite H4. rewrite !map_app. cbn [map].
        destruct l as [|e2 l2].
        -- cbn [map]. rewrite app_nil_r, last_last. exact Hsame.
        -- cbn [map]. rewrite !last_append by discriminate. reflexivity.
      * intros _. apply H5. destruct acc; [congruence|discriminate].
      * intros Hrep. exfalso.
        destruct (@exists_last _ _ Hne) as (l' & x & Heq).
        rewrite Heq in *. rewrite map_app in Hsame. cbn [map] in Hsame.
        rewrite last_last in Hsame.
        rewrite <- app_assoc, map_app in Hrep. cbn [app map] in Hrep.
        clear - Hrep Hsame. induction (map command l') as [|a r IHr].
        -- cbn in Hrep. destruct Hrep as (Hrep & _). congruence.
        -- apply IHr. exact (no_repeat_tail _ _ Hrep).
Qed.

(** ** The oldest entries dropped *)

Lemma Forall_skipn_kept {A : Type} (P : A -> Prop) n :
  forall l, Forall P l -> Forall P (skipn n l).
Proof.
  induction n as [|n IH]; intros l Hl; [exact Hl|].
  destruct l as [|a l]; [exact Hl|]. cbn [skipn]. apply IH.
  now inversion Hl.
Qed.

Lemma last_skipn {A : Type} n (d : A) :
  forall l, (n < List.length l)%nat -> last (skipn n l) d = last l d.
Proof.
  induction n as [|n IH]; intros l Hn; [reflexivity|].
  destruct l as [|a l]; [cbn in Hn; lia|]. cbn [skipn].
  cbn [List.length] in Hn. rewrite IH by lia.
  destruct l; [cbn in Hn; lia|reflexivity].
Qed.

Lemma limitHistorySize_drops state_ maxSize_ :
  0 < maxSize_ < Z.of_nat (List.length (entries state_)) ->
  let dropped := (List.length (entries state_) - Z.to_nat maxSize_)%nat in
  entries (limitHistorySize state_ maxSize_) = skipn dropped (entries state_)
  /\ Z.of_nat (List.length (entries (limitHistorySize state_ maxSize_)))
     = maxSize_
  /\ temporaryInput (limitHistorySize state_ maxSize_) = temporaryInput state_
  /\ currentIndex (limitHistorySize state_ maxSize_)
     = option_map (fun index => Z.max 0 (index - Z.of_nat dropped))
                  (currentIndex state_).
Proof.
  intros Hsize dropped. unfold limitHistorySize.
  replace (maxSize_ <=? 0) with false by (symmetry; apply Z.leb_gt; lia).
  replace (Z.of_nat (List.length (entries state_)) <=? maxSize_) with false
    by (symmetry; apply Z.leb_gt; lia).
  cbv zeta. cbn [entries temporaryInput currentIndex].
  destruct (slice_from_last (entries state_) maxSize_) as (Hslice & Hlen);
    [lia|].
  rewrite Hlen. split; [exact Hslice|]. split; [reflexivity|].
  split; [reflexivity|].
  destruct (currentIndex state_); cbn [option_map]; [|reflexivity].
  do 2 f_equal. unfold dropped. lia.
Qed.

(** ** What the history manager keeps *)

Lemma kept_new maxSize_ dedupe : kept (HistoryManager.new maxSize_ dedupe).
Proof.
  unfold kept, HistoryManager.new, cursor_ok, commands. cbn.
  split; [reflexivity|]. split; [lia|]. split; [constructor|exact I].
Qed.

Lemma kept_add env this command_ :
  kept this -> kept (snd (HistoryManager.add env this command_)).
Proof.
  intros (Hcursor & Hsize & Hblank & Hrep). unfold HistoryManager.add.
  destruct (addToHistory env (HistoryManager.state this) command_)
    as [value|error] eqn:Hadd; [|cbn [snd]; repeat split; assumption].
  destruct (addToHistory_adds _ _ _ _ Hadd Hblank Hrep)
    as (Hindex & Htemp & Hblank1 & Hrep1 & _ & _ & Hlen1).
  cbv zeta. cbn [snd].
  set (limited := if HistoryManager.maxSize this
                     <? Z.of_nat (List.length (entries value))
                  then limitHistorySize value (HistoryManager.maxSize this)
                  else value).
  assert (Hlimited : cursor_ok limited
                     /\ Z.of_nat (List.length (entries limited))
                        <= Z.max 0 (HistoryManager.maxSize this)
                     /\ Forall (fun c => c <> "") (commands limited)
                     /\ no_repeat (commands limited)).
  { subst limited.
    destruct (HistoryManager.maxSize this
              <? Z.of_nat (List.length (entries value))) eqn:Hover.
    - apply Z.ltb_lt in Hover.
      destruct (Z_le_dec (HistoryManager.maxSize this) 0) as [Hneg|Hpos].
      + unfold limitHistorySize.
        replace (HistoryManager.maxSize this <=? 0) with true
          by (symmetry; apply Z.leb_le; lia).
        unfold cursor_ok, commands. cbn.
        split; [reflexivity|]. split; [lia|]. split; [constructor|exact I].
      + destruct (limitHistorySize_drops value (HistoryManager.maxSize this))
          as (Hentries & Hlen & Htemp' & Hindex'); [lia|].
        unfold cursor_ok, commands. rewrite Hindex', Hindex, Hentries.
        cbn [option_map]. rewrite Htemp', Htemp.
        split; [reflexivity|].
        split; [rewrite <- Hentries, Hlen; lia|].
        rewrite <- !skipn_map.
        split; [now apply Forall_skipn_kept|now apply no_repeat_skipn].
    - apply Z.ltb_ge in Hover. unfold cursor_ok. rewrite Hindex.
      split; [exact Htemp|]. split; [lia|]. split; assumption. }
  destruct Hlimited as (Hc & Hs & Hb & Hr).
  destruct (HistoryManager.deduplicateConsecutive this);
    unfold kept; cbn [HistoryManager.state HistoryManager.with_state
                      HistoryManager.maxSize];
    [|repeat split; assumption].
  unfold deduplicateHistory, cursor_ok, commands.
  cbn [entries currentIndex temporaryInput].
  destruct (deduplicated (entries limited) [] I) as (H1 & H2 & H3 & _).
  split; [reflexivity|]. split; [cbn [List.length] in H2; lia|].
  split; [apply H3; [constructor|exact Hb]|exact H1].
Qed.

Ltac history_fields :=
  unfold kept, cursor_ok, commands;
  cbn [HistoryManager.state HistoryManager.with_state HistoryManager.maxSize
       HistoryManager.clear clearHistory entries currentIndex temporaryInput
       snd].

Lemma kept_navigateBackward this currentInput :
  kept this ->
  kept (snd (HistoryManager.navigateBackward this currentInput)).
Proof.
  intros Hkept. pose proof Hkept as (Hcursor & Hsize & Hblank & Hrep).
  unfold HistoryManager.navigateBackward, navigateBackward.
  destruct (Nat.eqb (List.length (entries (HistoryManager.state this))) 0)
    eqn:Hempty; [exact Hkept|].
  apply Nat.eqb_neq in Hempty. unfold cursor_ok in Hcursor.
  destruct (currentIndex (HistoryManager.state this)) as [index|].
  - destruct (0 <? index) eqn:Hpos; [|exact Hkept].
    apply Z.ltb_lt in Hpos. history_fields.
    split; [lia|]. split; [exact Hsize|]. split; assumption.
  - history_fields. split; [lia|]. split; [exact Hsize|]. split; assumption.
Qed.

Lemma kept_navigateForward this :
  kept this -> kept (snd (HistoryManager.navigateForward this)).
Proof.
  intros Hkept. pose proof Hkept as (Hcursor & Hsize & Hblank & Hrep).
  unfold HistoryManager.navigateForward, navigateForward.
  unfold cursor_ok in Hcursor.
  destruct (currentIndex (HistoryManager.state this)) as [index|];
    [|exact Hkept].
  destruct (index <? _) eqn:Hlt; history_fields.
  - apply Z.ltb_lt in Hlt. split; [lia|]. split; [exact Hsize|].
    split; assumption.
  - split; [reflexivity|]. split; [exact Hsize|]. split; assumption.
Qed.

(** Whatever is added, and however the history is walked through and
    cleared, the history manager keeps this: the cursor is [null] with
    no input set aside, or points at an entry; there are at most
    [maxSize] entries (none at all when [maxSize] is negative); no
    command is empty; no command repeats the one before it, with or
    without the deduplication option. *)
Theorem history_manager_keeps
        (maxSize_ : option Z) (deduplicateConsecutive_ : option bool)
        (calls_ : list history_call) :
  kept (history_run calls_
                    (HistoryManager.new maxSize_ deduplicateConsecutive_)).
Proof.
  unfold history_run.
  generalize (kept_new maxSize_ deduplicateConsecutive_).
  generalize (HistoryManager.new maxSize_ deduplicateConsecutive_).
  induction calls_ as [|c rest IH]; intros this Hkept; [exact Hkept|].
  cbn [fold_left]. apply IH.
  destruct c as [env command_|currentInput| |]; cbn [history_step].
  - now apply kept_add.
  - now apply kept_navigateBackward.
  - now apply kept_navigateForward.
  - history_fields. cbn [List.length map no_repeat].
    split; [reflexivity|]. split; [lia|]. split; [constructor|exact I].
Qed.

(** ** A command added is the first recalled *)

Lemma addToHistory_last env state_ command_ value :
  addToHistory env state_ command_ = success value ->
  currentIndex value = None /\ entries value <> []
  /\ last_command value = trim command_.
Proof.
  unfold addToHistory.
  destruct (String.eqb command_ "" || String.eqb (trim command_) "");
    [discriminate|].
  assert (Happend :
            success {| entries := entries state_
                                  ++ [createHistoryEntry env (trim command_)];
                       currentIndex := None; temporaryInput := "" |}
            = success value ->
            currentIndex value = None /\ entries value <> []
            /\ last_command value = trim command_).
  { intros [= <-]. unfold last_command, commands.
    cbn [entries currentIndex]. split; [reflexivity|].
    split; [now destruct (entries state_)|].
    rewrite map_app. cbn [map]. apply last_last. }
  destruct (at_index (entries state_) _) as [lastEntry|] eqn:Hlast;
    [|exact Happend].
  destruct (String.eqb (command lastEntry) (trim command_)) eqn:Hsame;
    [|exact Happend].
  apply String.eqb_eq in Hsame. intros [= <-].
  unfold last_command, commands. cbn [entries currentIndex].
  assert (Hne : entries state_ <> [])
    by (intros Hnil; rewrite Hnil, at_index_nil in Hlast; discriminate).
  split; [reflexivity|]. split; [exact Hne|].
  rewrite (at_index_end _ lastEntry Hne) in Hlast. injection Hlast as Hlast.
  destruct (@exists_last _ _ Hne) as (l' & x & Heq).
  rewrite Heq in *. rewrite map_app. cbn [map]. rewrite last_last.
  rewrite last_last in Hlast. congruence.
Qed.

(** [add] refuses exactly the commands that are empty or white space,
    and then changes nothing.  A command it accepts is the one the next
    UP key recalls, trimmed, whatever the history held, its size limit
    (if positive) and the deduplication option; with a negative size
    limit the history is empty after every [add]. *)
Theorem added_command_is_recalled
        (env : Entropy) (this : HistoryManager.t)
        (command_ currentInput : string) :
  let added := HistoryManager.add env this command_ in
  (fst added = false <-> command_ = "" \/ trim command_ = "")
  /\ (fst added = false -> snd added = this)
  /\ (fst added = true -> 0 < HistoryManager.maxSize this ->
      fst (HistoryManager.navigateBackward (snd added) currentInput)
      = Some (trim command_))
  /\ (fst added = true -> HistoryManager.maxSize this < 0 ->
      entries (HistoryManager.state (snd added)) = []).
Proof.
  cbv zeta. unfold HistoryManager.add.
  pose proof (addToHistory_fails env (HistoryManager.state this) command_)
    as Hfails.
  destruct (addToHistory env (HistoryManager.state this) command_)
    as [value|error] eqn:Hadd; cbv zeta; cbn [fst snd].
  2:{ split; [split; [intros _; apply Hfails; eauto|reflexivity]|].
      split; [reflexivity|]. split; discriminate. }
  split.
  { split; [discriminate|]. intros Hblank. apply Hfails in Hblank.
    destruct Hblank as (error & Herror). discriminate. }
  split; [discriminate|].
  destruct (addToHistory_last _ _ _ _ Hadd) as (Hindex & Hne & Hlast).
  set (limited := if HistoryManager.maxSize this
                     <? Z.of_nat (List.length (entries value))
                  then limitHistorySize value (HistoryManager.maxSize this)
                  else value).
  split.
  - intros _ Hpos.
    assert (Hlimited : currentIndex limited = None /\ entries limited <> []
                       /\ last_command limited = trim command_).
    { subst limited.
      destruct (HistoryManager.maxSize this
                <? Z.of_nat (List.length (entries value))) eqn:Hover;
        [|tauto].
      apply Z.ltb_lt in Hover.
      destruct (limitHistorySize_drops value (HistoryManager.maxSize this))
        as (Hentries & Hlen & _ & Hindex'); [lia|].
      rewrite Hindex', Hindex. split; [reflexivity|].
      split; [intros Hnil; rewrite Hnil in Hlen; cbn in Hlen; lia|].
      unfold last_command, commands in *. rewrite Hentries, <- skipn_map.
      rewrite last_skipn; [exact Hlast|]. rewrite length_map. lia. }
    destruct Hlimited as (Hi & Hn & Hl).
    assert (Hfinal : forall final,
               currentIndex final = None -> entries final <> [] ->
               last_command final = trim command_ ->
               fst (HistoryManager.navigateBackward
                      (HistoryManager.with_state this final) currentInput)
               = Some (trim command_)).
    { intros final Fi Fn Fl.
      unfold HistoryManager.navigateBackward, navigateBackward.
      cbn [HistoryManager.state HistoryManager.with_state].
      destruct (entries final) as [|e l] eqn:He; [congruence|].
      cbn [List.length Nat.eqb]. rewrite Fi. cbn [fst]. f_equal.
      rewrite <- Fl, <- command_at_last, He. reflexivity. }
    destruct (HistoryManager.deduplicateConsecutive this);
      [|now apply Hfinal].
    apply Hfinal; [reflexivity| |].
    + unfold deduplicateHistory. cbn [entries].
      destruct (deduplicated (entries limited) [] I) as (_ & _ & _ & _ & H5 & _).
      now apply H5.
    + unfold last_command, commands, deduplicateHistory in *. cbn [entries].
      destruct (deduplicated (entries limited) [] I) as (_ & _ & _ & H4 & _).
      now rewrite H4.
  - intros _ Hneg.
    assert (Hcleared : entries limited = []).
    { subst limited.
      replace (HistoryManager.maxSize this
               <? Z.of_nat (List.length (entries value))) with true
        by (symmetry; apply Z.ltb_lt; lia).
      unfold limitHistorySize.
      now replace (HistoryManager.maxSize this <=? 0) with true
        by (symmetry; apply Z.leb_le; lia). }
    destruct (HistoryManager.deduplicateConsecutive this);
      cbn [HistoryManager.state HistoryManager.with_state]; [|exact Hcleared].
    unfold deduplicateHistory. cbn [entries]. now rewrite Hcleared.
Qed.

Lemma added_command_is_recalled_witness :
  fst (HistoryManager.navigateBackward
         (snd (HistoryManager.add sample_entropy sample_history " x + 1 "))
         "dra")
  = Some (trim " x + 1 ").
Proof.
  destruct (added_command_is_recalled
              sample_entropy sample_history " x + 1 " "dra")
    as (_ & _ & Hrecall & _).
  apply Hrecall; [vm_compute; reflexivity|vm_compute; reflexivity].
Defined.

(** ** Walking through the history with the arrow keys *)

Lemma iter_next {A : Type} (f : A -> A) (n : nat) (x : A) :
  Nat.iter (S n) f x = f (Nat.iter n f x).
Proof. reflexivity. Qed.

Lemma iter_none {A : Type} (f : A -> A) (x : A) : Nat.iter 0 f x = x.
Proof. reflexivity. Qed.

Lemma up_from_input r k :
  currentIndex (HistoryManager.state (history r)) = None ->
  (1 <= k <= List.length (entries (HistoryManager.state (history r))))%nat ->
  Nat.iter k navigateHistoryBackward r
  = {| history :=
         HistoryManager.with_state (history r)
           {| entries := entries (HistoryManager.state (history r));
              currentIndex :=
                Some (Z.of_nat (List.length
                                  (entries (HistoryManager.state (history r))))
                      - Z.of_nat k);
              temporaryInput := sourceInput r |};
       sourceInput := recalled r k |}.
Proof.
  intros Hnull Hk. induction k as [|k IH]; [lia|].
  rewrite iter_next. destruct k as [|k].
  - rewrite iter_none.
    unfold navigateHistoryBackward, HistoryManager.navigateBackward,
      navigateBackward, recalled.
    replace (Nat.eqb (List.length
                        (entries (HistoryManager.state (history r)))) 0)
      with false by (symmetry; apply Nat.eqb_neq; lia).
    rewrite Hnull. reflexivity.
  - rewrite IH by lia.
    unfold navigateHistoryBackward, HistoryManager.navigateBackward,
      navigateBackward, recalled.
    cbn [history sourceInput HistoryManager.state HistoryManager.with_state
         entries currentIndex temporaryInput].
    replace (Nat.eqb (List.length
                        (entries (HistoryManager.state (history r)))) 0)
      with false by (symmetry; apply Nat.eqb_neq; lia).
    replace (0 <? Z.of_nat (List.length
                              (entries (HistoryManager.state (history r))))
                  - Z.of_nat (S k)) with true
      by (symmetry; apply Z.ltb_lt; lia).
    unfold command_at. cbn [entries].
    replace (Z.of_nat (List.length (entries (HistoryManager.state (history r))))
             - Z.of_nat (S k) - 1)
      with (Z.of_nat (List.length (entries (HistoryManager.state (history r))))
            - Z.of_nat (S (S k))) by lia.
    reflexivity.
Qed.

Lemma up_at_oldest r :
  currentIndex (HistoryManager.state (history r)) = None ->
  let n := List.length (entries (HistoryManager.state (history r))) in
  navigateHistoryBackward (Nat.iter n navigateHistoryBackward r)
  = Nat.iter n navigateHistoryBackward r.
Proof.
  intros Hnull n. subst n.
  destruct (List.length (entries (HistoryManager.state (history r))))
    as [|m] eqn:Hn.
  - rewrite iter_none.
    unfold navigateHistoryBackward, HistoryManager.navigateBackward,
      navigateBackward.
    rewrite Hn. cbn [Nat.eqb]. now destruct r.
  - rewrite <- Hn. rewrite up_from_input by (try assumption; lia).
    unfold navigateHistoryBackward, HistoryManager.navigateBackward,
      navigateBackward.
    cbn [history sourceInput HistoryManager.state HistoryManager.with_state
         entries currentIndex temporaryInput].
    rewrite Hn. cbn [Nat.eqb].
    now replace (0 <? Z.of_nat (S m) - Z.of_nat (S m)) with false
      by (symmetry; apply Z.ltb_ge; lia).
Qed.

(** From the input line, the [k]-th UP key shows the command [k] places
    before the end of the history and keeps the text that was typed;
    once the oldest command is shown, further UP keys change nothing,
    and with an empty history no UP key changes anything. *)
Theorem up_recalls_older_commands (r : Repl) (k : nat) :
  currentIndex (HistoryManager.state (history r)) = None ->
  let n := List.length (entries (HistoryManager.state (history r))) in
  let r' := Nat.iter k navigateHistoryBackward r in
  ((1 <= k <= n)%nat ->
   sourceInput r' = recalled r k
   /\ currentIndex (HistoryManager.state (history r'))
      = Some (Z.of_nat n - Z.of_nat k)
   /\ temporaryInput (HistoryManager.state (history r')) = sourceInput r
   /\ entries (HistoryManager.state (history r'))
      = entries (HistoryManager.state (history r)))
  /\ ((n <= k)%nat -> r' = Nat.iter n navigateHistoryBackward r).
Proof.
  intros Hnull n r'. split.
  - intros Hk. subst r'. rewrite up_from_input by assumption.
    repeat split.
  - intros Hk. subst r'.
    replace k with ((k - n) + n)%nat by lia.
    induction (k - n)%nat as [|d IH]; [reflexivity|].
    cbn [Nat.add]. rewrite iter_next, IH. now apply up_at_oldest.
Qed.

Lemma up_recalls_older_commands_witness :
  sourceInput (Nat.iter 2 navigateHistoryBackward
                 {| history := sample_history; sourceInput := "dra" |})
  = "y = 2"
  /\ Nat.iter 5 navigateHistoryBackward
       {| history := sample_history; sourceInput := "dra" |}
     = Nat.iter 3 navigateHistoryBackward
         {| history := sample_history; sourceInput := "dra" |}.
Proof.
  split.
  - destruct (up_recalls_older_commands
                {| history := sample_history; sourceInput := "dra" |} 2 eq_refl)
      as (Hshown & _).
    destruct Hshown as (Hinput & _); [vm_compute; split; lia|].
    rewrite Hinput. vm_compute. reflexivity.
  - destruct (up_recalls_older_commands
                {| history := sample_history; sourceInput := "dra" |} 5 eq_refl)
      as (_ & Hstuck).
    apply Hstuck. vm_compute. lia.
Defined.




(** ** Repeated commands removed *)

Lemma last_in {A : Type} (l : list A) (d : A) : l <> [] -> In (last l d) l.
Proof.
  intros Hl. destruct (@exists_last _ l Hl) as (l' & x & Heq).
  rewrite Heq, last_last. apply in_or_app. right. now left.
Qed.

Lemma deduplicated_same_commands l :
  forall acc c,
    In c (map command (fold_left keep_if_new l acc))
    <-> In c (map command (acc ++ l)).
Proof.
  induction l as [|entry l IH]; intros acc c; cbn [fold_left].
  - now rewrite app_nil_r.
  - destruct (keep_if_new_cases acc entry)
      as [(-> & _) | (-> & Hne & Hsame)].
    + rewrite IH, <- app_assoc. reflexivity.
    + rewrite IH, !map_app, !in_app_iff. cbn [map In].
      split; [tauto|]. intros [H | [H | H]]; [tauto| |tauto].
      left. rewrite <- H, <- Hsame. apply last_in.
      destruct acc; [congruence|discriminate].
Qed.

(** [deduplicateHistory] leaves no command that repeats the one before
    it, loses no command and adds none, keeps the last command last,
    changes no entry of a history that had no such repeat, and so does
    nothing more when applied again; it always leaves the cursor at the
    input line. *)
Theorem deduplicateHistory_removes_repeats (state_ : HistoryState) :
  let result := deduplicateHistory state_ in
  no_repeat (commands result)
  /\ (forall c, In c (commands result) <-> In c (commands state_))
  /\ last_command result = last_command state_
  /\ (List.length (entries result) <= List.length (entries state_))%nat
  /\ (no_repeat (commands state_) -> entries result = entries state_)
  /\ deduplicateHistory result = result
  /\ currentIndex result = None /\ temporaryInput result = "".
Proof.
  cbv zeta. unfold deduplicateHistory, commands, last_command, commands.
  cbn [entries currentIndex temporaryInput].
  destruct (deduplicated (entries state_) [] I)
    as (H1 & H2 & _ & H4 & _ & H6).
  cbn [app List.length] in H2, H4, H6.
  split; [exact H1|].
  split; [intros c; apply (deduplicated_same_commands (entries state_) [])|].
  split; [exact H4|]. split; [lia|]. split; [exact H6|].
  split; [|split; reflexivity].
  f_equal.
  destruct (deduplicated (fold_left keep_if_new (entries state_) []) [] I)
    as (_ & _ & _ & _ & _ & H6').
  apply H6'. exact H1.
Qed.

(** ** The size limit *)

(** [limitHistorySize] empties the history for a limit of 0 or less and
    leaves a history within the limit as it is; otherwise it keeps
    exactly the newest [maxSize] entries, in order, and the text set
    aside.  A cursor on an entry that is kept stays on that entry; a
    cursor on an entry that is dropped moves to the oldest entry
    kept. *)
Theorem limitHistorySize_keeps_newest (state_ : HistoryState) (maxSize_ : Z) :
  let result := limitHistorySize state_ maxSize_ in
  let len := Z.of_nat (List.length (entries state_)) in
  (maxSize_ <= 0 -> result = createEmptyHistory)
  /\ (0 < maxSize_ -> len <= maxSize_ -> result = state_)
  /\ (0 < maxSize_ < len ->
      exists dropped,
        entries state_ = dropped ++ entries result
        /\ Z.of_nat (List.length (entries result)) = maxSize_
        /\ temporaryInput result = temporaryInput state_
        /\ (currentIndex state_ = None -> currentIndex result = None)
        /\ (forall index,
               currentIndex state_ = Some index ->
               (Z.of_nat (List.length dropped) <= index < len ->
                currentIndex result
                = Some (index - Z.of_nat (List.length dropped))
                /\ at_index (entries result)
                            (index - Z.of_nat (List.length dropped))
                   = at_index (entries state_) index)
               /\ (index < Z.of_nat (List.length dropped) ->
                   currentIndex result = Some 0))).
Proof.
  cbv zeta. split; [|split].
  - intros Hneg. unfold limitHistorySize.
    now replace (maxSize_ <=? 0) with true by (symmetry; apply Z.leb_le; lia).
  - intros Hpos Hfits. unfold limitHistorySize.
    replace (maxSize_ <=? 0) with false by (symmetry; apply Z.leb_gt; lia).
    now replace (Z.of_nat (List.length (entries state_)) <=? maxSize_)
      with true by (symmetry; apply Z.leb_le; lia).
  - intros Hover.
    destruct (limitHistorySize_drops state_ maxSize_ Hover)
      as (Hentries & Hlen & Htemp & Hindex).
    set (n := (List.length (entries state_) - Z.to_nat maxSize_)%nat) in *.
    exists (firstn n (entries state_)).
    assert (Hdropped : List.length (firstn n (entries state_)) = n)
      by (rewrite length_firstn; lia).
    rewrite Hentries, Hdropped.
    split; [symmetry; apply firstn_skipn|].
    split; [rewrite <- Hentries; exact Hlen|].
    split; [exact Htemp|].
    split; [intros Hnull; rewrite Hindex, Hnull; reflexivity|].
    intros index Hsome. rewrite Hindex, Hsome. cbn [option_map]. split.
    + intros Hin. split; [f_equal; lia|].
      unfold at_index.
      replace (index - Z.of_nat n <? 0) with false
        by (symmetry; apply Z.ltb_ge; lia).
      replace (index <? 0) with false by (symmetry; apply Z.ltb_ge; lia).
      rewrite nth_error_skipn. f_equal. lia.
    + intros Hout. f_equal. lia.
Qed.

Lemma limitHistorySize_keeps_newest_witness :
  exists dropped,
    entries (HistoryManager.state sample_history)
    = dropped ++ entries (limitHistorySize
                            (HistoryManager.state sample_history) 2)
    /\ Z.of_nat (List.length
                   (entries (limitHistorySize
                               (HistoryManager.state sample_history) 2))) = 2.
Proof.
  destruct (limitHistorySize_keeps_newest
              (HistoryManager.state sample_history) 2) as (_ & _ & Hnewest).
  destruct Hnewest as (dropped & Hentries & Hlen & _);
    [vm_compute; split; reflexivity|].
  exists dropped. split; assumption.
Defined.

(** ** The history as it is displayed *)

Lemma indexed_nth total shown entries_ :
  forall idx0 j d,
    nth_error (indexed total shown entries_ idx0) j = Some d ->
    exists entry,
      nth_error entries_ j = Some entry
      /\ displayed_index d = total - shown + idx0 + Z.of_nat j + 1
      /\ displayed_command d = command entry
      /\ displayed_timestamp d = timestamp entry.
Proof.
  induction entries_ as [|e rest IH]; intros idx0 j d; cbn [indexed].
  - destruct j; discriminate.
  - destruct j as [|j]; cbn [nth_error].
    + intros [= <-]. exists e. cbn. repeat split. lia.
    + intros Hd. destruct (IH _ _ _ Hd) as (entry & H1 & H2 & H3 & H4).
      exists entry. repeat split; try assumption. lia.
Qed.

Lemma indexed_length total shown entries_ :
  forall idx0,
    List.length (indexed total shown entries_ idx0) = List.length entries_.
Proof.
  induction entries_ as [|e rest IH]; intros idx0; cbn [indexed List.length];
    [reflexivity|]. now rewrite IH.
Qed.

(** The number [getHistoryDisplay] shows with a command is the place of
    the command in the whole history, counted from 1, also when only
    the newest are shown.  With [maxEntries] positive the newest
    [maxEntries] are shown; with [maxEntries] 0 all of them are shown,
    not none, as without [maxEntries]; in reverse order the same list
    is returned reversed. *)
Theorem getHistoryDisplay_numbers
        (state_ : HistoryState) (maxEntries : option Z) :
  let shown := getHistoryDisplay state_ maxEntries (Some false) in
  let len := Z.of_nat (List.length (entries state_)) in
  (forall j d,
      nth_error shown j = Some d ->
      exists entry,
        at_index (entries state_) (displayed_index d - 1) = Some entry
        /\ displayed_command d = command entry
        /\ displayed_timestamp d = timestamp entry
        /\ displayed_index d
           = len - Z.of_nat (List.length shown) + Z.of_nat j + 1)
  /\ (maxEntries = Some 0
      \/ (maxEntries = None /\ len <= 9007199254740991) ->
      Z.of_nat (List.length shown) = len)
  /\ (forall n, maxEntries = Some n -> 0 < n ->
                Z.of_nat (List.length shown) = Z.min len n)
  /\ getHistoryDisplay state_ maxEntries None = shown
  /\ getHistoryDisplay state_ maxEntries (Some true) = rev shown.
Proof.
  cbv zeta. unfold getHistoryDisplay. cbv zeta.
  set (n := match maxEntries with Some n => n | None => 9007199254740991 end).
  set (len := Z.of_nat (List.length (entries state_))).
  unfold slice_from. fold len.
  assert (Hlen : len = Z.of_nat (List.length (entries state_)))
    by reflexivity.
  clearbody len.
  set (k := Z.to_nat (relative_index len (- n))).
  assert (Hk : (k <= List.length (entries state_))%nat).
  { subst k. unfold relative_index.
    destruct (- n <? 0) eqn:Hs;
      [apply Z.ltb_lt in Hs|apply Z.ltb_ge in Hs]; lia. }
  rewrite !indexed_length, !length_skipn.
  split; [|split; [|split; [|split; reflexivity]]].
  - intros j d Hd. apply indexed_nth in Hd.
    destruct Hd as (entry & Hnth & Hindex & Hcommand & Htime).
    rewrite nth_error_skipn in Hnth.
    exists entry. split; [|split; [exact Hcommand|split; [exact Htime|]]].
    + unfold at_index. rewrite Hindex.
      replace (len - Z.of_nat (List.length (entries state_) - k) + 0
               + Z.of_nat j + 1 - 1) with (Z.of_nat (k + j)) by lia.
      replace (Z.of_nat (k + j) <? 0) with false
        by (symmetry; apply Z.ltb_ge; lia).
      now rewrite Nat2Z.id.
    + rewrite Hindex. lia.
  - intros Hall. assert (Hzero : k = 0%nat).
    { subst k n. unfold relative_index.
      destruct Hall as [-> | (-> & Hsmall)]; cbn [Z.opp Z.ltb Z.compare]; lia. }
    rewrite Hzero. lia.
  - intros n0 -> Hpos. subst k n. unfold relative_index.
    replace (- n0 <? 0) with true by (symmetry; apply Z.ltb_lt; lia).
    lia.
Qed.

Lemma getHistoryDisplay_numbers_witness :
  Z.of_nat (List.length
              (getHistoryDisplay (HistoryManager.state sample_history)
                                 (Some 2) (Some false)))
  = Z.min (Z.of_nat (List.length
                       (entries (HistoryManager.state sample_history)))) 2.
Proof.
  destruct (getHistoryDisplay_numbers
              (HistoryManager.state sample_history) (Some 2))
    as (_ & _ & Hshown & _).
  apply Hshown; [reflexivity|lia].
Defined.

(** * Properties of the shared link *)

(** ** Base64 *)

Lemma by_triples {A : Type} (P : list A -> Prop) :
  P [] -> (forall a, P [a]) -> (forall a b, P [a; b]) ->
  (forall a b c rest, P rest -> P (a :: b :: c :: rest)) ->
  forall l, P l.
Proof.
  intros H0 H1 H2 H3 l.
  assert (Hall : forall n l0, (List.length l0 <= n)%nat -> P l0).
  { induction n as [|n IH]; intros l0 Hl0.
    - destruct l0; [exact H0|cbn in Hl0; lia].
    - destruct l0 as [|a [|b [|c rest]]]; auto.
      apply H3. apply IH. cbn in Hl0. lia. }
  apply (Hall (List.length l)). lia.
Qed.

Lemma byte_val_range b : 0 <= byte_val b < 256.
Proof.
  unfold byte_val. pose proof (Byte.to_N_bounded b). lia.
Qed.

Lemma byte_of_Z_val b : byte_of_Z (byte_val b) = b.
Proof.
  unfold byte_of_Z, byte_val. rewrite N2Z.id. now rewrite Byte.of_to_N.
Qed.

Lemma byte_of_Z_eq n b : n = byte_val b -> byte_of_Z n = b.
Proof. intros ->. apply byte_of_Z_val. Qed.

Lemma sextet_char_decodes n :
  0 <= n < 64 ->
  sextet_of (sextet_char n) = Some n
  /\ is_ascii_whitespace (sextet_char n) = false
  /\ is_pad (sextet_char n) = false.
Proof.
  intros Hn.
  assert (Hk : exists k, n = Z.of_nat k /\ (k < 64)%nat)
    by (exists (Z.to_nat n); lia).
  destruct Hk as (k & -> & Hk).
  do 64 (destruct k as [|k]; [repeat split|]). lia.
Qed.

Lemma to_sextets_range bytes :
  Forall (fun n => 0 <= n < 64) (to_sextets bytes).
Proof.
  induction bytes as [| a | a b | a b c rest IH] using by_triples;
    cbn [to_sextets]; repeat constructor;
    try exact IH;
    repeat match goal with
           | |- context [byte_val ?x] =>
               pose proof (byte_val_range x); generalize dependent (byte_val x);
               intros
           end;
    try (apply Z.div_le_lower_bound; lia);
    try (apply Z.div_lt_upper_bound; lia);
    try (apply Z.mod_pos_bound; lia);
    Z.div_mod_to_equations; lia.
Qed.

Lemma decode_to_sextets bytes : decode_sextets (to_sextets bytes) = bytes.
Proof.
  induction bytes as [| a | a b | a b c rest IH] using by_triples;
    cbn [to_sextets decode_sextets]; [reflexivity| | |rewrite IH];
    repeat f_equal;
    apply byte_of_Z_eq;
    repeat match goal with
           | |- context [byte_val ?x] =>
               pose proof (byte_val_range x); generalize dependent (byte_val x);
               intros
           end;
    Z.div_mod_to_equations; lia.
Qed.

Lemma btoa_sextets bytes :
  btoa bytes
  = map sextet_char (to_sextets bytes) ++ padding (List.length bytes).
Proof.
  induction bytes as [| a | a b | a b c rest IH] using by_triples;
    cbn [btoa to_sextets map app]; try reflexivity.
  rewrite IH. do 4 f_equal. f_equal. unfold padding.
  cbn [List.length].
  replace (S (S (S (List.length rest)))) with (List.length rest + 1 * 3)%nat
    by lia.
  now rewrite Nat.Div0.mod_add.
Qed.

Lemma to_sextets_length bytes :
  ((List.length (to_sextets bytes)
    + List.length (padding (List.length bytes))) mod 4 = 0)%nat
  /\ ((List.length (to_sextets bytes)) mod 4 <> 1)%nat.
Proof.
  induction bytes as [| a | a b | a b c rest (IH1 & IH2)] using by_triples;
    cbn [to_sextets List.length]; try (split; [reflexivity|discriminate]).
  unfold padding in *. cbn [List.length].
  replace (S (S (S (List.length rest)))) with (List.length rest + 1 * 3)%nat
    by lia.
  rewrite Nat.Div0.mod_add.
  replace (S (S (S (S (List.length (to_sextets rest)))))
           + List.length (match (List.length rest mod 3)%nat with
                          | 0%nat => []
                          | 1%nat => ["="%char; "="%char]
                          | S (S _) => ["="%char]
                          end))%nat
    with (List.length (to_sextets rest)
          + List.length (match (List.length rest mod 3)%nat with
                         | 0%nat => []
                         | 1%nat => ["="%char; "="%char]
                         | S (S _) => ["="%char]
                         end) + 1 * 4)%nat by lia.
  replace (S (S (S (S (List.length (to_sextets rest))))))
    with (List.length (to_sextets rest) + 1 * 4)%nat by lia.
  rewrite !Nat.Div0.mod_add. split; assumption.
Qed.

Lemma sextets_of_chars l :
  Forall (fun n => 0 <= n < 64) l -> sextets (map sextet_char l) = Some l.
Proof.
  induction 1 as [|n l Hn _ IH]; [reflexivity|]. cbn [map sextets].
  destruct (sextet_char_decodes n Hn) as (-> & _). now rewrite IH.
Qed.

Lemma chars_kept l pad :
  Forall (fun n => 0 <= n < 64) l ->
  Forall (fun c => is_pad c = true) pad ->
  filter (fun c => negb (is_ascii_whitespace c)) (map sextet_char l ++ pad)
  = map sextet_char l ++ pad.
Proof.
  intros Hl Hpad. rewrite filter_app. f_equal.
  - induction Hl as [|n l Hn _ IH]; [reflexivity|]. cbn [map filter].
    destruct (sextet_char_decodes n Hn) as (_ & -> & _). cbn [negb].
    now rewrite IH.
  - induction Hpad as [|c pad Hc _ IH]; [reflexivity|]. cbn [filter].
    assert (is_ascii_whitespace c = false) as ->.
    { unfold is_pad in Hc. apply Z.eqb_eq in Hc. unfold is_ascii_whitespace.
      now rewrite Hc. }
    cbn [negb]. now rewrite IH.
Qed.

Lemma padding_is_pad n : Forall (fun c => is_pad c = true) (padding n).
Proof.
  unfold padding. destruct (n mod 3)%nat as [|[|k]]; repeat constructor.
Qed.

Lemma strip_padding_of l n :
  Forall (fun k => 0 <= k < 64) l ->
  strip_padding (map sextet_char l ++ padding n) = map sextet_char l.
Proof.
  intros Hl. unfold strip_padding.
  assert (Hlast : forall c r, rev (map sextet_char l) = c :: r ->
                              is_pad c = false).
  { intros c r Hrev.
    assert (Hin : In c (map sextet_char l))
      by (apply in_rev; rewrite Hrev; now left).
    apply in_map_iff in Hin. destruct Hin as (k & <- & Hk).
    rewrite Forall_forall in Hl. now apply sextet_char_decodes, Hl. }
  rewrite rev_app_distr.
  unfold padding. destruct (n mod 3)%nat as [|[|k]]; cbn [rev app].
  - rewrite app_nil_r.
    destruct (rev (map sextet_char l)) as [|p [|q r]] eqn:Hrev;
      [reflexivity| |]; now rewrite (Hlast _ _ eq_refl).
  - change (is_pad "="%char) with true. cbn iota.
    now rewrite rev_involutive.
  - change (is_pad "="%char) with true.
    destruct (rev (map sextet_char l)) as [|q r] eqn:Hrev.
    + cbn iota. apply (f_equal (@rev ascii)) in Hrev.
      rewrite rev_involutive in Hrev. now rewrite Hrev.
    + rewrite (Hlast _ _ eq_refl). cbn iota.
      apply (f_equal (@rev ascii)) in Hrev.
      rewrite rev_involutive in Hrev. now rewrite Hrev.
Qed.

(** What [btoa] writes, [atob] reads back. *)
Lemma atob_btoa bytes : atob (btoa bytes) = Some bytes.
Proof.
  unfold atob. rewrite btoa_sextets. cbv zeta.
  pose proof (to_sextets_range bytes) as Hrange.
  destruct (to_sextets_length bytes) as (Hfour & Hone).
  rewrite (chars_kept _ _ Hrange (padding_is_pad _)).
  rewrite length_app, length_map, Hfour. cbn [Nat.eqb].
  rewrite (strip_padding_of _ _ Hrange), length_map.
  apply Nat.eqb_neq in Hone. rewrite Hone.
  rewrite (sextets_of_chars _ Hrange). cbn [option_map]. f_equal.
  apply decode_to_sextets.
Qed.

(** ** Well-formed text is decoded as it is *)

Lemma decode_well_formed :
  forall n bs, (List.length bs <= n)%nat -> well_formed bs = true ->
               utf8_decode_from [] 0 0x80 0xBF bs = bs.
Proof.
  induction n as [|n IH]; intros bs Hlen Hwf.
  - destruct bs; [reflexivity|cbn in Hlen; lia].
  - destruct bs as [|b rest]; [reflexivity|].
    cbn [List.length] in Hlen. cbn [well_formed] in Hwf.
    cbn [utf8_decode_from].
    destruct (byte_val b <=? 127) eqn:Hascii.
    { f_equal. apply IH; [lia|exact Hwf]. }
    destruct (utf8_lead b) as [[[k lo] hi]|]; [|discriminate].
    destruct k as [|[|[|[|k]]]]; try discriminate.
    + destruct rest as [|b2 r2]; [discriminate|].
      apply andb_prop in Hwf. destruct Hwf as (H2 & Hwf).
      cbn [utf8_decode_from]. rewrite H2. cbn [app]. do 2 f_equal.
      apply IH; [cbn [List.length] in Hlen; lia|exact Hwf].
    + destruct rest as [|b2 [|b3 r3]]; try discriminate.
      apply andb_prop in Hwf. destruct Hwf as (Hwf' & Hwf).
      apply andb_prop in Hwf'. destruct Hwf' as (H2 & H3).
      cbn [utf8_decode_from]. rewrite H2. cbn [app utf8_decode_from].
      rewrite H3. cbn [app]. do 3 f_equal.
      apply IH; [cbn [List.length] in Hlen; lia|exact Hwf].
    + destruct rest as [|b2 [|b3 [|b4 r4]]]; try discriminate.
      apply andb_prop in Hwf. destruct Hwf as (Hwf' & Hwf).
      apply andb_prop in Hwf'. destruct Hwf' as (Hwf'' & H4).
      apply andb_prop in Hwf''. destruct Hwf'' as (H2 & H3).
      cbn [utf8_decode_from]. rewrite H2. cbn [app utf8_decode_from].
      rewrite H3. cbn [app utf8_decode_from]. rewrite H4. cbn [app].
      do 4 f_equal.
      apply IH; [cbn [List.length] in Hlen; lia|exact Hwf].
Qed.

Lemma without_mark_well_formed bs :
  well_formed bs = true -> well_formed (without_mark bs) = true.
Proof.
  intros Hwf. unfold without_mark.
  destruct bs as [|b1 [|b2 [|b3 rest]]]; try exact Hwf.
  all: destruct b1; try exact Hwf.
  all: destruct b2; try exact Hwf.
  all: destruct b3; exact Hwf.
Qed.

(** [TextDecoder] returns well-formed text as it is, except for a byte
    order mark at its head, which it drops. *)
Lemma TextDecoder_well_formed bs :
  well_formed bs = true ->
  TextDecoder_decode bs = string_of_list_byte (without_mark bs).
Proof.
  intros Hwf. unfold TextDecoder_decode.
  change (match bs with
          | (xef :: xbb :: xbf :: rest)%byte => rest
          | _ => bs
          end) with (without_mark bs).
  f_equal. apply (decode_well_formed (List.length (without_mark bs)));
    [lia|now apply without_mark_well_formed].
Qed.

(** ** Trimmed text has no byte order mark at its head *)

Lemma after_space_shorter s r :
  after_space s = Some r -> (String.length r < String.length s)%nat.
Proof.
  unfold after_space. destruct s as [|a [|b [|c r3]]]; try discriminate.
  - destruct (_ || _); [|discriminate]. intros [= <-]. cbn. lia.
  - destruct (_ || _); [intros [= <-]; cbn; lia|].
    destruct (_ && _); [|discriminate]. intros [= <-]. cbn. lia.
  - destruct (_ || _); [intros [= <-]; cbn; lia|].
    destruct (_ && _); [intros [= <-]; cbn; lia|].
    destruct (three_byte_space _ _ _); [|discriminate].
    intros [= <-]. cbn. lia.
Qed.

Lemma drop_spaces_done :
  forall fuel s, (String.length s <= fuel)%nat ->
                 after_space (drop_spaces fuel s) = None.
Proof.
  induction fuel as [|fuel IH]; intros s Hs; cbn [drop_spaces].
  - destruct s; [reflexivity|cbn in Hs; lia].
  - destruct (after_space s) as [r|] eqn:Hr; [|exact Hr].
    apply IH. apply after_space_shorter in Hr. lia.
Qed.

Lemma trimEnd_prefix t : exists rest, t = (trimEnd t ++ rest)%string.
Proof.
  induction t as [|c r (rest & IH)]; [now exists ""|]. cbn [trimEnd].
  destruct (String.eqb _ ""); [now exists (String c r)|].
  exists rest. cbn [String.append]. now rewrite <- IH.
Qed.

Lemma after_space_append u v r :
  after_space u = Some r -> after_space (u ++ v)%string = Some (r ++ v)%string.
Proof.
  unfold after_space. destruct u as [|a [|b [|c r3]]]; try discriminate;
    cbn [String.append].
  - destruct (_ || _); [|discriminate]. now intros [= <-].
  - destruct (_ || _); [now intros [= <-]|].
    destruct (_ && _); [|discriminate]. now intros [= <-].
  - destruct (_ || _); [now intros [= <-]|].
    destruct (_ && _); [now intros [= <-]|].
    destruct (three_byte_space _ _ _); [|discriminate]. now intros [= <-].
Qed.

Lemma after_space_trim s : after_space (trim s) = None.
Proof.
  unfold trim.
  destruct (trimEnd_prefix (trimStart s)) as (rest & Hrest).
  destruct (after_space (trimEnd (trimStart s))) as [r|] eqn:Hr;
    [|reflexivity].
  apply (after_space_append _ rest) in Hr. rewrite <- Hrest in Hr.
  unfold trimStart in Hr. rewrite drop_spaces_done in Hr by lia.
  discriminate.
Qed.

Lemma trimmed_without_mark s :
  without_mark (TextEncoder_encode (trim s)) = TextEncoder_encode (trim s).
Proof.
  pose proof (after_space_trim s) as Hnone.
  unfold TextEncoder_encode. destruct (trim s) as [|a [|b [|c r]]];
    try reflexivity.
  - cbn. now destruct (byte_of_ascii a).
  - cbn. destruct (byte_of_ascii a); try reflexivity.
    now destruct (byte_of_ascii b).
  - change (list_byte_of_string (String a (String b (String c r))))
      with (byte_of_ascii a :: byte_of_ascii b :: byte_of_ascii c
              :: list_byte_of_string r).
    unfold without_mark.
    destruct (byte_of_ascii a) eqn:Ha; try reflexivity.
    destruct (byte_of_ascii b) eqn:Hb; try reflexivity.
    destruct (byte_of_ascii c) eqn:Hc; try reflexivity.
    exfalso.
    apply (f_equal ascii_of_byte) in Ha, Hb, Hc.
    rewrite ascii_of_byte_of_ascii in Ha, Hb, Hc. subst a b c.
    discriminate Hnone.
Qed.

(** ** The round trip *)

Lemma substring_all s : String.substring 0 (String.length s) s = s.
Proof.
  induction s as [|c r IH]; [reflexivity|].
  cbn [String.length String.substring]. now rewrite IH.
Qed.

Lemma restoreFromHash_content b64 :
  restoreFromHash ("content=" ++ b64)%string = decodeAndDecompress b64.
Proof.
  unfold restoreFromHash, starts_with.
  replace (String.prefix "content=" ("content=" ++ b64)%string) with true
    by (cbn; now destruct b64).
  cbn [String.eqb String.append Ascii.eqb Bool.eqb String.length Nat.sub
       String.substring].
  now rewrite Nat.sub_0_r, substring_all.
Qed.

Lemma decodeAndDecompress_encoded text :
  well_formed (TextEncoder_encode text) = true ->
  decodeAndDecompress (compressAndEncode text)
  = Some (string_of_list_byte (without_mark (TextEncoder_encode text))).
Proof.
  intros Hwf.
  unfold decodeAndDecompress, compressAndEncode, base64ToUint8, uint8ToBase64.
  rewrite list_ascii_of_string_of_list_ascii, atob_btoa. cbn [option_map].
  now rewrite TextDecoder_well_formed.
Qed.

(** What is written into the URL is read back from it: for a text
    without lone surrogates, decoding the encoded text gives the text
    again, except that a byte order mark at its head is lost. *)
Theorem url_content_round_trip (text : string) :
  well_formed (TextEncoder_encode text) = true ->
  decodeAndDecompress (compressAndEncode text)
  = Some (string_of_list_byte (without_mark (TextEncoder_encode text)))
  /\ (without_mark (TextEncoder_encode text) = TextEncoder_encode text ->
      decodeAndDecompress (compressAndEncode text) = Some text)
  /\ restoreFromHash ("content=" ++ compressAndEncode text)%string
     = decodeAndDecompress (compressAndEncode text).
Proof.
  intros Hwf. rewrite (decodeAndDecompress_encoded text Hwf).
  split; [reflexivity|]. split.
  - intros ->. unfold TextEncoder_encode.
    now rewrite string_of_list_byte_of_string.
  - rewrite restoreFromHash_content. now apply decodeAndDecompress_encoded.
Qed.

Lemma url_content_round_trip_witness :
  decodeAndDecompress (compressAndEncode "main = 1") = Some "main = 1".
Proof.
  destruct (url_content_round_trip "main = 1" eq_refl) as (_ & Hsame & _).
  apply Hsame. reflexivity.
Defined.

(** The link made by "share link" restores the content it was made
    from: for a document whose trimmed content is not empty (and has no
    lone surrogates), [copyShareLink] makes a link from which
    [restoreFromHash] sets exactly the trimmed content; for a document
    of white space only no link is made. *)
Theorem share_link_restores_content (documentContent : string) :
  well_formed (TextEncoder_encode (trim documentContent)) = true ->
  (trim documentContent = "" -> copyShareLink documentContent = None)
  /\ (trim documentContent <> "" ->
      exists hash,
        copyShareLink documentContent = Some hash
        /\ restoreFromHash hash = Some (trim documentContent)).
Proof.
  intros Hwf. unfold copyShareLink. cbv zeta. split.
  - intros ->. reflexivity.
  - intros Hcontent. apply String.eqb_neq in Hcontent. rewrite Hcontent.
    eexists. split; [reflexivity|].
    rewrite restoreFromHash_content, (decodeAndDecompress_encoded _ Hwf).
    rewrite trimmed_without_mark. unfold TextEncoder_encode.
    now rewrite string_of_list_byte_of_string.
Qed.

Lemma share_link_restores_content_witness :
  exists hash,
    copyShareLink "  main = 1  " = Some hash
    /\ restoreFromHash hash = Some (trim "  main = 1  ").
Proof.
  destruct (share_link_restores_content "  main = 1  " eq_refl)
    as (_ & Hlink).
  apply Hlink. discriminate.
Defined.

(** * Properties of the earlier bridge *)

Lemma direct_finally e mp rp len pending s :
  exists j,
    Direct.calls (snd (Direct.finally_block e mp rp len pending s))
    = Direct.calls s
      ++ map Direct.release
           (firstn j
              ((if Direct.is_set mp then [(Direct.pointer mp, len)] else [])
               ++ (if Direct.is_set rp
                   then [(Direct.pointer rp, Direct.responseBufferSize)]
                   else [])))
    /\ (Direct.releases_return e ->
        (2 <= j)%nat
        /\ fst (Direct.finally_block e mp rp len pending s) = pending).
Proof.
  unfold Direct.finally_block, Direct.call, Direct.releases_return.
  destruct (Direct.is_set mp), (Direct.is_set rp); cbn [app].
  - destruct (Direct.respond e (Direct.calls s) _) eqn:H1.
    + destruct (Direct.respond e (Direct.calls (Direct.record_call _ s)) _)
        eqn:H2; exists 2%nat; cbn [snd fst Direct.calls Direct.record_call
                                    firstn map Direct.release];
        rewrite <- app_assoc; (split; [reflexivity|]); intros Hrel;
        [now split|now apply Hrel in H2].
    + exists 1%nat. cbn. split; [reflexivity|]. intros Hrel.
      now apply Hrel in H1.
  - destruct (Direct.respond e (Direct.calls s) _) eqn:H1;
      exists 2%nat; cbn; (split; [reflexivity|]); intros Hrel;
      [now split|now apply Hrel in H1].
  - destruct (Direct.respond e (Direct.calls s) _) eqn:H1;
      exists 2%nat; cbn; (split; [reflexivity|]); intros Hrel;
      [now split|now apply Hrel in H1].
  - exists 2%nat. cbn. rewrite app_nil_r. split; [reflexivity|]. now split.
Qed.

Lemma direct_try e m s c mp rp s1 :
  Direct.try_block e m s = (c, mp, rp, s1) ->
  exists work,
    Direct.calls s1 = Direct.calls s ++ work
    /\ Direct.released work = []
    /\ Direct.reserved e (Direct.calls s) work
       = Direct.held mp rp (Z.of_nat (List.length
                                 (TextEncoder_encode (Direct.JSON_stringify m)))).
Proof.
  unfold Direct.try_block, Direct.call, Direct.store, Direct.held. cbv zeta.
  set (bytes := TextEncoder_encode (Direct.JSON_stringify m)).
  set (len := Z.of_nat (List.length bytes)).
  destruct (Direct.respond e (Direct.calls s) (Direct.allocate len))
    as [p|] eqn:H1.
  2:{ intros [= <- <- <- <-]. exists [Direct.allocate len].
      cbn [Direct.calls Direct.record_call Direct.released Direct.reserved
           Direct.is_set app].
      rewrite H1. auto. }
  destruct (p =? 0) eqn:Hp.
  { intros [= <- <- <- <-]. exists [Direct.allocate len].
    cbn [Direct.calls Direct.record_call Direct.released Direct.reserved
         Direct.is_set app negb].
    rewrite H1, Hp. auto. }
  assert (Hfirst : forall c0 s0,
             (c0, Some p, @None Z, Direct.record_call (Direct.allocate len) s)
             = (c, mp, rp, s0) -> s0 = s1 ->
             exists work,
               Direct.calls s1 = Direct.calls s ++ work
               /\ Direct.released work = []
               /\ Direct.reserved e (Direct.calls s) work
                  = (if Direct.is_set mp then [(Direct.pointer mp, len)] else [])
                    ++ (if Direct.is_set rp
                        then [(Direct.pointer rp, Direct.responseBufferSize)]
                        else [])).
  { intros c0 s0 [= _ <- <- <-] <-. exists [Direct.allocate len].
    cbn [Direct.calls Direct.record_call Direct.released Direct.reserved
         Direct.is_set Direct.pointer app negb].
    rewrite H1, Hp. auto. }
  cbn [Direct.wasmMemory Direct.record_call].
  destruct (Direct.wasmMemory s) as [mem|];
    [|intros H; eapply Hfirst; [exact H|reflexivity]].
  destruct (_ || _); [intros H; eapply Hfirst; [exact H|reflexivity]|].
  clear Hfirst.
  cbn [Direct.calls Direct.record_call].
  destruct (Direct.respond e _ (Direct.allocate Direct.responseBufferSize))
    as [q|] eqn:H2.
  2:{ intros [= <- <- <- <-].
      exists [Direct.allocate len; Direct.memory_set bytes p;
              Direct.allocate Direct.responseBufferSize].
      cbn [Direct.calls Direct.record_call Direct.released Direct.reserved
           Direct.is_set Direct.pointer app negb].
      rewrite H1, Hp, H2, <- !app_assoc. auto. }
  assert (Hboth : forall c0 s0 tail,
             (c0, Some p, Some q, s0) = (c, mp, rp, s1) ->
             Direct.calls s0
             = ((Direct.calls s ++ [Direct.allocate len])
                  ++ [Direct.memory_set bytes p])
                 ++ Direct.allocate Direct.responseBufferSize :: tail ->
             Direct.released tail = [] ->
             Direct.reserved
               e (((Direct.calls s ++ [Direct.allocate len])
                     ++ [Direct.memory_set bytes p])
                    ++ [Direct.allocate Direct.responseBufferSize]) tail = [] ->
             exists work,
               Direct.calls s1 = Direct.calls s ++ work
               /\ Direct.released work = []
               /\ Direct.reserved e (Direct.calls s) work
                  = (if Direct.is_set mp then [(Direct.pointer mp, len)] else [])
                    ++ (if Direct.is_set rp
                        then [(Direct.pointer rp, Direct.responseBufferSize)]
                        else [])).
  { intros c0 s0 tail [= _ <- <- <-] Hcalls Hrel Hres.
    exists (Direct.allocate len :: Direct.memory_set bytes p
            :: Direct.allocate Direct.responseBufferSize :: tail).
    rewrite Hcalls, <- !app_assoc.
    cbn [Direct.released Direct.reserved Direct.is_set Direct.pointer app negb].
    rewrite H1, Hp, H2, Hres, Hrel.
    destruct (q =? 0); auto. }
  destruct (q =? 0) eqn:Hq.
  { intros H. eapply (Hboth _ _ []); [exact H| | |]; reflexivity. }
  set (entry := Direct.processMessage p len q Direct.responseBufferSize).
  assert (Hentry : forall c0,
             (c0, Some p, Some q,
              Direct.record_call
                entry
                (Direct.record_call
                   (Direct.allocate Direct.responseBufferSize)
                   (Direct.record_call
                      (Direct.memory_set bytes p)
                      (Direct.record_call (Direct.allocate len) s))))
             = (c, mp, rp, s1) ->
             exists work,
               Direct.calls s1 = Direct.calls s ++ work
               /\ Direct.released work = []
               /\ Direct.reserved e (Direct.calls s) work
                  = (if Direct.is_set mp then [(Direct.pointer mp, len)] else [])
                    ++ (if Direct.is_set rp
                        then [(Direct.pointer rp, Direct.responseBufferSize)]
                        else [])).
  { intros c0 H. eapply (Hboth _ _ [entry]); [exact H| | |].
    - cbn [Direct.calls Direct.record_call]. now rewrite <- (app_assoc _ [_] [_]).
    - reflexivity.
    - reflexivity. }
  destruct (Direct.respond e _ entry) as [n|]; [|apply Hentry].
  destruct (n =? 0); [apply Hentry|].
  destruct (view _ q n); apply Hentry.
Qed.

(** Whatever the module does, one direct call first makes calls that
    release nothing and then hands to [deallocate] buffers it has
    itself reserved in this call, each with the pointer [allocate]
    returned and the size it was asked for, the request before the
    response, none twice; a reservation that returned 0 is not released.
    When [deallocate] does not trap every buffer reserved in the call is
    released. *)
Theorem direct_releases_what_it_reserved
        (e : Direct.WasmExports) (m : Direct.WasmMessage) (s : Direct.Bridge) :
  Direct.wasmModule s = Some e ->
  exists work j,
    Direct.calls (snd (Direct.sendMessageDirect m s))
    = Direct.calls s
      ++ work
      ++ map Direct.release
           (firstn j (Direct.reserved e (Direct.calls s) work))
    /\ Direct.released work = []
    /\ (Direct.releases_return e ->
        (List.length (Direct.reserved e (Direct.calls s) work) <= j)%nat).
Proof.
  intros Hmod. unfold Direct.sendMessageDirect. rewrite Hmod. cbv zeta.
  destruct (Direct.try_block e m s) as [[[tried mp] rp] s1] eqn:Htry.
  destruct (direct_try _ _ _ _ _ _ _ Htry) as (work & Hwork & Hnone & Hheld).
  set (len := Z.of_nat (List.length
                          (TextEncoder_encode (Direct.JSON_stringify m)))) in *.
  destruct (direct_finally e mp rp len tried s1) as (j & Hcalls & Hall).
  exists work, j. rewrite Hcalls, Hwork, Hheld, <- app_assoc.
  split; [reflexivity|]. split; [exact Hnone|].
  intros Hrel. destruct (Hall Hrel) as (Hj & _).
  unfold Direct.held. destruct (Direct.is_set mp), (Direct.is_set rp); cbn; lia.
Qed.

Lemma direct_releases_what_it_reserved_witness :
  let e := Direct.answering 2 Direct.sample_memory in
  exists work j,
    Direct.calls (snd (Direct.sendMessageDirect Direct.init_message
                                                (Direct.loaded e)))
    = Direct.calls (Direct.loaded e)
      ++ work
      ++ map Direct.release
           (firstn j (Direct.reserved e (Direct.calls (Direct.loaded e)) work))
    /\ Direct.released work = []
    /\ (Direct.releases_return e ->
        (List.length (Direct.reserved e (Direct.calls (Direct.loaded e)) work)
         <= j)%nat).
Proof.
  exact (direct_releases_what_it_reserved
           (Direct.answering 2 Direct.sample_memory) Direct.init_message
           (Direct.loaded (Direct.answering 2 Direct.sample_memory)) eq_refl).
Defined.

(** ** What the earlier bridge returns *)

(** A text of white space only is no JSON text. *)
Lemma parse_value_after_ws f a r :
  is_ws a = true -> parse_value (S f) (String a r) = parse_value (S f) r.
Proof. intros Hws. cbn [parse_value skip_ws]. now rewrite Hws. Qed.

Lemma parse_value_no_start f a r :
  Z_of_ascii a = 11 \/ Z_of_ascii a = 12 \/ 0x80 <= Z_of_ascii a ->
  parse_value (S f) (String a r) = None.
Proof.
  intros Hx. cbn [parse_value skip_ws].
  unfold is_ws, parse_number, digit_val. cbv zeta.
  repeat (match goal with
          | |- context [Z_of_ascii a =? ?k] =>
              destruct (Z.eqb_spec (Z_of_ascii a) k); [exfalso; lia|]
          end; cbn [orb]).
  destruct (Z.leb_spec 48 (Z_of_ascii a)), (Z.leb_spec (Z_of_ascii a) 57);
    try (exfalso; lia); reflexivity.
Qed.

Lemma after_space_head a r rest :
  after_space (String a r) = Some rest ->
  (is_ws a = true /\ rest = r)
  \/ Z_of_ascii a = 11 \/ Z_of_ascii a = 12 \/ 0x80 <= Z_of_ascii a.
Proof.
  unfold after_space, is_ws. cbv zeta.
  remember (Z_of_ascii a) as x eqn:Hx.
  destruct ((x =? 9) || (x =? 10) || (x =? 11) || (x =? 12) || (x =? 13)
            || (x =? 32)) eqn:Hcase.
  - intros [= <-]. rewrite !orb_true_iff, !Z.eqb_eq in Hcase.
    destruct (Z.eq_dec x 11); [auto|]. destruct (Z.eq_dec x 12); [auto|].
    left. split; [|reflexivity]. rewrite !orb_true_iff, !Z.eqb_eq. lia.
  - destruct r as [|b r2]; [discriminate|].
    destruct ((x =? 0xC2) && _) eqn:Hnb.
    + apply andb_true_iff in Hnb. destruct Hnb as (Hnb & _).
      apply Z.eqb_eq in Hnb. intros _. right. right. right. lia.
    + destruct r2 as [|c r3]; [discriminate|].
      destruct (three_byte_space _ _ _) eqn:Hthree; [|discriminate].
      intros _. right. right. right.
      unfold three_byte_space in Hthree.
      rewrite !orb_true_iff, !andb_true_iff, !Z.eqb_eq in Hthree. lia.
Qed.

Lemma blank_not_JSON :
  forall fuel s, drop_spaces fuel s = "" -> forall f, parse_value f s = None.
Proof.
  induction fuel as [|fuel IH]; intros s Hs f; cbn [drop_spaces] in Hs.
  - subst s. now destruct f.
  - destruct (after_space s) as [r|] eqn:Hr; [|subst s; now destruct f].
    specialize (IH r Hs).
    destruct f as [|f]; [reflexivity|].
    destruct s as [|a s']; [discriminate|].
    destruct (after_space_head _ _ _ Hr) as [(Hws & ->)|Hx].
    + rewrite (parse_value_after_ws _ _ _ Hws). apply IH.
    + now apply parse_value_no_start.
Qed.

Lemma trim_blank s : trim s = "" -> trimStart s = "".
Proof.
  unfold trim. destruct (trimStart s) as [|a r] eqn:Ht; [reflexivity|].
  cbn [trimEnd]. destruct (String.eqb (trimStart (String a r)) "") eqn:Hb;
    [|discriminate].
  intros _. apply String.eqb_eq in Hb.
  assert (Hnone : after_space (String a r) = None).
  { rewrite <- Ht. unfold trimStart. apply drop_spaces_done. lia. }
  unfold trimStart in Hb. cbn [String.length drop_spaces] in Hb.
  now rewrite Hnone in Hb.
Qed.

Lemma JSON_parse_blank s : trim s = "" -> JSON_parse s = None.
Proof.
  intros Hblank. apply trim_blank in Hblank. unfold JSON_parse.
  now rewrite (blank_not_JSON _ _ Hblank).
Qed.

Lemma read_response_cases bytes :
  let text := TextDecoder_decode bytes in
  (forall v, Direct.read_response bytes = Return v <-> JSON_parse text = Some v)
  /\ (JSON_parse text = None ->
      Direct.read_response bytes
      = Throw (Error (if String.eqb (trim text) ""
                      then Direct.empty_response_string
                      else Direct.invalid_json text))).
Proof.
  cbv zeta. unfold Direct.read_response.
  destruct (String.eqb (trim (TextDecoder_decode bytes)) "") eqn:Hblank.
  - apply String.eqb_eq, JSON_parse_blank in Hblank. rewrite Hblank.
    split; [|reflexivity]. intros v. split; discriminate.
  - destruct (JSON_parse (TextDecoder_decode bytes)) as [parsed|].
    + split; [|discriminate]. intros v. split; intros [= <-]; reflexivity.
    + split; [|reflexivity]. intros v. split; discriminate.
Qed.

(** The request is answered: both reservations return a pointer that
    is not 0, the request fits into the memory at the first, the entry
    point returns a length [n] that is not 0, the [n] bytes at the
    second pointer lie inside the memory, and [deallocate] does not
    trap.  Then the call returns exactly when these bytes are a JSON
    text, and returns its value: a text of white space only is no JSON
    text, so the test for it decides only which error is thrown.  In
    each case the calls made are those of the request and then the
    release of the request and of the response buffer. *)
Theorem direct_returns_parsed_response
        (e : Direct.WasmExports) (mem : Direct.Memory)
        (m : Direct.WasmMessage) (s : Direct.Bridge)
        (mp rp n : Z) (bytes : list byte) :
  let len := Z.of_nat (List.length (Direct.encoded m)) in
  let before k := Direct.calls s ++ firstn k (Direct.request m mp rp) in
  Direct.wasmModule s = Some e ->
  Direct.wasmMemory s = Some mem ->
  Direct.respond e (before 0%nat) (Direct.allocate len) = Returns mp ->
  mp <> 0 ->
  0 <= mp /\ mp + len <= Z.of_nat (List.length (mem (before 1%nat))) ->
  Direct.respond e (before 2%nat) (Direct.allocate Direct.responseBufferSize)
  = Returns rp ->
  rp <> 0 ->
  Direct.respond e (before 3%nat)
                 (Direct.processMessage mp len rp Direct.responseBufferSize)
  = Returns n ->
  n <> 0 ->
  view (mem (before 4%nat)) rp n = Some bytes ->
  Direct.releases_return e ->
  let sent := Direct.sendMessageDirect m s in
  let text := TextDecoder_decode bytes in
  Direct.calls (snd sent)
  = Direct.calls s ++ Direct.request m mp rp
    ++ [Direct.deallocate mp len;
        Direct.deallocate rp Direct.responseBufferSize]
  /\ (forall v, fst sent = Return v <-> JSON_parse text = Some v)
  /\ (JSON_parse text = None ->
      fst sent
      = Throw (Error (if String.eqb (trim text) ""
                      then Direct.empty_response_string
                      else Direct.invalid_json text))).
Proof.
  intros len before Hmod Hmem Hmp Hmp0 Hfits Hrp Hrp0 Hn Hn0 Hview Hrel
         sent text.
  assert (Hsent : sent
                  = (Direct.read_response bytes,
                     {| Direct.wasmModule := Direct.wasmModule s;
                        Direct.wasmMemory := Direct.wasmMemory s;
                        Direct.calls :=
                          Direct.calls s ++ Direct.request m mp rp
                          ++ [Direct.deallocate mp len;
                              Direct.deallocate rp Direct.responseBufferSize]
                     |})).
  { subst sent before text. unfold Direct.request, Direct.encoded in *.
    cbn [firstn] in *. subst len. rewrite app_nil_r in Hmp.
    unfold Direct.sendMessageDirect. rewrite Hmod.
    unfold Direct.try_block, Direct.call, Direct.store. cbv zeta.
    rewrite Hmp. apply Z.eqb_neq in Hmp0. rewrite Hmp0.
    cbn [Direct.wasmMemory Direct.record_call Direct.calls]. rewrite Hmem.
    replace ((mp <? 0) || _) with false
      by (symmetry; apply orb_false_iff; rewrite !Z.ltb_ge; lia).
    cbn [Direct.calls Direct.record_call].
    rewrite <- !app_assoc. cbn [app].
    rewrite Hrp. apply Z.eqb_neq in Hrp0. rewrite Hrp0.
    rewrite Hn. apply Z.eqb_neq in Hn0. rewrite Hn0.
    cbn [Direct.calls Direct.record_call].
    rewrite <- !app_assoc. cbn [app].
    rewrite Hview.
    unfold Direct.finally_block, Direct.call.
    cbn [Direct.is_set Direct.pointer]. rewrite Hmp0, Hrp0. cbn [negb].
    destruct (Direct.respond e _ (Direct.deallocate mp _)) eqn:H1;
      [|now apply Hrel in H1].
    destruct (Direct.respond e _ (Direct.deallocate rp _)) eqn:H2;
      [|now apply Hrel in H2].
    unfold Direct.record_call.
    cbn [Direct.calls Direct.wasmModule Direct.wasmMemory].
    rewrite ?Hmod, ?Hmem, <- !app_assoc. reflexivity. }
  rewrite Hsent. cbn [fst snd Direct.calls].
  split; [reflexivity|]. apply read_response_cases.
Qed.

Lemma direct_returns_parsed_response_witness :
  fst (Direct.sendMessageDirect
         Direct.init_message
         (Direct.loaded (Direct.answering 2 Direct.sample_memory)))
  = Return (JObj []).
Proof.
  assert (Hrel : Direct.releases_return
                   (Direct.answering 2 Direct.sample_memory))
    by (intros before ptr size; discriminate).
  destruct (direct_returns_parsed_response
              (Direct.answering 2 Direct.sample_memory) Direct.sample_memory
              Direct.init_message
              (Direct.loaded (Direct.answering 2 Direct.sample_memory))
              8 64 2 (TextEncoder_encode "{}")) as (_ & Hreturn & _);
    [reflexivity|reflexivity|reflexivity|discriminate
    |vm_compute; split; discriminate
    |reflexivity|discriminate|reflexivity|discriminate|reflexivity
    |exact Hrel|].
  apply Hreturn. reflexivity.
Defined.
